(** * Lux Aeternum: effect dispatch, light routing and the Govee adapter

    A shallow embedding of the TypeScript sources

    - [src/interfaces/device.interface.ts], [src/interfaces/adapter.interface.ts]
    - [src/govee/govee-adapter.ts]   (class [GoveeAdapter])
    - [src/light-manager.ts]         (class [LightManager])
    - [src/gamedin/gamedin-adapter.ts] (class [GameDinAdapter])
    - [src/services/sync/profile-sync.service.ts] (class [ProfileSyncService])
    - [src/libs/models/env-profile.model.ts] ([fromDivinaProfile])

    Conventions of the embedding.

    - A JavaScript [number] that the data model declares an integer
      (brightness, priority, duration, colour channels) is a [Z]; fractions,
      NaN and the infinities are outside the model.
    - An optional field [f?: T] is an [option T]; [undefined] is [None].
    - A [Map<string, V>] that is only looked up, set and deleted is a
      [gmap string V]; the adapter map of the light manager, whose iteration
      order matters, is an association list in insertion order.
    - An [async] method is a state transformer returning a [Result]: [Ok v]
      for a fulfilled promise, [Throw e] for a rejected one; what rejects
      is an [Error] object.  Such a transformer takes the call from its
      beginning to its end with nothing in between.  Where it matters what
      else runs while a call waits at an [await], the call is taken apart
      at its [await]s: the dispatcher ([GameDinAdapter]) has, next to its
      methods as transformers, a semantics of calls in flight, under which
      calls of [handleEvent] and callbacks of timers overlap in every way
      the event loop allows, and [ProfileSyncService], whose guard flag is
      about exactly that, has a small-step semantics.  The adapters and
      the light manager are only modelled call by call.
    - [setTimeout]/[clearTimeout] act on an explicit list of pending timers.
    - Logger calls are kept as log lines in the light manager, the
      dispatcher and the sync service.  The Govee adapter's logger calls are
      left out: they have no influence on its control flow. *)

From stdpp Require Import gmap strings list fin_maps pretty.
From Stdlib Require Import ZArith Lia Strings.Ascii Sorting.Sorted.

Local Open Scope string_scope.
Local Open Scope Z_scope.

(* ===================================================================== *)
(** * Shared interfaces ([device.interface.ts], [adapter.interface.ts])   *)
(* ===================================================================== *)

(** [IDevice].  The free-form [metadata] bag is left out. *)
Record IDevice := {
  d_id : string;
  d_name : string;
  d_type : string;
  d_brand : string;
  d_model : string;
  d_address : string;
  d_isOn : bool;
  d_brightness : option Z;
  d_color : option string;
  d_isReachable : bool;
}.

(** [ILightCommand['type']] *)
Module CommandType.
Inductive t := turnOn | turnOff | setColor | setBrightness | custom.
End CommandType.

(** [ILightCommand['params']] *)
Record CommandParams := {
  p_color : option string;
  p_brightness : option Z;
  p_effect : option string;
}.

Definition noParams : CommandParams :=
  {| p_color := None; p_brightness := None; p_effect := None |}.

(** [ILightCommand] (the optional [timestamp] and [metadata] are left out). *)
Record ILightCommand := {
  c_type : CommandType.t;
  c_deviceId : string;
  c_params : CommandParams;
}.

(** [ILightEvent] *)
Record ILightEvent := {
  le_type : string;
  le_timestamp : Z;
}.

(** Thrown values: [AdapterError(message, code, {cause})] and plain [Error]. *)
Inductive Exn :=
| AdapterError (message code : string) (details : Details)
| Error (message : string)
with Details :=
| NoCause
| Cause (e : Exn).

(** Outcome of an awaited call. *)
Inductive Result (A : Type) :=
| Ok (a : A)
| Throw (e : Exn).
Arguments Ok {A} a.
Arguments Throw {A} e.

Definition isOk {A} (r : Result A) : bool :=
  match r with Ok _ => true | Throw _ => false end.

(** What [e instanceof Error ? e.message : 'Unknown error'] evaluates to. *)
Definition exnMessage (e : Exn) : string :=
  match e with
  | AdapterError m _ _ => m
  | Error m => m
  end.

Definition exnCode (e : Exn) : option string :=
  match e with
  | AdapterError _ c _ => Some c
  | Error _ => None
  end.

(** Log lines written through [Logger]. *)
Inductive LogLevel := LDebug | LInfo | LWarn | LError.
Definition LogLine : Type := LogLevel * string.

#[global] Instance LogLevel_eq_dec : EqDecision LogLevel.
Proof. solve_decision. Defined.

Definition isDebugLine (l : LogLine) : Prop := l.1 = LDebug.

#[global] Instance isDebugLine_dec l : Decision (isDebugLine l).
Proof. unfold isDebugLine. apply _. Defined.

(** [ILightAdapter]: an adapter object is the record of its methods, each a
    transformer of the store [S] that holds the adapters' private state.
    The methods are taken to be what the interface declares and the
    adapters of the repository are, [async] functions: a call returns a
    promise, which fulfils or rejects with an [Error] object ([Exn]).  A
    method that throws before it returns its promise, or rejects with a
    value that has no [message] ([null], [undefined]), is outside this
    interface. *)
Module Adapter.
Record ILightAdapter (S : Type) := {
  adapterType : string;   (* getConfig().type *)
  initialize : S -> Result unit * S;
  getDevices : S -> Result (list IDevice) * S;
  getDevice : string -> S -> Result (option IDevice) * S;
  executeCommand : ILightCommand -> S -> Result unit * S;
  handleEvent : ILightEvent -> S -> Result unit * S;
}.
Arguments adapterType {S} _.
Arguments initialize {S} _ _.
Arguments getDevices {S} _ _.
Arguments getDevice {S} _ _ _.
Arguments executeCommand {S} _ _ _.
Arguments handleEvent {S} _ _ _.
End Adapter.

(* ===================================================================== *)
(** * LightManager ([light-manager.ts])                                   *)
(* ===================================================================== *)

Module LightManager.
Section WithStore.
Context {S : Type}.

Record State := {
  adapters : list (string * Adapter.ILightAdapter S);
  isInitialized : bool;
  store : S;
  logs : list LogLine;
}.

Definition setStore (s : S) (st : State) : State :=
  {| adapters := adapters st; isInitialized := isInitialized st;
     store := s; logs := logs st |}.

Definition setInitialized (b : bool) (st : State) : State :=
  {| adapters := adapters st; isInitialized := b;
     store := store st; logs := logs st |}.

Definition log (lvl : LogLevel) (msg : string) (st : State) : State :=
  {| adapters := adapters st; isInitialized := isInitialized st;
     store := store st; logs := logs st ++ [(lvl, msg)] |}.

(** The body of [initialize]'s [map], [adapter.initialize().catch(log)],
    for the adapters in the order of the map; the calls that [Promise.all]
    awaits together are taken one after the other. *)
Fixpoint initializeAdapters (l : list (string * Adapter.ILightAdapter S))
    (st : State) : State :=
  match l with
  | [] => st
  | (_, a) :: rest =>
      let '(r, s') := Adapter.initialize a (store st) in
      let st' := setStore s' st in
      match r with
      | Ok _ => initializeAdapters rest st'
      | Throw e =>
          initializeAdapters rest
            (log LError ("Failed to initialize adapter: " ++ exnMessage e) st')
      end
  end.

(** [initialize].  Each promise handed to [Promise.all] is
    [adapter.initialize().catch(handler)], and the handler only logs
    [error.message]: with adapters as [Adapter.ILightAdapter] describes
    them it does not throw, [Promise.all] does not reject, and the [catch]
    block around it, which would log and rethrow, is not entered.  The
    result is therefore [Ok] in both branches. *)
Definition initialize (st : State) : Result unit * State :=
  if isInitialized st then
    (Ok tt, log LWarn "LightManager already initialized" st)
  else
    let st1 := log LInfo "Initializing LightManager..." st in
    let st2 := initializeAdapters (adapters st1) st1 in
    (Ok tt, log LInfo "LightManager initialized successfully"
              (setInitialized true st2)).

(** The lines [initialize] logs for the adapters that reject, the
    adapters being run in the order of the map, each on the store the one
    before left. *)
Fixpoint initializeFailures (l : list (string * Adapter.ILightAdapter S))
    (s : S) : list LogLine :=
  match l with
  | [] => []
  | (_, a) :: rest =>
      let '(r, s') := Adapter.initialize a s in
      match r with
      | Ok _ => initializeFailures rest s'
      | Throw e =>
          (LError, "Failed to initialize adapter: " ++ exnMessage e)
            :: initializeFailures rest s'
      end
  end.

Fixpoint getDevicesLoop (l : list (string * Adapter.ILightAdapter S))
    (allDevices : list IDevice) (st : State) : list IDevice * State :=
  match l with
  | [] => (allDevices, st)
  | (adapterId, a) :: rest =>
      let '(r, s') := Adapter.getDevices a (store st) in
      let st' := setStore s' st in
      match r with
      | Ok devices => getDevicesLoop rest (allDevices ++ devices) st'
      | Throw _ =>
          getDevicesLoop rest allDevices
            (log LError ("Failed to get devices from adapter " ++ adapterId) st')
      end
  end.

(** [getDevices]: never rejects, a failing adapter is logged and skipped. *)
Definition getDevices (st : State) : list IDevice * State :=
  getDevicesLoop (adapters st) [] st.

Fixpoint getDeviceLoop (l : list (string * Adapter.ILightAdapter S))
    (deviceId : string) (st : State) : option IDevice * State :=
  match l with
  | [] => (None, st)
  | (_, a) :: rest =>
      let '(r, s') := Adapter.getDevice a deviceId (store st) in
      let st' := setStore s' st in
      match r with
      | Ok (Some device) => (Some device, st')
      | Ok None => getDeviceLoop rest deviceId st'
      | Throw _ =>
          getDeviceLoop rest deviceId
            (log LDebug ("Device " ++ deviceId ++ " not found in adapter: "
                           ++ Adapter.adapterType a) st')
      end
  end.

Definition getDevice (deviceId : string) (st : State) : option IDevice * State :=
  getDeviceLoop (adapters st) deviceId st.

Definition notFoundError (deviceId : string) : Exn :=
  Error ("Device not found: " ++ deviceId).

Definition noAdapterError (deviceId : string) : Exn :=
  Error ("Failed to execute command on device " ++ deviceId
           ++ ": No adapter could handle the command").

(** The second loop of [executeCommand]. *)
Fixpoint executeLoop (l : list (string * Adapter.ILightAdapter S))
    (command : ILightCommand) (st : State) : Result unit * State :=
  match l with
  | [] => (Throw (noAdapterError (c_deviceId command)), st)
  | (_, a) :: rest =>
      let '(r, s') := Adapter.executeCommand a command (store st) in
      let st' := setStore s' st in
      match r with
      | Ok _ => (Ok tt, st')
      | Throw _ =>
          executeLoop rest command
            (log LDebug ("Command failed on adapter " ++ Adapter.adapterType a) st')
      end
  end.

Definition executeCommand (command : ILightCommand) (st : State)
    : Result unit * State :=
  let st1 := if isInitialized st then st else snd (initialize st) in
  let '(device, st2) := getDevice (c_deviceId command) st1 in
  match device with
  | None => (Throw (notFoundError (c_deviceId command)), st2)
  | Some _ => executeLoop (adapters st2) command st2
  end.

Definition setColorCmd (deviceId color : string) (st : State) :=
  executeCommand
    {| c_type := CommandType.setColor; c_deviceId := deviceId;
       c_params := {| p_color := Some color; p_brightness := None;
                      p_effect := None |} |} st.

Definition setBrightnessCmd (deviceId : string) (brightness : Z) (st : State) :=
  executeCommand
    {| c_type := CommandType.setBrightness; c_deviceId := deviceId;
       c_params := {| p_color := None; p_brightness := Some brightness;
                      p_effect := None |} |} st.

(** Every adapter of the list, asked in turn for the device, answered
    [null] or threw; the stores are those before the first and after the
    last call. *)
Inductive noneRecognizes (deviceId : string)
    : list (string * Adapter.ILightAdapter S) -> S -> S -> Prop :=
| noneRecognizes_nil s : noneRecognizes deviceId [] s s
| noneRecognizes_null name a rest s s1 s' :
    Adapter.getDevice a deviceId s = (Ok None, s1) ->
    noneRecognizes deviceId rest s1 s' ->
    noneRecognizes deviceId ((name, a) :: rest) s s'
| noneRecognizes_throw name a rest s s1 s' e :
    Adapter.getDevice a deviceId s = (Throw e, s1) ->
    noneRecognizes deviceId rest s1 s' ->
    noneRecognizes deviceId ((name, a) :: rest) s s'.

(** Every adapter of the list was handed the command, in turn, and threw. *)
Inductive allFailed (command : ILightCommand)
    : list (string * Adapter.ILightAdapter S) -> S -> S -> Prop :=
| allFailed_nil s : allFailed command [] s s
| allFailed_cons name a rest s s1 s' e :
    Adapter.executeCommand a command s = (Throw e, s1) ->
    allFailed command rest s1 s' ->
    allFailed command ((name, a) :: rest) s s'.

(** [addAdapter] with [config.options.id] given as [instanceId]; the
    fire-and-forget auto-initialisation is left to the caller. *)
Definition addAdapter (instanceId : string) (a : Adapter.ILightAdapter S)
    (st : State) : State :=
  let adapterId := Adapter.adapterType a ++ ":" ++ instanceId in
  if existsb (fun p => String.eqb (fst p) adapterId) (adapters st) then
    log LWarn ("Adapter with ID " ++ adapterId ++ " already exists") st
  else
    log LInfo ("Added adapter: " ++ adapterId)
      {| adapters := adapters st ++ [(adapterId, a)];
         isInitialized := isInitialized st;
         store := store st; logs := logs st |}.

(** [createLightManager]: no adapters yet; [s] holds the private state
    of the adapters that will be added. *)
Definition create (debug : bool) (s : S) : State :=
  let st := {| adapters := []; isInitialized := false; store := s; logs := [] |} in
  if debug then log LInfo "Debug logging enabled" st else st.

(** [addAdapter] as a whole: a new adapter is registered and, when
    [config.autoInitialize] is set and the manager is not initialised yet,
    [initialize] is started; for an id that is taken the method returns
    after the warning.  [addAdapter] does not wait for the initialisation
    it starts ([this.initialize().catch(...)] is not awaited); here the
    initialisation is taken to its end before the next call is made. *)
Definition addAdapterAndInitialize (autoInitialize : bool) (instanceId : string)
    (a : Adapter.ILightAdapter S) (st : State) : State :=
  let adapterId := Adapter.adapterType a ++ ":" ++ instanceId in
  if existsb (fun p => String.eqb (fst p) adapterId) (adapters st) then
    addAdapter instanceId a st
  else
    let st1 := addAdapter instanceId a st in
    if autoInitialize && negb (isInitialized st1) then snd (initialize st1)
    else st1.

(** The body of [handleEvent]'s [map],
    [adapter.handleEvent(event).catch(log)], for the adapters in the order
    of the map. *)
Fixpoint forwardEvent (l : list (string * Adapter.ILightAdapter S))
    (event : ILightEvent) (st : State) : State :=
  match l with
  | [] => st
  | (_, a) :: rest =>
      let '(r, s') := Adapter.handleEvent a event (store st) in
      let st' := setStore s' st in
      match r with
      | Ok _ => forwardEvent rest event st'
      | Throw e =>
          forwardEvent rest event
            (log LError ("Error handling event in adapter: " ++ exnMessage e) st')
      end
  end.

(** [handleEvent].  As in [initialize], the promises awaited together
    are [adapter.handleEvent(event).catch(handler)] with a handler that
    only logs, and [initialize] does not reject: the result is [Ok]. *)
Definition handleEvent (event : ILightEvent) (st : State) : Result unit * State :=
  let st1 := if isInitialized st then st else snd (initialize st) in
  let st2 := log LDebug ("Handling event: " ++ le_type event) st1 in
  (Ok tt, forwardEvent (adapters st2) event st2).

(** [turnOn], [turnOff] *)
Definition turnOn (deviceId : string) (st : State) :=
  executeCommand
    {| c_type := CommandType.turnOn; c_deviceId := deviceId;
       c_params := noParams |} st.

Definition turnOff (deviceId : string) (st : State) :=
  executeCommand
    {| c_type := CommandType.turnOff; c_deviceId := deviceId;
       c_params := noParams |} st.

(** ** Runs of the manager: calls of its public methods, in any order. *)
Inductive Op :=
| Initialize
| AddAdapter (instanceId : string) (a : Adapter.ILightAdapter S)
| GetDevices
| GetDevice (deviceId : string)
| ExecuteCommand (command : ILightCommand)
| HandleEvent (event : ILightEvent).

Definition exec (autoInitialize : bool) (st : State) (op : Op) : State :=
  match op with
  | Initialize => snd (initialize st)
  | AddAdapter instanceId a => addAdapterAndInitialize autoInitialize instanceId a st
  | GetDevices => snd (getDevices st)
  | GetDevice deviceId => snd (getDevice deviceId st)
  | ExecuteCommand command => snd (executeCommand command st)
  | HandleEvent event => snd (handleEvent event st)
  end.

Definition run (autoInitialize : bool) (ops : list Op) (st : State) : State :=
  fold_left (exec autoInitialize) ops st.

(** The calls that register no adapter. *)
Definition addsNone (op : Op) : bool :=
  match op with AddAdapter _ _ => false | _ => true end.

(** The adapters' own [initialize] and [handleEvent], one after the other
    in the order of the map, each on the store the one before left. *)
Definition initializedBy (l : list (string * Adapter.ILightAdapter S)) (s : S) : S :=
  fold_left (fun s p => snd (Adapter.initialize (snd p) s)) l s.

Definition handledBy (l : list (string * Adapter.ILightAdapter S))
    (event : ILightEvent) (s : S) : S :=
  fold_left (fun s p => snd (Adapter.handleEvent (snd p) event s)) l s.

End WithStore.
Arguments State S : clear implicits.
Arguments Op S : clear implicits.
End LightManager.

(* ===================================================================== *)
(** * GameDinAdapter ([gamedin/gamedin-adapter.ts])                       *)
(* ===================================================================== *)

Module GameDinAdapter.

(** [IGameDinEvent]; [data] is a bag of string-valued entries. *)
Record IGameDinEvent := {
  ev_type : string;
  playerId : option string;
  playerName : option string;
  matchId : option string;
  gameId : option string;
  timestamp : Z;
  data : list (string * string);
}.

(** [Omit<ILightCommand, 'deviceId'>] *)
Record EffectCommand := {
  ec_type : CommandType.t;
  ec_params : CommandParams;
}.

(** [IGameDinLightEffect] *)
Record IGameDinLightEffect := {
  eventType : string;
  command : EffectCommand;
  condition : option (IGameDinEvent -> bool);
  priority : option Z;
  duration : option Z;
  restorePreviousState : option bool;
}.

(** The value type of [deviceStates]. *)
Record SavedState := {
  s_color : option string;
  s_brightness : option Z;
}.

(** A timer created by [setTimeout] in [applyEffectsToDevice]: its handle,
    and what the callback closes over ([deviceId], [effect]) together with
    the delay it was given. *)
Record Timer := {
  t_handle : nat;
  t_deviceId : string;
  t_effect : IGameDinLightEffect;
  t_delay : Z;
}.

(** [priority || 0] *)
Definition priorityOf (e : IGameDinLightEffect) : Z :=
  match priority e with Some p => p | None => 0 end.

(** [effect.restorePreviousState] used as a condition. *)
Definition restores (e : IGameDinLightEffect) : bool :=
  match restorePreviousState e with Some b => b | None => false end.

(** [effect.duration && effect.duration > 0] *)
Definition timed (e : IGameDinLightEffect) : bool :=
  match duration e with Some d => (0 <? d)%Z | None => false end.

(** [!eff.condition || eff.condition(event)] *)
Definition applies (event : IGameDinEvent) (eff : IGameDinLightEffect) : bool :=
  match condition eff with
  | None => true
  | Some c => c event
  end.

(** [effects.sort((a, b) => (b.priority || 0) - (a.priority || 0))]:
    [Array.prototype.sort] is a stable sort; the comparator puts [a]
    before [b] when the difference is negative, i.e. when [a] has the
    strictly higher priority, and leaves them in their original order
    when it is zero.  [sortByPriority] inserts the elements from the right:
    [e], which stood before everything in [l], goes in front of the first
    element whose priority is not higher than its own. *)
Fixpoint insertByPriority (e : IGameDinLightEffect)
    (l : list IGameDinLightEffect) : list IGameDinLightEffect :=
  match l with
  | [] => [e]
  | x :: rest =>
      if (priorityOf x <=? priorityOf e)%Z then e :: x :: rest
      else x :: insertByPriority e rest
  end.

Fixpoint sortByPriority (l : list IGameDinLightEffect)
    : list IGameDinLightEffect :=
  match l with
  | [] => []
  | x :: rest => insertByPriority x (sortByPriority rest)
  end.

(** The order the comparator asks for: descending by priority. *)
Definition before (a b : IGameDinLightEffect) : Prop :=
  (priorityOf b <= priorityOf a)%Z.

(** The DEFAULT_EFFECTS table. *)
Definition colorCommand (c : string) : EffectCommand :=
  {| ec_type := CommandType.setColor;
     ec_params := {| p_color := Some c; p_brightness := None;
                     p_effect := None |} |}.

Definition DEFAULT_EFFECTS : list IGameDinLightEffect :=
  [ {| eventType := "player:join"; command := colorCommand "#00FF00";
       condition := None; priority := Some 1; duration := Some 2000;
       restorePreviousState := Some true |};
    {| eventType := "match:victory"; command := colorCommand "#FFFF00";
       condition := None; priority := Some 10; duration := Some 5000;
       restorePreviousState := None |};
    {| eventType := "match:defeat"; command := colorCommand "#FF0000";
       condition := None; priority := Some 10; duration := Some 5000;
       restorePreviousState := None |};
    {| eventType := "player:levelUp"; command := colorCommand "#9400D3";
       condition := None; priority := Some 5; duration := Some 3000;
       restorePreviousState := None |} ].

(** The selection rule in the words of the specification: of the effects
    in [l], which are listed in registration order, the one with the
    highest priority, and among those of equal priority the one registered
    first. *)
Fixpoint earliestOfHighestPriority (l : list IGameDinLightEffect)
    : option IGameDinLightEffect :=
  match l with
  | [] => None
  | x :: rest =>
      match earliestOfHighestPriority rest with
      | None => Some x
      | Some y => if (priorityOf x <? priorityOf y)%Z then Some y else Some x
      end
  end.

(** The line [applyEffectsToDevice] logs for a device it has found an
    effect for. *)
Definition applyingLine (d : IDevice) : LogLine :=
  (LDebug, "Applying effect to device: " ++ d_id d).

Section WithStore.
Context {S : Type}.

(** The fields of the class, and the part of the JavaScript runtime the
    class acts on: [pending] lists the timers that were set and have
    neither fired nor been cleared; [nextHandle] numbers them. *)
Record State := {
  lightManager : LightManager.State S;
  effects : gmap string (list IGameDinLightEffect);
  deviceStates : gmap string SavedState;
  activeEffects : gmap string nat;
  pending : list Timer;
  nextHandle : nat;
  logs : list LogLine;
}.

Definition setLightManager (lm : LightManager.State S) (st : State) : State :=
  {| lightManager := lm; effects := effects st;
     deviceStates := deviceStates st; activeEffects := activeEffects st;
     pending := pending st; nextHandle := nextHandle st; logs := logs st |}.

Definition setEffects (m : gmap string (list IGameDinLightEffect))
    (st : State) : State :=
  {| lightManager := lightManager st; effects := m;
     deviceStates := deviceStates st; activeEffects := activeEffects st;
     pending := pending st; nextHandle := nextHandle st; logs := logs st |}.

Definition setDeviceStates (m : gmap string SavedState) (st : State) : State :=
  {| lightManager := lightManager st; effects := effects st;
     deviceStates := m; activeEffects := activeEffects st;
     pending := pending st; nextHandle := nextHandle st; logs := logs st |}.

Definition setActiveEffects (m : gmap string nat) (st : State) : State :=
  {| lightManager := lightManager st; effects := effects st;
     deviceStates := deviceStates st; activeEffects := m;
     pending := pending st; nextHandle := nextHandle st; logs := logs st |}.

Definition setPending (l : list Timer) (st : State) : State :=
  {| lightManager := lightManager st; effects := effects st;
     deviceStates := deviceStates st; activeEffects := activeEffects st;
     pending := l; nextHandle := nextHandle st; logs := logs st |}.

Definition log (lvl : LogLevel) (msg : string) (st : State) : State :=
  {| lightManager := lightManager st; effects := effects st;
     deviceStates := deviceStates st; activeEffects := activeEffects st;
     pending := pending st; nextHandle := nextHandle st;
     logs := logs st ++ [(lvl, msg)] |}.

(** [setTimeout(callback, delay)]: a fresh handle, the timer is pending. *)
Definition setTimeout (deviceId : string) (effect : IGameDinLightEffect)
    (delay : Z) (st : State) : nat * State :=
  let h := nextHandle st in
  (h, {| lightManager := lightManager st; effects := effects st;
         deviceStates := deviceStates st; activeEffects := activeEffects st;
         pending := pending st ++
                    [{| t_handle := h; t_deviceId := deviceId;
                        t_effect := effect; t_delay := delay |}];
         nextHandle := Datatypes.S h; logs := logs st |}).

(** [clearTimeout(handle)]: the timer is no longer pending; clearing a
    timer that already fired (or was cleared) does nothing. *)
Definition clearTimeout (h : nat) (st : State) : State :=
  setPending (filter (fun t => t_handle t ≠ h) (pending st)) st.

(** [addEffect] *)
Definition addEffect (effect : IGameDinLightEffect) (st : State) : State :=
  let existing := default [] (effects st !! eventType effect) in
  let sorted := sortByPriority (existing ++ [effect]) in
  log LDebug ("Added effect for event: " ++ eventType effect)
    (setEffects (<[eventType effect := sorted]> (effects st)) st).

(** [effects.splice(effectIndex, 1)] for an index that holds an element. *)
Definition splice1 {A} (i : nat) (l : list A) : list A :=
  take i l ++ drop (Datatypes.S i) l.

(** [effects[effectIndex]]: only a non-negative index inside the array
    holds an element. *)
Definition elementAt {A} (l : list A) (i : Z) : option A :=
  if (0 <=? i)%Z then l !! Z.to_nat i else None.

(** [removeEffect] *)
Definition removeEffect (eventType : string) (effectIndex : Z) (st : State)
    : State :=
  match effects st !! eventType with
  | Some effs =>
      match elementAt effs effectIndex with
      | Some _ =>
          log LDebug ("Removed effect for event: " ++ eventType
                        ++ " at index " ++ pretty effectIndex)
            (setEffects (<[eventType := splice1 (Z.to_nat effectIndex) effs]>
                           (effects st)) st)
      | None => st
      end
  | None => st
  end.

(** [registerDefaultEffects] *)
Definition registerDefaultEffects (defaults : list IGameDinLightEffect)
    (st : State) : State :=
  log LInfo ("Registered " ++ pretty (length defaults) ++ " default effects")
    (fold_left (fun acc e => addEffect e acc) defaults st).

(** The constructor: empty maps, default effects registered when enabled. *)
Definition create (lm : LightManager.State S)
    (defaultEffects : list IGameDinLightEffect) (enableDefaultEffects : bool)
    : State :=
  let st0 := {| lightManager := lm; effects := ∅; deviceStates := ∅;
                activeEffects := ∅; pending := []; nextHandle := 0%nat;
                logs := [] |} in
  if enableDefaultEffects then registerDefaultEffects defaultEffects st0
  else st0.

(** [clearDeviceEffect] *)
Definition clearDeviceEffect (deviceId : string) (st : State) : State :=
  match activeEffects st !! deviceId with
  | Some timeout =>
      setActiveEffects (delete deviceId (activeEffects st))
        (clearTimeout timeout st)
  | None => st
  end.

(** [{ ...effect.command, deviceId }] *)
Definition commandFor (effect : IGameDinLightEffect) (deviceId : string)
    : ILightCommand :=
  {| c_type := ec_type (command effect); c_deviceId := deviceId;
     c_params := ec_params (command effect) |}.

(** Whether the command of [effect] for [device] would go through in
    [st], and the timer [applySelected] sets when it does. *)
Definition commandSucceeds (device : IDevice) (effect : IGameDinLightEffect)
    (st : State) : bool :=
  isOk (fst (LightManager.executeCommand (commandFor effect (d_id device))
               (lightManager st))).

Definition newTimer (device : IDevice) (effect : IGameDinLightEffect)
    (st : State) : Timer :=
  {| t_handle := nextHandle st; t_deviceId := d_id device;
     t_effect := effect; t_delay := default 0 (duration effect) |}.

(** [applyEffectsToDevice], from the point where an effect has been
    found: the snapshot, the cancellation of the device's timer, and the
    [try] block with the command and the new timer. *)
Definition applySelected (device : IDevice) (effect : IGameDinLightEffect)
    (st : State) : State :=
  let deviceId := d_id device in
  let st1 := log LDebug ("Applying effect to device: " ++ deviceId) st in
  let st2 :=
    if restores effect && bool_decide (deviceStates st1 !! deviceId = None)
    then setDeviceStates
           (<[deviceId := {| s_color := d_color device;
                             s_brightness := d_brightness device |}]>
              (deviceStates st1)) st1
    else st1 in
  let st3 := clearDeviceEffect deviceId st2 in
  let '(r, lm') :=
    LightManager.executeCommand (commandFor effect deviceId)
      (lightManager st3) in
  let st4 := setLightManager lm' st3 in
  match r with
  | Ok _ =>
      if timed effect then
        let '(timeout, st5) :=
          setTimeout deviceId effect (default 0 (duration effect)) st4 in
        setActiveEffects (<[deviceId := timeout]> (activeEffects st5)) st5
      else st4
  | Throw _ =>
      log LError ("Failed to apply effect to device " ++ deviceId) st4
  end.

(** [applyEffectsToDevice] *)
Definition applyEffectsToDevice (device : IDevice)
    (effs : list IGameDinLightEffect) (event : IGameDinEvent) (st : State)
    : State :=
  match find (applies event) effs with
  | None => log LDebug ("No matching effects for device: " ++ d_id device) st
  | Some effect => applySelected device effect st
  end.

(** [handleEvent] *)
Definition handleEvent (event : IGameDinEvent) (st : State) : State :=
  let st0 := log LDebug ("Processing GameDin event: " ++ ev_type event) st in
  let effs := default [] (effects st0 !! ev_type event) in
  if (length effs =? 0)%nat then
    log LDebug ("No effects registered for event type: " ++ ev_type event) st0
  else
    let '(devices, lm') := LightManager.getDevices (lightManager st0) in
    fold_left (fun acc device => applyEffectsToDevice device effs event acc)
      devices (setLightManager lm' st0).

(** The two conditional calls in the [try] block of
    [restoreDeviceState]: a field of the snapshot that is [undefined] is
    passed over, and the first call that throws ends the block. *)
Definition reissue (deviceId : string) (state : SavedState)
    (lm : LightManager.State S) : Result unit * LightManager.State S :=
  let '(r1, lm1) :=
    match s_color state with
    | Some c => LightManager.setColorCmd deviceId c lm
    | None => (Ok tt, lm)
    end in
  match r1 with
  | Throw e => (Throw e, lm1)
  | Ok _ =>
      match s_brightness state with
      | Some v => LightManager.setBrightnessCmd deviceId v lm1
      | None => (Ok tt, lm1)
      end
  end.

(** [restoreDeviceState] *)
Definition restoreDeviceState (deviceId : string) (st : State) : State :=
  match deviceStates st !! deviceId with
  | None => st
  | Some state =>
      let '(r, lm') := reissue deviceId state (lightManager st) in
      let st1 := setLightManager lm' st in
      match r with
      | Ok _ =>
          log LDebug ("Restored previous state for device: " ++ deviceId)
            (setDeviceStates (delete deviceId (deviceStates st1)) st1)
      | Throw _ =>
          log LError ("Failed to restore state for device " ++ deviceId) st1
      end
  end.

(** The callback handed to [setTimeout] in [applyEffectsToDevice]. *)
Definition timerCallback (deviceId : string) (effect : IGameDinLightEffect)
    (st : State) : State :=
  let st1 := if restores effect then restoreDeviceState deviceId st else st in
  clearDeviceEffect deviceId st1.

(** The event loop runs a due timer: it stops being pending and its
    callback runs.  A handle that is not pending has no callback to run. *)
Definition fireTimer (h : nat) (st : State) : State :=
  match find (fun t => bool_decide (t_handle t = h)) (pending st) with
  | None => st
  | Some t =>
      timerCallback (t_deviceId t) (t_effect t)
        (setPending (filter (fun t' => t_handle t' ≠ h) (pending st)) st)
  end.

(** [dispose] *)
Definition dispose (st : State) : State :=
  log LInfo "GameDin adapter disposed"
    {| lightManager := lightManager st; effects := effects st;
       deviceStates := ∅; activeEffects := ∅;
       pending := filter (fun t =>
                    t_handle t ∉ snd <$> map_to_list (activeEffects st))
                    (pending st);
       nextHandle := nextHandle st; logs := logs st |}.

(** ** Runs of the dispatcher

    What can happen to a dispatcher: calls of its public methods, a
    pending timer coming due, and anything else acting on the light
    manager in between (another client, an adapter being initialised).
    [exec] takes a call of [handleEvent] and the callback of a timer to
    their end in one step, so [run] and [reachable] describe the runs in
    which no two of them overlap; the class itself does nothing to keep
    them apart.  The runs with overlapping calls are those of [play],
    further down. *)
Inductive Op :=
| AddEffect (effect : IGameDinLightEffect)
| RemoveEffect (eventType : string) (effectIndex : Z)
| HandleEvent (event : IGameDinEvent)
| FireTimer (h : nat)
| Dispose
| External (f : LightManager.State S -> LightManager.State S).

Definition exec (st : State) (op : Op) : State :=
  match op with
  | AddEffect e => addEffect e st
  | RemoveEffect ty i => removeEffect ty i st
  | HandleEvent ev => handleEvent ev st
  | FireTimer h => fireTimer h st
  | Dispose => dispose st
  | External f => setLightManager (f (lightManager st)) st
  end.

Definition run (ops : list Op) (st : State) : State := fold_left exec ops st.

Definition reachable (st : State) : Prop :=
  exists lm defaults enable ops, st = run ops (create lm defaults enable).

(** Operations during which no timer comes due. *)
Definition quiet (op : Op) : bool :=
  match op with
  | FireTimer _ | Dispose => false
  | _ => true
  end.

(** The timers pending for one device. *)
Definition timersOf (deviceId : string) (st : State) : list Timer :=
  filter (fun t => t_deviceId t = deviceId) (pending st).

(** The effect list [handleEvent] reads for an event, and the effect
    [applyEffectsToDevice] picks from it. *)
Definition effectsFor (ty : string) (st : State) : list IGameDinLightEffect :=
  default [] (effects st !! ty).

Definition selected (event : IGameDinEvent) (st : State)
    : option IGameDinLightEffect :=
  find (applies event) (effectsFor (ev_type event) st).

(** A device as the light manager reports it. *)
Definition observe (deviceId : string) (lm : LightManager.State S)
    : option IDevice :=
  find (fun d => String.eqb (d_id d) deviceId) (fst (LightManager.getDevices lm)).

(** Where [addEffect] puts a new effect in a list that is in order:
    behind the effects whose priority is not lower than its own. *)
Definition landing (e : IGameDinLightEffect) (l : list IGameDinLightEffect)
    : nat :=
  length (filter (fun x => (priorityOf e <= priorityOf x)%Z) l).

(** The registry is in order: every list is sorted by descending priority
    and holds effects of its own event type only. *)
Definition registryOrdered (st : State) : Prop :=
  forall ty effs, effects st !! ty = Some effs ->
    StronglySorted before effs /\ Forall (fun e => eventType e = ty) effs.

(** [initialize] *)
Definition initialize (st : State) : Result unit * State :=
  let st1 := log LInfo "Initializing GameDin adapter..." st in
  let '(r, lm') := LightManager.initialize (lightManager st1) in
  let st2 := setLightManager lm' st1 in
  match r with
  | Ok _ => (Ok tt, log LInfo "GameDin adapter initialized successfully" st2)
  | Throw e => (Throw e, log LError "Failed to initialize GameDin adapter" st2)
  end.

(** ** Calls in flight

    [handleEvent] and the callback of a timer are [async]: each runs
    until it reaches an [await] and goes on when what it waits for has
    settled, and while it waits other calls and callbacks run.  [exec]
    and [run] above take every call to its end in one step: they are the
    runs in which no two calls overlap.  What follows takes the calls
    apart at their [await]s.

    A [Task] is a call or callback that waits at an [await], with what it
    holds on to.  The array [handleEvent] reads the effects from is the
    one the registry keeps under the event's type, which [addEffect] and
    [removeEffect] change in place: a task therefore looks the effects up
    when it needs them.  The call of the light manager that a task waits
    for is made, as one step, when the task goes on; whatever else
    happens to the light manager while a task waits is an [External]
    operation. *)
Inductive Task :=
| AwaitDevices (event : IGameDinEvent)
    (* handleEvent, at [await this.lightManager.getDevices()] *)
| AwaitCommand (event : IGameDinEvent) (device : IDevice)
    (effect : IGameDinLightEffect) (rest : list IDevice)
    (* applyEffectsToDevice, at [await this.lightManager.executeCommand(command)] *)
| AwaitApplied (event : IGameDinEvent) (rest : list IDevice)
    (* handleEvent, at [await this.applyEffectsToDevice(...)], the call
       having returned *)
| AwaitSetColor (deviceId : string) (state : SavedState) (color : string)
    (* restoreDeviceState, at [await this.lightManager.setColor(...)] *)
| AwaitSetBrightness (deviceId : string) (brightness : Z)
    (* restoreDeviceState, at [await this.lightManager.setBrightness(...)] *)
| AwaitRestored (deviceId : string).
    (* the callback, at [await this.restoreDeviceState(deviceId)], the call
       having returned *)

(** The tasks of [handleEvent]; the others belong to the callback of a
    timer. *)
Definition ofHandleEvent (t : Task) : bool :=
  match t with
  | AwaitDevices _ | AwaitCommand _ _ _ _ | AwaitApplied _ _ => true
  | _ => false
  end.

(** [applyEffectsToDevice] from the effect it has found to its [await]:
    the log line, the snapshot, the cancellation of the device's timer. *)
Definition beforeCommand (device : IDevice) (effect : IGameDinLightEffect)
    (st : State) : State :=
  let deviceId := d_id device in
  let st1 := log LDebug ("Applying effect to device: " ++ deviceId) st in
  let st2 :=
    if restores effect && bool_decide (deviceStates st1 !! deviceId = None)
    then setDeviceStates
           (<[deviceId := {| s_color := d_color device;
                             s_brightness := d_brightness device |}]>
              (deviceStates st1)) st1
    else st1 in
  clearDeviceEffect deviceId st2.

(** [applyEffectsToDevice] from the [await] on, [r] being how the command
    went. *)
Definition afterCommand (device : IDevice) (effect : IGameDinLightEffect)
    (r : Result unit) (st : State) : State :=
  let deviceId := d_id device in
  match r with
  | Ok _ =>
      if timed effect then
        let '(timeout, st5) :=
          setTimeout deviceId effect (default 0 (duration effect)) st in
        setActiveEffects (<[deviceId := timeout]> (activeEffects st5)) st5
      else st
  | Throw _ =>
      log LError ("Failed to apply effect to device " ++ deviceId) st
  end.

(** [applyEffectsToDevice] up to its [await], or to its end when no
    effect applies. *)
Definition beginApply (event : IGameDinEvent) (device : IDevice)
    (rest : list IDevice) (st : State) : State * Task :=
  match find (applies event) (effectsFor (ev_type event) st) with
  | None =>
      (log LDebug ("No matching effects for device: " ++ d_id device) st,
       AwaitApplied event rest)
  | Some effect =>
      (beforeCommand device effect st, AwaitCommand event device effect rest)
  end.

(** The loop of [handleEvent] with [devices] still to go. *)
Definition nextDevice (event : IGameDinEvent) (devices : list IDevice)
    (st : State) : State * option Task :=
  match devices with
  | [] => (st, None)
  | device :: rest =>
      let '(st', t) := beginApply event device rest st in (st', Some t)
  end.

(** [handleEvent] up to its first [await]. *)
Definition startHandleEvent (event : IGameDinEvent) (st : State)
    : State * option Task :=
  let st0 := log LDebug ("Processing GameDin event: " ++ ev_type event) st in
  if (length (effectsFor (ev_type event) st0) =? 0)%nat then
    (log LDebug ("No effects registered for event type: " ++ ev_type event) st0,
     None)
  else (st0, Some (AwaitDevices event)).

(** The end of the [try] block of [restoreDeviceState], and its [catch]. *)
Definition restored (deviceId : string) (st : State) : State :=
  log LDebug ("Restored previous state for device: " ++ deviceId)
    (setDeviceStates (delete deviceId (deviceStates st)) st).

Definition restoreFailed (deviceId : string) (st : State) : State :=
  log LError ("Failed to restore state for device " ++ deviceId) st.

(** [restoreDeviceState] once the colour is done with. *)
Definition afterColor (deviceId : string) (state : SavedState) (st : State)
    : State * Task :=
  match s_brightness state with
  | Some v => (st, AwaitSetBrightness deviceId v)
  | None => (restored deviceId st, AwaitRestored deviceId)
  end.

(** [restoreDeviceState] up to its first [await]. *)
Definition startRestore (deviceId : string) (st : State) : State * Task :=
  match deviceStates st !! deviceId with
  | None => (st, AwaitRestored deviceId)
  | Some state =>
      match s_color state with
      | Some c => (st, AwaitSetColor deviceId state c)
      | None => afterColor deviceId state st
      end
  end.

(** The callback of a timer up to its first [await]. *)
Definition startCallback (deviceId : string) (effect : IGameDinLightEffect)
    (st : State) : State * option Task :=
  if restores effect then
    let '(st', t) := startRestore deviceId st in (st', Some t)
  else (clearDeviceEffect deviceId st, None).

(** A task goes on: what it waited for settles, and it runs to its next
    [await] or to its end. *)
Definition resume (t : Task) (st : State) : State * option Task :=
  match t with
  | AwaitDevices event =>
      let '(devices, lm') := LightManager.getDevices (lightManager st) in
      nextDevice event devices (setLightManager lm' st)
  | AwaitCommand event device effect rest =>
      let '(r, lm') :=
        LightManager.executeCommand (commandFor effect (d_id device))
          (lightManager st) in
      (afterCommand device effect r (setLightManager lm' st),
       Some (AwaitApplied event rest))
  | AwaitApplied event rest => nextDevice event rest st
  | AwaitSetColor deviceId state c =>
      let '(r, lm') := LightManager.setColorCmd deviceId c (lightManager st) in
      let st' := setLightManager lm' st in
      match r with
      | Ok _ => let '(st'', t') := afterColor deviceId state st' in (st'', Some t')
      | Throw _ => (restoreFailed deviceId st', Some (AwaitRestored deviceId))
      end
  | AwaitSetBrightness deviceId v =>
      let '(r, lm') :=
        LightManager.setBrightnessCmd deviceId v (lightManager st) in
      let st' := setLightManager lm' st in
      (match r with
       | Ok _ => restored deviceId st'
       | Throw _ => restoreFailed deviceId st'
       end, Some (AwaitRestored deviceId))
  | AwaitRestored deviceId => (clearDeviceEffect deviceId st, None)
  end.

(** The dispatcher together with the calls that are waiting. *)
Record Machine := {
  dispatcher : State;
  waiting : list Task;
}.

(** An operation begins.  [addEffect], [removeEffect] and [dispose]
    contain no [await] and are over at once; [handleEvent] and the
    callback of a due timer run to their first [await] and wait there. *)
Definition begin (op : Op) (m : Machine) : Machine :=
  match op with
  | HandleEvent ev =>
      let '(st', k) := startHandleEvent ev (dispatcher m) in
      {| dispatcher := st'; waiting := waiting m ++ option_list k |}
  | FireTimer h =>
      match find (fun t => bool_decide (t_handle t = h))
              (pending (dispatcher m)) with
      | None => m
      | Some t =>
          let '(st', k) :=
            startCallback (t_deviceId t) (t_effect t)
              (setPending (filter (fun t' => t_handle t' ≠ h)
                             (pending (dispatcher m))) (dispatcher m)) in
          {| dispatcher := st'; waiting := waiting m ++ option_list k |}
      end
  | _ => {| dispatcher := exec (dispatcher m) op; waiting := waiting m |}
  end.

(** The [i]-th of the waiting calls goes on. *)
Definition resumeAt (i : nat) (m : Machine) : Machine :=
  match waiting m !! i with
  | None => m
  | Some t =>
      let '(st', k) := resume t (dispatcher m) in
      {| dispatcher := st';
         waiting := take i (waiting m) ++ option_list k
                      ++ drop (Datatypes.S i) (waiting m) |}
  end.

Inductive Move :=
| Begin (op : Op)
| Resume (i : nat).

Definition move (m : Machine) (mv : Move) : Machine :=
  match mv with
  | Begin op => begin op m
  | Resume i => resumeAt i m
  end.

Definition play (moves : list Move) (m : Machine) : Machine :=
  fold_left move moves m.

(** A dispatcher as constructed, nothing waiting. *)
Definition boot (lm : LightManager.State S)
    (defaultEffects : list IGameDinLightEffect) (enableDefaultEffects : bool)
    : Machine :=
  {| dispatcher := create lm defaultEffects enableDefaultEffects;
     waiting := [] |}.

(** The states the dispatcher can get into, overlapping calls included. *)
Definition attainable (st : State) : Prop :=
  exists lm defaults enable moves,
    st = dispatcher (play moves (boot lm defaults enable)).

(** Throughout [moves], started from [m], at most one call is in
    progress at any time. *)
Fixpoint oneAtATime (moves : list Move) (m : Machine) : bool :=
  match moves with
  | [] => true
  | mv :: rest =>
      (length (waiting (move m mv)) <=? 1)%nat && oneAtATime rest (move m mv)
  end.

(** The operations that [moves] begin, in order. *)
Definition begun (moves : list Move) : list Op :=
  omap (fun mv => match mv with Begin op => Some op | Resume _ => None end) moves.

(** Handles are handed out once, in rising order: the pending timers
    have distinct handles, every pending or recorded handle has been
    handed out, and a recorded handle that is still pending belongs to a
    timer of the device it is recorded for. *)
Definition handlesIssued (st : State) : Prop :=
  NoDup (t_handle <$> pending st)
  /\ (forall t, t ∈ pending st -> (t_handle t < nextHandle st)%nat)
  /\ (forall d h, activeEffects st !! d = Some h -> (h < nextHandle st)%nat)
  /\ (forall d h t, activeEffects st !! d = Some h -> t ∈ pending st ->
        t_handle t = h -> t_deviceId t = d).

(** Every pending timer is the one recorded for its device. *)
Definition timersRecorded (st : State) : Prop :=
  forall t, t ∈ pending st ->
    activeEffects st !! t_deviceId t = Some (t_handle t).

(** A call that waits for its command has cancelled the timer of its
    device and will set the next one. *)
Definition cancelled (st : State) (t : Task) : Prop :=
  match t with
  | AwaitCommand _ device _ _ => timersOf (d_id device) st = []
  | _ => True
  end.

(** ** The registrations, as the specification speaks of them

    The effects registered for an event type and not removed since, in
    the order in which they were registered.  [removeEffect(type, i)]
    takes out the effect that stands at position [i] when the
    registrations are arranged by descending priority with equal
    priorities in registration order: if that effect has priority [p] and
    [k] effects of priority [p] stand before it there, it is the
    registration that has [k] registrations of priority [p] before it. *)
Fixpoint withoutNth (p : Z) (k : nat) (l : list IGameDinLightEffect)
    : list IGameDinLightEffect :=
  match l with
  | [] => []
  | x :: rest =>
      if decide (priorityOf x = p) then
        match k with
        | O => rest
        | Datatypes.S k' => x :: withoutNth p k' rest
        end
      else x :: withoutNth p k rest
  end.

Definition unregister (i : Z) (l : list IGameDinLightEffect)
    : list IGameDinLightEffect :=
  let arranged := sortByPriority l in
  match elementAt arranged i with
  | None => l
  | Some x =>
      withoutNth (priorityOf x)
        (length (filter (fun y => priorityOf y = priorityOf x)
                   (take (Z.to_nat i) arranged))) l
  end.

Definition register (ty : string) (l : list IGameDinLightEffect) (op : Op)
    : list IGameDinLightEffect :=
  match op with
  | AddEffect e => if decide (eventType e = ty) then l ++ [e] else l
  | RemoveEffect ty' i => if decide (ty' = ty) then unregister i l else l
  | _ => l
  end.

Definition registered (ty : string) (defaults : list IGameDinLightEffect)
    (ops : list Op) : list IGameDinLightEffect :=
  fold_left (register ty) ops (filter (fun e => eventType e = ty) defaults).

(** The reissued commands are carried out: when [setColor] with the
    colour of the snapshot succeeds, that colour is what the light manager
    reports for the device afterwards; when [setBrightness] with the
    brightness of the snapshot succeeds, that brightness is what it
    reports afterwards, and the reported colour is as the command found
    it. *)
Definition carriedOut (deviceId : string) (state : SavedState)
    (lm : LightManager.State S) : Prop :=
  let coloured :=
    match s_color state with
    | Some c => snd (LightManager.setColorCmd deviceId c lm)
    | None => lm
    end in
  (forall c, s_color state = Some c ->
     isOk (fst (LightManager.setColorCmd deviceId c lm)) = true ->
     d_color <$> observe deviceId coloured = Some (Some c))
  /\ (forall v, s_brightness state = Some v ->
        isOk (fst (LightManager.setBrightnessCmd deviceId v coloured)) = true ->
        let dimmed := snd (LightManager.setBrightnessCmd deviceId v coloured) in
        d_brightness <$> observe deviceId dimmed = Some (Some v)
        /\ d_color <$> observe deviceId dimmed
           = d_color <$> observe deviceId coloured).

End WithStore.
Arguments State S : clear implicits.
Arguments Op S : clear implicits.
Arguments Task : clear implicits.
Arguments Machine S : clear implicits.
Arguments Move S : clear implicits.
End GameDinAdapter.

(* ===================================================================== *)
(** * GoveeAdapter ([govee/govee-adapter.ts])                             *)
(* ===================================================================== *)

Module GoveeAdapter.

Record RGB := { r : Z; g : Z; b : Z }.

(** [IGoveeDeviceInfo['properties']], also the shape read from
    [/devices/state]. *)
Record Properties := {
  online : bool;
  powerState : string;
  brightness : option Z;
  color : option RGB;
}.

Record IGoveeDeviceInfo := {
  device : string;
  model : string;
  deviceName : string;
  controllable : bool;
  retrievable : bool;
  supportCmds : list string;
  properties : Properties;
}.

(** [IGoveeDevice extends IDevice] *)
Record IGoveeDevice := {
  base : IDevice;
  version : string;
  g_supportCmds : list string;
  isOnline : bool;
  isControllable : bool;
  isRetrievable : bool;
}.

(** The [cmd] object of a control request, [{ [name]: value }]. *)
Inductive GoveeCmd :=
| turn (value : string)
| colorCmd (value : RGB)
| brightnessCmd (value : Z).

Inductive HttpRequest :=
| GET_devices
| PUT_devices_control (device model : string) (cmd : GoveeCmd)
| GET_devices_state (device model : string).

(** What the axios call settles with: a response body
    [{code, message, data}], or a rejection (transport error, timeout,
    status outside 2xx). *)
Inductive HttpReply (T : Type) :=
| Response (code : Z) (message : string) (data : T)
| Rejected (message : string).
Arguments Response {T} code message data.
Arguments Rejected {T} message.

(** The Govee cloud as seen through the three endpoints the adapter
    uses; [R] is its state. *)
Record Remote (R : Type) := {
  onGetDevices : R -> HttpReply (list IGoveeDeviceInfo) * R;
  onControl : string -> string -> GoveeCmd -> R -> HttpReply unit * R;
  onGetState : string -> string -> R -> HttpReply Properties * R;
}.
Arguments onGetDevices {R} _ _.
Arguments onControl {R} _ _ _ _ _.
Arguments onGetState {R} _ _ _ _.

(** ** Colour conversions *)

Definition toInt32 (z : Z) : Z := (z + 2 ^ 31) mod 2 ^ 32 - 2 ^ 31.

(** [x << n] *)
Definition shl (x n : Z) : Z := toInt32 (Z.shiftl (toInt32 x) n).
(** [x >> n] *)
Definition sar (x n : Z) : Z := Z.shiftr (toInt32 x) n.
(** [x & y] *)
Definition band (x y : Z) : Z := toInt32 (Z.land (toInt32 x) (toInt32 y)).

Definition hexDigitValue (c : ascii) : option Z :=
  let n := Z.of_N (Ascii.N_of_ascii c) in
  if (48 <=? n) && (n <=? 57) then Some (n - 48)
  else if (97 <=? n) && (n <=? 102) then Some (n - 87)
  else if (65 <=? n) && (n <=? 70) then Some (n - 55)
  else None.

Definition isWhiteSpace (c : ascii) : bool :=
  let n := Z.of_N (Ascii.N_of_ascii c) in
  ((9 <=? n) && (n <=? 13)) || (n =? 32).

Fixpoint trimStart (s : string) : string :=
  match s with
  | String c rest => if isWhiteSpace c then trimStart rest else s
  | EmptyString => s
  end.

(** The longest prefix of hexadecimal digits, read as a number; [None]
    when there is no digit. *)
Fixpoint hexPrefix (s : string) (acc : option Z) : option Z :=
  match s with
  | String c rest =>
      match hexDigitValue c with
      | Some d => hexPrefix rest (Some (16 * default 0 acc + d))
      | None => acc
      end
  | EmptyString => acc
  end.

(** [parseInt(s, 16)]; [None] is NaN.  The definition is [parseInt] on
    the strings that are [plain] (below): of the white space [parseInt]
    trims, only the ASCII characters are trimmed here, and the number is
    read exactly, where [parseInt] yields the nearest double. *)
Definition parseInt16 (s : string) : option Z :=
  let s1 := trimStart s in
  let '(sign, s2) :=
    match s1 with
    | String "-"%char rest => (-1, rest)
    | String "+"%char rest => (1, rest)
    | _ => (1, s1)
    end in
  let s3 :=
    match s2 with
    | String "0"%char (String "x"%char rest) => rest
    | String "0"%char (String "X"%char rest) => rest
    | _ => s2
    end in
  match hexPrefix s3 None with
  | Some n => Some (sign * n)
  | None => None
  end.

(** The strings on which [parseInt16] and [parseInt(s, 16)] agree: made
    of ASCII characters, so that there is no white space but the ASCII
    one to trim, and of 13 characters at most, so that the number read has
    no more than 52 bits and is a double. *)
Definition isAscii (c : ascii) : bool := Z.of_N (Ascii.N_of_ascii c) <? 128.

Fixpoint allAscii (s : string) : bool :=
  match s with
  | String c rest => isAscii c && allAscii rest
  | EmptyString => true
  end.

Definition plain (s : string) : bool :=
  allAscii s && (String.length s <=? 13)%nat.

(** [hex.replace('#', '')]: the first ['#'] is removed. *)
Fixpoint removeFirstHash (s : string) : string :=
  match s with
  | String c rest => if Ascii.eqb c "#"%char then rest else String c (removeFirstHash rest)
  | EmptyString => EmptyString
  end.

(** [hexToRgb] *)
Definition hexToRgb (hex : string) : option RGB :=
  let hexValue := removeFirstHash hex in
  match parseInt16 hexValue with
  | None => None
  | Some bigint =>
      Some {| r := band (sar bigint 16) 255;
              g := band (sar bigint 8) 255;
              b := band bigint 255 |}
  end.

Definition hexDigit (d : Z) : ascii :=
  if d <? 10 then Ascii.ascii_of_N (Z.to_N (48 + d))
  else Ascii.ascii_of_N (Z.to_N (87 + d)).

(** The hexadecimal digits of a positive number, most significant first. *)
Fixpoint hexOfPos (fuel : nat) (n : Z) (acc : string) : string :=
  match fuel with
  | O => acc
  | Datatypes.S fuel' =>
      if n <=? 0 then acc
      else hexOfPos fuel' (n / 16) (String (hexDigit (n mod 16)) acc)
  end.

(** [n.toString(16)] for an integer [n]. *)
Definition toString16 (n : Z) : string :=
  if n =? 0 then "0"
  else if n <? 0 then String "-"%char (hexOfPos (Z.to_nat (Z.log2 (- n)) + 1) (- n) "")
  else hexOfPos (Z.to_nat (Z.log2 n) + 1) n "".

(** [s.slice(1)] *)
Definition slice1 (s : string) : string :=
  match s with
  | String _ rest => rest
  | EmptyString => EmptyString
  end.

(** [rgbToHex] *)
Definition rgbToHex (rgb : RGB) : string :=
  String "#"%char
    (slice1 (toString16 (shl 1 24 + shl (r rgb) 16 + shl (g rgb) 8 + b rgb))).

(** ** Hexadecimal strings, for stating what the conversions compute *)

(** The digits a string of hexadecimal characters (of either case) stands
    for; [None] when one of its characters is not a hexadecimal digit. *)
Fixpoint digitsOf (s : string) : option (list Z) :=
  match s with
  | EmptyString => Some []
  | String c rest =>
      match hexDigitValue c, digitsOf rest with
      | Some d, Some ds => Some (d :: ds)
      | _, _ => None
      end
  end.

(** The number with the hexadecimal digits [ds], most significant first. *)
Definition hexValue (ds : list Z) : Z :=
  fold_left (fun acc d => 16 * acc + d) ds 0.

(** The digits [ds] written out, in lower case. *)
Definition hexString (ds : list Z) : string :=
  fold_right (fun d s => String (hexDigit d) s) EmptyString ds.

Definition isHexDigit (d : Z) : Prop := 0 <= d < 16.

(** Bits 16 to 23, 8 to 15 and 0 to 7 of a number. *)
Definition channels (n : Z) : RGB :=
  {| r := (n / 65536) mod 256; g := (n / 256) mod 256; b := n mod 256 |}.

(** The two hexadecimal digits of each channel, red first. *)
Definition channelDigits (rgb : RGB) : list Z :=
  [r rgb / 16; r rgb mod 16; g rgb / 16; g rgb mod 16; b rgb / 16; b rgb mod 16].

Definition isChannel (v : Z) : Prop := 0 <= v <= 255.

Definition inGamut (rgb : RGB) : Prop :=
  isChannel (r rgb) /\ isChannel (g rgb) /\ isChannel (b rgb).

(** [mapToDevice] *)
Definition mapToDevice (deviceInfo : IGoveeDeviceInfo) : IGoveeDevice :=
  {| base :=
       {| d_id := device deviceInfo;
          d_name := deviceName deviceInfo;
          d_type := "light";
          d_brand := "govee";
          d_model := model deviceInfo;
          d_address := device deviceInfo;
          d_isOn := String.eqb (powerState (properties deviceInfo)) "on";
          d_brightness := brightness (properties deviceInfo);
          d_color := rgbToHex <$> color (properties deviceInfo);
          d_isReachable := online (properties deviceInfo) |};
     version := "1.0";
     g_supportCmds := supportCmds deviceInfo;
     isOnline := online (properties deviceInfo);
     isControllable := controllable deviceInfo;
     isRetrievable := retrievable deviceInfo |}.

(** A [Partial<IDevice>] as the adapter builds them: a key that is absent
    is [None]; a key that is present carries its value, which for the
    optional fields may itself be [undefined]. *)
Record Updates := {
  u_isOn : option bool;
  u_brightness : option (option Z);
  u_color : option (option string);
}.

(** [{ ...device, ...updates }] *)
Definition applyUpdates (d : IGoveeDevice) (u : Updates) : IGoveeDevice :=
  {| base :=
       {| d_id := d_id (base d);
          d_name := d_name (base d);
          d_type := d_type (base d);
          d_brand := d_brand (base d);
          d_model := d_model (base d);
          d_address := d_address (base d);
          d_isOn := default (d_isOn (base d)) (u_isOn u);
          d_brightness := default (d_brightness (base d)) (u_brightness u);
          d_color := default (d_color (base d)) (u_color u);
          d_isReachable := d_isReachable (base d) |};
     version := version d;
     g_supportCmds := g_supportCmds d;
     isOnline := isOnline d;
     isControllable := isControllable d;
     isRetrievable := isRetrievable d |}.

Section WithRemote.
Context {R : Type}.
Variable api : Remote R.

(** The fields of [BaseLightAdapter], the cloud behind the HTTP client,
    and the requests issued so far, oldest first. *)
Record State := {
  isInitialized : bool;
  devices : gmap string IGoveeDevice;
  remote : R;
  requests : list HttpRequest;
}.

Definition M (A : Type) : Type := State -> Result A * State.

Definition ret {A} (a : A) : M A := fun st => (Ok a, st).
Definition throw {A} (e : Exn) : M A := fun st => (Throw e, st).
Definition bind {A B} (c : M A) (k : A -> M B) : M B :=
  fun st =>
    match c st with
    | (Ok a, st') => k a st'
    | (Throw e, st') => (Throw e, st')
    end.
(** [try { c } catch (error) { h error }] *)
Definition tryCatch {A} (c : M A) (h : Exn -> M A) : M A :=
  fun st =>
    match c st with
    | (Ok a, st') => (Ok a, st')
    | (Throw e, st') => h e st'
    end.

Notation "'let*' x ':=' c 'in' k" := (bind c (fun x => k))
  (at level 10, x name, c at level 100, k at level 200).
Notation "c ;;; k" := (bind c (fun _ => k))
  (at level 90, right associativity).

Definition setDevices (m : gmap string IGoveeDevice) : M unit :=
  fun st => (Ok tt, {| isInitialized := isInitialized st; devices := m;
                       remote := remote st; requests := requests st |}).

Definition setIsInitialized (v : bool) : M unit :=
  fun st => (Ok tt, {| isInitialized := v; devices := devices st;
                       remote := remote st; requests := requests st |}).

(** One HTTP exchange: the request is recorded, the cloud answers; a
    rejection is thrown. *)
Definition http {T} (req : HttpRequest) (serve : R -> HttpReply T * R)
    : M (Z * string * T) :=
  fun st =>
    let '(reply, remote') := serve (remote st) in
    let st' := {| isInitialized := isInitialized st; devices := devices st;
                  remote := remote'; requests := requests st ++ [req] |} in
    match reply with
    | Response code message data => (Ok (code, message, data), st')
    | Rejected message => (Throw (Error message), st')
    end.

(** [validateInitialized] *)
Definition validateInitialized : M unit :=
  fun st =>
    if isInitialized st then (Ok tt, st)
    else (Throw (AdapterError "Adapter not initialized. Call initialize() first."
                   "NOT_INITIALIZED" NoCause), st).

(** [validateDeviceId] *)
Definition validateDeviceId (deviceId : string) : M unit :=
  fun st =>
    match devices st !! deviceId with
    | Some _ => (Ok tt, st)
    | None => (Throw (AdapterError ("Device with ID '" ++ deviceId ++ "' not found")
                        "DEVICE_NOT_FOUND" NoCause), st)
    end.

(** [updateDeviceCache] *)
Definition updateDeviceCache (ds : list IGoveeDevice) : M unit :=
  fun st =>
    setDevices (fold_left (fun m d => <[d_id (base d) := d]> m) ds (devices st)) st.

(** [updateDevice] *)
Definition updateDevice (deviceId : string) (updates : Updates) : M unit :=
  fun st =>
    match devices st !! deviceId with
    | Some d => setDevices (<[deviceId := applyUpdates d updates]> (devices st)) st
    | None => (Ok tt, st)
    end.

(** [getDevices] *)
Definition getDevices : M (list IDevice) :=
  tryCatch
    (let* response := http GET_devices (onGetDevices api) in
     let '(code, message, infos) := response in
     if negb (code =? 200) then
       throw (AdapterError ("Failed to fetch devices: " ++ message)
                "API_ERROR" NoCause)
     else
       let ds := map mapToDevice infos in
       updateDeviceCache ds ;;;
       ret (map base ds))
    (fun error =>
       throw (AdapterError "Failed to fetch Govee devices"
                "DEVICE_FETCH_FAILED" (Cause error))).

(** [initialize] *)
Definition initialize : M unit :=
  fun st =>
    if isInitialized st then (Ok tt, st)
    else
      tryCatch
        (getDevices ;;; setIsInitialized true)
        (fun error =>
           throw (AdapterError
                    ("Failed to initialize Govee adapter: " ++ exnMessage error)
                    "INITIALIZATION_FAILED" (Cause error)))
        st.

(** [getDevice] *)
Definition getDevice (deviceId : string) : M (option IDevice) :=
  validateInitialized ;;;
  tryCatch
    (fun st =>
       match devices st !! deviceId with
       | Some d => (Ok (Some (base d)), st)
       | None =>
           (getDevices ;;;
            fun st' => (Ok (base <$> devices st' !! deviceId), st')) st
       end)
    (fun error =>
       throw (AdapterError ("Failed to fetch device " ++ deviceId)
                "DEVICE_FETCH_FAILED" (Cause error))).

(** [sendDeviceCommand] *)
Definition sendDeviceCommand (dev : IGoveeDevice) (cmd : GoveeCmd) : M unit :=
  tryCatch
    (let* response :=
       http (PUT_devices_control (d_address (base dev)) (d_model (base dev)) cmd)
         (onControl api (d_address (base dev)) (d_model (base dev)) cmd) in
     let '(code, message, _) := response in
     if negb (code =? 200) then
       throw (AdapterError ("Failed to send command to device: " ++ message)
                "COMMAND_FAILED" NoCause)
     else ret tt)
    (fun error =>
       throw (AdapterError
                ("Failed to send command to device: " ++ exnMessage error)
                "COMMAND_SEND_FAILED" (Cause error))).

(** [setPowerState] *)
Definition setPowerState (dev : IGoveeDevice) (powerOn : bool) : M unit :=
  let powerState := if powerOn then "on" else "off" in
  sendDeviceCommand dev (turn powerState) ;;;
  updateDevice (d_id (base dev))
    {| u_isOn := Some powerOn; u_brightness := None; u_color := None |}.

(** [setColor] *)
Definition setColor (dev : IGoveeDevice) (hexColor : string) : M unit :=
  match hexToRgb hexColor with
  | None =>
      throw (AdapterError ("Invalid hex color: " ++ hexColor)
               "INVALID_PARAMETER" NoCause)
  | Some rgb =>
      sendDeviceCommand dev (colorCmd rgb) ;;;
      updateDevice (d_id (base dev))
        {| u_isOn := None; u_brightness := None; u_color := Some (Some hexColor) |}
  end.

(** [setBrightness] *)
Definition setBrightness (dev : IGoveeDevice) (brightness : Z) : M unit :=
  let clampedBrightness := Z.max 0 (Z.min 100 brightness) in
  sendDeviceCommand dev (brightnessCmd clampedBrightness) ;;;
  updateDevice (d_id (base dev))
    {| u_isOn := None; u_brightness := Some (Some clampedBrightness);
       u_color := None |}.

(** [refreshDeviceState]: never throws. *)
Definition refreshDeviceState (dev : IGoveeDevice) : M unit :=
  tryCatch
    (let* response :=
       http (GET_devices_state (d_address (base dev)) (d_model (base dev)))
         (onGetState api (d_address (base dev)) (d_model (base dev))) in
     let '(code, _, state) := response in
     if code =? 200 then
       updateDevice (d_id (base dev))
         {| u_isOn := Some (String.eqb (powerState state) "on");
            u_brightness := Some (brightness state);
            u_color := Some (rgbToHex <$> color state) |}
     else ret tt)
    (fun _ => ret tt).

Definition commandTypeName (t : CommandType.t) : string :=
  match t with
  | CommandType.turnOn => "turnOn"
  | CommandType.turnOff => "turnOff"
  | CommandType.setColor => "setColor"
  | CommandType.setBrightness => "setBrightness"
  | CommandType.custom => "custom"
  end.

(** The [switch] of [executeCommand]. *)
Definition dispatchCommand (dev : IGoveeDevice) (command : ILightCommand)
    : M unit :=
  match c_type command with
  | CommandType.turnOn => setPowerState dev true
  | CommandType.turnOff => setPowerState dev false
  | CommandType.setColor =>
      match p_color (c_params command) with
      | Some c =>
          if String.eqb c "" then
            throw (AdapterError "Color parameter is required for setColor command"
                     "INVALID_PARAMETER" NoCause)
          else setColor dev c
      | None =>
          throw (AdapterError "Color parameter is required for setColor command"
                   "INVALID_PARAMETER" NoCause)
      end
  | CommandType.setBrightness =>
      match p_brightness (c_params command) with
      | Some v => setBrightness dev v
      | None =>
          throw (AdapterError
                   "Brightness parameter is required for setBrightness command"
                   "INVALID_PARAMETER" NoCause)
      end
  | CommandType.custom =>
      throw (AdapterError
               ("Unsupported command type: " ++ commandTypeName (c_type command))
               "UNSUPPORTED_COMMAND" NoCause)
  end.

(** [executeCommand] *)
Definition executeCommand (command : ILightCommand) : M unit :=
  validateInitialized ;;;
  validateDeviceId (c_deviceId command) ;;;
  fun st =>
    match devices st !! c_deviceId command with
    | None => (Ok tt, st) (* excluded by [validateDeviceId] *)
    | Some dev =>
        tryCatch
          (dispatchCommand dev command ;;; refreshDeviceState dev)
          (fun error =>
             throw (AdapterError
                      ("Failed to execute command: "
                         ++ commandTypeName (c_type command))
                      "COMMAND_EXECUTION_FAILED" (Cause error)))
          st
    end.

(** The adapter as an [ILightAdapter]; [handleEvent] is the inherited
    default, which only logs. *)
Definition asAdapter : Adapter.ILightAdapter State :=
  {| Adapter.adapterType := "govee";
     Adapter.initialize := initialize;
     Adapter.getDevices := getDevices;
     Adapter.getDevice := getDevice;
     Adapter.executeCommand := executeCommand;
     Adapter.handleEvent := fun _ st => (Ok tt, st) |}.

(** Every cache entry is filed under the id of the device it holds. *)
Definition cacheKeyed (st : State) : Prop :=
  forall k d, devices st !! k = Some d -> d_id (base d) = k.

Definition keepsCacheKeyed {A} (c : M A) : Prop :=
  forall st, cacheKeyed st -> cacheKeyed (snd (c st)).

(** What [validateInitialized] throws. *)
Definition notInitialized : Exn :=
  AdapterError "Adapter not initialized. Call initialize() first."
    "NOT_INITIALIZED" NoCause.

(** [createGoveeAdapter] *)
Definition create (cloud : R) : State :=
  {| isInitialized := false; devices := ∅; remote := cloud; requests := [] |}.

(** What the [switch] of [executeCommand] asks for: the [cmd] object
    that is sent and the update made to the cached device once the cloud
    has accepted it.  [None] stands for the commands the [switch] throws
    on before anything is sent: a missing or empty colour, a colour
    [hexToRgb] rejects, a missing brightness, an unsupported type. *)
Definition requestOf (command : ILightCommand) : option (GoveeCmd * Updates) :=
  match c_type command with
  | CommandType.turnOn =>
      Some (turn "on",
            {| u_isOn := Some true; u_brightness := None; u_color := None |})
  | CommandType.turnOff =>
      Some (turn "off",
            {| u_isOn := Some false; u_brightness := None; u_color := None |})
  | CommandType.setColor =>
      match p_color (c_params command) with
      | Some c =>
          if String.eqb c "" then None
          else match hexToRgb c with
               | Some rgb =>
                   Some (colorCmd rgb,
                         {| u_isOn := None; u_brightness := None;
                            u_color := Some (Some c) |})
               | None => None
               end
      | None => None
      end
  | CommandType.setBrightness =>
      match p_brightness (c_params command) with
      | Some v =>
          Some (brightnessCmd (Z.max 0 (Z.min 100 v)),
                {| u_isOn := None;
                   u_brightness := Some (Some (Z.max 0 (Z.min 100 v)));
                   u_color := None |})
      | None => None
      end
  | CommandType.custom => None
  end.

(** The update [refreshDeviceState] makes from the reported properties. *)
Definition reported (state : Properties) : Updates :=
  {| u_isOn := Some (String.eqb (powerState state) "on");
     u_brightness := Some (brightness state);
     u_color := Some (rgbToHex <$> color state) |}.

(** ** Runs of the adapter

    The calls of its public methods, in any order, with the cloud free to
    change in between. *)
Inductive Op :=
| Initialize
| GetDevices
| GetDevice (deviceId : string)
| ExecuteCommand (command : ILightCommand)
| CloudChanges (f : R -> R).

Definition exec (st : State) (op : Op) : State :=
  match op with
  | Initialize => snd (initialize st)
  | GetDevices => snd (getDevices st)
  | GetDevice deviceId => snd (getDevice deviceId st)
  | ExecuteCommand command => snd (executeCommand command st)
  | CloudChanges f =>
      {| isInitialized := isInitialized st; devices := devices st;
         remote := f (remote st); requests := requests st |}
  end.

Definition run (ops : list Op) (st : State) : State := fold_left exec ops st.

(** A cache entry as [mapToDevice] files it: under the device's id, which
    is also the address control requests are sent to. *)
Definition filed (k : string) (d : IGoveeDevice) : Prop :=
  d_id (base d) = k /\ d_address (base d) = k /\ d_brand (base d) = "govee"
  /\ d_type (base d) = "light" /\ version d = "1.0".

Definition wellFiled (st : State) : Prop :=
  forall k d, devices st !! k = Some d -> filed k d.

Definition keeps {A} (I : State -> Prop) (c : M A) : Prop :=
  forall st, I st -> I (snd (c st)).

End WithRemote.
Arguments State R : clear implicits.
Arguments keepsCacheKeyed R {A} c.
Arguments Op R : clear implicits.
Arguments keeps {R A} I c.
End GoveeAdapter.

(* ===================================================================== *)
(** * PhilipsHueAdapter ([philips-hue/hue-adapter.ts])                    *)
(* ===================================================================== *)

(** The adapter for a Philips Hue bridge.  Its colour conversions between
    CIE xy coordinates, colour temperatures and hex strings ([rgbToXy],
    [xyBriToHex], [ctToHex] with the two gamma corrections) are
    floating-point computations with [Math.pow] and [Math.log]; they are
    not modelled but taken as given functions over a type [F] of
    floating-point numbers, and nothing below depends on what they
    compute.  The two brightness conversions are modelled: for an integer
    [b], [Math.round((b / 100) * 254)] is [b * 254 / 100] rounded to the
    nearest integer, halves upwards (the quotient is exact in floating
    point where it is a half, and elsewhere it is at least 1/50 away from
    one), and [Math.round((bri / 254) * 100)] likewise (it is never a
    half).  As for the Govee adapter, logger calls are left out. *)
Module PhilipsHueAdapter.

(** [Math.round((brightness / 100) * 254)] *)
Definition toBri (brightness : Z) : Z := (brightness * 254 + 50) / 100.

(** [Math.round((bri / 254) * 100)] *)
Definition fromBri (bri : Z) : Z := (bri * 100 + 127) / 254.

Section WithFloats.
Context {F : Type}.

(** The colour conversions that are not modelled. *)
Record ColourMath := {
  rgbToXy : Z -> Z -> Z -> F * F;
  xyBriToHex : F -> F -> Z -> string;
  ctToHex : Z -> string;
}.

(** [IHueDeviceState], the fields the adapter reads. *)
Record IHueDeviceState := {
  on : bool;
  bri : option Z;
  xy : option (F * F);
  ct : option Z;
  reachable : bool;
}.

(** [IHueDeviceInfo], the fields the adapter reads. *)
Record IHueDeviceInfo := {
  state : IHueDeviceState;
  name : string;
  modelid : string;
  uniqueid : string;
}.

(** The [Partial<IHueDeviceState>] that [executeCommand] builds. *)
Record StateUpdate := {
  su_on : option bool;
  su_bri : option Z;
  su_xy : option (F * F);
  su_colormode : option string;
}.

(** [IHueBridgeConfig], the fields the adapter reads. *)
Record IHueBridgeConfig := {
  bc_name : string;
  bc_modelid : string;
  bc_apiversion : string;
}.

(** One element of the answer to [POST /api]. *)
Record CreateUserResult := {
  success : option string;          (* success.username *)
  error : option (Z * string);      (* error.type, error.description *)
}.

Inductive HttpRequest :=
| GET_config
| POST_api (devicetype : string)
| GET_lights (username : string)
| GET_light (username deviceId : string)
| PUT_state (username deviceId : string) (update : StateUpdate).

(** What an axios call settles with: the response body of a 2xx response,
    a rejection that carries the response of another status, or a
    rejection without a response; the last two with the error's message. *)
Inductive HttpReply (T : Type) :=
| Data (data : T)
| Refused (status : Z) (message : string)
| Unreachable (message : string).
Arguments Data {T} data.
Arguments Refused {T} status message.
Arguments Unreachable {T} message.

(** The bridge as seen through the endpoints the adapter uses; [B] is its
    state.  The lights of [GET /api/<username>/lights] come in the order
    of [Object.entries]. *)
Record Bridge (B : Type) := {
  onGetConfig : B -> HttpReply IHueBridgeConfig * B;
  onCreateUser : string -> B -> HttpReply (list CreateUserResult) * B;
  onGetLights : string -> B -> HttpReply (list (string * IHueDeviceInfo)) * B;
  onGetLight : string -> string -> B -> HttpReply IHueDeviceInfo * B;
  onPutState : string -> string -> StateUpdate -> B -> HttpReply unit * B;
}.
Arguments onGetConfig {B} _ _.
Arguments onCreateUser {B} _ _ _.
Arguments onGetLights {B} _ _ _.
Arguments onGetLight {B} _ _ _ _.
Arguments onPutState {B} _ _ _ _ _.

Variable colours : ColourMath.

(** [mapToDevice]; a [bri] or [ct] of 0 counts as absent. *)
Definition mapToDevice (id : string) (deviceInfo : IHueDeviceInfo) : IDevice :=
  let truthy (v : option Z) : option Z :=
    match v with
    | Some n => if n =? 0 then None else Some n
    | None => None
    end in
  let color :=
    match xy (state deviceInfo) with
    | Some (x, y) =>
        Some (xyBriToHex colours x y (default 254 (truthy (bri (state deviceInfo)))))
    | None => ctToHex colours <$> truthy (ct (state deviceInfo))
    end in
  {| d_id := id;
     d_name := name deviceInfo;
     d_type := "light";
     d_brand := "philips";
     d_model := modelid deviceInfo;
     d_address := uniqueid deviceInfo;
     d_isOn := on (state deviceInfo);
     d_brightness := fromBri <$> truthy (bri (state deviceInfo));
     d_color := color;
     d_isReachable := reachable (state deviceInfo) |}.

Section WithBridge.
Context {B : Type}.
Variable api : Bridge B.

(** The fields of [BaseLightAdapter] and of the class, the bridge behind
    the HTTP client, and the requests issued so far, oldest first. *)
Record State := {
  isInitialized : bool;
  devices : gmap string IDevice;
  username : option string;
  authenticated : bool;
  bridge : B;
  requests : list HttpRequest;
}.

Definition M (A : Type) : Type := State -> Result A * State.

Definition ret {A} (a : A) : M A := fun st => (Ok a, st).
Definition throw {A} (e : Exn) : M A := fun st => (Throw e, st).
Definition bind {A C} (c : M A) (k : A -> M C) : M C :=
  fun st =>
    match c st with
    | (Ok a, st') => k a st'
    | (Throw e, st') => (Throw e, st')
    end.
Definition tryCatch {A} (c : M A) (h : Exn -> M A) : M A :=
  fun st =>
    match c st with
    | (Ok a, st') => (Ok a, st')
    | (Throw e, st') => h e st'
    end.

Notation "'let*' x ':=' c 'in' k" := (bind c (fun x => k))
  (at level 10, x name, c at level 100, k at level 200).
Notation "c ;;; k" := (bind c (fun _ => k))
  (at level 90, right associativity).

Definition setIsInitialized (v : bool) : M unit :=
  fun st => (Ok tt, {| isInitialized := v; devices := devices st;
                       username := username st;
                       authenticated := authenticated st;
                       bridge := bridge st; requests := requests st |}).

Definition setDevices (m : gmap string IDevice) : M unit :=
  fun st => (Ok tt, {| isInitialized := isInitialized st; devices := m;
                       username := username st;
                       authenticated := authenticated st;
                       bridge := bridge st; requests := requests st |}).

(** [this.username = name; this.authenticated = true] *)
Definition setUser (name : string) : M unit :=
  fun st => (Ok tt, {| isInitialized := isInitialized st; devices := devices st;
                       username := Some name; authenticated := true;
                       bridge := bridge st; requests := requests st |}).

(** One HTTP exchange: the request is recorded and the bridge answers. *)
Definition http {T} (req : HttpRequest) (serve : B -> HttpReply T * B)
    : State -> HttpReply T * State :=
  fun st =>
    let '(reply, bridge') := serve (bridge st) in
    (reply, {| isInitialized := isInitialized st; devices := devices st;
               username := username st; authenticated := authenticated st;
               bridge := bridge'; requests := requests st ++ [req] |}).

(** An exchange inside a [try] block: a rejection is thrown. *)
Definition await {T} (req : HttpRequest) (serve : B -> HttpReply T * B) : M T :=
  fun st =>
    match http req serve st with
    | (Data data, st') => (Ok data, st')
    | (Refused _ message, st') => (Throw (Error message), st')
    | (Unreachable message, st') => (Throw (Error message), st')
    end.

(** A username that counts as present: [this.username] used as a
    condition is false for the empty string as for [undefined]. *)
Definition currentUser (st : State) : option string :=
  match username st with
  | Some name => if String.eqb name "" then None else Some name
  | None => None
  end.

Definition notInitialized : Exn :=
  AdapterError "Adapter not initialized. Call initialize() first."
    "NOT_INITIALIZED" NoCause.

Definition notAuthenticated : Exn :=
  AdapterError "Not authenticated. Call createUser() first."
    "NOT_AUTHENTICATED" NoCause.

(** [validateInitialized], [validateDeviceId] of [BaseLightAdapter] *)
Definition validateInitialized : M unit :=
  fun st => if isInitialized st then (Ok tt, st) else (Throw notInitialized, st).

Definition validateDeviceId (deviceId : string) : M unit :=
  fun st =>
    match devices st !! deviceId with
    | Some _ => (Ok tt, st)
    | None => (Throw (AdapterError ("Device with ID '" ++ deviceId ++ "' not found")
                        "DEVICE_NOT_FOUND" NoCause), st)
    end.

(** [if (!this.username) throw ...], handing on the username. *)
Definition requireUser : M string :=
  fun st =>
    match currentUser st with
    | Some name => (Ok name, st)
    | None => (Throw notAuthenticated, st)
    end.

(** [getBridgeConfig] *)
Definition getBridgeConfig : M IHueBridgeConfig :=
  tryCatch
    (await GET_config (onGetConfig api))
    (fun error =>
       throw (AdapterError "Failed to get bridge configuration"
                "BRIDGE_CONFIG_FAILED" (Cause error))).

(** [getDevices] *)
Definition getDevices : M (list IDevice) :=
  validateInitialized ;;;
  let* name := requireUser in
  tryCatch
    (let* lights := await (GET_lights name) (onGetLights api name) in
     let found := map (fun entry => mapToDevice (fst entry) (snd entry)) lights in
     (fun st => setDevices (fold_left (fun m d => <[d_id d := d]> m) found
                              (devices st)) st) ;;;
     ret found)
    (fun error =>
       throw (AdapterError "Failed to get devices from Philips Hue bridge"
                "DEVICE_FETCH_FAILED" (Cause error))).

(** [initialize] *)
Definition initialize : M unit :=
  fun st =>
    if isInitialized st then (Ok tt, st)
    else
      tryCatch
        (setIsInitialized false ;;;
         getBridgeConfig ;;;
         (fun st' =>
            match currentUser st' with
            | Some _ => (getDevices ;;; ret tt) st'
            | None => (Ok tt, st')
            end) ;;;
         setIsInitialized true)
        (fun error =>
           setIsInitialized false ;;;
           throw (AdapterError
                    ("Failed to initialize Philips Hue adapter: " ++ exnMessage error)
                    "INITIALIZATION_FAILED" (Cause error)))
        st.

(** What [result.success] of an empty answer throws. *)
Definition noResult : Exn :=
  Error "Cannot read properties of undefined (reading 'success')".

(** [createUser] *)
Definition createUser (deviceType : string) : M string :=
  tryCatch
    (let* results := await (POST_api deviceType) (onCreateUser api deviceType) in
     match head results with
     | None => throw noResult
     | Some result =>
         match success result with
         | Some name => setUser name ;;; ret name
         | None =>
             match error result with
             | Some (type, description) =>
                 if type =? 101 then
                   throw (AdapterError
                            "Link button not pressed. Please press the link button on the Philips Hue bridge and try again."
                            "LINK_BUTTON_NOT_PRESSED" NoCause)
                 else
                   throw (AdapterError ("Failed to create user: " ++ description)
                            "USER_CREATION_FAILED" NoCause)
             | None =>
                 throw (AdapterError "Unexpected response from Philips Hue bridge"
                          "UNEXPECTED_RESPONSE" NoCause)
             end
         end
     end)
    (fun error =>
       throw (AdapterError "Failed to create user on Philips Hue bridge"
                "USER_CREATION_FAILED" (Cause error))).

(** [getDevice]: of the rejections of the request, the one with status
    404 is answered with [null]. *)
Definition getDevice (deviceId : string) : M (option IDevice) :=
  validateInitialized ;;;
  let* name := requireUser in
  fun st =>
    match devices st !! deviceId with
    | Some d => (Ok (Some d), st)
    | None =>
        let failed message :=
          AdapterError ("Failed to get device " ++ deviceId
                          ++ " from Philips Hue bridge: " ++ message)
            "DEVICE_FETCH_FAILED" (Cause (Error message)) in
        match http (GET_light name deviceId) (onGetLight api name deviceId) st with
        | (Data info, st') =>
            let d := mapToDevice deviceId info in
            (Ok (Some d),
             {| isInitialized := isInitialized st';
                devices := <[d_id d := d]> (devices st');
                username := username st'; authenticated := authenticated st';
                bridge := bridge st'; requests := requests st' |})
        | (Refused status message, st') =>
            if status =? 404 then (Ok None, st')
            else (Throw (failed message), st')
        | (Unreachable message, st') => (Throw (failed message), st')
        end
    end.

(** [setLightState] *)
Definition setLightState (deviceId : string) (update : StateUpdate) : M unit :=
  let* name := (fun st => (Ok (default "undefined" (username st)), st)) in
  tryCatch
    (await (PUT_state name deviceId update) (onPutState api name deviceId update))
    (fun error =>
       throw (AdapterError "Failed to set light state" "SET_STATE_FAILED"
                (Cause error))).

Definition commandTypeName (t : CommandType.t) : string :=
  match t with
  | CommandType.turnOn => "turnOn"
  | CommandType.turnOff => "turnOff"
  | CommandType.setColor => "setColor"
  | CommandType.setBrightness => "setBrightness"
  | CommandType.custom => "custom"
  end.

Definition noUpdate : StateUpdate :=
  {| su_on := None; su_bri := None; su_xy := None; su_colormode := None |}.

(** The [switch] of [executeCommand]: the state to send, or the error
    thrown instead.  [hexToRgb] is the method of the Govee adapter, word
    for word. *)
Definition stateFor (command : ILightCommand) : Result StateUpdate :=
  match c_type command with
  | CommandType.turnOn =>
      Ok {| su_on := Some true; su_bri := None; su_xy := None;
            su_colormode := None |}
  | CommandType.turnOff =>
      Ok {| su_on := Some false; su_bri := None; su_xy := None;
            su_colormode := None |}
  | CommandType.setColor =>
      let required :=
        AdapterError "Color parameter is required for setColor command"
          "INVALID_PARAMETER" NoCause in
      match p_color (c_params command) with
      | Some c =>
          if String.eqb c "" then Throw required
          else match GoveeAdapter.hexToRgb c with
               | Some rgb =>
                   Ok {| su_on := Some true; su_bri := None;
                         su_xy := Some (rgbToXy colours (GoveeAdapter.r rgb)
                                          (GoveeAdapter.g rgb) (GoveeAdapter.b rgb));
                         su_colormode := Some "xy" |}
               | None =>
                   Throw (AdapterError ("Invalid hex color: " ++ c)
                            "INVALID_PARAMETER" NoCause)
               end
      | None => Throw required
      end
  | CommandType.setBrightness =>
      match p_brightness (c_params command) with
      | Some v =>
          Ok {| su_on := Some (0 <? v);
                su_bri := Some (Z.max 0 (Z.min 254 (toBri v)));
                su_xy := None; su_colormode := None |}
      | None =>
          Throw (AdapterError
                   "Brightness parameter is required for setBrightness command"
                   "INVALID_PARAMETER" NoCause)
      end
  | CommandType.custom =>
      Throw (AdapterError
               ("Unsupported command type: " ++ commandTypeName (c_type command))
               "UNSUPPORTED_COMMAND" NoCause)
  end.

(** The three assignments to [device] after the state has been sent. *)
Definition updateLocal (device : IDevice) (update : StateUpdate)
    (command : ILightCommand) : IDevice :=
  let colorGiven :=
    match p_color (c_params command) with
    | Some c => if String.eqb c "" then None else Some c
    | None => None
    end in
  {| d_id := d_id device; d_name := d_name device; d_type := d_type device;
     d_brand := d_brand device; d_model := d_model device;
     d_address := d_address device;
     d_isOn := default (d_isOn device) (su_on update);
     d_brightness :=
       match su_bri update with
       | Some v => Some (fromBri v)
       | None => d_brightness device
       end;
     d_color :=
       match su_xy update, colorGiven with
       | Some _, Some c => Some c
       | _, _ => d_color device
       end;
     d_isReachable := d_isReachable device |}.

(** [executeCommand]; [device] is the cached object, which the
    assignments change in place. *)
Definition executeCommand (command : ILightCommand) : M unit :=
  validateInitialized ;;;
  validateDeviceId (c_deviceId command) ;;;
  requireUser ;;;
  fun st =>
    match devices st !! c_deviceId command with
    | None => (Ok tt, st) (* excluded by [validateDeviceId] *)
    | Some device =>
        tryCatch
          (let* update := (fun st' => (stateFor command, st')) in
           setLightState (c_deviceId command) update ;;;
           fun st' =>
             setDevices (<[c_deviceId command := updateLocal device update command]>
                           (devices st')) st')
          (fun error =>
             throw (AdapterError
                      ("Failed to execute command: "
                         ++ commandTypeName (c_type command))
                      "COMMAND_EXECUTION_FAILED" (Cause error)))
          st
    end.

(** The adapter as an [ILightAdapter]; [handleEvent] is the inherited
    default, which only logs. *)
Definition asAdapter : Adapter.ILightAdapter State :=
  {| Adapter.adapterType := "philips-hue";
     Adapter.initialize := initialize;
     Adapter.getDevices := getDevices;
     Adapter.getDevice := getDevice;
     Adapter.executeCommand := executeCommand;
     Adapter.handleEvent := fun _ st => (Ok tt, st) |}.

(** [createPhilipsHueAdapter]: [authenticated] is [!!config.username]. *)
Definition create (configUsername : option string) (b : B) : State :=
  {| isInitialized := false; devices := ∅; username := configUsername;
     authenticated :=
       match configUsername with
       | Some name => negb (String.eqb name "")
       | None => false
       end;
     bridge := b; requests := [] |}.

(** ** Runs of the adapter: calls of its public methods, in any order,
    with the bridge free to change in between. *)
Inductive Op :=
| Initialize
| CreateUser (deviceType : string)
| GetBridgeConfig
| GetDevices
| GetDevice (deviceId : string)
| ExecuteCommand (command : ILightCommand)
| BridgeChanges (f : B -> B).

Definition exec (st : State) (op : Op) : State :=
  match op with
  | Initialize => snd (initialize st)
  | CreateUser deviceType => snd (createUser deviceType st)
  | GetBridgeConfig => snd (getBridgeConfig st)
  | GetDevices => snd (getDevices st)
  | GetDevice deviceId => snd (getDevice deviceId st)
  | ExecuteCommand command => snd (executeCommand command st)
  | BridgeChanges f =>
      {| isInitialized := isInitialized st; devices := devices st;
         username := username st; authenticated := authenticated st;
         bridge := f (bridge st); requests := requests st |}
  end.

Definition run (ops : list Op) (st : State) : State := fold_left exec ops st.

(** The usernames the bridge hands out are not empty. *)
Definition issuesNames : Prop :=
  forall deviceType b results b' result,
    onCreateUser api deviceType b = (Data results, b') ->
    head results = Some result -> success result <> Some "".

End WithBridge.
End WithFloats.
Arguments ColourMath F : clear implicits.
Arguments Bridge F B : clear implicits.
Arguments State F B : clear implicits.
Arguments Op B : clear implicits.
Arguments Data {T} data.
Arguments Refused {T} status message.
Arguments Unreachable {T} message.
Arguments onGetConfig {F B} _ _.
Arguments onCreateUser {F B} _ _ _.
Arguments onGetLights {F B} _ _ _.
Arguments onGetLight {F B} _ _ _ _.
Arguments onPutState {F B} _ _ _ _ _.
End PhilipsHueAdapter.

(* ===================================================================== *)
(** * ProfileSyncService.syncAll ([services/sync/profile-sync.service.ts]) *)
(* ===================================================================== *)

Module ProfileSyncService.

(** The three calls awaited in the [try] block of [syncAll]. *)
Inductive SyncStep :=
| syncProfileFromDivina
| syncGameStateFromGameDin
| applyPendingUpdates.

(** [isSyncing], the log, and the invocations of [syncAll] that are
    suspended at an [await], each with the call it is waiting for. *)
Record State := {
  isSyncing : bool;
  inFlight : list SyncStep;
  logs : list LogLine;
}.

Definition initial : State :=
  {| isSyncing := false; inFlight := []; logs := [] |}.

Definition log (lvl : LogLevel) (msg : string) (st : State) : State :=
  {| isSyncing := isSyncing st; inFlight := inFlight st;
     logs := logs st ++ [(lvl, msg)] |}.

Definition setIsSyncing (v : bool) (st : State) : State :=
  {| isSyncing := v; inFlight := inFlight st; logs := logs st |}.

Definition setInFlight (l : list SyncStep) (st : State) : State :=
  {| isSyncing := isSyncing st; inFlight := l; logs := logs st |}.

(** The synchronous part of each awaited call: the placeholder bodies
    only write a debug line. *)
Definition stepMessage (s : SyncStep) : string :=
  match s with
  | syncProfileFromDivina => "Syncing profile from Divina-L3"
  | syncGameStateFromGameDin => "Syncing game state from GameDin"
  | applyPendingUpdates => "Applying pending updates"
  end.

Definition begin (s : SyncStep) (st : State) : State :=
  log LDebug (stepMessage s) st.

(** [finally { this.isSyncing = false }] *)
Definition finally (st : State) : State := setIsSyncing false st.

(** A call of [syncAll] (a tick of the interval timer, or a direct call),
    run up to its first [await]. *)
Definition syncAll (st : State) : State :=
  if isSyncing st then log LDebug "Sync already in progress" st
  else
    let st1 := log LDebug "Starting sync..." (setIsSyncing true st) in
    let st2 := begin syncProfileFromDivina st1 in
    setInFlight (inFlight st2 ++ [syncProfileFromDivina]) st2.

(** The suspended invocation number [i] is resumed with the outcome [r]
    of the call it awaits, and runs up to its next [await] or to its end. *)
Definition resume (i : nat) (r : Result unit) (st : State) : State :=
  match inFlight st !! i with
  | None => st
  | Some awaited =>
      match r with
      | Throw _ =>
          finally (log LError "Sync failed"
                     (setInFlight (delete i (inFlight st)) st))
      | Ok _ =>
          match awaited with
          | syncProfileFromDivina =>
              setInFlight (<[i := syncGameStateFromGameDin]> (inFlight st))
                (begin syncGameStateFromGameDin st)
          | syncGameStateFromGameDin =>
              setInFlight (<[i := applyPendingUpdates]> (inFlight st))
                (begin applyPendingUpdates st)
          | applyPendingUpdates =>
              finally (log LDebug "Sync completed successfully"
                         (setInFlight (delete i (inFlight st)) st))
          end
      end
  end.

(** What can happen to the service as far as [syncAll] is concerned. *)
Inductive step : State -> State -> Prop :=
| step_tick st : step st (syncAll st)
| step_resume st i r : (i < length (inFlight st))%nat -> step st (resume i r st).

Inductive reachable : State -> Prop :=
| reachable_initial : reachable initial
| reachable_step st st' : reachable st -> step st st' -> reachable st'.

(** The lines the sync steps write. *)
Definition isStepLine (l : LogLine) : Prop :=
  l.2 ∈ stepMessage <$>
          [syncProfileFromDivina; syncGameStateFromGameDin; applyPendingUpdates].

#[global] Instance isStepLine_dec l : Decision (isStepLine l).
Proof. unfold isStepLine. apply _. Defined.

(** The flag is set exactly while one invocation is in flight, and there
    is never more than one. *)
Definition guarded (st : State) : Prop :=
  (isSyncing st = true /\ length (inFlight st) = 1%nat)
  \/ (isSyncing st = false /\ inFlight st = []).

End ProfileSyncService.

(* ===================================================================== *)
(** * ProfileSyncService: the sync interval and the event handlers        *)
(* ===================================================================== *)

(** The rest of [ProfileSyncService]: [startSync], [stopSync], [dispose]
    and the handlers of adapter events with [applyProfile],
    [applyGameProfile] and [applyTemporaryEffect].  The handlers contain
    no call that waits for anything, so each runs to completion.  What the
    interval timer does on a tick is [syncAll], modelled above; here the
    timer is only set and cleared.  Of an environment profile the fields
    [activeRitual], [deviceOverrides], [createdAt] and [updatedAt], which
    the service only copies along, are left out. *)
Module ProfileSyncEvents.

(** [IAmbientLighting], with the [duration] that the lighting of a
    temporary effect carries and that the spread in
    [applyTemporaryEffect] copies into the profile. *)
Record IAmbientLighting := {
  l_color : option string;
  l_brightness : option Z;
  l_effect : option string;
  l_effectSpeed : option Z;
  l_transition : option Z;
  l_duration : option Z;
}.

Record IAmbientSound := {
  trackId : option string;
  volume : option Z;
  loop : option bool;
  fade : option Z;
}.

Record IEmotionalState := {
  primary : string;
  secondary : option string;
  intensity : Z;
}.

(** [IEnvironmentProfile].  [applyGameProfile] builds a profile by
    spreading the active one, which may be [null], under a cast: [id],
    [userId] and [active] can therefore be missing. *)
Record IEnvironmentProfile := {
  p_id : option string;
  p_userId : option string;
  p_name : string;
  p_active : option bool;
  p_lighting : IAmbientLighting;
  p_sound : option IAmbientSound;
  p_mood : IEmotionalState;
}.

(** The [lighting] object of a temporary effect: a key that is absent is
    [None]; a key that is present carries its value. *)
Record EffectLighting := {
  el_color : option (option string);
  el_brightness : option (option Z);
  el_effect : option (option string);
  el_duration : option (option Z);
}.

(** The argument of [applyTemporaryEffect]. *)
Record TemporaryEffect := {
  te_lighting : option EffectLighting;
  te_duration : option Z;
}.

(** [{ ...lighting, ...effectLighting }] *)
Definition overlay (lighting : IAmbientLighting) (e : EffectLighting)
    : IAmbientLighting :=
  {| l_color := default (l_color lighting) (el_color e);
     l_brightness := default (l_brightness lighting) (el_brightness e);
     l_effect := default (l_effect lighting) (el_effect e);
     l_effectSpeed := l_effectSpeed lighting;
     l_transition := l_transition lighting;
     l_duration := default (l_duration lighting) (el_duration e) |}.

(** A number used as a condition: 0 counts as absent. *)
Definition truthy (v : option Z) : option Z :=
  match v with
  | Some n => if n =? 0 then None else Some n
  | None => None
  end.

(** [effect.duration || effect.lighting?.duration || 5000] *)
Definition durationOf (effect : TemporaryEffect) : Z :=
  match truthy (te_duration effect) with
  | Some d => d
  | None =>
      match te_lighting effect with
      | Some l => default 5000 (truthy (default None (el_duration l)))
      | None => 5000
      end
  end.

(** What [emit] is called with. *)
Inductive Payload :=
| ProfilePayload (profile : IEnvironmentProfile)
| DataPayload (data : string).

(** A timer set by [applyTemporaryEffect]: its handle, the profile its
    callback closes over, and the delay. *)
Record Timeout := {
  to_handle : nat;
  to_original : IEnvironmentProfile;
  to_delay : Z;
}.

(** The fields of the class and the part of the runtime it acts on: the
    interval timers that are running, each with its period, and the
    timeouts that are pending. *)
Record State := {
  activeProfile : option IEnvironmentProfile;
  syncInterval : option nat;
  intervals : list (nat * Z);
  timeouts : list Timeout;
  nextHandle : nat;
  emitted : list (string * Payload);
  logs : list LogLine;
}.

Definition initial : State :=
  {| activeProfile := None; syncInterval := None; intervals := [];
     timeouts := []; nextHandle := 0%nat; emitted := []; logs := [] |}.

Definition log (lvl : LogLevel) (msg : string) (st : State) : State :=
  {| activeProfile := activeProfile st; syncInterval := syncInterval st;
     intervals := intervals st; timeouts := timeouts st;
     nextHandle := nextHandle st; emitted := emitted st;
     logs := logs st ++ [(lvl, msg)] |}.

Definition emit (event : string) (payload : Payload) (st : State) : State :=
  {| activeProfile := activeProfile st; syncInterval := syncInterval st;
     intervals := intervals st; timeouts := timeouts st;
     nextHandle := nextHandle st;
     emitted := emitted st ++ [(event, payload)]; logs := logs st |}.

Definition setActiveProfile (p : option IEnvironmentProfile) (st : State)
    : State :=
  {| activeProfile := p; syncInterval := syncInterval st;
     intervals := intervals st; timeouts := timeouts st;
     nextHandle := nextHandle st; emitted := emitted st; logs := logs st |}.

(** [clearInterval(handle)] *)
Definition clearInterval (h : nat) (st : State) : State :=
  {| activeProfile := activeProfile st; syncInterval := syncInterval st;
     intervals := filter (fun t => t.1 ≠ h) (intervals st);
     timeouts := timeouts st; nextHandle := nextHandle st;
     emitted := emitted st; logs := logs st |}.

(** [startSync] *)
Definition startSync (interval : Z) (st : State) : State :=
  let st1 := match syncInterval st with
             | Some h => clearInterval h st
             | None => st
             end in
  let h := nextHandle st1 in
  log LInfo ("Started syncing every " ++ pretty interval ++ "ms")
    {| activeProfile := activeProfile st1; syncInterval := Some h;
       intervals := intervals st1 ++ [(h, interval)];
       timeouts := timeouts st1; nextHandle := Datatypes.S h;
       emitted := emitted st1; logs := logs st1 |}.

(** [stopSync] *)
Definition stopSync (st : State) : State :=
  match syncInterval st with
  | Some h =>
      let st1 := clearInterval h st in
      log LInfo "Stopped syncing"
        {| activeProfile := activeProfile st1; syncInterval := None;
           intervals := intervals st1; timeouts := timeouts st1;
           nextHandle := nextHandle st1; emitted := emitted st1;
           logs := logs st1 |}
  | None => st
  end.

(** [dispose] *)
Definition dispose (st : State) : State :=
  log LInfo "Profile sync service disposed"
    (stopSync (log LInfo "Disposing profile sync service..." st)).

(** [initialize], given how the [initialize] calls of the two adapters
    that [Promise.all] waits for turn out. *)
Definition initialize (divina gameDin : Result unit) (st : State)
    : Result unit * State :=
  let st1 := log LInfo "Initializing profile sync service..." st in
  match divina, gameDin with
  | Ok _, Ok _ =>
      (Ok tt, log LInfo "Profile sync service initialized" (startSync 30000 st1))
  | Throw e, _ | Ok _, Throw e =>
      (Throw e, log LError "Failed to initialize profile sync service" st1)
  end.

(** [applyProfile] *)
Definition applyProfile (profile : IEnvironmentProfile) (st : State) : State :=
  let st1 := log LInfo ("Applying profile: " ++ p_name profile) st in
  let st2 := log LDebug "Applying lighting settings" st1 in
  let st3 := match p_sound profile with
             | Some _ => log LDebug "Applying sound settings" st2
             | None => st2
             end in
  emit "profile:applied" (ProfilePayload profile)
    (setActiveProfile (Some profile) st3).

(** [handleDivinaProfileUpdate], from the point where [fromDivinaProfile]
    has converted the profile. *)
Definition profileConverted (envProfile : IEnvironmentProfile) (st : State)
    : State :=
  let st1 := applyProfile envProfile (setActiveProfile (Some envProfile) st) in
  log LInfo "Updated active profile"
    (emit "profile:updated" (ProfilePayload envProfile) st1).

(** [handleRoomUpdate] *)
Definition handleRoomUpdate (room : string) (st : State) : State :=
  emit "room:updated" (DataPayload room) (log LDebug "Room updated" st).

(** The profile [applyGameProfile] builds:
    [{ ...(activeProfile || {}), ...gameProfile, name }]. *)
Definition gameProfile (profileName : string)
    (active : option IEnvironmentProfile) : IEnvironmentProfile :=
  {| p_id := active ≫= p_id;
     p_userId := active ≫= p_userId;
     p_name := "Game: " ++ profileName;
     p_active := active ≫= p_active;
     p_lighting := {| l_color := Some "#1E90FF"; l_brightness := Some 80;
                      l_effect := Some "breathing"; l_effectSpeed := Some 60;
                      l_transition := None; l_duration := None |};
     p_sound := active ≫= p_sound;
     p_mood := {| primary := "focused"; secondary := None; intensity := 80 |} |}.

(** [applyGameProfile] *)
Definition applyGameProfile (profileName : string) (st : State) : State :=
  let st1 := log LInfo ("Applying game profile: " ++ profileName) st in
  applyProfile (gameProfile profileName (activeProfile st1)) st1.

(** The profile with the lighting of a temporary effect laid over its
    own. *)
Definition withEffect (profile : IEnvironmentProfile) (effect : TemporaryEffect)
    : IEnvironmentProfile :=
  {| p_id := p_id profile; p_userId := p_userId profile;
     p_name := p_name profile; p_active := p_active profile;
     p_lighting :=
       match te_lighting effect with
       | Some l => overlay (p_lighting profile) l
       | None => p_lighting profile
       end;
     p_sound := p_sound profile; p_mood := p_mood profile |}.

(** [applyTemporaryEffect] *)
Definition applyTemporaryEffect (effect : TemporaryEffect) (st : State) : State :=
  match activeProfile st with
  | None => st
  | Some originalProfile =>
      let st1 := applyProfile (withEffect originalProfile effect) st in
      {| activeProfile := activeProfile st1; syncInterval := syncInterval st1;
         intervals := intervals st1;
         timeouts := timeouts st1 ++
                     [{| to_handle := nextHandle st1;
                         to_original := originalProfile;
                         to_delay := durationOf effect |}];
         nextHandle := Datatypes.S (nextHandle st1);
         emitted := emitted st1; logs := logs st1 |}
  end.

(** A pending timeout comes due: its callback applies the profile it
    closed over. *)
Definition fireTimeout (h : nat) (st : State) : State :=
  match find (fun t => bool_decide (to_handle t = h)) (timeouts st) with
  | None => st
  | Some t =>
      applyProfile (to_original t)
        {| activeProfile := activeProfile st; syncInterval := syncInterval st;
           intervals := intervals st;
           timeouts := filter (fun t' => to_handle t' ≠ h) (timeouts st);
           nextHandle := nextHandle st; emitted := emitted st;
           logs := logs st |}
  end.

(** The two effects of [handleGameDinEvent]. *)
Definition victoryEffect : TemporaryEffect :=
  {| te_lighting := Some {| el_color := Some (Some "#FFFF00");
                            el_brightness := None;
                            el_effect := Some (Some "pulse");
                            el_duration := Some (Some 5000) |};
     te_duration := None |}.

Definition defeatEffect : TemporaryEffect :=
  {| te_lighting := Some {| el_color := Some (Some "#FF0000");
                            el_brightness := None;
                            el_effect := Some (Some "flicker");
                            el_duration := Some (Some 3000) |};
     te_duration := None |}.

(** [handleGameDinEvent]; the call of [syncProfileFromDivina] for
    [match:end] writes its debug line. *)
Definition handleGameDinEvent (eventType : string) (data : string) (st : State)
    : State :=
  let st1 := log LDebug "GameDin event received" st in
  let st2 :=
    if String.eqb eventType "match:start" then applyGameProfile "in_game" st1
    else if String.eqb eventType "match:end" then
      log LDebug "Syncing profile from Divina-L3" st1
    else if String.eqb eventType "match:victory" then
      applyTemporaryEffect victoryEffect st1
    else if String.eqb eventType "match:defeat" then
      applyTemporaryEffect defeatEffect st1
    else st1 in
  emit ("game:" ++ eventType) (DataPayload data) st2.

(** ** Runs of the service *)
Inductive Op :=
| Initialize (divina gameDin : Result unit)
| StartSync (interval : Z)
| StopSync
| Dispose
| ProfileConverted (envProfile : IEnvironmentProfile)
| RoomUpdated (room : string)
| GameDinEvent (eventType data : string)
| FireTimeout (h : nat).

Definition exec (st : State) (op : Op) : State :=
  match op with
  | Initialize divina gameDin => snd (initialize divina gameDin st)
  | StartSync interval => startSync interval st
  | StopSync => stopSync st
  | Dispose => dispose st
  | ProfileConverted envProfile => profileConverted envProfile st
  | RoomUpdated room => handleRoomUpdate room st
  | GameDinEvent eventType data => handleGameDinEvent eventType data st
  | FireTimeout h => fireTimeout h st
  end.

Definition run (ops : list Op) (st : State) : State := fold_left exec ops st.

(** The handles of the pending timeouts have been handed out. *)
Definition handlesFresh (st : State) : Prop :=
  forall t, t ∈ timeouts st -> (to_handle t < nextHandle st)%nat.

(** The interval that [syncInterval] names is the only one running. *)
Definition oneInterval (st : State) : Prop :=
  match syncInterval st with
  | Some h => exists period, intervals st = [(h, period)]
  | None => intervals st = []
  end.

End ProfileSyncEvents.

(* ===================================================================== *)
(** * The environment profile model ([env-profile.model.ts])              *)
(* ===================================================================== *)

(** [fromDivinaProfile] takes a parameter of type [any], so it is embedded
    over values of any shape.  A value is what [JSON.parse] yields, which
    is where the profiles of the Divina-L3 adapter come from.  The keys of
    an object are distinct. *)
Module EnvProfileModel.

Local Unset Elimination Schemes.
Inductive Value :=
| VUndefined
| VNull
| VBool (b : bool)
| VNum (n : Z)
| VStr (s : string)
| VArr (items : list Value)
| VObj (props : list (string * Value)).
Local Set Elimination Schemes.

Definition nullish (v : Value) : bool :=
  match v with
  | VUndefined | VNull => true
  | _ => false
  end.

(** A value used as a condition. *)
Definition truthy (v : Value) : bool :=
  match v with
  | VUndefined | VNull => false
  | VBool b => b
  | VNum n => negb (n =? 0)
  | VStr s => negb (String.eqb s "")
  | VArr _ | VObj _ => true
  end.

(** [a || b] *)
Definition or (a b : Value) : Value := if truthy a then a else b.

(** [a ?? b] *)
Definition coalesce (a b : Value) : Value := if nullish a then b else a.

(** [a !== false] *)
Definition notFalse (a : Value) : bool :=
  match a with
  | VBool false => false
  | _ => true
  end.

Fixpoint lookup (key : string) (props : list (string * Value)) : Value :=
  match props with
  | [] => VUndefined
  | (k, v) :: rest => if String.eqb k key then v else lookup key rest
  end.

(** The property [key] of a value that is neither [null] nor [undefined],
    for the keys that [fromDivinaProfile] reads: none of them is a
    property that strings, numbers, booleans or arrays have of
    themselves. *)
Definition own (v : Value) (key : string) : Value :=
  match v with
  | VObj props => lookup key props
  | _ => VUndefined
  end.

(** [v.key] *)
Definition member (v : Value) (key : string) : Result Value :=
  match v with
  | VUndefined =>
      Throw (Error ("Cannot read properties of undefined (reading '"
                    ++ key ++ "')"))
  | VNull =>
      Throw (Error ("Cannot read properties of null (reading '" ++ key ++ "')"))
  | _ => Ok (own v key)
  end.

(** [v?.key] *)
Definition optMember (v : Value) (key : string) : Value :=
  if nullish v then VUndefined else own v key.

(** [new Date(v)] and [new Date()] *)
Inductive DateValue :=
| DateOf (v : Value)
| Now.

(** What [fromDivinaProfile] returns: the object literal, key by key. *)
Record Lighting := {
  color : Value;
  brightness : Value;
  effect : Value;
  transition : Value;
}.

Record Mood := {
  primary : Value;
  intensity : Value;
  timestamp : DateValue;
}.

Record EnvironmentProfile := {
  e_id : Value;
  e_userId : Value;
  e_name : Value;
  e_active : bool;
  e_lighting : Lighting;
  e_mood : Mood;
  e_createdAt : DateValue;
  e_updatedAt : DateValue;
}.

(** [DEFAULT_ENV_PROFILE], as far as [fromDivinaProfile] reads it. *)
Definition DEFAULT_lighting : Lighting :=
  {| color := VStr "#FFFFFF"; brightness := VNum 70; effect := VStr "solid";
     transition := VNum 500 |}.

Definition DEFAULT_mood_primary : Value := VStr "neutral".
Definition DEFAULT_mood_intensity : Value := VNum 50.

Definition bind {A B} (r : Result A) (k : A -> Result B) : Result B :=
  match r with
  | Ok a => k a
  | Throw e => Throw e
  end.

Notation "'let*' x ':=' c 'in' k" := (bind c (fun x => k))
  (at level 10, x name, c at level 100, k at level 200, only parsing).

(** [cond ? new Date(cond) : new Date()] *)
Definition dateOr (v : Value) : DateValue := if truthy v then DateOf v else Now.

(** [fromDivinaProfile] *)
Definition fromDivinaProfile (profile : Value) : Result EnvironmentProfile :=
  let* id := member profile "id" in
  let* userId := member profile "userId" in
  let* name := member profile "name" in
  let* active := member profile "active" in
  let* ambience := member profile "ambience" in
  let* updatedAt := member profile "updatedAt" in
  let* createdAt := member profile "createdAt" in
  let lighting := optMember ambience "lighting" in
  let mood := optMember ambience "mood" in
  Ok {| e_id := id;
        e_userId := userId;
        e_name := or name (VStr "Unnamed Profile");
        e_active := notFalse active;
        e_lighting :=
          {| color := or (optMember lighting "color") (color DEFAULT_lighting);
             brightness := coalesce (optMember lighting "brightness")
                             (brightness DEFAULT_lighting);
             effect := or (optMember lighting "effect") (effect DEFAULT_lighting);
             transition := coalesce (optMember lighting "transition")
                             (transition DEFAULT_lighting) |};
        e_mood :=
          {| primary := or (optMember mood "primary") DEFAULT_mood_primary;
             intensity := coalesce (optMember mood "intensity")
                            DEFAULT_mood_intensity;
             timestamp := dateOr updatedAt |};
        e_createdAt := dateOr createdAt;
        e_updatedAt := dateOr updatedAt |}.

(** ** Profiles of the declared type *)

(** [IDivinaProfile['devices'][number]]; the free-form [state] is kept as
    a value. *)
Record IDivinaDevice := {
  dd_id : string;
  dd_type : string;
  dd_name : string;
  dd_state : Value;
}.

(** [IDivinaProfile] ([libs/adapters/divina-l3/types.ts]) *)
Record IDivinaProfile := {
  dp_id : string;
  dp_userId : string;
  dp_name : string;
  dp_color : option string;
  dp_brightness : option Z;
  dp_effect : option string;
  dp_mood : string;
  dp_ritual : option string;
  dp_devices : list IDivinaDevice;
  dp_updatedAt : string;
}.

(** An optional key of an object: absent, or present with its value. *)
Definition optional {A} (key : string) (f : A -> Value) (v : option A)
    : list (string * Value) :=
  match v with
  | Some a => [(key, f a)]
  | None => []
  end.

(** The value that a profile of the declared type is. *)
Definition ofDivinaProfile (p : IDivinaProfile) : Value :=
  VObj [("id", VStr (dp_id p));
        ("userId", VStr (dp_userId p));
        ("name", VStr (dp_name p));
        ("ambience",
         VObj ([("lighting",
                 VObj (optional "color" VStr (dp_color p)
                       ++ optional "brightness" VNum (dp_brightness p)
                       ++ optional "effect" VStr (dp_effect p)));
                ("mood", VStr (dp_mood p))]
               ++ optional "ritual" VStr (dp_ritual p)));
        ("devices",
         VArr (map (fun d => VObj [("id", VStr (dd_id d));
                                   ("type", VStr (dd_type d));
                                   ("name", VStr (dd_name d));
                                   ("state", dd_state d)])
                 (dp_devices p)));
        ("updatedAt", VStr (dp_updatedAt p))].

(** [s || fallback] for strings *)
Definition orString (s fallback : string) : string :=
  if String.eqb s "" then fallback else s.

End EnvProfileModel.

(* ===================================================================== *)
(** * Test doubles and fixtures                                           *)
(* ===================================================================== *)

(** An [ILightAdapter] that keeps its lamps in memory, in the manner of the
    mocks of the repository's test suites.  While [offline] every call
    rejects; otherwise a command updates the lamp it names. *)
Module InMemoryAdapter.

Record Store := {
  lamps : list IDevice;
  offline : bool;
}.

Definition unavailable : Exn :=
  AdapterError "Adapter offline" "COMMAND_SEND_FAILED" NoCause.

Definition withState (d : IDevice) (isOn : bool) (brightness : option Z)
    (color : option string) : IDevice :=
  {| d_id := d_id d; d_name := d_name d; d_type := d_type d;
     d_brand := d_brand d; d_model := d_model d; d_address := d_address d;
     d_isOn := isOn; d_brightness := brightness; d_color := color;
     d_isReachable := d_isReachable d |}.

Definition perform (c : ILightCommand) (d : IDevice) : Result IDevice :=
  match c_type c with
  | CommandType.turnOn => Ok (withState d true (d_brightness d) (d_color d))
  | CommandType.turnOff => Ok (withState d false (d_brightness d) (d_color d))
  | CommandType.setColor =>
      match p_color (c_params c) with
      | Some col => Ok (withState d (d_isOn d) (d_brightness d) (Some col))
      | None => Throw (AdapterError "Color parameter is required"
                         "INVALID_PARAMETER" NoCause)
      end
  | CommandType.setBrightness =>
      match p_brightness (c_params c) with
      | Some v => Ok (withState d (d_isOn d) (Some v) (d_color d))
      | None => Throw (AdapterError "Brightness parameter is required"
                         "INVALID_PARAMETER" NoCause)
      end
  | CommandType.custom =>
      Throw (AdapterError "Unsupported command type" "UNSUPPORTED_COMMAND" NoCause)
  end.

Definition hasId (deviceId : string) (d : IDevice) : bool :=
  String.eqb (d_id d) deviceId.

Fixpoint replace (deviceId : string) (d' : IDevice) (l : list IDevice)
    : list IDevice :=
  match l with
  | [] => []
  | d :: rest =>
      if hasId deviceId d then d' :: rest else d :: replace deviceId d' rest
  end.

Section On.
Context {S : Type}.
Variable get : S -> Store.
Variable put : Store -> S -> S.

Definition executeCommand (c : ILightCommand) (s : S) : Result unit * S :=
  if offline (get s) then (Throw unavailable, s)
  else
    match find (hasId (c_deviceId c)) (lamps (get s)) with
    | None =>
        (Throw (AdapterError "Device not found" "DEVICE_NOT_FOUND" NoCause), s)
    | Some d =>
        match perform c d with
        | Ok d' =>
            (Ok tt, put {| lamps := replace (c_deviceId c) d' (lamps (get s));
                           offline := false |} s)
        | Throw e => (Throw e, s)
        end
    end.

Definition adapter : Adapter.ILightAdapter S :=
  {| Adapter.adapterType := "memory";
     Adapter.initialize := fun s => (Ok tt, s);
     Adapter.getDevices := fun s =>
       if offline (get s) then (Throw unavailable, s)
       else (Ok (lamps (get s)), s);
     Adapter.getDevice := fun deviceId s =>
       if offline (get s) then (Throw unavailable, s)
       else (Ok (find (hasId deviceId) (lamps (get s))), s);
     Adapter.executeCommand := executeCommand;
     Adapter.handleEvent := fun _ s => (Ok tt, s) |}.
End On.

(** The adapter that owns the whole store. *)
Definition sole : Adapter.ILightAdapter Store :=
  adapter (fun s => s) (fun s' _ => s').

(** Two adapters side by side. *)
Definition first : Adapter.ILightAdapter (Store * Store) :=
  adapter fst (fun s' p => (s', snd p)).
Definition second : Adapter.ILightAdapter (Store * Store) :=
  adapter snd (fun s' p => (fst p, s')).

Definition goOffline (s : Store) : Store :=
  {| lamps := lamps s; offline := true |}.

End InMemoryAdapter.

(** A simulated Govee cloud: it lists its devices, applies control
    commands to their properties and reports them back. *)
Module Cloud.
Import GoveeAdapter.

Definition R : Type := list IGoveeDeviceInfo.

Definition matches (dev mdl : string) (i : IGoveeDeviceInfo) : bool :=
  String.eqb (device i) dev && String.eqb (model i) mdl.

Definition control (cmd : GoveeCmd) (p : Properties) : Properties :=
  match cmd with
  | turn v =>
      {| online := online p; powerState := v; brightness := brightness p;
         color := color p |}
  | colorCmd rgb =>
      {| online := online p; powerState := powerState p;
         brightness := brightness p; color := Some rgb |}
  | brightnessCmd v =>
      {| online := online p; powerState := powerState p;
         brightness := Some v; color := color p |}
  end.

Definition controlled (cmd : GoveeCmd) (i : IGoveeDeviceInfo) : IGoveeDeviceInfo :=
  {| device := device i; model := model i; deviceName := deviceName i;
     controllable := controllable i; retrievable := retrievable i;
     supportCmds := supportCmds i; properties := control cmd (properties i) |}.

Definition api : Remote R :=
  {| onGetDevices := fun c => (Response 200 "Success" c, c);
     onControl := fun dev mdl cmd c =>
       if existsb (matches dev mdl) c then
         (Response 200 "Success" tt,
          map (fun i => if matches dev mdl i then controlled cmd i else i) c)
       else (Response 400 "Device Not Found" tt, c);
     onGetState := fun dev mdl c =>
       match find (matches dev mdl) c with
       | Some i => (Response 200 "Success" (properties i), c)
       | None => (Rejected "Request failed with status code 400", c)
       end |}.

(** A cloud that accepts the control requests for its devices but whose
    devices have not taken them up when their state is read. *)
Definition lagging : Remote R :=
  {| onGetDevices := fun c => (Response 200 "Success" c, c);
     onControl := fun dev mdl _ c =>
       if existsb (matches dev mdl) c then (Response 200 "Success" tt, c)
       else (Response 400 "Device Not Found" tt, c);
     onGetState := fun dev mdl c =>
       match find (matches dev mdl) c with
       | Some i => (Response 200 "Success" (properties i), c)
       | None => (Rejected "Request failed with status code 400", c)
       end |}.

(** A cloud that cannot be reached. *)
Definition unreachable : Remote R :=
  {| onGetDevices := fun c => (Rejected "Network Error", c);
     onControl := fun _ _ _ c => (Rejected "Network Error", c);
     onGetState := fun _ _ c => (Rejected "Network Error", c) |}.
End Cloud.

(** A simulated Hue bridge: it hands out a username once its link button
    has been pressed, lists its lights to the users it knows and applies
    the states they send.  Its lights report no colour, and the colour
    conversions, which the examples do not exercise, are stand-ins. *)
Module HueBridge.
Import PhilipsHueAdapter.

Definition F : Type := Z.

Definition colours : ColourMath F :=
  {| rgbToXy := fun _ _ _ => (0, 0);
     xyBriToHex := fun _ _ _ => "#000000";
     ctToHex := fun _ => "#ffffff" |}.

Record B := {
  linkPressed : bool;
  users : list string;
  lights : list (string * IHueDeviceInfo (F:=F));
}.

Definition knows (b : B) (user : string) : bool :=
  existsb (String.eqb user) (users b).

Definition applied (update : StateUpdate (F:=F)) (s : IHueDeviceState (F:=F))
    : IHueDeviceState :=
  {| on := default (on s) (su_on update);
     bri := match su_bri update with Some v => Some v | None => bri s end;
     xy := match su_xy update with Some v => Some v | None => xy s end;
     ct := ct s; reachable := reachable s |}.

Definition api : Bridge F B :=
  {| onGetConfig := fun b =>
       (Data {| bc_name := "Philips hue"; bc_modelid := "BSB002";
                bc_apiversion := "1.50.0" |}, b);
     onCreateUser := fun _ b =>
       if linkPressed b then
         (Data [{| success := Some "lux-user"; error := None |}],
          {| linkPressed := false; users := users b ++ ["lux-user"];
             lights := lights b |})
       else
         (Data [{| success := None;
                   error := Some (101, "link button not pressed") |}], b);
     onGetLights := fun user b =>
       if knows b user then (Data (lights b), b)
       else (Refused 403 "Request failed with status code 403", b);
     onGetLight := fun user deviceId b =>
       match find (fun entry => String.eqb (fst entry) deviceId) (lights b) with
       | Some entry =>
           if knows b user then (Data (snd entry), b)
           else (Refused 403 "Request failed with status code 403", b)
       | None => (Refused 404 "Request failed with status code 404", b)
       end;
     onPutState := fun user deviceId update b =>
       if knows b user then
         (Data tt,
          {| linkPressed := linkPressed b; users := users b;
             lights := map (fun entry =>
                              if String.eqb (fst entry) deviceId
                              then (fst entry,
                                    {| state := applied update (state (snd entry));
                                       name := name (snd entry);
                                       modelid := modelid (snd entry);
                                       uniqueid := uniqueid (snd entry) |})
                              else entry) (lights b) |})
       else (Refused 403 "Request failed with status code 403", b) |}.

(** One bulb, on at half brightness. *)
Definition bulb : IHueDeviceInfo (F:=F) :=
  {| state := {| on := true; bri := Some 127; xy := None; ct := None;
                 reachable := true |};
     name := "Hue bulb"; modelid := "LWB010";
     uniqueid := "00:17:88:01:00:00:00:01-0b" |}.

(** A bridge whose link button has been pressed, and one that knows the
    user of the configuration. *)
Definition pressed : B :=
  {| linkPressed := true; users := []; lights := [("1", bulb)] |}.

Definition paired : B :=
  {| linkPressed := false; users := ["lux-user"]; lights := [("1", bulb)] |}.

End HueBridge.

Module Fixtures.

(** The device of the Govee test suite: it reports a brightness and no
    colour. *)
Definition lamp : IDevice :=
  {| d_id := "test-device-1"; d_name := "Test Light"; d_type := "light";
     d_brand := "govee"; d_model := "H6001";
     d_address := "AA:BB:CC:DD:EE:FF"; d_isOn := false;
     d_brightness := Some 50; d_color := None; d_isReachable := true |}.

(** The device of the specification's scenario: white at 80%. *)
Definition whiteLamp : IDevice :=
  {| d_id := "lamp-2"; d_name := "Desk"; d_type := "light";
     d_brand := "govee"; d_model := "H6001";
     d_address := "11:22:33:44:55:66"; d_isOn := true;
     d_brightness := Some 80; d_color := Some "#FFFFFF"; d_isReachable := true |}.

Definition managerOf (l : list IDevice) : LightManager.State InMemoryAdapter.Store :=
  {| LightManager.adapters := [("memory:1", InMemoryAdapter.sole)];
     LightManager.isInitialized := false;
     LightManager.store := {| InMemoryAdapter.lamps := l;
                              InMemoryAdapter.offline := false |};
     LightManager.logs := [] |}.

(** A dispatcher with the default effects over the given lamps. *)
Definition dispatcherOf (l : list IDevice)
    : GameDinAdapter.State InMemoryAdapter.Store :=
  GameDinAdapter.create (managerOf l) GameDinAdapter.DEFAULT_EFFECTS true.

Definition eventOf (ty : string) : GameDinAdapter.IGameDinEvent :=
  {| GameDinAdapter.ev_type := ty; GameDinAdapter.playerId := None;
     GameDinAdapter.playerName := None; GameDinAdapter.matchId := None;
     GameDinAdapter.gameId := None; GameDinAdapter.timestamp := 0;
     GameDinAdapter.data := [] |}.

(** The device of the Govee test suite as the cloud lists it. *)
Definition lampInfo : GoveeAdapter.IGoveeDeviceInfo :=
  {| GoveeAdapter.device := "test-device-1"; GoveeAdapter.model := "H6001";
     GoveeAdapter.deviceName := "Test Light";
     GoveeAdapter.controllable := true; GoveeAdapter.retrievable := true;
     GoveeAdapter.supportCmds := ["turn"; "brightness"; "color"; "colorTem"];
     GoveeAdapter.properties :=
       {| GoveeAdapter.online := true; GoveeAdapter.powerState := "off";
          GoveeAdapter.brightness := Some 50; GoveeAdapter.color := None |} |}.

(** The first of the default effects. *)
Definition joinEffect : GameDinAdapter.IGameDinLightEffect :=
  {| GameDinAdapter.eventType := "player:join";
     GameDinAdapter.command := GameDinAdapter.colorCommand "#00FF00";
     GameDinAdapter.condition := None; GameDinAdapter.priority := Some 1;
     GameDinAdapter.duration := Some 2000;
     GameDinAdapter.restorePreviousState := Some true |}.

(** A timed, restorable effect whose command no adapter supports. *)
Definition customEffect : GameDinAdapter.IGameDinLightEffect :=
  {| GameDinAdapter.eventType := "custom:event";
     GameDinAdapter.command :=
       {| GameDinAdapter.ec_type := CommandType.custom;
          GameDinAdapter.ec_params := noParams |};
     GameDinAdapter.condition := None; GameDinAdapter.priority := None;
     GameDinAdapter.duration := Some 1000;
     GameDinAdapter.restorePreviousState := Some true |}.

(** The adapter loses its connection. *)
Definition connectionLost : GameDinAdapter.Op InMemoryAdapter.Store :=
  GameDinAdapter.External
    (fun lm => LightManager.setStore
                 (InMemoryAdapter.goOffline (LightManager.store lm)) lm).

(** The timer [applySelected] sets for [device] and [effect] when [h] is
    the next handle. *)
Definition timerOf (h : nat) (device : IDevice)
    (effect : GameDinAdapter.IGameDinLightEffect) : GameDinAdapter.Timer :=
  {| GameDinAdapter.t_handle := h;
     GameDinAdapter.t_deviceId := d_id device;
     GameDinAdapter.t_effect := effect;
     GameDinAdapter.t_delay := default 0 (GameDinAdapter.duration effect) |}.

(** A Govee adapter as constructed, and after [initialize], against the
    simulated cloud holding the one lamp. *)
Definition goveeFresh : GoveeAdapter.State Cloud.R :=
  GoveeAdapter.create [lampInfo].

Definition goveeReady : GoveeAdapter.State Cloud.R :=
  snd (GoveeAdapter.initialize Cloud.api goveeFresh).

(** A lamp that the cloud lists as white at 80%, and a light manager
    whose one adapter is a Govee adapter against the simulated cloud. *)
Definition whiteLampInfo : GoveeAdapter.IGoveeDeviceInfo :=
  {| GoveeAdapter.device := "lamp-2"; GoveeAdapter.model := "H6001";
     GoveeAdapter.deviceName := "Desk";
     GoveeAdapter.controllable := true; GoveeAdapter.retrievable := true;
     GoveeAdapter.supportCmds := ["turn"; "brightness"; "color"; "colorTem"];
     GoveeAdapter.properties :=
       {| GoveeAdapter.online := true; GoveeAdapter.powerState := "on";
          GoveeAdapter.brightness := Some 80;
          GoveeAdapter.color :=
            Some {| GoveeAdapter.r := 255; GoveeAdapter.g := 255;
                    GoveeAdapter.b := 255 |} |} |}.

Definition goveeManager (infos : list GoveeAdapter.IGoveeDeviceInfo)
    : LightManager.State (GoveeAdapter.State Cloud.R) :=
  {| LightManager.adapters := [("govee:1", GoveeAdapter.asAdapter Cloud.api)];
     LightManager.isInitialized := false;
     LightManager.store := GoveeAdapter.create infos;
     LightManager.logs := [] |}.

(** A light manager with two adapters; only the second knows the lamp. *)
Definition twoAdapters
    : LightManager.State (InMemoryAdapter.Store * InMemoryAdapter.Store) :=
  {| LightManager.adapters := [("memory:A", InMemoryAdapter.first);
                               ("memory:B", InMemoryAdapter.second)];
     LightManager.isInitialized := false;
     LightManager.store :=
       ({| InMemoryAdapter.lamps := []; InMemoryAdapter.offline := false |},
        {| InMemoryAdapter.lamps := [lamp]; InMemoryAdapter.offline := false |});
     LightManager.logs := [] |}.

Definition colorCommand (deviceId color : string) : ILightCommand :=
  {| c_type := CommandType.setColor; c_deviceId := deviceId;
     c_params := {| p_color := Some color; p_brightness := None;
                    p_effect := None |} |}.

Definition brightnessCommand (deviceId : string) (v : Z) : ILightCommand :=
  {| c_type := CommandType.setBrightness; c_deviceId := deviceId;
     c_params := {| p_color := None; p_brightness := Some v; p_effect := None |} |}.

(** An environment profile as [fromDivinaProfile] produces them. *)
Definition evening : ProfileSyncEvents.IEnvironmentProfile :=
  {| ProfileSyncEvents.p_id := Some "profile-1";
     ProfileSyncEvents.p_userId := Some "user-1";
     ProfileSyncEvents.p_name := "Evening";
     ProfileSyncEvents.p_active := Some true;
     ProfileSyncEvents.p_lighting :=
       {| ProfileSyncEvents.l_color := Some "#FFFFFF";
          ProfileSyncEvents.l_brightness := Some 80;
          ProfileSyncEvents.l_effect := Some "solid";
          ProfileSyncEvents.l_effectSpeed := None;
          ProfileSyncEvents.l_transition := Some 500;
          ProfileSyncEvents.l_duration := None |};
     ProfileSyncEvents.p_sound := None;
     ProfileSyncEvents.p_mood :=
       {| ProfileSyncEvents.primary := "neutral";
          ProfileSyncEvents.secondary := None;
          ProfileSyncEvents.intensity := 50 |} |}.

End Fixtures.

(* ===================================================================== *)
(** * The effect registry: ordering, selection, removal                   *)
(* ===================================================================== *)

Section Sorting.
Import GameDinAdapter.

Local Abbreviation hasPriority p :=
  (fun e : IGameDinLightEffect => priorityOf e = p).

Lemma insertByPriority_elem e x l :
  x ∈ insertByPriority e l <-> x = e \/ x ∈ l.
Proof.
  induction l as [|y l IH]; simpl.
  - rewrite list_elem_of_singleton. split; [auto|].
    intros [?|Hx]; [done|]. by apply elem_of_nil in Hx.
  - destruct (priorityOf y <=? priorityOf e).
    + apply elem_of_cons.
    + rewrite !elem_of_cons, IH. tauto.
Qed.

Lemma insertByPriority_sorted e l :
  StronglySorted before l -> StronglySorted before (insertByPriority e l).
Proof.
  induction 1 as [|y l Hs IH Hall]; simpl.
  - repeat constructor.
  - destruct (Z.leb_spec (priorityOf y) (priorityOf e)) as [Hle|Hgt].
    + constructor; [by constructor|].
      constructor; [exact Hle|].
      rewrite Forall_forall in *. intros z Hz.
      specialize (Hall z Hz). unfold before in *. lia.
    + constructor; [exact IH|].
      rewrite Forall_forall in *. intros z Hz.
      apply insertByPriority_elem in Hz as [->|Hz]; [unfold before; lia|auto].
Qed.

Lemma sortByPriority_sorted l : StronglySorted before (sortByPriority l).
Proof.
  induction l; simpl; [constructor|by apply insertByPriority_sorted].
Qed.

(** Stability: within one priority the order is the original one. *)
Lemma insertByPriority_class p e l :
  filter (hasPriority p) (insertByPriority e l)
  = filter (hasPriority p) (e :: l).
Proof.
  induction l as [|y l IH]; simpl; [done|].
  destruct (Z.leb_spec (priorityOf y) (priorityOf e)) as [Hle|Hgt]; [done|].
  rewrite filter_cons, IH, !filter_cons.
  destruct (decide (priorityOf y = p)), (decide (priorityOf e = p)); try done.
  lia.
Qed.

Lemma sortByPriority_class p l :
  filter (hasPriority p) (sortByPriority l) = filter (hasPriority p) l.
Proof.
  induction l as [|x l IH]; simpl; [done|].
  by rewrite insertByPriority_class, !filter_cons, IH.
Qed.

(** A list sorted by priority is determined by its priority classes. *)
Lemma sorted_classes_unique l1 l2 :
  StronglySorted before l1 -> StronglySorted before l2 ->
  (forall p, filter (hasPriority p) l1 = filter (hasPriority p) l2) ->
  l1 = l2.
Proof.
  intros H1. revert l2.
  induction H1 as [|x l1 Hs1 IH Hall1]; intros l2 H2 Hc.
  - destruct l2 as [|y l2]; [done|].
    specialize (Hc (priorityOf y)). rewrite filter_cons in Hc.
    by rewrite decide_True in Hc.
  - destruct l2 as [|y l2].
    + specialize (Hc (priorityOf x)). rewrite filter_cons in Hc.
      by rewrite decide_True in Hc.
    + inversion H2 as [|? ? Hs2 Hall2]; subst.
      assert (Hxy : priorityOf x = priorityOf y).
      { assert (x ∈ y :: l2) as Hx.
        { pose proof (Hc (priorityOf x)) as Hp.
          assert (x ∈ filter (hasPriority (priorityOf x)) (x :: l1)) as Hin
            by (apply list_elem_of_filter; split; [done|left]).
          rewrite Hp in Hin. by apply list_elem_of_filter in Hin as [_ ?]. }
        assert (y ∈ x :: l1) as Hy.
        { pose proof (Hc (priorityOf y)) as Hp.
          assert (y ∈ filter (hasPriority (priorityOf y)) (y :: l2)) as Hin
            by (apply list_elem_of_filter; split; [done|left]).
          rewrite <- Hp in Hin. by apply list_elem_of_filter in Hin as [_ ?]. }
        rewrite Forall_forall in Hall1, Hall2.
        apply elem_of_cons in Hx as [->|Hx]; [done|].
        apply elem_of_cons in Hy as [->|Hy]; [done|].
        specialize (Hall1 _ Hy). specialize (Hall2 _ Hx).
        unfold before in *. lia. }
      pose proof (Hc (priorityOf x)) as Hp.
      rewrite !filter_cons in Hp.
      rewrite decide_True in Hp by done.
      rewrite decide_True in Hp by done.
      injection Hp as -> Hrest.
      f_equal. apply IH; [done|].
      intros p. specialize (Hc p). rewrite !filter_cons in Hc.
      destruct (decide (priorityOf y = p)); [by injection Hc|done].
Qed.

(** What [addEffect] computes: re-sorting after a [push] onto a list that
    is the sorted form of [l] gives the sorted form of [l ++ [e]]. *)
Lemma sortByPriority_push l e :
  sortByPriority (sortByPriority l ++ [e]) = sortByPriority (l ++ [e]).
Proof.
  apply sorted_classes_unique; try apply sortByPriority_sorted.
  intros p. by rewrite !sortByPriority_class, !filter_app, sortByPriority_class.
Qed.

Lemma find_head_filter {A} (f : A -> bool) (l : list A) :
  find f l = head (filter (fun x => f x = true) l).
Proof.
  induction l as [|x l IH]; simpl; [done|].
  rewrite filter_cons. destruct (f x) eqn:E.
  - by rewrite decide_True.
  - by rewrite decide_False by done.
Qed.

Lemma filter_insertByPriority (P : IGameDinLightEffect -> Prop)
    `{!forall x, Decision (P x)} e l :
  StronglySorted before l ->
  filter P (insertByPriority e l)
  = if decide (P e) then insertByPriority e (filter P l) else filter P l.
Proof.
  induction 1 as [|y l Hs IH Hall]; simpl.
  - rewrite filter_cons. by destruct (decide (P e)).
  - destruct (Z.leb_spec (priorityOf y) (priorityOf e)) as [Hle|Hgt].
    + rewrite !filter_cons.
      destruct (decide (P e)); [|done].
      destruct (decide (P y)); simpl.
      * by rewrite (proj2 (Z.leb_le _ _) Hle).
      * assert (Hall' : Forall (before e) (filter P l)).
        { rewrite Forall_forall in *. intros z Hz.
          apply list_elem_of_filter in Hz as [_ Hz].
          specialize (Hall z Hz). unfold before in *. lia. }
        destruct (filter P l) as [|z zs]; simpl; [done|].
        inversion Hall' as [|? ? Hz _]; subst. unfold before in Hz.
        by rewrite (proj2 (Z.leb_le _ _) Hz).
    + rewrite !filter_cons, IH.
      destruct (decide (P e)), (decide (P y)); simpl; try done.
      by rewrite (proj2 (Z.leb_gt _ _) Hgt).
Qed.

Lemma filter_sortByPriority (P : IGameDinLightEffect -> Prop)
    `{!forall x, Decision (P x)} l :
  filter P (sortByPriority l) = sortByPriority (filter P l).
Proof.
  induction l as [|x l IH]; simpl; [done|].
  rewrite filter_insertByPriority by apply sortByPriority_sorted.
  rewrite filter_cons, IH. by destruct (decide (P x)).
Qed.

Lemma head_insertByPriority e l :
  head (insertByPriority e l)
  = match head l with
    | None => Some e
    | Some y => if priorityOf e <? priorityOf y then Some y else Some e
    end.
Proof.
  destruct l as [|y l]; simpl; [done|].
  destruct (Z.leb_spec (priorityOf y) (priorityOf e)),
           (Z.ltb_spec (priorityOf e) (priorityOf y)); simpl; try done; lia.
Qed.

Lemma head_sortByPriority l :
  head (sortByPriority l) = earliestOfHighestPriority l.
Proof.
  induction l as [|x l IH]; simpl; [done|].
  by rewrite head_insertByPriority, IH.
Qed.

(** The first applicable effect of the sorted list is the earliest
    registered one among the applicable effects of highest priority. *)
Lemma find_sortByPriority (f : IGameDinLightEffect -> bool) l :
  find f (sortByPriority l)
  = earliestOfHighestPriority (filter (fun e => f e = true) l).
Proof.
  by rewrite find_head_filter, filter_sortByPriority, head_sortByPriority.
Qed.

Lemma earliestOfHighestPriority_elem l e :
  earliestOfHighestPriority l = Some e -> e ∈ l.
Proof.
  revert e. induction l as [|x l IH]; simpl; intros e; [done|].
  destruct (earliestOfHighestPriority l) as [y|].
  - destruct (priorityOf x <? priorityOf y); intros [= <-];
      [right; by apply IH|left].
  - intros [= <-]. left.
Qed.

Lemma earliestOfHighestPriority_max l e :
  earliestOfHighestPriority l = Some e ->
  forall e', e' ∈ l -> priorityOf e' <= priorityOf e.
Proof.
  revert e. induction l as [|x l IH]; simpl; intros e; [done|].
  destruct (earliestOfHighestPriority l) as [y|] eqn:Ey.
  - destruct (Z.ltb_spec (priorityOf x) (priorityOf y)); intros [= <-] e' He';
      apply elem_of_cons in He' as [->|He']; try lia.
    + by apply IH.
    + specialize (IH y eq_refl e' He'). lia.
  - intros [= <-] e' He'. apply elem_of_cons in He' as [->|He']; [lia|].
    destruct l; [by apply elem_of_nil in He'|].
    simpl in Ey. destruct (earliestOfHighestPriority l); [|done].
    by destruct (_ <? _).
Qed.

Lemma earliestOfHighestPriority_some l :
  l <> [] -> exists e, earliestOfHighestPriority l = Some e.
Proof.
  destruct l as [|x l]; [done|]. intros _. simpl.
  destruct (earliestOfHighestPriority l); [destruct (_ <? _)|]; eauto.
Qed.

(** An effect that is strictly above every other candidate is the one
    chosen, wherever it stands in the list. *)
Lemma earliestOfHighestPriority_strict l e :
  e ∈ l ->
  (forall e', e' ∈ l -> e' = e \/ priorityOf e' < priorityOf e) ->
  earliestOfHighestPriority l = Some e.
Proof.
  intros Hin Hmax.
  destruct (earliestOfHighestPriority_some l) as [w Hw].
  { intros ->. by apply elem_of_nil in Hin. }
  rewrite Hw. f_equal.
  pose proof (earliestOfHighestPriority_elem _ _ Hw) as Hwin.
  pose proof (earliestOfHighestPriority_max _ _ Hw e Hin).
  destruct (Hmax w Hwin) as [->|?]; [done|lia].
Qed.

End Sorting.

Section Registry.
Context {S : Type}.
Import GameDinAdapter.
Implicit Types (st : State S) (e : IGameDinLightEffect).

(** Only [addEffect] and [removeEffect] write the registry. *)
Lemma effects_clearDeviceEffect d st :
  effects (clearDeviceEffect d st) = effects st.
Proof. unfold clearDeviceEffect. by destruct (activeEffects st !! d). Qed.

Lemma effects_applySelected device e st :
  effects (applySelected device e st) = effects st.
Proof.
  unfold applySelected.
  destruct (restores e && _); simpl;
    destruct (LightManager.executeCommand _ _) as [[]?];
    try destruct (timed e); simpl; by rewrite ?effects_clearDeviceEffect.
Qed.

Lemma effects_applyEffectsToDevice device effs ev st :
  effects (applyEffectsToDevice device effs ev st) = effects st.
Proof.
  unfold applyEffectsToDevice.
  destruct (find _ _); [apply effects_applySelected|done].
Qed.

Lemma effects_fold_apply effs ev devices st :
  effects (fold_left (fun acc device => applyEffectsToDevice device effs ev acc)
             devices st) = effects st.
Proof.
  revert st. induction devices as [|d ds IH]; intros st; simpl; [done|].
  by rewrite IH, effects_applyEffectsToDevice.
Qed.

Lemma effects_handleEvent ev st : effects (handleEvent ev st) = effects st.
Proof.
  unfold handleEvent. simpl.
  destruct (length _ =? 0)%nat; [done|].
  destruct (LightManager.getDevices _) as [devices lm'].
  by rewrite effects_fold_apply.
Qed.

Lemma effects_restoreDeviceState d st :
  effects (restoreDeviceState d st) = effects st.
Proof.
  unfold restoreDeviceState. destruct (deviceStates st !! d); [|done].
  by destruct (reissue _ _ _) as [[]?].
Qed.

Lemma effects_fireTimer h st : effects (fireTimer h st) = effects st.
Proof.
  unfold fireTimer. destruct (find _ _); [|done].
  unfold timerCallback. rewrite effects_clearDeviceEffect.
  destruct (restores _); [by rewrite effects_restoreDeviceState|done].
Qed.

Lemma effectsFor_addEffect e ty st :
  effectsFor ty (addEffect e st)
  = if decide (eventType e = ty)
    then sortByPriority (effectsFor ty st ++ [e])
    else effectsFor ty st.
Proof.
  unfold effectsFor, addEffect. simpl.
  destruct (decide (eventType e = ty)) as [->|Hne].
  - by rewrite lookup_insert_eq.
  - by rewrite lookup_insert_ne.
Qed.

Lemma effectsFor_registerDefaults ty defaults st :
  (effectsFor ty st
   = sortByPriority (filter (fun e => eventType e = ty) []) ->
   effectsFor ty (fold_left (fun acc e => addEffect e acc) defaults st)
   = sortByPriority (filter (fun e => eventType e = ty) defaults)) /\
  forall l,
    effectsFor ty st = sortByPriority (filter (fun e => eventType e = ty) l) ->
    effectsFor ty (fold_left (fun acc e => addEffect e acc) defaults st)
    = sortByPriority (filter (fun e => eventType e = ty) (l ++ defaults)%list).
Proof.
  assert (Hgen : forall l st,
    effectsFor ty st = sortByPriority (filter (fun e => eventType e = ty) l) ->
    effectsFor ty (fold_left (fun acc e => addEffect e acc) defaults st)
    = sortByPriority (filter (fun e => eventType e = ty) (l ++ defaults)%list)).
  { clear st. induction defaults as [|e es IH]; intros l st Hst; simpl.
    - by rewrite app_nil_r.
    - replace (l ++ e :: es)%list with ((l ++ [e]) ++ es)%list by by rewrite <- app_assoc.
      apply IH. rewrite effectsFor_addEffect, filter_app, filter_cons, Hst.
      destruct (decide (eventType e = ty)).
      + apply sortByPriority_push.
      + by rewrite app_nil_r. }
  split; [intros H; exact (Hgen [] st H)|intros l; apply Hgen].
Qed.

Lemma effectsFor_create ty lm defaults enable :
  effectsFor ty (create (S:=S) lm defaults enable)
  = sortByPriority
      (filter (fun e => eventType e = ty) (if enable then defaults else [])).
Proof.
  unfold create. destruct enable; [|done].
  unfold registerDefaultEffects.
  change (effectsFor ty (log LInfo ?msg ?s)) with (effectsFor ty s).
  by apply (proj1 (effectsFor_registerDefaults ty defaults _)).
Qed.

(** [handleEvent] spelled out with the effect it selects: the same effect,
    chosen from the registry as it is when the event arrives, is applied
    to every device the light manager lists. *)
Lemma handleEvent_selected ev st :
  handleEvent ev st
  = let st0 := log LDebug ("Processing GameDin event: " ++ ev_type ev) st in
    match effectsFor (ev_type ev) st with
    | [] => log LDebug ("No effects registered for event type: "
                          ++ ev_type ev) st0
    | _ :: _ =>
        let '(devices, lm') := LightManager.getDevices (lightManager st) in
        fold_left
          (fun acc device =>
             match selected ev st with
             | Some e => applySelected device e acc
             | None => log LDebug ("No matching effects for device: "
                                     ++ d_id device) acc
             end)
          devices (setLightManager lm' st0)
    end.
Proof.
  unfold handleEvent, selected, effectsFor. simpl.
  destruct (default [] (effects st !! ev_type ev)); simpl; [done|].
  by destruct (LightManager.getDevices _).
Qed.

End Registry.

Section RegistryClaims.
Context {S : Type}.
Import GameDinAdapter.
Implicit Types (st : State S) (e : IGameDinLightEffect).

(** C8, as amended.  When the effect list of the event type holds an
    effect at position [i], [removeEffect] removes exactly that effect:
    the effects before and after it stay, in order, the list is one
    shorter, and the lists of the other event types are untouched.  For
    any other index (negative, or at or beyond the length), and for an
    event type without a list, [removeEffect] changes nothing. *)
Theorem removeEffect_removes_position st (ty : string) (i : Z) :
  match elementAt (effectsFor ty st) i with
  | Some e =>
      let n := Z.to_nat i in
      effectsFor ty st
      = (take n (effectsFor ty st) ++ e :: drop (Datatypes.S n) (effectsFor ty st))%list
      /\ effectsFor ty (removeEffect ty i st)
         = (take n (effectsFor ty st) ++ drop (Datatypes.S n) (effectsFor ty st))%list
      /\ Datatypes.S (length (effectsFor ty (removeEffect ty i st)))
         = length (effectsFor ty st)
      /\ (forall ty', ty' <> ty ->
            effectsFor ty' (removeEffect ty i st) = effectsFor ty' st)
  | None => removeEffect ty i st = st
  end.
Proof.
  unfold effectsFor, removeEffect.
  destruct (effects st !! ty) as [effs|] eqn:Heffs; simpl.
  - destruct (elementAt effs i) as [e|] eqn:He; [|done].
    unfold elementAt in He. destruct (0 <=? i); [|done].
    simpl. rewrite lookup_insert_eq. simpl.
    assert (Hsplit : effs = (take (Z.to_nat i) effs
                               ++ e :: drop (Datatypes.S (Z.to_nat i)) effs)%list)
      by (symmetry; by apply take_drop_middle).
    split; [exact Hsplit|]. split; [done|]. split.
    + unfold splice1. rewrite Hsplit at 3.
      rewrite !length_app. simpl. lia.
    + intros ty' Hne. by rewrite lookup_insert_ne.
  - unfold elementAt. destruct (0 <=? i); [|done].
    by rewrite lookup_nil.
Qed.

End RegistryClaims.

(** C8 as stated fails: the default registry holds one effect for
    ["player:join"], at position 0; removing at position 1 leaves the list
    as it is, so its size does not go down. *)
Lemma removeEffect_every_index_counterexample :
  let st := Fixtures.dispatcherOf [] in
  length (GameDinAdapter.effectsFor "player:join" st) = 1%nat
  /\ Datatypes.S (length (GameDinAdapter.effectsFor "player:join"
                            (GameDinAdapter.removeEffect "player:join" 1 st)))
     <> length (GameDinAdapter.effectsFor "player:join" st).
Proof. vm_compute. split; [reflexivity|discriminate]. Qed.

(* ===================================================================== *)
(** * The dispatcher: timers, snapshots, restoration                      *)
(* ===================================================================== *)

Section ListFacts.
Context {A : Type}.

Lemma filter_ext_elem (P Q : A -> Prop) `{!forall x, Decision (P x)}
    `{!forall x, Decision (Q x)} (l : list A) :
  (forall x, x ∈ l -> P x <-> Q x) -> filter P l = filter Q l.
Proof.
  induction l as [|x l IH]; intros Hext; [done|].
  rewrite !filter_cons.
  assert (Hx : P x <-> Q x) by (apply Hext; left).
  rewrite IH by (intros y Hy; apply Hext; by right).
  destruct (decide (P x)), (decide (Q x)); tauto.
Qed.

Lemma filter_none (P : A -> Prop) `{!forall x, Decision (P x)} (l : list A) :
  (forall x, x ∈ l -> ~ P x) -> filter P l = [].
Proof.
  induction l as [|x l IH]; intros Hext; [done|].
  rewrite filter_cons_False by (apply Hext; left).
  apply IH. intros y Hy. apply Hext. by right.
Qed.

Lemma filter_all (P : A -> Prop) `{!forall x, Decision (P x)} (l : list A) :
  (forall x, x ∈ l -> P x) -> filter P l = l.
Proof.
  induction l as [|x l IH]; intros Hext; [done|].
  rewrite filter_cons_True by (apply Hext; left).
  f_equal. apply IH. intros y Hy. apply Hext. by right.
Qed.

Lemma find_some_elem (f : A -> bool) (l : list A) x :
  find f l = Some x -> x ∈ l /\ f x = true.
Proof.
  induction l as [|y l IH]; simpl; [done|].
  destruct (f y) eqn:E.
  - intros [= <-]. split; [left|done].
  - intros H. destruct (IH H). split; [by right|done].
Qed.
Lemma StronglySorted_splice1 (Rel : A -> A -> Prop) (l : list A) : forall i,
  StronglySorted Rel l -> StronglySorted Rel (GameDinAdapter.splice1 i l).
Proof.
  unfold GameDinAdapter.splice1. induction l as [|x l IH]; intros i Hl.
  - by rewrite take_nil, drop_nil.
  - apply StronglySorted_inv in Hl as [Hl Hx].
    destruct i as [|i]; cbn; [by rewrite drop_0|].
    constructor; [by apply IH|].
    rewrite Forall_forall in *. intros y Hy. apply Hx.
    apply elem_of_app in Hy as [Hy|Hy].
    + by apply (subseteq_take _ _ _ Hy).
    + by apply (subseteq_drop _ _ _ Hy).
Qed.

Lemma splice1_elem (l : list A) i x : x ∈ GameDinAdapter.splice1 i l -> x ∈ l.
Proof.
  unfold GameDinAdapter.splice1. intros Hx. apply elem_of_app in Hx as [Hx|Hx].
  - apply (subseteq_take _ _ _ Hx).
  - apply (subseteq_drop _ _ _ Hx).
Qed.

End ListFacts.

Section Dispatcher.
Context {S : Type}.
Import GameDinAdapter.
Implicit Types (st : State S) (e : IGameDinLightEffect) (t : Timer).

(** ** [clearDeviceEffect] *)

Lemma clearDeviceEffect_frame d st :
  lightManager (clearDeviceEffect d st) = lightManager st
  /\ deviceStates (clearDeviceEffect d st) = deviceStates st
  /\ nextHandle (clearDeviceEffect d st) = nextHandle st
  /\ logs (clearDeviceEffect d st) = logs st.
Proof. unfold clearDeviceEffect. by destruct (activeEffects st !! d). Qed.

Lemma clearDeviceEffect_activeEffects d st :
  activeEffects (clearDeviceEffect d st) = delete d (activeEffects st).
Proof.
  unfold clearDeviceEffect.
  destruct (activeEffects st !! d) eqn:E; simpl; [done|].
  by rewrite delete_id.
Qed.

Lemma clearDeviceEffect_pending d st :
  pending (clearDeviceEffect d st)
  = match activeEffects st !! d with
    | Some h => filter (fun t => t_handle t ≠ h) (pending st)
    | None => pending st
    end.
Proof. unfold clearDeviceEffect. by destruct (activeEffects st !! d). Qed.

(** ** [applySelected], field by field *)

Lemma applySelected_lightManager device e st :
  lightManager (applySelected device e st)
  = snd (LightManager.executeCommand (commandFor e (d_id device))
           (lightManager st)).
Proof.
  unfold applySelected.
  destruct (restores e && _); simpl;
    rewrite (proj1 (clearDeviceEffect_frame _ _)); simpl;
    destruct (LightManager.executeCommand _ _) as [[]?];
    try destruct (timed e); done.
Qed.

Lemma applySelected_deviceStates device e st :
  deviceStates (applySelected device e st)
  = if restores e && bool_decide (deviceStates st !! d_id device = None)
    then <[d_id device := {| s_color := d_color device;
                             s_brightness := d_brightness device |}]>
           (deviceStates st)
    else deviceStates st.
Proof.
  unfold applySelected. simpl.
  destruct (restores e && _); simpl;
    destruct (LightManager.executeCommand _ _) as [[]?];
    try destruct (timed e); simpl;
    by rewrite (proj1 (proj2 (clearDeviceEffect_frame _ _))).
Qed.

Lemma applySelected_logs device e st :
  logs (applySelected device e st)
  = (logs st ++ (LDebug, ("Applying effect to device: " ++ d_id device)%string)
       :: (if commandSucceeds device e st then []
           else [(LError, ("Failed to apply effect to device "
                             ++ d_id device)%string)]))%list.
Proof.
  unfold applySelected, commandSucceeds.
  destruct (restores e && _); simpl;
    rewrite (proj1 (clearDeviceEffect_frame _ _)); simpl;
    destruct (LightManager.executeCommand _ _) as [[]?];
    try destruct (timed e); simpl;
    rewrite ?(proj2 (proj2 (proj2 (clearDeviceEffect_frame _ _)))); simpl;
    by rewrite <- ?app_assoc.
Qed.

Lemma applySelected_nextHandle device e st :
  nextHandle (applySelected device e st)
  = if commandSucceeds device e st && timed e
    then Datatypes.S (nextHandle st) else nextHandle st.
Proof.
  unfold applySelected, commandSucceeds.
  destruct (restores e && _); simpl;
    rewrite (proj1 (clearDeviceEffect_frame _ _)); simpl;
    destruct (LightManager.executeCommand _ _) as [[]?];
    try destruct (timed e); simpl;
    by rewrite ?(proj1 (proj2 (proj2 (clearDeviceEffect_frame _ _)))).
Qed.

Lemma applySelected_activeEffects device e st :
  activeEffects (applySelected device e st)
  = if commandSucceeds device e st && timed e
    then <[d_id device := nextHandle st]> (activeEffects st)
    else delete (d_id device) (activeEffects st).
Proof.
  unfold applySelected, commandSucceeds.
  destruct (restores e && _); simpl;
    rewrite (proj1 (clearDeviceEffect_frame _ _)); simpl;
    destruct (LightManager.executeCommand _ _) as [[]?];
    try destruct (timed e); simpl;
    rewrite ?(proj1 (proj2 (proj2 (clearDeviceEffect_frame _ _))));
    rewrite clearDeviceEffect_activeEffects; simpl;
    by rewrite ?insert_delete_eq.
Qed.

(** ** [restoreDeviceState] and the timer callback *)

Lemma restoreDeviceState_frame d st :
  pending (restoreDeviceState d st) = pending st
  /\ activeEffects (restoreDeviceState d st) = activeEffects st
  /\ nextHandle (restoreDeviceState d st) = nextHandle st.
Proof.
  unfold restoreDeviceState. destruct (deviceStates st !! d); [|done].
  by destruct (reissue _ _ _) as [[]?].
Qed.

Lemma restoreDeviceState_spec d st snap :
  deviceStates st !! d = Some snap ->
  let r := reissue d snap (lightManager st) in
  lightManager (restoreDeviceState d st) = snd r
  /\ deviceStates (restoreDeviceState d st)
     = (if isOk (fst r) then delete d (deviceStates st) else deviceStates st)
  /\ logs (restoreDeviceState d st)
     = (logs st ++
          [if isOk (fst r)
           then (LDebug, ("Restored previous state for device: " ++ d)%string)
           else (LError, ("Failed to restore state for device " ++ d)%string)])%list.
Proof.
  intros Hsnap r. unfold restoreDeviceState, r. rewrite Hsnap.
  by destruct (reissue _ _ _) as [[]?].
Qed.

Lemma find_handle_elem h l t :
  find (fun t' => bool_decide (t_handle t' = h)) l = Some t ->
  t ∈ l /\ t_handle t = h.
Proof.
  intros H. apply find_some_elem in H as [? H]. split; [done|].
  by apply bool_decide_eq_true in H.
Qed.

Lemma fireTimer_not_pending h st :
  find (fun t' => bool_decide (t_handle t' = h)) (pending st) = None ->
  fireTimer h st = st.
Proof. unfold fireTimer. by intros ->. Qed.

End Dispatcher.

Section LightManagerFacts.
Context {S : Type}.
Import LightManager.
Implicit Types (st : LightManager.State S).

Lemma adapters_initializeAdapters l st :
  adapters (initializeAdapters l st) = adapters st.
Proof.
  revert st. induction l as [|[name a] l IH]; intros st; simpl; [done|].
  destruct (Adapter.initialize a (store st)) as [[]?]; by rewrite IH.
Qed.

Lemma adapters_initialize st : adapters (snd (initialize st)) = adapters st.
Proof.
  unfold initialize. destruct (isInitialized st); simpl; [done|].
  by rewrite adapters_initializeAdapters.
Qed.

Lemma adapters_getDeviceLoop l deviceId st :
  adapters (snd (getDeviceLoop l deviceId st)) = adapters st.
Proof.
  revert st. induction l as [|[name a] l IH]; intros st; simpl; [done|].
  destruct (Adapter.getDevice a deviceId (store st)) as [[[d|]|]?];
    simpl; by rewrite ?IH.
Qed.

Lemma adapters_executeLoop l command st :
  adapters (snd (executeLoop l command st)) = adapters st.
Proof.
  revert st. induction l as [|[name a] l IH]; intros st; simpl; [done|].
  destruct (Adapter.executeCommand a command (store st)) as [[]?];
    simpl; by rewrite ?IH.
Qed.

Lemma adapters_executeCommand command st :
  adapters (snd (executeCommand command st)) = adapters st.
Proof.
  unfold executeCommand, getDevice.
  set (st1 := if isInitialized st then st else snd (initialize st)).
  assert (H1 : adapters st1 = adapters st).
  { unfold st1. destruct (isInitialized st); [done|apply adapters_initialize]. }
  pose proof (adapters_getDeviceLoop (adapters st1) (c_deviceId command) st1) as H2.
  destruct (getDeviceLoop _ _ _) as [[d|] st2]; simpl in *.
  - rewrite adapters_executeLoop. congruence.
  - congruence.
Qed.

End LightManagerFacts.

(* ===================================================================== *)
(** * The dispatcher with calls in flight                                 *)
(* ===================================================================== *)

Lemma fmap_sublist {A B} (f : A -> B) (l1 l2 : list A) :
  l1 `sublist_of` l2 -> f <$> l1 `sublist_of` f <$> l2.
Proof. induction 1; cbn; by constructor. Qed.

Section InFlight.
Context {S : Type}.
Import GameDinAdapter.
Implicit Types (st : State S) (e : IGameDinLightEffect) (t : Timer)
  (m : Machine S) (k : Task).

(** ** The steps, field by field *)

Lemma beforeCommand_fields device e st :
  let d := d_id device in
  lightManager (beforeCommand device e st) = lightManager st
  /\ effects (beforeCommand device e st) = effects st
  /\ nextHandle (beforeCommand device e st) = nextHandle st
  /\ activeEffects (beforeCommand device e st) = delete d (activeEffects st)
  /\ pending (beforeCommand device e st)
     = match activeEffects st !! d with
       | Some h => filter (fun t => t_handle t ≠ h) (pending st)
       | None => pending st
       end
  /\ deviceStates (beforeCommand device e st)
     = (if restores e && bool_decide (deviceStates st !! d = None)
        then <[d := {| s_color := d_color device;
                       s_brightness := d_brightness device |}]> (deviceStates st)
        else deviceStates st)
  /\ logs (beforeCommand device e st)
     = (logs st ++ [(LDebug, ("Applying effect to device: " ++ d)%string)])%list.
Proof.
  intros d. unfold beforeCommand. fold d.
  set (st1 := log LDebug ("Applying effect to device: " ++ d) st).
  set (st2 := if restores e && bool_decide (deviceStates st1 !! d = None)
              then setDeviceStates _ st1 else st1).
  assert (H2 : lightManager st2 = lightManager st /\ effects st2 = effects st
               /\ nextHandle st2 = nextHandle st
               /\ activeEffects st2 = activeEffects st
               /\ pending st2 = pending st
               /\ logs st2 = logs st1
               /\ deviceStates st2
                  = (if restores e && bool_decide (deviceStates st !! d = None)
                     then <[d := {| s_color := d_color device;
                                    s_brightness := d_brightness device |}]>
                            (deviceStates st)
                     else deviceStates st)).
  { unfold st2. change (deviceStates st1) with (deviceStates st).
    by destruct (restores e && _). }
  destruct H2 as (Hlm & Hef & Hn & Ha & Hp & Hlg & Hds).
  destruct (clearDeviceEffect_frame d st2) as (-> & -> & -> & ->).
  rewrite effects_clearDeviceEffect, clearDeviceEffect_activeEffects,
    clearDeviceEffect_pending.
  rewrite Hlm, Hef, Hn, Ha, Hp, Hlg, Hds. done.
Qed.

Lemma afterCommand_fields device e (r : Result unit) st :
  let d := d_id device in
  lightManager (afterCommand device e r st) = lightManager st
  /\ effects (afterCommand device e r st) = effects st
  /\ deviceStates (afterCommand device e r st) = deviceStates st
  /\ nextHandle (afterCommand device e r st)
     = (if isOk r && timed e then Datatypes.S (nextHandle st) else nextHandle st)
  /\ activeEffects (afterCommand device e r st)
     = (if isOk r && timed e then <[d := nextHandle st]> (activeEffects st)
        else activeEffects st)
  /\ pending (afterCommand device e r st)
     = (pending st ++ (if isOk r && timed e then [newTimer device e st] else []))%list
  /\ logs (afterCommand device e r st)
     = (logs st ++ (if isOk r then []
                    else [(LError, ("Failed to apply effect to device " ++ d)%string)]))%list.
Proof.
  intros d. unfold afterCommand, newTimer. fold d.
  destruct r as [[]|err]; cbn [isOk andb].
  - destruct (timed e); cbn; by rewrite ?app_nil_r.
  - cbn. by rewrite ?app_nil_r.
Qed.

(** One application without anything in between is the two halves around
    the command. *)
Lemma applySelected_split device e st :
  applySelected device e st
  = let st3 := beforeCommand device e st in
    let r := LightManager.executeCommand (commandFor e (d_id device))
               (lightManager st3) in
    afterCommand device e (fst r) (setLightManager (snd r) st3).
Proof.
  unfold applySelected, beforeCommand, afterCommand. cbv zeta.
  by destruct (LightManager.executeCommand _ _) as [[[]|?] ?].
Qed.

Lemma restored_fields d st :
  lightManager (restored d st) = lightManager st
  /\ effects (restored d st) = effects st
  /\ nextHandle (restored d st) = nextHandle st
  /\ activeEffects (restored d st) = activeEffects st
  /\ pending (restored d st) = pending st
  /\ deviceStates (restored d st) = delete d (deviceStates st).
Proof. done. Qed.

(** ** Handles are handed out once *)

Lemma handlesIssued_fewer st st' :
  pending st' `sublist_of` pending st ->
  activeEffects st' ⊆ activeEffects st ->
  (nextHandle st <= nextHandle st')%nat ->
  handlesIssued st -> handlesIssued st'.
Proof.
  intros Hp Ha Hn (Hnd & Hlt & Hrec & Hown).
  assert (Hin : forall t, t ∈ pending st' -> t ∈ pending st).
  { intros t Ht. by eapply elem_of_sublist. }
  assert (Hact : forall d h, activeEffects st' !! d = Some h ->
                   activeEffects st !! d = Some h).
  { intros d h Hd. by eapply lookup_weaken. }
  split; [|split; [|split]].
  - apply (sublist_NoDup _ (t_handle <$> pending st)); [exact Hnd|by apply fmap_sublist].
  - intros t Ht. specialize (Hlt t (Hin t Ht)). lia.
  - intros d h Hd. specialize (Hrec d h (Hact d h Hd)). lia.
  - intros d h t Hd Ht Hh. by apply (Hown d h t); auto.
Qed.

Lemma handlesIssued_same st st' :
  pending st' = pending st -> activeEffects st' = activeEffects st ->
  nextHandle st' = nextHandle st ->
  handlesIssued st -> handlesIssued st'.
Proof. unfold handlesIssued. by intros -> -> ->. Qed.

Lemma handlesIssued_clearDeviceEffect d st :
  handlesIssued st -> handlesIssued (clearDeviceEffect d st).
Proof.
  apply handlesIssued_fewer.
  - rewrite clearDeviceEffect_pending.
    destruct (activeEffects st !! d); [apply sublist_filter|done].
  - rewrite clearDeviceEffect_activeEffects. apply delete_subseteq.
  - by rewrite (proj1 (proj2 (proj2 (clearDeviceEffect_frame d st)))).
Qed.

Lemma handlesIssued_beforeCommand device e st :
  handlesIssued st -> handlesIssued (beforeCommand device e st).
Proof.
  destruct (beforeCommand_fields device e st) as (_ & _ & Hn & Ha & Hp & _).
  apply handlesIssued_fewer.
  - rewrite Hp. destruct (activeEffects st !! _); [apply sublist_filter|done].
  - rewrite Ha. apply delete_subseteq.
  - by rewrite Hn.
Qed.

Lemma handlesIssued_afterCommand device e (r : Result unit) st :
  handlesIssued st -> handlesIssued (afterCommand device e r st).
Proof.
  intros Hst.
  destruct (afterCommand_fields device e r st) as (_ & _ & _ & Hn & Ha & Hp & _).
  destruct (isOk r && timed e);
    [|apply (handlesIssued_same st); by rewrite ?Hp, ?app_nil_r].
  destruct Hst as (Hnd & Hlt & Hrec & Hown).
  unfold handlesIssued. rewrite Hn, Ha, Hp.
  split; [|split; [|split]].
  - rewrite fmap_app. cbn. apply NoDup_app. split; [done|]. split.
    + intros h Hh Hnew. apply list_elem_of_singleton in Hnew. subst h.
      apply list_elem_of_fmap in Hh as (t & Hh & Ht). specialize (Hlt t Ht). lia.
    + apply NoDup_singleton.
  - intros t Ht. apply elem_of_app in Ht as [Ht|Ht].
    + specialize (Hlt t Ht). lia.
    + apply list_elem_of_singleton in Ht. subst t. cbn. lia.
  - intros d h Hd. destruct (decide (d_id device = d)) as [<-|Hne].
    + rewrite lookup_insert_eq in Hd. injection Hd as <-. lia.
    + rewrite lookup_insert_ne in Hd by done. specialize (Hrec d h Hd). lia.
  - intros d h t Hd Ht Hh. destruct (decide (d_id device = d)) as [<-|Hne].
    + rewrite lookup_insert_eq in Hd. injection Hd as <-.
      apply elem_of_app in Ht as [Ht|Ht].
      * specialize (Hlt t Ht). lia.
      * apply list_elem_of_singleton in Ht. by subst t.
    + rewrite lookup_insert_ne in Hd by done.
      apply elem_of_app in Ht as [Ht|Ht]; [by apply (Hown d h t)|].
      apply list_elem_of_singleton in Ht. subst t. cbn in Hh.
      specialize (Hrec d h Hd). lia.
Qed.

Lemma handlesIssued_nextDevice ev devices st :
  handlesIssued st -> handlesIssued (nextDevice ev devices st).1.
Proof.
  intros Hst. destruct devices as [|device rest]; [done|].
  unfold nextDevice, beginApply.
  destruct (find _ _) as [e|]; cbn; [by apply handlesIssued_beforeCommand|done].
Qed.

Lemma handlesIssued_startCallback d e st :
  handlesIssued st -> handlesIssued (startCallback d e st).1.
Proof.
  intros Hst. unfold startCallback.
  destruct (restores e); [|by apply handlesIssued_clearDeviceEffect].
  unfold startRestore, afterColor.
  destruct (deviceStates st !! d) as [state|]; [|done].
  destruct (s_color state); [done|]. by destruct (s_brightness state).
Qed.

Lemma handlesIssued_resume k st :
  handlesIssued st -> handlesIssued (resume k st).1.
Proof.
  intros Hst. destruct k as [ev|ev device e rest|ev rest|d state c|d v|d];
    cbn [resume].
  - destruct (LightManager.getDevices _) as [devices lm'].
    by apply handlesIssued_nextDevice.
  - destruct (LightManager.executeCommand _ _) as [r lm']. cbn [fst].
    by apply handlesIssued_afterCommand.
  - by apply handlesIssued_nextDevice.
  - destruct (LightManager.setColorCmd _ _ _) as [[[]|err] lm']; [|done].
    unfold afterColor. by destruct (s_brightness state).
  - by destruct (LightManager.setBrightnessCmd _ _ _) as [[[]|err] lm'].
  - by apply handlesIssued_clearDeviceEffect.
Qed.

Lemma handlesIssued_dispose st : handlesIssued st -> handlesIssued (dispose st).
Proof.
  apply handlesIssued_fewer; cbn.
  - apply sublist_filter.
  - apply map_empty_subseteq.
  - done.
Qed.

Lemma handlesIssued_begin (op : Op S) m :
  handlesIssued (dispatcher m) -> handlesIssued (dispatcher (begin op m)).
Proof.
  intros Hst. destruct op as [e|ty i|ev|h| |f]; cbn [begin exec].
  - done.
  - cbn. unfold removeEffect. destruct (effects _ !! ty); [|done].
    by destruct (elementAt _ _).
  - unfold startHandleEvent. by destruct (_ =? _)%nat.
  - destruct (find _ _) as [t|]; [|done].
    match goal with
    | |- context [startCallback ?d ?e ?s] =>
        pose proof (handlesIssued_startCallback d e s) as Hc;
        destruct (startCallback d e s) as [st' k]
    end.
    cbn in *. apply Hc. revert Hst. apply handlesIssued_fewer; cbn;
      [apply sublist_filter|done..].
  - by apply handlesIssued_dispose.
  - done.
Qed.

Lemma handlesIssued_move m (mv : Move S) :
  handlesIssued (dispatcher m) -> handlesIssued (dispatcher (move m mv)).
Proof.
  intros Hst. destruct mv as [op|i]; cbn [move].
  - by apply handlesIssued_begin.
  - unfold resumeAt. destruct (waiting m !! i) as [k|]; [|done].
    pose proof (handlesIssued_resume k _ Hst) as Hr.
    by destruct (resume k (dispatcher m)).
Qed.

Lemma handlesIssued_play (moves : list (Move S)) : forall m,
  handlesIssued (dispatcher m) -> handlesIssued (dispatcher (play moves m)).
Proof.
  induction moves as [|mv moves IH]; intros m Hm; [done|].
  cbn. apply IH. by apply handlesIssued_move.
Qed.

Lemma handlesIssued_addEffect e st : handlesIssued st -> handlesIssued (addEffect e st).
Proof. done. Qed.

Lemma handlesIssued_create (lm : LightManager.State S) defaults enable :
  handlesIssued (create lm defaults enable).
Proof.
  unfold create.
  assert (H0 : handlesIssued
                 {| lightManager := lm; effects := ∅; deviceStates := ∅;
                    activeEffects := ∅; pending := []; nextHandle := 0%nat;
                    logs := [] |}).
  { split; [constructor|]. split; [by intros ? ?%elem_of_nil|].
    split; intros d h; cbn [activeEffects]; by rewrite lookup_empty. }
  destruct enable; [|done]. unfold registerDefaultEffects.
  apply (handlesIssued_same
           (fold_left (fun acc e => addEffect e acc) defaults
              {| lightManager := lm; effects := ∅; deviceStates := ∅;
                 activeEffects := ∅; pending := []; nextHandle := 0%nat;
                 logs := [] |})); [done..|].
  revert H0. generalize ({| lightManager := lm; effects := ∅; deviceStates := ∅;
                 activeEffects := ∅; pending := []; nextHandle := 0%nat;
                 logs := [] |} : State S).
  induction defaults as [|e es IH]; intros s0 H0; [done|].
  cbn. apply IH. by apply handlesIssued_addEffect.
Qed.

(** In every state the dispatcher can get into, overlapping calls
    included, handles have been handed out once. *)
Lemma attainable_handlesIssued st : attainable st -> handlesIssued st.
Proof.
  intros (lm & defaults & enable & moves & ->).
  apply handlesIssued_play, handlesIssued_create.
Qed.

End InFlight.

Section OneAtATime.
Context {S : Type}.
Import GameDinAdapter.
Implicit Types (st : State S) (e : IGameDinLightEffect) (t : Timer)
  (m : Machine S) (k : Task).

(** ** Every pending timer is recorded, while calls do not overlap *)

Lemma timersRecorded_same st st' :
  pending st' = pending st -> activeEffects st' = activeEffects st ->
  timersRecorded st -> timersRecorded st'.
Proof. unfold timersRecorded. by intros -> ->. Qed.

Lemma timersOf_recorded d st t :
  timersRecorded st -> t ∈ timersOf d st ->
  activeEffects st !! d = Some (t_handle t).
Proof.
  intros Hrec Ht. apply list_elem_of_filter in Ht as [<- Ht]. by apply Hrec.
Qed.

(** Cancelling the timer recorded for a device leaves the device without
    a timer. *)
Lemma timersRecorded_cancel d st st' :
  pending st' = match activeEffects st !! d with
                | Some h => filter (fun t => t_handle t ≠ h) (pending st)
                | None => pending st
                end ->
  activeEffects st' = delete d (activeEffects st) ->
  timersRecorded st ->
  timersRecorded st' /\ timersOf d st' = [].
Proof.
  intros Hp Ha Hrec.
  assert (Hother : forall t, t ∈ pending st' -> t ∈ pending st /\ t_deviceId t ≠ d).
  { intros t Ht. rewrite Hp in Ht.
    destruct (activeEffects st !! d) as [h|] eqn:Hd.
    - apply list_elem_of_filter in Ht as [Hh Ht]. split; [done|].
      intros Heq. specialize (Hrec t Ht). rewrite Heq, Hd in Hrec.
      by injection Hrec as ->.
    - split; [done|]. intros Heq. specialize (Hrec t Ht).
      by rewrite Heq, Hd in Hrec. }
  split.
  - intros t Ht. destruct (Hother t Ht) as [Hin Hne].
    rewrite Ha, lookup_delete_ne by done. by apply Hrec.
  - unfold timersOf. apply filter_none. intros t Ht.
    by destruct (Hother t Ht).
Qed.

Lemma timersRecorded_clearDeviceEffect d st :
  timersRecorded st ->
  timersRecorded (clearDeviceEffect d st) /\ timersOf d (clearDeviceEffect d st) = [].
Proof.
  apply timersRecorded_cancel;
    [apply clearDeviceEffect_pending|apply clearDeviceEffect_activeEffects].
Qed.

Lemma timersRecorded_beforeCommand device e st :
  timersRecorded st ->
  timersRecorded (beforeCommand device e st)
  /\ timersOf (d_id device) (beforeCommand device e st) = [].
Proof.
  destruct (beforeCommand_fields device e st) as (_ & _ & _ & Ha & Hp & _).
  by apply timersRecorded_cancel.
Qed.

Lemma timersRecorded_afterCommand device e (r : Result unit) st :
  timersOf (d_id device) st = [] ->
  timersRecorded st -> timersRecorded (afterCommand device e r st).
Proof.
  intros Hnone Hrec.
  destruct (afterCommand_fields device e r st) as (_ & _ & _ & _ & Ha & Hp & _).
  destruct (isOk r && timed e);
    [|apply (timersRecorded_same st); by rewrite ?Hp, ?app_nil_r].
  intros t Ht. rewrite Hp in Ht. rewrite Ha.
  apply elem_of_app in Ht as [Ht|Ht].
  - assert (Hne : d_id device ≠ t_deviceId t).
    { intros Heq. assert (Hin : t ∈ timersOf (d_id device) st)
        by (apply list_elem_of_filter; split; [done|exact Ht]).
      rewrite Hnone in Hin. by apply elem_of_nil in Hin. }
    rewrite lookup_insert_ne by done. by apply Hrec.
  - apply list_elem_of_singleton in Ht. subst t. cbn. apply lookup_insert_eq.
Qed.

Lemma cancelled_fewer st st' k :
  pending st' `sublist_of` pending st -> cancelled st k -> cancelled st' k.
Proof.
  intros Hp. destruct k as [ev|ev device e rest|ev rest|d state c|d v|d];
    cbn; try done.
  unfold timersOf. intros Hnone. apply filter_none. intros t Ht Hd.
  assert (Hin : t ∈ filter (fun t => t_deviceId t = d_id device) (pending st)).
  { apply list_elem_of_filter. split; [done|]. by eapply elem_of_sublist. }
  rewrite Hnone in Hin. by apply elem_of_nil in Hin.
Qed.

Lemma orderly_nextDevice ev devices st :
  timersRecorded st ->
  timersRecorded (nextDevice ev devices st).1
  /\ Forall (cancelled (nextDevice ev devices st).1)
       (option_list (nextDevice ev devices st).2).
Proof.
  intros Hrec. destruct devices as [|device rest]; [by split|].
  unfold nextDevice, beginApply.
  destruct (find _ _) as [e|]; cbn.
  - destruct (timersRecorded_beforeCommand device e st Hrec) as [Hr Hn].
    split; [done|]. by constructor.
  - split; [done|]. by constructor.
Qed.

Lemma orderly_resume k st :
  timersRecorded st -> cancelled st k ->
  timersRecorded (resume k st).1
  /\ Forall (cancelled (resume k st).1) (option_list (resume k st).2).
Proof.
  intros Hrec Hk. destruct k as [ev|ev device e rest|ev rest|d state c|d v|d];
    cbn [resume].
  - destruct (LightManager.getDevices _) as [devices lm'].
    by apply orderly_nextDevice.
  - destruct (LightManager.executeCommand _ _) as [r lm']. cbn [fst snd].
    split; [|by repeat constructor].
    by apply timersRecorded_afterCommand.
  - by apply orderly_nextDevice.
  - destruct (LightManager.setColorCmd _ _ _) as [[[]|err] lm'];
      [|by split; [|repeat constructor]].
    unfold afterColor. destruct (s_brightness state);
      by split; [|repeat constructor].
  - destruct (LightManager.setBrightnessCmd _ _ _) as [[[]|err] lm'];
      by split; [|repeat constructor].
  - split; [|constructor].
    by apply timersRecorded_clearDeviceEffect.
Qed.

(** [dispose] cancels every timer that is recorded. *)
Lemma dispose_pending st :
  timersRecorded st -> pending (dispose st) = [].
Proof.
  intros Hrec. cbn. apply filter_none. intros t Ht Hnot. apply Hnot.
  apply list_elem_of_fmap. exists (t_deviceId t, t_handle t). split; [done|].
  apply elem_of_map_to_list. by apply Hrec.
Qed.

Lemma orderly_begin (op : Op S) m :
  timersRecorded (dispatcher m) ->
  Forall (cancelled (dispatcher m)) (waiting m) ->
  timersRecorded (dispatcher (begin op m))
  /\ Forall (cancelled (dispatcher (begin op m))) (waiting (begin op m)).
Proof.
  intros Hrec Hw.
  assert (Hkeep : forall st', pending st' `sublist_of` pending (dispatcher m) ->
            Forall (cancelled st') (waiting m)).
  { intros st' Hsub. eapply Forall_impl; [exact Hw|].
    intros k. by apply cancelled_fewer. }
  destruct op as [e|ty i|ev|h| |f]; cbn [begin exec dispatcher waiting].
  - split; [done|]. by apply Hkeep.
  - assert (Hsame : pending (removeEffect ty i (dispatcher m)) = pending (dispatcher m)
                    /\ activeEffects (removeEffect ty i (dispatcher m))
                       = activeEffects (dispatcher m)).
    { unfold removeEffect. destruct (effects _ !! ty); [|done].
      by destruct (elementAt _ _). }
    destruct Hsame as [Hp Ha]. split.
    + by apply (timersRecorded_same (dispatcher m)).
    + apply Hkeep. by rewrite Hp.
  - unfold startHandleEvent. destruct (_ =? _)%nat; cbn.
    + rewrite app_nil_r. split; [done|]. by apply Hkeep.
    + split; [done|]. apply Forall_app. split; [by apply Hkeep|].
      by repeat constructor.
  - destruct (find _ _) as [t|] eqn:Hfind; [|done].
    set (st0 := setPending (filter (fun t' => t_handle t' ≠ h)
                              (pending (dispatcher m))) (dispatcher m)).
    assert (Hrec0 : timersRecorded st0).
    { intros t' Ht'. cbn in Ht'. apply list_elem_of_filter in Ht' as [_ Ht'].
      by apply Hrec. }
    assert (Hsub0 : pending st0 `sublist_of` pending (dispatcher m))
      by apply sublist_filter.
    unfold startCallback. destruct (restores (t_effect t)).
    + unfold startRestore, afterColor.
      destruct (deviceStates st0 !! t_deviceId t) as [state|]; cbn.
      * destruct (s_color state); cbn.
        -- split; [done|]. apply Forall_app. split; [by apply Hkeep|].
           by repeat constructor.
        -- destruct (s_brightness state); cbn;
             (split; [done|]; apply Forall_app; split; [by apply Hkeep|];
              by repeat constructor).
      * split; [done|]. apply Forall_app. split; [by apply Hkeep|].
        by repeat constructor.
    + cbn. rewrite app_nil_r.
      destruct (timersRecorded_clearDeviceEffect (t_deviceId t) st0 Hrec0)
        as [Hr _].
      split; [done|]. apply Hkeep. etrans; [|exact Hsub0].
      rewrite clearDeviceEffect_pending.
      destruct (activeEffects st0 !! _); [apply sublist_filter|done].
  - split.
    + intros t Ht. rewrite (dispose_pending _ Hrec) in Ht.
      by apply elem_of_nil in Ht.
    + apply Hkeep. rewrite (dispose_pending _ Hrec). apply sublist_nil_l.
  - split; [done|]. by apply Hkeep.
Qed.

Lemma orderly_move m (mv : Move S) :
  (length (waiting m) <= 1)%nat ->
  timersRecorded (dispatcher m) ->
  Forall (cancelled (dispatcher m)) (waiting m) ->
  timersRecorded (dispatcher (move m mv))
  /\ Forall (cancelled (dispatcher (move m mv))) (waiting (move m mv)).
Proof.
  intros Hone Hrec Hw. destruct mv as [op|i]; cbn [move].
  - by apply orderly_begin.
  - unfold resumeAt. destruct (waiting m !! i) as [k|] eqn:Hi; [|done].
    destruct (waiting m) as [|k0 [|k1 ks]] eqn:Hwm; [done| |cbn in Hone; lia].
    destruct i as [|i]; [|done]. cbn in Hi. injection Hi as ->.
    inversion Hw as [|? ? Hk _]; subst.
    destruct (orderly_resume k (dispatcher m) Hrec Hk) as [Hr Hf].
    destruct (resume k (dispatcher m)) as [st' k']. cbn in *.
    by rewrite app_nil_r.
Qed.

Lemma orderly_play (moves : list (Move S)) : forall m,
  oneAtATime moves m = true ->
  (length (waiting m) <= 1)%nat ->
  timersRecorded (dispatcher m) ->
  Forall (cancelled (dispatcher m)) (waiting m) ->
  timersRecorded (dispatcher (play moves m))
  /\ Forall (cancelled (dispatcher (play moves m))) (waiting (play moves m)).
Proof.
  induction moves as [|mv moves IH]; intros m Hone Hlen Hrec Hw; [done|].
  cbn in Hone. apply andb_prop in Hone as [Hmv Hone].
  destruct (orderly_move m mv Hlen Hrec Hw) as [Hr Hf].
  cbn. apply IH; try done. by apply Nat.leb_le.
Qed.

Lemma pending_registerDefaults defaults st :
  pending (fold_left (fun acc e => addEffect e acc) defaults st) = pending st.
Proof.
  revert st. induction defaults as [|e es IH]; intros st; [done|].
  cbn. by rewrite IH.
Qed.

Lemma timersRecorded_create (lm : LightManager.State S) defaults enable :
  timersRecorded (create lm defaults enable).
Proof.
  assert (Hp : pending (create lm defaults enable) = []).
  { unfold create. destruct enable; [|done]. unfold registerDefaultEffects.
    cbn [log pending]. by rewrite pending_registerDefaults. }
  intros t Ht. rewrite Hp in Ht. by apply elem_of_nil in Ht.
Qed.

(** While at most one call is in progress at any time, every pending
    timer is the one recorded for its device, and a call that waits for
    its command finds its device without a timer. *)
Lemma oneAtATime_orderly (lm : LightManager.State S) defaults enable
    (moves : list (Move S)) :
  oneAtATime moves (boot lm defaults enable) = true ->
  let m := play moves (boot lm defaults enable) in
  timersRecorded (dispatcher m) /\ Forall (cancelled (dispatcher m)) (waiting m).
Proof.
  intros Hone. apply orderly_play; [done|cbn; lia| |constructor].
  apply timersRecorded_create.
Qed.

(** With every pending timer recorded, a device has one timer at most. *)
Lemma timersRecorded_at_most_one st d :
  handlesIssued st -> timersRecorded st -> (length (timersOf d st) <= 1)%nat.
Proof.
  intros (Hnd & _) Hrec.
  destruct (timersOf d st) as [|t1 [|t2 ts]] eqn:Htimers; cbn; try lia.
  exfalso.
  assert (H1 : t1 ∈ timersOf d st) by (rewrite Htimers; left).
  assert (H2 : t2 ∈ timersOf d st) by (rewrite Htimers; right; left).
  pose proof (timersOf_recorded d st t1 Hrec H1) as R1.
  pose proof (timersOf_recorded d st t2 Hrec H2) as R2.
  rewrite R1 in R2. injection R2 as Heq.
  assert (Hnd' : NoDup (t_handle <$> timersOf d st)).
  { apply (sublist_NoDup _ (t_handle <$> pending st)); [exact Hnd|].
    apply fmap_sublist, sublist_filter. }
  rewrite Htimers in Hnd'. cbn in Hnd'.
  apply NoDup_cons in Hnd' as [Hnotin _]. apply Hnotin. rewrite Heq. left.
Qed.

End OneAtATime.

Section RunToCompletion.
Context {S : Type}.
Import GameDinAdapter.
Implicit Types (st : State S) (e : IGameDinLightEffect) (t : Timer)
  (m : Machine S) (k : Task).

(** ** Calls that do not overlap

    [handleEvent] and [fireTimer], which take a call to its end in one
    step, are what the calls in flight come to when each is resumed until
    it has ended before anything else begins. *)

Lemma play_app (a b : list (Move S)) m : play (a ++ b) m = play b (play a m).
Proof. apply fold_left_app. Qed.

Lemma oneAtATime_app (a b : list (Move S)) : forall m,
  oneAtATime (a ++ b) m = oneAtATime a m && oneAtATime b (play a m).
Proof.
  induction a as [|mv a IH]; intros m; [done|].
  cbn. by rewrite IH, andb_assoc.
Qed.

Lemma begun_app (a b : list (Move S)) : begun (a ++ b) = (begun a ++ begun b)%list.
Proof. apply omap_app. Qed.

(** [m] comes to [m'] by resuming what waits, one call at a time. *)
Local Abbreviation settles m m' :=
  (exists moves : list (Move S),
     play moves m = m' /\ oneAtATime moves m = true /\ begun moves = []).

Lemma settles_refl m : settles m m.
Proof. by exists []. Qed.

Lemma settles_step m m' :
  (length (waiting (resumeAt 0 m)) <= 1)%nat ->
  settles (resumeAt 0 m) m' -> settles m m'.
Proof.
  intros Hlen (moves & Hplay & Hone & Hbegun).
  exists (Resume 0 :: moves). cbn. split; [done|]. split; [|done].
  rewrite Hone, andb_true_r. by apply Nat.leb_le.
Qed.

Lemma resumeAt_alone k st :
  resumeAt 0 {| dispatcher := st; waiting := option_list (Some k) |}
  = {| dispatcher := (resume k st).1; waiting := option_list (resume k st).2 |}.
Proof.
  unfold resumeAt. cbn. destruct (resume k st) as [st' k']. cbn.
  by rewrite app_nil_r.
Qed.

Lemma option_list_length {A} (o : option A) : (length (option_list o) <= 1)%nat.
Proof. destruct o; cbn; lia. Qed.

Lemma nextDevice_settles ev devices : forall st,
  settles {| dispatcher := (nextDevice ev devices st).1;
             waiting := option_list (nextDevice ev devices st).2 |}
    {| dispatcher :=
         fold_left (fun acc device =>
                      applyEffectsToDevice device (effectsFor (ev_type ev) st) ev acc)
           devices st;
       waiting := [] |}.
Proof.
  induction devices as [|device rest IH]; intros st; [apply settles_refl|].
  cbn [nextDevice fold_left]. unfold beginApply, applyEffectsToDevice at 2.
  destruct (find (applies ev) (effectsFor (ev_type ev) st)) as [e|] eqn:Hfind;
    cbn [fst snd option_list].
  - apply settles_step; rewrite resumeAt_alone; [apply option_list_length|].
    cbn [resume].
    destruct (LightManager.executeCommand _ _) as [r lm'] eqn:Hexec.
    cbn [fst snd option_list].
    apply settles_step; rewrite resumeAt_alone; [apply option_list_length|].
    cbn [resume].
    assert (Happ : afterCommand device e r
                     (setLightManager lm' (beforeCommand device e st))
                   = applySelected device e st).
    { rewrite applySelected_split. cbv zeta. by rewrite Hexec. }
    rewrite Happ.
    replace (effectsFor (ev_type ev) st)
      with (effectsFor (ev_type ev) (applySelected device e st))
      by (unfold effectsFor; by rewrite effects_applySelected).
    apply IH.
  - apply settles_step; rewrite resumeAt_alone; [apply option_list_length|].
    cbn [resume].
    change (effectsFor (ev_type ev) st)
      with (effectsFor (ev_type ev)
              (log LDebug ("No matching effects for device: " ++ d_id device) st)).
    apply IH.
Qed.

Lemma handleEvent_settles ev st :
  exists moves : list (Move S),
    play (Begin (HandleEvent ev) :: moves) {| dispatcher := st; waiting := [] |}
    = {| dispatcher := handleEvent ev st; waiting := [] |}
    /\ oneAtATime (Begin (HandleEvent ev) :: moves)
         {| dispatcher := st; waiting := [] |} = true
    /\ begun moves = [].
Proof.
  assert (Hgoal : settles (begin (HandleEvent ev) {| dispatcher := st; waiting := [] |})
                    {| dispatcher := handleEvent ev st; waiting := [] |}).
  { cbn [begin dispatcher waiting]. unfold startHandleEvent, handleEvent.
    change (effectsFor (ev_type ev) (log LDebug ?msg st))
      with (default [] (effects (log LDebug msg st) !! ev_type ev)).
    cbv zeta.
    destruct (length _ =? 0)%nat; cbn [app option_list]; [apply settles_refl|].
    apply settles_step; rewrite resumeAt_alone; [apply option_list_length|].
    cbn [resume].
    set (st0 := log LDebug ("Processing GameDin event: " ++ ev_type ev) st).
    change (lightManager st0) with (lightManager st).
    destruct (LightManager.getDevices (lightManager st)) as [devices lm'].
    change (default [] (effects st0 !! ev_type ev))
      with (effectsFor (ev_type ev) (setLightManager lm' st0)).
    apply nextDevice_settles. }
  destruct Hgoal as (moves & Hplay & Hone & Hbegun).
  exists moves. cbn [play fold_left move oneAtATime].
  split; [exact Hplay|]. split; [|done].
  fold (oneAtATime moves (begin (HandleEvent ev) {| dispatcher := st; waiting := [] |})).
  rewrite Hone, andb_true_r. apply Nat.leb_le.
  cbn [begin dispatcher waiting]. unfold startHandleEvent.
  destruct (_ =? _)%nat; cbn; lia.
Qed.

Lemma fireTimer_settles h st :
  exists moves : list (Move S),
    play (Begin (FireTimer h) :: moves) {| dispatcher := st; waiting := [] |}
    = {| dispatcher := fireTimer h st; waiting := [] |}
    /\ oneAtATime (Begin (FireTimer h) :: moves)
         {| dispatcher := st; waiting := [] |} = true
    /\ begun moves = [].
Proof.
  assert (Hgoal : settles (begin (FireTimer h) {| dispatcher := st; waiting := [] |})
                    {| dispatcher := fireTimer h st; waiting := [] |}
                  /\ (length (waiting (begin (FireTimer h)
                                 {| dispatcher := st; waiting := [] |})) <= 1)%nat).
  { cbn [begin dispatcher waiting]. unfold fireTimer.
    destruct (find _ (pending st)) as [t|]; [|split; [apply settles_refl|cbn; lia]].
    set (st' := setPending _ st).
    unfold startCallback, timerCallback.
    destruct (restores (t_effect t));
      [|split; [apply settles_refl|cbn; lia]].
    unfold startRestore, restoreDeviceState, reissue.
    destruct (deviceStates st' !! t_deviceId t) as [state|];
      [|split; [|cbn; lia]; cbn [app];
        apply settles_step; rewrite resumeAt_alone; [apply option_list_length|];
        apply settles_refl].
    destruct (s_color state) as [c|] eqn:Hc.
    - split; [|cbn; lia]. cbn [app].
      apply settles_step; rewrite resumeAt_alone; [apply option_list_length|].
      cbn [resume].
      destruct (LightManager.setColorCmd _ c _) as [[[]|err] lm1];
        cbn [fst snd];
        [|apply settles_step; rewrite resumeAt_alone; [apply option_list_length|];
          apply settles_refl].
      unfold afterColor.
      destruct (s_brightness state) as [v|]; cbn [fst snd].
      + apply settles_step; rewrite resumeAt_alone; [apply option_list_length|].
        cbn [resume lightManager setLightManager].
        destruct (LightManager.setBrightnessCmd _ v lm1) as [[[]|err] lm2];
          cbn [fst snd];
          (apply settles_step; rewrite resumeAt_alone; [apply option_list_length|]);
          apply settles_refl.
      + apply settles_step; rewrite resumeAt_alone; [apply option_list_length|].
        apply settles_refl.
    - unfold afterColor.
      destruct (s_brightness state) as [v|]; cbn [fst snd app]; (split; [|cbn; lia]).
      + apply settles_step; rewrite resumeAt_alone; [apply option_list_length|].
        cbn [resume].
        destruct (LightManager.setBrightnessCmd _ v _) as [[[]|err] lm2];
          cbn [fst snd];
          (apply settles_step; rewrite resumeAt_alone; [apply option_list_length|]);
          apply settles_refl.
      + apply settles_step; rewrite resumeAt_alone; [apply option_list_length|].
        apply settles_refl. }
  destruct Hgoal as [(moves & Hplay & Hone & Hbegun) Hlen].
  exists moves. cbn [play fold_left move oneAtATime].
  split; [exact Hplay|]. split; [|done].
  fold (oneAtATime moves (begin (FireTimer h) {| dispatcher := st; waiting := [] |})).
  rewrite Hone, andb_true_r. by apply Nat.leb_le.
Qed.

(** Every run of operations that do not overlap is a play of the calls in
    flight, with at most one call in progress at any time. *)
Lemma run_play ops : forall st,
  exists moves : list (Move S),
    play moves {| dispatcher := st; waiting := [] |}
    = {| dispatcher := run ops st; waiting := [] |}
    /\ oneAtATime moves {| dispatcher := st; waiting := [] |} = true
    /\ begun moves = ops.
Proof.
  induction ops as [|op ops IH]; intros st; [by exists []|].
  destruct (IH (exec st op)) as (rest & Hrest & Hone & Hbegun).
  assert (Hop : exists moves : list (Move S),
             play (Begin op :: moves) {| dispatcher := st; waiting := [] |}
             = {| dispatcher := exec st op; waiting := [] |}
             /\ oneAtATime (Begin op :: moves)
                  {| dispatcher := st; waiting := [] |} = true
             /\ begun moves = []).
  { destruct op; try (by exists []).
    - apply handleEvent_settles.
    - apply fireTimer_settles. }
  destruct Hop as (first & Hfirst & Hone1 & Hbegun1).
  exists ((Begin op :: first) ++ rest)%list.
  rewrite play_app, oneAtATime_app, begun_app, Hfirst, Hone1, Hrest, Hone.
  split; [done|]. split; [done|].
  change (begun (Begin op :: first)) with (op :: begun first).
  by rewrite Hbegun1, Hbegun.
Qed.

Lemma reachable_attainable st : reachable st -> attainable st.
Proof.
  intros (lm & defaults & enable & ops & ->).
  destruct (run_play ops (create lm defaults enable)) as (moves & Hplay & _).
  exists lm, defaults, enable, moves. unfold boot. by rewrite Hplay.
Qed.

End RunToCompletion.

Section Registrations.
Context {S : Type}.
Import GameDinAdapter.
Implicit Types (st : State S) (e : IGameDinLightEffect) (m : Machine S)
  (l : list IGameDinLightEffect).

Local Abbreviation hasPriority p :=
  (fun e : IGameDinLightEffect => priorityOf e = p).

(** ** The registry and the registrations

    [removeEffect] takes an effect out of the sorted array by its
    position; among the registrations that is the effect [unregister]
    takes out. *)

Lemma length_insertByPriority e l :
  length (insertByPriority e l) = Datatypes.S (length l).
Proof.
  induction l as [|y l IH]; cbn; [done|].
  destruct (_ <=? _); cbn; [done|]. by rewrite IH.
Qed.

Lemma length_sortByPriority l : length (sortByPriority l) = length l.
Proof.
  induction l as [|x l IH]; cbn; [done|].
  by rewrite length_insertByPriority, IH.
Qed.

Lemma splice1_length_app {A} (a b : list A) x :
  splice1 (length a) (a ++ x :: b) = (a ++ b)%list.
Proof.
  unfold splice1.
  rewrite take_app_length.
  replace (a ++ x :: b)%list with ((a ++ [x]) ++ b)%list by by rewrite <- app_assoc.
  replace (Datatypes.S (length a)) with (length (a ++ [x])%list)
    by (rewrite length_app; cbn; lia).
  by rewrite drop_app_length.
Qed.

Lemma splice1_beyond {A} (a : list A) k :
  (length a <= k)%nat -> splice1 k a = a.
Proof.
  intros Hk. unfold splice1.
  rewrite take_ge by done. rewrite drop_ge by lia. apply app_nil_r.
Qed.

Lemma filter_withoutNth q p l : forall k,
  filter (hasPriority q) (withoutNth p k l)
  = if decide (q = p) then splice1 k (filter (hasPriority p) l)
    else filter (hasPriority q) l.
Proof.
  induction l as [|x l IH]; intros k; cbn [withoutNth].
  - rewrite !filter_nil. unfold splice1. rewrite take_nil, drop_nil.
    by destruct (decide (q = p)).
  - destruct (decide (priorityOf x = p)) as [Hx|Hx]; [destruct k as [|k]|];
      rewrite ?filter_cons, ?IH; unfold splice1;
      repeat case_decide; subst; try done; cbn [take drop app];
      rewrite ?drop_0; congruence.
Qed.

Lemma filter_splice1 q (n : nat) l x :
  l !! n = Some x ->
  filter (hasPriority q) (splice1 n l)
  = if decide (q = priorityOf x)
    then splice1 (length (filter (hasPriority (priorityOf x)) (take n l)))
           (filter (hasPriority (priorityOf x)) l)
    else filter (hasPriority q) l.
Proof.
  intros Hx. pose proof (take_drop_middle _ _ _ Hx) as Hsplit.
  unfold splice1 at 1. rewrite filter_app.
  destruct (decide (q = priorityOf x)) as [->|Hq].
  - rewrite <- Hsplit at 4. rewrite filter_app, filter_cons, decide_True by done.
    by rewrite splice1_length_app.
  - rewrite <- Hsplit at 3. rewrite filter_app, filter_cons.
    rewrite decide_False by congruence. done.
Qed.

(** What [removeEffect] computes: splicing position [i] out of the sorted
    form of [l] gives the sorted form of [l] with that effect
    unregistered. *)
Lemma sortByPriority_unregister i l :
  sortByPriority (unregister i l)
  = match elementAt (sortByPriority l) i with
    | Some _ => splice1 (Z.to_nat i) (sortByPriority l)
    | None => sortByPriority l
    end.
Proof.
  unfold unregister.
  destruct (elementAt (sortByPriority l) i) as [x|] eqn:Hx; [|done].
  unfold elementAt in Hx. destruct (0 <=? i); [|done].
  apply sorted_classes_unique.
  - apply sortByPriority_sorted.
  - apply StronglySorted_splice1, sortByPriority_sorted.
  - intros q.
    rewrite sortByPriority_class, filter_withoutNth, (filter_splice1 _ _ _ _ Hx).
    by rewrite !sortByPriority_class.
Qed.

Lemma effectsFor_removeEffect ty ty' i st :
  effectsFor ty (removeEffect ty' i st)
  = if decide (ty' = ty)
    then match elementAt (effectsFor ty st) i with
         | Some _ => splice1 (Z.to_nat i) (effectsFor ty st)
         | None => effectsFor ty st
         end
    else effectsFor ty st.
Proof.
  unfold effectsFor, removeEffect.
  destruct (decide (ty' = ty)) as [->|Hne].
  - destruct (effects st !! ty) as [effs|] eqn:Heffs; simpl.
    + destruct (elementAt effs i); [|by rewrite Heffs].
      simpl. by rewrite lookup_insert_eq.
    + rewrite Heffs. simpl. unfold elementAt.
      destruct (0 <=? i); [|done]. by rewrite lookup_nil.
  - destruct (effects st !! ty') as [effs|]; [|done].
    destruct (elementAt effs i); [|done].
    cbn. by rewrite lookup_insert_ne.
Qed.

Lemma effects_nextDevice ev devices st :
  effects (nextDevice ev devices st).1 = effects st.
Proof.
  destruct devices as [|device rest]; [done|].
  unfold nextDevice, beginApply.
  destruct (find _ _); cbn [fst]; [|done].
  unfold beforeCommand. rewrite effects_clearDeviceEffect.
  by destruct (_ && _).
Qed.

Lemma effects_resume (t : Task) st : effects (resume t st).1 = effects st.
Proof.
  destruct t; cbn [resume].
  - destruct (LightManager.getDevices _) as [devices lm'].
    by rewrite effects_nextDevice.
  - destruct (LightManager.executeCommand _ _) as [[[]|err] lm']; cbn [fst];
      unfold afterCommand; [|done].
    by destruct (timed effect).
  - apply effects_nextDevice.
  - destruct (LightManager.setColorCmd _ _ _) as [[[]|err] lm']; [|done].
    unfold afterColor. by destruct (s_brightness state).
  - by destruct (LightManager.setBrightnessCmd _ _ _) as [[[]|err] lm'].
  - apply effects_clearDeviceEffect.
Qed.

Lemma effects_resumeAt i m :
  effects (dispatcher (resumeAt i m)) = effects (dispatcher m).
Proof.
  unfold resumeAt. destruct (waiting m !! i) as [t|]; [|done].
  pose proof (effects_resume t (dispatcher m)) as Hres.
  by destruct (resume t (dispatcher m)).
Qed.

Lemma effects_startCallback d e st :
  effects (startCallback d e st).1 = effects st.
Proof.
  unfold startCallback. destruct (restores e); [|apply effects_clearDeviceEffect].
  unfold startRestore. destruct (deviceStates st !! d) as [state|]; [|done].
  unfold afterColor.
  destruct (s_color state); [done|]. by destruct (s_brightness state).
Qed.

Lemma effectsFor_begin ty (op : Op S) m l :
  effectsFor ty (dispatcher m) = sortByPriority l ->
  effectsFor ty (dispatcher (begin op m)) = sortByPriority (register ty l op).
Proof.
  intros Hl. destruct op as [effect|ty' i|ev|h| |f];
    cbn [begin register exec dispatcher].
  - rewrite effectsFor_addEffect, Hl.
    destruct (decide (eventType effect = ty)); [apply sortByPriority_push|done].
  - rewrite effectsFor_removeEffect, Hl.
    destruct (decide (ty' = ty)); [|done].
    by rewrite sortByPriority_unregister.
  - unfold startHandleEvent. by destruct (_ =? _)%nat.
  - destruct (find _ _) as [t|]; [|done].
    pose proof (effects_startCallback (t_deviceId t) (t_effect t)
                  (setPending (filter (fun t' => t_handle t' ≠ h)
                                 (pending (dispatcher m))) (dispatcher m))) as Hcb.
    destruct (startCallback _ _ _) as [st' k]. cbn [dispatcher].
    unfold effectsFor in *. cbn [fst] in Hcb. by rewrite Hcb.
  - done.
  - done.
Qed.

Lemma effectsFor_play ty (moves : list (Move S)) : forall m l,
  effectsFor ty (dispatcher m) = sortByPriority l ->
  effectsFor ty (dispatcher (play moves m))
  = sortByPriority (fold_left (register ty) (begun moves) l).
Proof.
  induction moves as [|mv moves IH]; intros m l Hl; [done|].
  change (play (mv :: moves) m) with (play moves (move m mv)).
  destruct mv as [op|i].
  - change (begun (Begin op :: moves)) with (op :: begun moves).
    cbn [fold_left]. apply IH. by apply effectsFor_begin.
  - change (begun (Resume i :: moves)) with (begun moves).
    apply IH. cbn [move]. unfold effectsFor in *. by rewrite effects_resumeAt.
Qed.

(** The array [handleEvent] reads is the registrations of the event's
    type that were not removed, by descending priority, equal priorities
    in registration order. *)
Lemma effectsFor_registered ty lm defaults enable (moves : list (Move S)) :
  effectsFor ty (dispatcher (play moves (boot lm defaults enable)))
  = sortByPriority
      (registered ty (if enable then defaults else []) (begun moves)).
Proof. apply effectsFor_play, effectsFor_create. Qed.

End Registrations.

Section TimerFacts.
Context {S : Type}.
Import GameDinAdapter.
Implicit Types (st : State S) (e : IGameDinLightEffect) (t : Timer)
  (m : Machine S).

(** ** A timer comes due *)

(** What [fireTimer] does to each field when the timer of handle [h] is
    pending, whatever else is pending or recorded. *)
Lemma fireTimer_found h st t :
  find (fun t' => bool_decide (t_handle t' = h)) (pending st) = Some t ->
  let d := t_deviceId t in
  let st1 := if restores (t_effect t) then restoreDeviceState d st else st in
  lightManager (fireTimer h st) = lightManager st1
  /\ deviceStates (fireTimer h st) = deviceStates st1
  /\ logs (fireTimer h st) = logs st1
  /\ nextHandle (fireTimer h st) = nextHandle st
  /\ activeEffects (fireTimer h st) = delete d (activeEffects st)
  /\ pending (fireTimer h st)
     = match activeEffects st !! d with
       | Some h' =>
           filter (fun t' => t_handle t' ≠ h')
             (filter (fun t' => t_handle t' ≠ h) (pending st))
       | None => filter (fun t' => t_handle t' ≠ h) (pending st)
       end.
Proof.
  intros Hfind d st1.
  unfold fireTimer. rewrite Hfind. unfold timerCallback. fold d.
  set (sta := setPending (filter (fun t' => t_handle t' ≠ h) (pending st)) st).
  set (stb := if restores (t_effect t) then restoreDeviceState d sta else sta).
  assert (Hb : pending stb = filter (fun t' => t_handle t' ≠ h) (pending st)
               /\ activeEffects stb = activeEffects st
               /\ nextHandle stb = nextHandle st).
  { unfold stb. destruct (restores _); [|done].
    destruct (restoreDeviceState_frame d sta) as (-> & -> & ->). done. }
  destruct Hb as (Hbp & Hba & Hbn).
  assert (Hrest : lightManager stb = lightManager st1
                  /\ deviceStates stb = deviceStates st1
                  /\ logs stb = logs st1).
  { unfold stb, st1. destruct (restores _); [|done].
    unfold restoreDeviceState. simpl.
    destruct (deviceStates st !! d); [|done].
    by destruct (reissue _ _ _) as [[]?]. }
  destruct Hrest as (Hlm & Hds & Hlg).
  pose proof (clearDeviceEffect_frame d stb) as (-> & -> & -> & ->).
  rewrite clearDeviceEffect_activeEffects, clearDeviceEffect_pending.
  by rewrite Hba, Hbp, Hbn.
Qed.

Lemma find_handle_absent h (l : list Timer) :
  (forall t, t ∈ l -> t_handle t ≠ h) ->
  find (fun t' => bool_decide (t_handle t' = h)) l = None.
Proof.
  induction l as [|x l IH]; intros Hall; simpl; [done|].
  rewrite bool_decide_eq_false_2 by (apply Hall; left).
  apply IH. intros t Ht. apply Hall. by right.
Qed.

(** The handle that fired is not pending afterwards: a second firing
    finds no callback to run. *)
Lemma fireTimer_spent h st : fireTimer h (fireTimer h st) = fireTimer h st.
Proof.
  destruct (find (fun t' => bool_decide (t_handle t' = h)) (pending st))
    as [t|] eqn:Hfind.
  - apply fireTimer_not_pending, find_handle_absent.
    destruct (fireTimer_found h st t Hfind) as (_ & _ & _ & _ & _ & Hp).
    intros t' Ht'. rewrite Hp in Ht'.
    destruct (activeEffects st !! t_deviceId t);
      [apply list_elem_of_filter in Ht' as [_ Ht']|];
      by apply list_elem_of_filter in Ht' as [? _].
  - by rewrite !(fireTimer_not_pending h st Hfind).
Qed.

(** With every pending timer recorded, the device whose timer fired has
    no timer left. *)
Lemma fireTimer_leaves_none h st t :
  timersRecorded st ->
  find (fun t' => bool_decide (t_handle t' = h)) (pending st) = Some t ->
  timersOf (t_deviceId t) (fireTimer h st) = []
  /\ activeEffects (fireTimer h st) !! t_deviceId t = None.
Proof.
  intros Hrec Hfind.
  destruct (fireTimer_found h st t Hfind) as (_ & _ & _ & _ & Ha & Hp).
  pose proof (find_handle_elem _ _ _ Hfind) as [Hin Hh].
  pose proof (Hrec t Hin) as Hact. rewrite Hh in Hact.
  split; [|rewrite Ha; apply lookup_delete_eq].
  unfold timersOf. rewrite Hp, Hact. apply filter_none.
  intros t' Ht' Hd.
  apply list_elem_of_filter in Ht' as [Hne Ht'].
  apply list_elem_of_filter in Ht' as [_ Ht'].
  specialize (Hrec t' Ht'). rewrite Hd, Hact in Hrec. by injection Hrec as ->.
Qed.

(** ** One application *)

Lemma applySelected_fields device e st :
  let d := d_id device in
  let r := LightManager.executeCommand (commandFor e d) (lightManager st) in
  lightManager (applySelected device e st) = snd r
  /\ nextHandle (applySelected device e st)
     = (if isOk (fst r) && timed e then Datatypes.S (nextHandle st)
        else nextHandle st)
  /\ activeEffects (applySelected device e st)
     = (if isOk (fst r) && timed e
        then <[d := nextHandle st]> (activeEffects st)
        else delete d (activeEffects st))
  /\ pending (applySelected device e st)
     = (pending (beforeCommand device e st)
          ++ (if isOk (fst r) && timed e then [newTimer device e st] else []))%list
  /\ deviceStates (applySelected device e st)
     = deviceStates (beforeCommand device e st).
Proof.
  intros d r. rewrite applySelected_split. cbv zeta.
  destruct (beforeCommand_fields device e st)
    as (Hlm & _ & Hn & Ha & Hp & Hds & _).
  rewrite Hlm. fold d. fold r.
  destruct (afterCommand_fields device e (fst r)
              (setLightManager (snd r) (beforeCommand device e st)))
    as (Alm & _ & Ads & An & Aa & Ap & _).
  rewrite Alm, Ads, An, Aa, Ap. cbn [setLightManager lightManager deviceStates
    nextHandle activeEffects pending].
  rewrite Hn, Ha. fold d.
  split; [done|]. split; [done|]. split.
  - destruct (isOk (fst r) && timed e); [|done]. by rewrite insert_delete_eq.
  - split; [|done]. unfold newTimer. cbn [nextHandle setLightManager].
    by rewrite Hn.
Qed.

(** An application to another device leaves a timer that is pending and
    recorded as it is. *)
Lemma applySelected_keeps_timer device e st t :
  handlesIssued st ->
  t ∈ pending st ->
  activeEffects st !! t_deviceId t = Some (t_handle t) ->
  d_id device ≠ t_deviceId t ->
  t ∈ pending (applySelected device e st)
  /\ activeEffects (applySelected device e st) !! t_deviceId t = Some (t_handle t).
Proof.
  intros (_ & _ & _ & Hown) Hin Hact Hne.
  destruct (applySelected_fields device e st) as (_ & _ & Ha & Hp & _).
  destruct (beforeCommand_fields device e st) as (_ & _ & _ & _ & Hbp & _).
  split.
  - rewrite Hp. apply elem_of_app. left. rewrite Hbp.
    destruct (activeEffects st !! d_id device) as [h|] eqn:Hd; [|done].
    apply list_elem_of_filter. split; [|done].
    intros Heq. apply Hne. symmetry. by apply (Hown (d_id device) h t).
  - rewrite Ha. destruct (_ && _).
    + by rewrite lookup_insert_ne.
    + by rewrite lookup_delete_ne.
Qed.

Lemma handlesIssued_applySelected device e st :
  handlesIssued st -> handlesIssued (applySelected device e st).
Proof.
  intros Hst. rewrite applySelected_split. cbv zeta.
  apply handlesIssued_afterCommand.
  apply (handlesIssued_same (beforeCommand device e st)); [done..|].
  by apply handlesIssued_beforeCommand.
Qed.

Lemma fold_applySelected_keeps_timer e ds : forall st t,
  handlesIssued st ->
  t ∈ pending st ->
  activeEffects st !! t_deviceId t = Some (t_handle t) ->
  Forall (fun device => d_id device ≠ t_deviceId t) ds ->
  let st' := fold_left (fun acc d => applySelected d e acc) ds st in
  handlesIssued st' /\ t ∈ pending st'
  /\ activeEffects st' !! t_deviceId t = Some (t_handle t).
Proof.
  induction ds as [|device ds IH]; intros st t Hst Hin Hact Hall; [done|].
  inversion Hall as [|? ? Hne Hrest]; subst.
  destruct (applySelected_keeps_timer device e st t Hst Hin Hact Hne) as [Hin' Hact'].
  cbn. apply IH; try done. by apply handlesIssued_applySelected.
Qed.

Lemma fold_applySelected_handlesIssued e ds : forall st,
  handlesIssued st ->
  handlesIssued (fold_left (fun acc d => applySelected d e acc) ds st).
Proof.
  induction ds as [|device ds IH]; intros st Hst; [done|].
  cbn. apply IH. by apply handlesIssued_applySelected.
Qed.

(** A timer whose handle no other pending timer has is the one the event
    loop finds under that handle. *)
Lemma find_handle_unique (l : list Timer) t :
  NoDup (t_handle <$> l) -> t ∈ l ->
  find (fun t' => bool_decide (t_handle t' = t_handle t)) l = Some t.
Proof.
  induction l as [|x l IH]; intros Hnd Hin; [by apply elem_of_nil in Hin|].
  rewrite fmap_cons in Hnd. apply NoDup_cons in Hnd as [Hx Hnd]. cbn.
  apply elem_of_cons in Hin as [->|Hin].
  - by rewrite bool_decide_eq_true_2.
  - rewrite bool_decide_eq_false_2; [by apply IH|].
    intros Heq. apply Hx. rewrite Heq. apply list_elem_of_fmap. by exists t.
Qed.

End TimerFacts.

Section SnapshotFacts.
Context {S : Type}.
Import GameDinAdapter.
Implicit Types (st : State S) (e : IGameDinLightEffect) (t : Timer)
  (m : Machine S) (k : Task).

(** ** Snapshots stay while no timer fires *)

Lemma beforeCommand_snapshot_kept device e st d snapshot :
  deviceStates st !! d = Some snapshot ->
  deviceStates (beforeCommand device e st) !! d = Some snapshot.
Proof.
  intros Hs.
  destruct (beforeCommand_fields device e st) as (_ & _ & _ & _ & _ & -> & _).
  destruct (decide (d_id device = d)) as [Heq|Hne].
  - rewrite Heq, Hs. rewrite bool_decide_eq_false_2 by done.
    by rewrite andb_false_r.
  - destruct (_ && _); [by rewrite lookup_insert_ne|done].
Qed.

Lemma nextDevice_snapshot_kept ev devices st d snapshot :
  deviceStates st !! d = Some snapshot ->
  deviceStates (nextDevice ev devices st).1 !! d = Some snapshot
  /\ Forall (fun k => ofHandleEvent k = true)
       (option_list (nextDevice ev devices st).2).
Proof.
  intros Hs. destruct devices as [|device rest]; [by split|].
  unfold nextDevice, beginApply.
  destruct (find _ _) as [e|]; cbn.
  - split; [by apply beforeCommand_snapshot_kept|by repeat constructor].
  - split; [done|by repeat constructor].
Qed.

Lemma resume_snapshot_kept k st d snapshot :
  ofHandleEvent k = true ->
  deviceStates st !! d = Some snapshot ->
  deviceStates (resume k st).1 !! d = Some snapshot
  /\ Forall (fun k' => ofHandleEvent k' = true) (option_list (resume k st).2).
Proof.
  intros Hk Hs. destruct k as [ev|ev device e rest|ev rest|? ? ?|? ?|?];
    try done; cbn [resume].
  - destruct (LightManager.getDevices _) as [devices lm'].
    by apply nextDevice_snapshot_kept.
  - destruct (LightManager.executeCommand _ _) as [r lm']. cbn [fst snd].
    destruct (afterCommand_fields device e r (setLightManager lm' st))
      as (_ & _ & -> & _).
    split; [done|by repeat constructor].
  - by apply nextDevice_snapshot_kept.
Qed.

Lemma begin_snapshot_kept (op : Op S) m d snapshot :
  quiet op = true ->
  deviceStates (dispatcher m) !! d = Some snapshot ->
  Forall (fun k => ofHandleEvent k = true) (waiting m) ->
  deviceStates (dispatcher (begin op m)) !! d = Some snapshot
  /\ Forall (fun k => ofHandleEvent k = true) (waiting (begin op m)).
Proof.
  intros Hq Hs Hw. destruct op as [e|ty i|ev|h| |f]; try discriminate Hq;
    cbn [begin exec dispatcher waiting].
  - split; [exact Hs|exact Hw].
  - split; [|exact Hw]. unfold removeEffect.
    destruct (effects _ !! ty); [|done]. by destruct (elementAt _ _).
  - unfold startHandleEvent. destruct (_ =? _)%nat; cbn.
    + rewrite app_nil_r. split; [exact Hs|exact Hw].
    + split; [exact Hs|]. apply Forall_app. split; [done|by repeat constructor].
  - split; [exact Hs|exact Hw].
Qed.

Lemma play_snapshot_kept (moves : list (Move S)) d snapshot : forall m,
  forallb quiet (begun moves) = true ->
  Forall (fun k => ofHandleEvent k = true) (waiting m) ->
  deviceStates (dispatcher m) !! d = Some snapshot ->
  deviceStates (dispatcher (play moves m)) !! d = Some snapshot.
Proof.
  induction moves as [|mv moves IH]; intros m Hq Hw Hs; [done|].
  change (play (mv :: moves) m) with (play moves (move m mv)).
  destruct mv as [op|i].
  - change (begun (Begin op :: moves)) with (op :: begun moves) in Hq.
    cbn in Hq. apply andb_prop in Hq as [Hop Hq].
    destruct (begin_snapshot_kept op m d snapshot Hop Hs Hw) as [Hs' Hw'].
    by apply IH.
  - change (begun (Resume i :: moves)) with (begun moves) in Hq.
    cbn [move]. unfold resumeAt.
    destruct (waiting m !! i) as [k|] eqn:Hi; [|by apply IH].
    assert (Hk : ofHandleEvent k = true).
    { rewrite Forall_forall in Hw. apply Hw. by eapply list_elem_of_lookup_2. }
    destruct (resume_snapshot_kept k (dispatcher m) d snapshot Hk Hs) as [Hs' Hk'].
    destruct (resume k (dispatcher m)) as [st' k']. cbn [fst snd] in *.
    apply IH; [done| |done]. cbn [waiting].
    apply Forall_app. split; [by apply Forall_take|].
    apply Forall_app. split; [done|by apply Forall_drop].
Qed.

(** ** The reissued commands *)

Lemma reissue_carriedOut d (snapshot : SavedState) (lm : LightManager.State S) :
  carriedOut d snapshot lm ->
  isOk (fst (reissue d snapshot lm)) = true ->
  (forall c, s_color snapshot = Some c ->
     d_color <$> observe d (snd (reissue d snapshot lm)) = Some (Some c))
  /\ (forall v, s_brightness snapshot = Some v ->
       d_brightness <$> observe d (snd (reissue d snapshot lm)) = Some (Some v)).
Proof.
  unfold carriedOut, reissue. intros [Hc Hb].
  destruct (s_color snapshot) as [c|].
  - specialize (Hc c eq_refl).
    destruct (LightManager.setColorCmd d c lm) as [[[]|err] lm1]; [|done].
    cbn [fst snd isOk] in *. specialize (Hc eq_refl).
    destruct (s_brightness snapshot) as [v|].
    + specialize (Hb v eq_refl).
      destruct (LightManager.setBrightnessCmd d v lm1) as [[[]|err] lm2]; [|done].
      cbn [fst snd isOk] in *. destruct (Hb eq_refl) as [Hbv Hbc].
      intros _. split; [intros ? [= <-]; by rewrite Hbc|by intros ? [= <-]].
    + intros _. cbn. split; [by intros ? [= <-]|done].
  - destruct (s_brightness snapshot) as [v|].
    + specialize (Hb v eq_refl).
      destruct (LightManager.setBrightnessCmd d v lm) as [[[]|err] lm2]; [|done].
      cbn [fst snd isOk] in *. destruct (Hb eq_refl) as [Hbv _].
      intros _. split; [done|by intros ? [= <-]].
    + done.
Qed.

End SnapshotFacts.

Section DispatcherClaims.
Context {S : Type}.
Import GameDinAdapter.
Implicit Types (st : State S) (e : IGameDinLightEffect) (t : Timer)
  (m : Machine S).

(** ** One event, device by device *)

Lemma handleEvent_applies ev st e :
  selected ev st = Some e ->
  handleEvent ev st
  = fold_left (fun acc d => applySelected d e acc)
      (fst (LightManager.getDevices (lightManager st)))
      (setLightManager (snd (LightManager.getDevices (lightManager st)))
         (log LDebug ("Processing GameDin event: " ++ ev_type ev) st)).
Proof.
  intros Hsel. rewrite handleEvent_selected. rewrite Hsel.
  unfold selected in Hsel.
  destruct (effectsFor (ev_type ev) st); [done|].
  cbv zeta. by destruct (LightManager.getDevices _).
Qed.

Lemma fold_applySelected_logs e ds st :
  exists L,
    logs (fold_left (fun acc d => applySelected d e acc) ds st)
    = (logs st ++ L)%list
    /\ filter isDebugLine L = applyingLine <$> ds.
Proof.
  revert st. induction ds as [|d ds IH]; intros st; simpl.
  - exists []. by rewrite app_nil_r.
  - destruct (IH (applySelected d e st)) as (L & HL & Hf).
    rewrite applySelected_logs in HL.
    eexists. split; [by rewrite HL, <- app_assoc|].
    rewrite <- app_comm_cons, filter_cons_True by done.
    rewrite filter_app, Hf. fold (applyingLine d). f_equal.
    destruct (commandSucceeds d e st); [done|].
    by rewrite filter_cons_False by done.
Qed.

(** ** Snapshots *)

Lemma applySelected_snapshot_other device e st d :
  d_id device ≠ d ->
  deviceStates (applySelected device e st) !! d = deviceStates st !! d.
Proof.
  intros Hne. rewrite applySelected_deviceStates.
  destruct (_ && _); [by rewrite lookup_insert_ne|done].
Qed.

Lemma applySelected_snapshot_kept device e st d snapshot :
  deviceStates st !! d = Some snapshot ->
  deviceStates (applySelected device e st) !! d = Some snapshot.
Proof.
  intros Hs. destruct (decide (d_id device = d)) as [Heq|Hne].
  - rewrite applySelected_deviceStates, Heq, Hs.
    rewrite bool_decide_eq_false_2 by done. by rewrite andb_false_r.
  - by rewrite applySelected_snapshot_other.
Qed.

Lemma fold_applySelected_snapshot_kept e ds st d snapshot :
  deviceStates st !! d = Some snapshot ->
  deviceStates (fold_left (fun acc dev => applySelected dev e acc) ds st) !! d
  = Some snapshot.
Proof.
  revert st. induction ds as [|x ds IH]; intros st Hs; simpl; [done|].
  apply IH. by apply applySelected_snapshot_kept.
Qed.

Lemma fold_applySelected_snapshot_other e ds st d :
  Forall (fun dev => d_id dev ≠ d) ds ->
  deviceStates (fold_left (fun acc dev => applySelected dev e acc) ds st) !! d
  = deviceStates st !! d.
Proof.
  revert st. induction ds as [|x ds IH]; intros st Hall; simpl; [done|].
  inversion Hall as [|? ? Hx Hds]; subst.
  rewrite IH by done. by apply applySelected_snapshot_other.
Qed.

(** The calls [reissue] makes, spelled out by the fields the snapshot
    holds. *)
Lemma reissue_calls d (snapshot : SavedState) (lm : LightManager.State S) :
  snd (reissue d snapshot lm)
  = match s_color snapshot, s_brightness snapshot with
    | None, None => lm
    | Some c, None => snd (LightManager.setColorCmd d c lm)
    | None, Some v => snd (LightManager.setBrightnessCmd d v lm)
    | Some c, Some v =>
        let '(r, lm1) := LightManager.setColorCmd d c lm in
        if isOk r then snd (LightManager.setBrightnessCmd d v lm1) else lm1
    end.
Proof.
  unfold reissue.
  destruct (s_color snapshot) as [c|], (s_brightness snapshot) as [v|];
    try done; by destruct (LightManager.setColorCmd d c lm) as [[]?].
Qed.


(** C5, as amended.  While an event is handled, a device whose command
    fails does not stop the loop: the failure is caught and logged, and
    the devices after it are processed from the state so reached, every
    device of the list being visited once.  For the device whose command
    failed no timer is scheduled: [setTimeout] is not reached, so no
    handle is handed out and nothing is recorded for the device, whose
    recorded timer was cancelled before the command was sent; the other
    pending timers are untouched.  The same holds of a call that finds
    its command failed after other calls ran while it waited: it logs the
    failure, sets no timer and goes on with the remaining devices. *)
Theorem failed_command_is_logged_and_skips_timer st ev e
    (pre : list IDevice) (device : IDevice) (post : list IDevice) :
  selected ev st = Some e ->
  fst (LightManager.getDevices (lightManager st)) = (pre ++ device :: post)%list ->
  let st0 :=
    setLightManager (snd (LightManager.getDevices (lightManager st)))
      (log LDebug ("Processing GameDin event: " ++ ev_type ev) st) in
  let reached := fold_left (fun acc d => applySelected d e acc) pre st0 in
  commandSucceeds device e reached = false ->
  let failed := applySelected device e reached in
  handleEvent ev st = fold_left (fun acc d => applySelected d e acc) post failed
  /\ logs failed
     = (logs reached ++
          [(LDebug, ("Applying effect to device: " ++ d_id device)%string);
           (LError, ("Failed to apply effect to device " ++ d_id device)%string)])%list
  /\ filter isDebugLine (drop (length (logs st)) (logs (handleEvent ev st)))
     = (LDebug, ("Processing GameDin event: " ++ ev_type ev)%string)
         :: (applyingLine <$> (pre ++ device :: post)%list)
  /\ nextHandle failed = nextHandle reached
  /\ activeEffects failed = delete (d_id device) (activeEffects reached)
  /\ pending failed
     = match activeEffects reached !! d_id device with
       | Some h => filter (fun t => t_handle t ≠ h) (pending reached)
       | None => pending reached
       end
  /\ (forall (waited : State S) (rest : list IDevice),
        isOk (fst (LightManager.executeCommand (commandFor e (d_id device))
                     (lightManager waited))) = false ->
        let resumed := resume (AwaitCommand ev device e rest) waited in
        snd resumed = Some (AwaitApplied ev rest)
        /\ pending (fst resumed) = pending waited
        /\ activeEffects (fst resumed) = activeEffects waited
        /\ nextHandle (fst resumed) = nextHandle waited
        /\ logs (fst resumed)
           = (logs waited ++
                [(LError, ("Failed to apply effect to device "
                             ++ d_id device)%string)])%list).
Proof.
  intros Hsel Hdevs st0 reached Hfail failed.
  destruct (applySelected_fields device e reached) as (_ & Hn & Ha & Hp & _).
  destruct (beforeCommand_fields device e reached) as (_ & _ & _ & _ & Hbp & _).
  fold failed in Hn, Ha, Hp.
  unfold commandSucceeds in Hfail. rewrite Hfail in Hn, Ha, Hp.
  cbn [andb] in Hn, Ha, Hp. rewrite app_nil_r, Hbp in Hp.
  assert (Hhandle : handleEvent ev st
            = fold_left (fun acc d => applySelected d e acc) post failed).
  { rewrite (handleEvent_applies ev st e Hsel), Hdevs, fold_left_app. done. }
  split; [exact Hhandle|]. split; [|split; [|split; [|split; [|split]]]];
    try done.
  - unfold failed. rewrite applySelected_logs. unfold commandSucceeds.
    by rewrite Hfail.
  - rewrite (handleEvent_applies ev st e Hsel), Hdevs. fold st0.
    destruct (fold_applySelected_logs e (pre ++ device :: post) st0)
      as (L & -> & Hf).
    unfold st0. simpl. rewrite <- app_assoc, drop_app_length. simpl.
    rewrite filter_cons_True by done. by rewrite Hf.
  - intros waited rest Hwaited resumed. subst resumed. cbn [resume].
    destruct (LightManager.executeCommand (commandFor e (d_id device))
                (lightManager waited)) as [r lm'].
    cbn [fst snd] in *.
    destruct (afterCommand_fields device e r (setLightManager lm' waited))
      as (_ & _ & _ & An & Aa & Ap & Al).
    rewrite An, Aa, Ap, Al, Hwaited. cbn. by rewrite app_nil_r.
Qed.

(** C4, as amended.  When the timer of a restorable effect fires for a
    device that has a snapshot, the snapshot's fields are reissued once.
    If every reissued command succeeds the snapshot is deleted.  If one
    of them fails, the failure is logged and the snapshot is kept as it
    was; an effect applied to the device afterwards does not replace it.
    In either case the callback sets no timer: no handle is handed out,
    the handle recorded for the device is deleted and its timer, if one
    is pending, cancelled, and the handle that fired cannot fire a second
    time.  The same holds of a callback that finds a reissued command
    failed after other calls ran while it waited: it logs the failure,
    reissues nothing more, leaves the snapshots, the timers and the
    recorded handles as it finds them, and has only the recorded handle
    left to clear. *)
Theorem restoration_is_attempted_once st (h : nat) t (snapshot : SavedState) :
  find (fun t' => bool_decide (t_handle t' = h)) (pending st) = Some t ->
  restores (t_effect t) = true ->
  deviceStates st !! t_deviceId t = Some snapshot ->
  let d := t_deviceId t in
  let attempt := reissue d snapshot (lightManager st) in
  let st' := fireTimer h st in
  lightManager st' = snd attempt
  /\ (isOk (fst attempt) = true ->
        deviceStates st' = delete d (deviceStates st)
        /\ logs st'
           = (logs st ++
                [(LDebug, ("Restored previous state for device: " ++ d)%string)])%list)
  /\ (isOk (fst attempt) = false ->
        deviceStates st' = deviceStates st
        /\ logs st'
           = (logs st ++
                [(LError, ("Failed to restore state for device " ++ d)%string)])%list
        /\ (forall device e,
              deviceStates (beforeCommand device e st') !! d = Some snapshot
              /\ deviceStates (applySelected device e st') !! d = Some snapshot))
  /\ nextHandle st' = nextHandle st
  /\ activeEffects st' = delete d (activeEffects st)
  /\ pending st'
     = match activeEffects st !! d with
       | Some h' =>
           filter (fun t' => t_handle t' ≠ h')
             (filter (fun t' => t_handle t' ≠ h) (pending st))
       | None => filter (fun t' => t_handle t' ≠ h) (pending st)
       end
  /\ fireTimer h st' = st'
  /\ (forall (waited : State S) (task : Task),
        (exists c, task = AwaitSetColor d snapshot c
                   /\ isOk (fst (LightManager.setColorCmd d c
                                   (lightManager waited))) = false)
        \/ (exists v, task = AwaitSetBrightness d v
                      /\ isOk (fst (LightManager.setBrightnessCmd d v
                                      (lightManager waited))) = false) ->
        let resumed := resume task waited in
        snd resumed = Some (AwaitRestored d)
        /\ deviceStates (fst resumed) = deviceStates waited
        /\ pending (fst resumed) = pending waited
        /\ activeEffects (fst resumed) = activeEffects waited
        /\ nextHandle (fst resumed) = nextHandle waited
        /\ logs (fst resumed)
           = (logs waited ++
                [(LError, ("Failed to restore state for device " ++ d)%string)])%list
        /\ resume (AwaitRestored d) (fst resumed)
           = (clearDeviceEffect d (fst resumed), None)).
Proof.
  intros Hfind Hres Hsnap d attempt st'.
  destruct (fireTimer_found h st t Hfind) as (Hlm & Hds & Hlg & Hn & Ha & Hp).
  rewrite Hres in Hlm, Hds, Hlg. fold d in Hlm, Hds, Hlg, Ha, Hp.
  destruct (restoreDeviceState_spec d st snapshot Hsnap) as (Rlm & Rds & Rlg).
  fold attempt in Rlm, Rds, Rlg. fold st' in Hlm, Hds, Hlg, Hn, Ha, Hp.
  rewrite Rlm in Hlm. rewrite Rds in Hds. rewrite Rlg in Hlg.
  split; [exact Hlm|]. split; [|split; [|split; [exact Hn|split; [exact Ha|split;
    [exact Hp|split; [apply fireTimer_spent|]]]]]].
  - intros Hok. by rewrite Hok in Hds, Hlg.
  - intros Hok. rewrite Hok in Hds, Hlg. split; [exact Hds|]. split; [exact Hlg|].
    intros device e.
    assert (Hkept : deviceStates st' !! d = Some snapshot) by by rewrite Hds.
    split; [by apply beforeCommand_snapshot_kept
           |by apply applySelected_snapshot_kept].
  - intros waited task [(c & -> & Hfail)|(v & -> & Hfail)] resumed;
      subst resumed; cbn [resume].
    + destruct (LightManager.setColorCmd d c (lightManager waited)) as [[[]|err] lm'];
        [discriminate Hfail|]. done.
    + destruct (LightManager.setBrightnessCmd d v (lightManager waited))
        as [[[]|err] lm']; [discriminate Hfail|]. done.
Qed.


End DispatcherClaims.

Section DispatchClaims.
Context {S : Type}.
Import GameDinAdapter.
Implicit Types (st : State S) (e : IGameDinLightEffect).

Lemma sortByPriority_nil l : sortByPriority l = [] <-> l = [].
Proof.
  split; [|by intros ->].
  intros Hnil. apply (f_equal length) in Hnil.
  rewrite length_sortByPriority in Hnil. by destruct l.
Qed.


End DispatchClaims.





(** C4 as stated fails when the reissued command fails: the white lamp
    gets the join effect, the adapter loses its connection, the timer
    fires.  The snapshot is still there afterwards. *)
Lemma restoration_failure_keeps_snapshot_counterexample :
  let st := GameDinAdapter.run
              [GameDinAdapter.HandleEvent (Fixtures.eventOf "player:join");
               Fixtures.connectionLost]
              (Fixtures.dispatcherOf [Fixtures.whiteLamp]) in
  let snapshot := {| GameDinAdapter.s_color := Some "#FFFFFF";
                     GameDinAdapter.s_brightness := Some 80 |} in
  GameDinAdapter.pending st
  = [Fixtures.timerOf 0 Fixtures.whiteLamp Fixtures.joinEffect]
  /\ GameDinAdapter.restores Fixtures.joinEffect = true
  /\ GameDinAdapter.deviceStates st !! "lamp-2" = Some snapshot
  /\ GameDinAdapter.deviceStates (GameDinAdapter.fireTimer 0 st) !! "lamp-2"
     = Some snapshot
  /\ GameDinAdapter.deviceStates (GameDinAdapter.fireTimer 0 st) !! "lamp-2"
     <> None
  /\ last (GameDinAdapter.logs (GameDinAdapter.fireTimer 0 st))
     = Some (LError, "Failed to restore state for device lamp-2").
Proof. vm_compute. repeat split; discriminate. Qed.

(** C4 (amended) at that failing restoration. *)
Lemma restoration_is_attempted_once_witness :
  let st := GameDinAdapter.run
              [GameDinAdapter.HandleEvent (Fixtures.eventOf "player:join");
               Fixtures.connectionLost]
              (Fixtures.dispatcherOf [Fixtures.whiteLamp]) in
  let snapshot := {| GameDinAdapter.s_color := Some "#FFFFFF";
                     GameDinAdapter.s_brightness := Some 80 |} in
  let st' := GameDinAdapter.fireTimer 0 st in
  find (fun t' => bool_decide (GameDinAdapter.t_handle t' = 0%nat))
    (GameDinAdapter.pending st)
  = Some (Fixtures.timerOf 0 Fixtures.whiteLamp Fixtures.joinEffect)
  /\ GameDinAdapter.deviceStates st !! "lamp-2" = Some snapshot
  /\ GameDinAdapter.deviceStates st' = GameDinAdapter.deviceStates st
  /\ GameDinAdapter.nextHandle st' = GameDinAdapter.nextHandle st
  /\ GameDinAdapter.deviceStates
       (GameDinAdapter.applySelected Fixtures.whiteLamp Fixtures.joinEffect st')
     !! "lamp-2" = Some snapshot
  /\ GameDinAdapter.fireTimer 0 st' = st'.
Proof.
  intros st snapshot st'.
  assert (Hfind : find (fun t' => bool_decide (GameDinAdapter.t_handle t' = 0%nat))
                    (GameDinAdapter.pending st)
                  = Some (Fixtures.timerOf 0 Fixtures.whiteLamp Fixtures.joinEffect))
    by (vm_compute; reflexivity).
  assert (Hsnap : GameDinAdapter.deviceStates st !! "lamp-2" = Some snapshot)
    by (vm_compute; reflexivity).
  destruct (restoration_is_attempted_once st 0
              (Fixtures.timerOf 0 Fixtures.whiteLamp Fixtures.joinEffect)
              snapshot Hfind eq_refl Hsnap)
    as (_ & _ & Hfail & Hnext & _ & _ & Hagain & _).
  destruct Hfail as (Hkept & _ & Hblocked); [vm_compute; reflexivity|].
  split; [exact Hfind|]. split; [exact Hsnap|]. split; [exact Hkept|].
  split; [exact Hnext|].
  split; [exact (proj2 (Hblocked Fixtures.whiteLamp Fixtures.joinEffect))|].
  exact Hagain.
Defined.

(** C5 as stated fails on the scheduling: a timed, restorable effect whose
    command fails leaves the device with a snapshot, an error line and no
    timer. *)
Lemma failed_command_schedules_no_timer_counterexample :
  let st := GameDinAdapter.run [GameDinAdapter.AddEffect Fixtures.customEffect]
              (Fixtures.dispatcherOf [Fixtures.lamp]) in
  let st' := GameDinAdapter.handleEvent (Fixtures.eventOf "custom:event") st in
  GameDinAdapter.selected (Fixtures.eventOf "custom:event") st
  = Some Fixtures.customEffect
  /\ GameDinAdapter.timed Fixtures.customEffect = true
  /\ GameDinAdapter.restores Fixtures.customEffect = true
  /\ last (GameDinAdapter.logs st')
     = Some (LError, "Failed to apply effect to device test-device-1")
  /\ GameDinAdapter.deviceStates st' !! "test-device-1"
     = Some {| GameDinAdapter.s_color := None;
               GameDinAdapter.s_brightness := Some 50 |}
  /\ GameDinAdapter.pending st' = []
  /\ GameDinAdapter.activeEffects st' !! "test-device-1" = None.
Proof. vm_compute. repeat split. Qed.

(** C5 (amended) with two lamps: the command fails for the first, the
    second is processed all the same. *)
Lemma failed_command_is_logged_and_skips_timer_witness :
  let st := GameDinAdapter.run [GameDinAdapter.AddEffect Fixtures.customEffect]
              (Fixtures.dispatcherOf [Fixtures.lamp; Fixtures.whiteLamp]) in
  let ev := Fixtures.eventOf "custom:event" in
  let e := Fixtures.customEffect in
  let st0 :=
    GameDinAdapter.setLightManager
      (snd (LightManager.getDevices (GameDinAdapter.lightManager st)))
      (GameDinAdapter.log LDebug
         ("Processing GameDin event: " ++ GameDinAdapter.ev_type ev) st) in
  let reached :=
    fold_left (fun acc d => GameDinAdapter.applySelected d e acc) [] st0 in
  let failed := GameDinAdapter.applySelected Fixtures.lamp e reached in
  GameDinAdapter.selected ev st = Some e
  /\ GameDinAdapter.commandSucceeds Fixtures.lamp e reached = false
  /\ GameDinAdapter.handleEvent ev st
     = fold_left (fun acc d => GameDinAdapter.applySelected d e acc)
         [Fixtures.whiteLamp] failed
  /\ GameDinAdapter.nextHandle failed = GameDinAdapter.nextHandle reached
  /\ filter isDebugLine
       (drop (length (GameDinAdapter.logs st))
          (GameDinAdapter.logs (GameDinAdapter.handleEvent ev st)))
     = (LDebug, ("Processing GameDin event: " ++ GameDinAdapter.ev_type ev)%string)
         :: (GameDinAdapter.applyingLine
               <$> ([] ++ Fixtures.lamp :: [Fixtures.whiteLamp])%list).
Proof.
  intros st ev e st0 reached failed.
  assert (Hsel : GameDinAdapter.selected ev st = Some e)
    by (vm_compute; reflexivity).
  assert (Hdevs : fst (LightManager.getDevices (GameDinAdapter.lightManager st))
                  = ([] ++ Fixtures.lamp :: [Fixtures.whiteLamp])%list)
    by (vm_compute; reflexivity).
  assert (Hfail : GameDinAdapter.commandSucceeds Fixtures.lamp e reached = false)
    by (vm_compute; reflexivity).
  destruct (failed_command_is_logged_and_skips_timer st ev e
              [] Fixtures.lamp [Fixtures.whiteLamp] Hsel Hdevs Hfail)
    as (Hrest & _ & Hlines & Hnext & _).
  split; [exact Hsel|]. split; [exact Hfail|].
  split; [exact Hrest|]. split; [exact Hnext|exact Hlines].
Defined.


(* ===================================================================== *)
(** * The light manager: routing a command                                *)
(* ===================================================================== *)

Section LightManagerClaims.
Context {S : Type}.
Import LightManager.
Implicit Types (st : LightManager.State S).

Lemma store_log lvl msg st : store (log lvl msg st) = store st.
Proof. done. Qed.

Lemma executeLoop_first_success pre name a post command st s1 s2 :
  allFailed command pre (store st) s1 ->
  Adapter.executeCommand a command s1 = (Ok tt, s2) ->
  fst (executeLoop (pre ++ (name, a) :: post) command st) = Ok tt
  /\ store (snd (executeLoop (pre ++ (name, a) :: post) command st)) = s2.
Proof.
  revert st. induction pre as [|[n b] pre IH]; intros st Hfail Hok; simpl.
  - inversion Hfail; subst. by rewrite Hok.
  - inversion Hfail as [|? ? ? ? sb ? e Hb Hrest]; subst.
    rewrite Hb. by apply IH.
Qed.

Lemma executeLoop_throws l command st e :
  fst (executeLoop l command st) = Throw e ->
  e = noAdapterError (c_deviceId command)
  /\ allFailed command l (store st) (store (snd (executeLoop l command st))).
Proof.
  revert st. induction l as [|[n a] l IH]; intros st; simpl.
  - intros [= <-]. split; [done|constructor].
  - destruct (Adapter.executeCommand a command (store st)) as [[u|e'] s1] eqn:Ha;
      simpl; [done|].
    intros Hthrow. destruct (IH _ Hthrow) as [-> Hrest].
    split; [done|]. econstructor; [exact Ha|exact Hrest].
Qed.

Lemma executeLoop_ok l command st :
  fst (executeLoop l command st) = Ok tt ->
  exists pre name a post s1,
    l = (pre ++ (name, a) :: post)%list
    /\ allFailed command pre (store st) s1
    /\ Adapter.executeCommand a command s1
       = (Ok tt, store (snd (executeLoop l command st))).
Proof.
  revert st. induction l as [|[n a] l IH]; intros st; simpl; [done|].
  destruct (Adapter.executeCommand a command (store st)) as [[[]|e'] s1] eqn:Ha;
    simpl.
  - intros _. exists [], n, a, l, (store st). split; [done|].
    split; [constructor|done].
  - intros Hok. destruct (IH _ Hok) as (pre & name & b & post & sb & -> & Hf & Hb).
    exists ((n, a) :: pre), name, b, post, sb. split; [done|].
    split; [|exact Hb]. econstructor; [exact Ha|exact Hf].
Qed.

Lemma getDeviceLoop_none l deviceId st :
  fst (getDeviceLoop l deviceId st) = None ->
  noneRecognizes deviceId l (store st) (store (snd (getDeviceLoop l deviceId st))).
Proof.
  revert st. induction l as [|[n a] l IH]; intros st; simpl.
  - intros _. constructor.
  - destruct (Adapter.getDevice a deviceId (store st)) as [[[d|]|e] s1] eqn:Ha;
      simpl; [done| |]; intros Hnone.
    + eapply noneRecognizes_null; [exact Ha|]. exact (IH _ Hnone).
    + eapply noneRecognizes_throw; [exact Ha|]. exact (IH _ Hnone).
Qed.

Lemma noneRecognizes_getDeviceLoop l deviceId st s' :
  noneRecognizes deviceId l (store st) s' ->
  fst (getDeviceLoop l deviceId st) = None.
Proof.
  revert st. induction l as [|[n a] l IH]; intros st Hnone; simpl; [done|].
  inversion Hnone as [|? ? ? ? s1 ? Ha Hrest|? ? ? ? s1 ? e Ha Hrest]; subst;
    rewrite Ha; by apply IH.
Qed.

(** C6.  [executeCommand] has three outcomes.  It succeeds whenever the
    lookup has found the device and some adapter executes the command
    without error, all adapters tried before it having thrown; and it
    succeeds in no other way.  It throws "Device not found" exactly when
    the lookup finds nothing, which is when every adapter answered [null] or
    threw when asked for the device.  It throws "No adapter could handle
    the command" only after the lookup has found the device and every
    adapter, in turn, was handed the command and threw. *)
Theorem executeCommand_routing (command : ILightCommand) st :
  let deviceId := c_deviceId command in
  let st1 := if isInitialized st then st else snd (initialize st) in
  let lookup := getDevice deviceId st1 in
  let outcome := executeCommand command st in
  (forall d pre name a post s1 s2,
     fst lookup = Some d ->
     adapters st = (pre ++ (name, a) :: post)%list ->
     allFailed command pre (store (snd lookup)) s1 ->
     Adapter.executeCommand a command s1 = (Ok tt, s2) ->
     fst outcome = Ok tt /\ store (snd outcome) = s2)
  /\ (fst outcome = Ok tt ->
        exists d pre name a post s1,
          fst lookup = Some d
          /\ adapters st = (pre ++ (name, a) :: post)%list
          /\ allFailed command pre (store (snd lookup)) s1
          /\ Adapter.executeCommand a command s1 = (Ok tt, store (snd outcome)))
  /\ (fst outcome = Throw (notFoundError deviceId) <-> fst lookup = None)
  /\ (fst lookup = None <->
        exists s', noneRecognizes deviceId (adapters st) (store st1) s')
  /\ (fst outcome = Throw (noAdapterError deviceId) ->
        exists d, fst lookup = Some d
          /\ allFailed command (adapters st) (store (snd lookup))
               (store (snd outcome)))
  /\ (fst outcome = Ok tt
      \/ fst outcome = Throw (notFoundError deviceId)
      \/ fst outcome = Throw (noAdapterError deviceId)).
Proof.
  intros deviceId st1 lookup outcome.
  assert (H1 : adapters st1 = adapters st).
  { unfold st1. destruct (isInitialized st); [done|apply adapters_initialize]. }
  assert (H2 : adapters (snd lookup) = adapters st).
  { unfold lookup, getDevice. by rewrite adapters_getDeviceLoop. }
  assert (Hout : outcome
            = match fst lookup with
              | None => (Throw (notFoundError deviceId), snd lookup)
              | Some _ => executeLoop (adapters st) command (snd lookup)
              end).
  { unfold outcome, executeCommand. fold st1. fold deviceId. fold lookup.
    destruct lookup as [[d|] st2]; simpl in *; [by rewrite H2|done]. }
  assert (Hne : notFoundError deviceId <> noAdapterError deviceId) by done.
  split; [|split; [|split; [|split; [|split]]]].
  - intros d pre name a post s1 s2 Hfound Hads Hfail Hok.
    rewrite Hout, Hfound, Hads.
    exact (executeLoop_first_success pre name a post command _ s1 s2 Hfail Hok).
  - intros Hok. rewrite Hout in Hok |- *.
    destruct (fst lookup) as [d|]; [|done].
    destruct (executeLoop_ok _ _ _ Hok) as (pre & name & a & post & s1 & ? & ? & ?).
    by exists d, pre, name, a, post, s1.
  - rewrite Hout. destruct (fst lookup) as [d|]; [|done].
    split; [|done]. intros Hthrow.
    apply executeLoop_throws in Hthrow as [Heq _]. done.
  - unfold lookup, getDevice. rewrite H1. split.
    + intros Hnone. eexists. by apply getDeviceLoop_none.
    + intros [s' Hnone]. by eapply noneRecognizes_getDeviceLoop.
  - rewrite Hout. destruct (fst lookup) as [d|]; [|by intros [= ?]].
    intros Hthrow. exists d. split; [done|].
    by apply executeLoop_throws in Hthrow as [_ ?].
  - rewrite Hout. destruct (fst lookup) as [d|]; [|by right; left].
    destruct (fst (executeLoop (adapters st) command (snd lookup)))
      as [[]|e] eqn:He; [by left|].
    apply executeLoop_throws in He as [-> _]. by right; right.
Qed.

End LightManagerClaims.

(** C6 on the specification's scenario: adapters A and B, the lamp known to
    B only.  A is tried first and throws; the command succeeds. *)
Lemma executeCommand_routing_witness :
  let st := Fixtures.twoAdapters in
  let command := Fixtures.colorCommand "test-device-1" "#FF0000" in
  fst (LightManager.getDevice "test-device-1"
         (snd (LightManager.initialize st))) = Some Fixtures.lamp
  /\ (exists e s1, Adapter.executeCommand InMemoryAdapter.first command
                     (LightManager.store st) = (Throw e, s1))
  /\ fst (LightManager.executeCommand command st) = Ok tt.
Proof.
  intros st command.
  assert (Hfound : fst (LightManager.getDevice "test-device-1"
                          (snd (LightManager.initialize st))) = Some Fixtures.lamp)
    by (vm_compute; reflexivity).
  split; [exact Hfound|]. split.
  { eexists _, _. vm_compute. reflexivity. }
  refine (proj1 (proj1 (executeCommand_routing command st)
                   Fixtures.lamp [("memory:A", InMemoryAdapter.first)]
                   "memory:B" InMemoryAdapter.second [] _ _ Hfound eq_refl _ _)).
  - eapply LightManager.allFailed_cons; [|apply LightManager.allFailed_nil].
    vm_compute. reflexivity.
  - vm_compute. reflexivity.
Defined.

(* ===================================================================== *)
(** * The Govee adapter                                                   *)
(* ===================================================================== *)

Section GoveeClaims.
Context {R : Type}.
Variable api : GoveeAdapter.Remote R.
Import GoveeAdapter.
Implicit Types (st : GoveeAdapter.State R) (dev : IGoveeDevice).

(** ** The cache stays filed by device id *)

Lemma keepsCacheKeyed_ret {A} (a : A) : keepsCacheKeyed R (ret a).
Proof. by intros st. Qed.

Lemma keepsCacheKeyed_throw {A} (e : Exn) :
  keepsCacheKeyed R (throw (A:=A) e).
Proof. by intros st. Qed.

Lemma keepsCacheKeyed_bind {A B} (c : M (R:=R) A) (k : A -> M B) :
  keepsCacheKeyed R c -> (forall a, keepsCacheKeyed R (k a)) ->
  keepsCacheKeyed R (bind c k).
Proof.
  intros Hc Hk st Hst. unfold bind. specialize (Hc st Hst).
  destruct (c st) as [[a|e] st']; simpl in *; [by apply Hk|done].
Qed.

Lemma keepsCacheKeyed_tryCatch {A} (c : M (R:=R) A) (h : Exn -> M A) :
  keepsCacheKeyed R c -> (forall e, keepsCacheKeyed R (h e)) ->
  keepsCacheKeyed R (tryCatch c h).
Proof.
  intros Hc Hh st Hst. unfold tryCatch. specialize (Hc st Hst).
  destruct (c st) as [[a|e] st']; simpl in *; [done|by apply Hh].
Qed.

Lemma keepsCacheKeyed_http {T} req (serve : R -> HttpReply T * R) :
  keepsCacheKeyed R (http req serve).
Proof.
  intros st Hst. unfold http.
  destruct (serve (remote st)) as [[code message data|message] remote']; done.
Qed.

Lemma keepsCacheKeyed_updateDevice deviceId updates :
  keepsCacheKeyed R (updateDevice deviceId updates).
Proof.
  intros st Hst. unfold updateDevice.
  destruct (devices st !! deviceId) as [d|] eqn:Hd; [|done].
  intros k d' Hk. simpl in Hk.
  destruct (decide (deviceId = k)) as [<-|Hne].
  - rewrite lookup_insert_eq in Hk. injection Hk as <-. simpl. by apply Hst.
  - rewrite lookup_insert_ne in Hk by done. by apply Hst.
Qed.

Lemma keepsCacheKeyed_updateDeviceCache ds :
  keepsCacheKeyed R (updateDeviceCache ds).
Proof.
  intros st Hst. unfold updateDeviceCache, setDevices, cacheKeyed. simpl.
  revert Hst. unfold cacheKeyed. generalize (devices st).
  induction ds as [|x ds IH]; intros m Hm; simpl; [done|].
  apply IH. intros k d Hk.
  destruct (decide (d_id (base x) = k)) as [<-|Hne].
  - rewrite lookup_insert_eq in Hk. by injection Hk as <-.
  - rewrite lookup_insert_ne in Hk by done. by apply Hm.
Qed.

Lemma keepsCacheKeyed_getDevices : keepsCacheKeyed R (getDevices api).
Proof.
  apply keepsCacheKeyed_tryCatch; [|intros; apply keepsCacheKeyed_throw].
  apply keepsCacheKeyed_bind; [apply keepsCacheKeyed_http|].
  intros [[code message] infos]. destruct (negb _).
  - apply keepsCacheKeyed_throw.
  - apply keepsCacheKeyed_bind; [apply keepsCacheKeyed_updateDeviceCache|].
    intros _. apply keepsCacheKeyed_ret.
Qed.

Lemma keepsCacheKeyed_initialize : keepsCacheKeyed R (initialize api).
Proof.
  intros st Hst. unfold initialize. destruct (isInitialized st); [done|].
  revert st Hst.
  apply keepsCacheKeyed_tryCatch; [|intros; apply keepsCacheKeyed_throw].
  apply keepsCacheKeyed_bind; [apply keepsCacheKeyed_getDevices|].
  by intros _ st Hst.
Qed.

Lemma keepsCacheKeyed_sendDeviceCommand dev cmd :
  keepsCacheKeyed R (sendDeviceCommand api dev cmd).
Proof.
  apply keepsCacheKeyed_tryCatch; [|intros; apply keepsCacheKeyed_throw].
  apply keepsCacheKeyed_bind; [apply keepsCacheKeyed_http|].
  intros [[code message] []]. destruct (negb _);
    [apply keepsCacheKeyed_throw|apply keepsCacheKeyed_ret].
Qed.

Lemma keepsCacheKeyed_executeCommand command :
  keepsCacheKeyed R (executeCommand api command).
Proof.
  apply keepsCacheKeyed_bind.
  { intros st Hst. unfold validateInitialized. by destruct (isInitialized st). }
  intros _. apply keepsCacheKeyed_bind.
  { intros st Hst. unfold validateDeviceId. by destruct (devices st !! _). }
  intros _ st Hst. destruct (devices st !! c_deviceId command) as [dev|]; [|done].
  revert st Hst.
  apply keepsCacheKeyed_tryCatch; [|intros; apply keepsCacheKeyed_throw].
  apply keepsCacheKeyed_bind.
  - unfold dispatchCommand.
    destruct (c_type command).
    + apply keepsCacheKeyed_bind;
        [apply keepsCacheKeyed_sendDeviceCommand
        |intros; apply keepsCacheKeyed_updateDevice].
    + apply keepsCacheKeyed_bind;
        [apply keepsCacheKeyed_sendDeviceCommand
        |intros; apply keepsCacheKeyed_updateDevice].
    + destruct (p_color (c_params command)) as [c|];
        [|apply keepsCacheKeyed_throw].
      destruct (String.eqb c ""); [apply keepsCacheKeyed_throw|].
      unfold setColor. destruct (hexToRgb c); [|apply keepsCacheKeyed_throw].
      apply keepsCacheKeyed_bind;
        [apply keepsCacheKeyed_sendDeviceCommand
        |intros; apply keepsCacheKeyed_updateDevice].
    + destruct (p_brightness (c_params command)) as [v|];
        [|apply keepsCacheKeyed_throw].
      apply keepsCacheKeyed_bind;
        [apply keepsCacheKeyed_sendDeviceCommand
        |intros; apply keepsCacheKeyed_updateDevice].
    + apply keepsCacheKeyed_throw.
  - intros _. unfold refreshDeviceState.
    apply keepsCacheKeyed_tryCatch; [|intros; apply keepsCacheKeyed_ret].
    apply keepsCacheKeyed_bind; [apply keepsCacheKeyed_http|].
    intros [[code message] state]. destruct (code =? 200);
      [apply keepsCacheKeyed_updateDevice|apply keepsCacheKeyed_ret].
Qed.

Lemma keepsCacheKeyed_getDevice deviceId :
  keepsCacheKeyed R (getDevice api deviceId).
Proof.
  apply keepsCacheKeyed_bind.
  { intros st Hst. unfold validateInitialized. by destruct (isInitialized st). }
  intros _.
  apply keepsCacheKeyed_tryCatch; [|intros; apply keepsCacheKeyed_throw].
  intros st Hst. destruct (devices st !! deviceId); [done|].
  revert st Hst. apply keepsCacheKeyed_bind; [apply keepsCacheKeyed_getDevices|].
  by intros _ st Hst.
Qed.

Lemma cacheKeyed_create cloud : cacheKeyed (create (R:=R) cloud).
Proof. intros k d Hk. cbn [create devices] in Hk. by rewrite lookup_empty in Hk. Qed.

(** What [sendDeviceCommand] does, by the reply of the cloud. *)
Lemma sendDeviceCommand_spec dev cmd st :
  let request :=
    PUT_devices_control (d_address (base dev)) (d_model (base dev)) cmd in
  let '(reply, remote') :=
    onControl api (d_address (base dev)) (d_model (base dev)) cmd (remote st) in
  let st' := {| isInitialized := isInitialized st; devices := devices st;
                remote := remote'; requests := requests st ++ [request] |} in
  sendDeviceCommand api dev cmd st
  = match reply with
    | Response code message _ =>
        if code =? 200 then (Ok tt, st')
        else (Throw (AdapterError
                       ("Failed to send command to device: "
                          ++ ("Failed to send command to device: " ++ message))
                       "COMMAND_SEND_FAILED"
                       (Cause (AdapterError
                                 ("Failed to send command to device: " ++ message)
                                 "COMMAND_FAILED" NoCause))), st')
    | Rejected message =>
        (Throw (AdapterError ("Failed to send command to device: " ++ message)
                  "COMMAND_SEND_FAILED" (Cause (Error message))), st')
    end.
Proof.
  intros request. unfold sendDeviceCommand, tryCatch, bind, http.
  destruct (onControl api _ _ cmd (remote st)) as [[code message []|message] remote'];
    simpl; [|done].
  by destruct (code =? 200).
Qed.

(** C7, as amended.  [setBrightness] sends the brightness clamped to
    0..100 and, once the cloud has accepted it, writes the clamped value
    into the cache; it throws only when the request fails, never because
    the value is out of range.  [executeCommand] with a [setBrightness]
    command passes the value on as it is, so its outcome too depends on
    the cloud's reply alone; after a successful send it refreshes the
    cached device from the state the cloud reports.  What the cache holds
    after the command is therefore the reported brightness when the state
    request is answered with code 200, and the clamped value when it is
    answered with another code or not at all.  With brightness 150 the
    value sent is 100, and 100 is cached unless the cloud reports
    otherwise. *)
Theorem setBrightness_clamps (command : ILightCommand) (b : Z) st dev :
  isInitialized st = true ->
  cacheKeyed st ->
  devices st !! c_deviceId command = Some dev ->
  c_type command = CommandType.setBrightness ->
  p_brightness (c_params command) = Some b ->
  let v := Z.max 0 (Z.min 100 b) in
  let address := d_address (base dev) in
  let mdl := d_model (base dev) in
  let reply := fst (onControl api address mdl (brightnessCmd v) (remote st)) in
  let accepted := match reply with
                  | Response code _ _ => code =? 200
                  | Rejected _ => false
                  end in
  let sent := setBrightness api dev b st in
  let cached :=
    applyUpdates dev {| u_isOn := None; u_brightness := Some (Some v);
                        u_color := None |} in
  (0 <= v <= 100)
  /\ (b = 150 -> v = 100)
  /\ (0 <= b <= 100 -> v = b)
  /\ requests (snd sent)
     = (requests st ++ [PUT_devices_control address mdl (brightnessCmd v)])%list
  /\ isOk (fst sent) = accepted
  /\ (accepted = true ->
        devices (snd sent) = <[c_deviceId command := cached]> (devices st)
        /\ d_brightness (base cached) = Some v)
  /\ (accepted = false ->
        devices (snd sent) = devices st
        /\ exists e, fst sent = Throw e
                     /\ exnCode e = Some "COMMAND_SEND_FAILED")
  /\ executeCommand api command st
     = match fst sent with
       | Ok _ => (Ok tt, snd (refreshDeviceState api dev (snd sent)))
       | Throw e =>
           (Throw (AdapterError "Failed to execute command: setBrightness"
                     "COMMAND_EXECUTION_FAILED" (Cause e)), snd sent)
       end
  /\ (accepted = true ->
        forall message,
          fst (onGetState api address mdl (remote (snd sent))) = Rejected message ->
          devices (snd (executeCommand api command st))
          = <[c_deviceId command := cached]> (devices st))
  /\ (accepted = true ->
        forall code message state,
          fst (onGetState api address mdl (remote (snd sent)))
          = Response code message state ->
          let final :=
            if code =? 200 then applyUpdates cached (reported state) else cached in
          devices (snd (executeCommand api command st))
          = <[c_deviceId command := final]> (devices st)
          /\ d_brightness (base final)
             = if code =? 200 then brightness state else Some v).
Proof.
  intros Hinit Hkeyed Hdev Hty Hb v address mdl reply accepted sent cached.
  pose proof (Hkeyed _ _ Hdev) as Hid.
  assert (Hsent : sent
            = let '(rp, remote') :=
                onControl api address mdl (brightnessCmd v) (remote st) in
              let st' := {| isInitialized := isInitialized st;
                            devices := devices st; remote := remote';
                            requests := requests st ++
                              [PUT_devices_control address mdl (brightnessCmd v)] |} in
              match rp with
              | Response code message _ =>
                  if code =? 200
                  then (Ok tt,
                        {| isInitialized := isInitialized st;
                           devices := <[c_deviceId command := cached]> (devices st);
                           remote := remote';
                           requests := requests st ++
                             [PUT_devices_control address mdl (brightnessCmd v)] |})
                  else (Throw (AdapterError
                                 ("Failed to send command to device: "
                                    ++ ("Failed to send command to device: " ++ message))
                                 "COMMAND_SEND_FAILED"
                                 (Cause (AdapterError
                                           ("Failed to send command to device: "
                                              ++ message)
                                           "COMMAND_FAILED" NoCause))), st')
              | Rejected message =>
                  (Throw (AdapterError
                            ("Failed to send command to device: " ++ message)
                            "COMMAND_SEND_FAILED" (Cause (Error message))), st')
              end).
  { unfold sent, setBrightness. fold v. unfold bind at 1.
    pose proof (sendDeviceCommand_spec dev (brightnessCmd v) st) as Hs.
    fold address mdl in Hs. cbv zeta in Hs.
    destruct (onControl api address mdl (brightnessCmd v) (remote st))
      as [rp remote'].
    rewrite Hs. destruct rp as [code message []|message]; [|reflexivity].
    destruct (code =? 200); [|reflexivity].
    unfold updateDevice, setDevices. simpl. rewrite Hid, Hdev. reflexivity. }
  assert (Hexec : executeCommand api command st
            = match fst sent with
              | Ok _ => (Ok tt, snd (refreshDeviceState api dev (snd sent)))
              | Throw e =>
                  (Throw (AdapterError "Failed to execute command: setBrightness"
                            "COMMAND_EXECUTION_FAILED" (Cause e)), snd sent)
              end).
  { unfold executeCommand, bind at 1 2, validateInitialized, validateDeviceId.
    rewrite Hinit, Hdev. unfold tryCatch, bind, dispatchCommand.
    rewrite Hty, Hb, Hdev. fold sent.
    destruct sent as [[[]|e] s1]; simpl; [|reflexivity].
    assert (Hrefresh : exists s2, refreshDeviceState api dev s1 = (Ok tt, s2)).
    { unfold refreshDeviceState, tryCatch, bind, http.
      destruct (onGetState api _ _ (remote s1)) as [[code message state|message] r'];
        simpl; [|by eexists].
      destruct (code =? 200); [|by eexists].
      unfold updateDevice, setDevices. simpl.
      destruct (devices s1 !! d_id (base dev)); by eexists. }
    destruct Hrefresh as [s2 ->]. done. }
  split; [lia|]. split; [lia|]. split; [lia|].
  subst accepted reply.
  destruct (onControl api address mdl (brightnessCmd v) (remote st))
    as [rp remote'] eqn:Hctl.
  cbv zeta in Hsent. simpl fst.
  destruct rp as [code message []|message].
  - destruct (code =? 200) eqn:Hcode.
    + split; [by rewrite Hsent|]. split; [by rewrite Hsent|].
      split; [intros _; by rewrite Hsent|]. split; [done|].
      split; [exact Hexec|]. split.
      * intros _ message' Hrej. rewrite Hexec, Hsent. simpl.
        rewrite Hsent in Hrej. simpl in Hrej.
        unfold refreshDeviceState, tryCatch, bind, http. simpl.
        fold address mdl.
        destruct (onGetState api address mdl remote') as [rp' r'].
        simpl in Hrej. by rewrite Hrej.
      * intros _ code' message' state Hrep final. rewrite Hexec, Hsent. simpl.
        rewrite Hsent in Hrep. simpl in Hrep.
        unfold refreshDeviceState, tryCatch, bind, http. simpl.
        fold address mdl.
        destruct (onGetState api address mdl remote') as [rp' r'].
        simpl in Hrep. rewrite Hrep. subst final.
        destruct (code' =? 200); simpl; [|done].
        unfold updateDevice, setDevices. simpl.
        rewrite Hid, lookup_insert_eq. simpl.
        by rewrite insert_insert_eq.
    + split; [by rewrite Hsent|]. split; [by rewrite Hsent|].
      split; [done|]. split; [|split; [exact Hexec|done]].
      intros _. rewrite Hsent. split; [done|]. by eexists.
  - split; [by rewrite Hsent|]. split; [by rewrite Hsent|].
    split; [done|]. split; [|split; [exact Hexec|done]].
    intros _. rewrite Hsent. split; [done|]. by eexists.
Qed.

(** C10.  [getDevices] does not look at [isInitialized]: on an adapter that
    was never initialised it fetches the list, caches it and returns it
    when the cloud answers, and that is the call [initialize] makes before
    it sets the flag.  [getDevice] and [executeCommand] on such an adapter
    throw NOT_INITIALIZED and leave the adapter as it was: no request has
    been issued and the cache is unchanged. *)
Theorem uninitialized_adapter st :
  isInitialized st = false ->
  (forall message infos remote',
     onGetDevices api (remote st) = (Response 200 message infos, remote') ->
     let fetched :=
       {| isInitialized := false;
          devices := fold_left (fun m d => <[d_id (base d) := d]> m)
                       (map mapToDevice infos) (devices st);
          remote := remote';
          requests := requests st ++ [GET_devices] |} in
     getDevices api st = (Ok (map base (map mapToDevice infos)), fetched)
     /\ initialize api st
        = (Ok tt, {| isInitialized := true; devices := devices fetched;
                     remote := remote'; requests := requests fetched |}))
  /\ (forall deviceId, getDevice api deviceId st = (Throw notInitialized, st))
  /\ (forall command, executeCommand api command st = (Throw notInitialized, st)).
Proof.
  intros Hinit. split; [|split].
  - intros message infos remote' Hget fetched.
    assert (Hg : getDevices api st
                 = (Ok (map base (map mapToDevice infos)), fetched)).
    { unfold getDevices, tryCatch, bind, http. rewrite Hget. simpl.
      unfold fetched. by rewrite Hinit. }
    split; [exact Hg|].
    unfold initialize. rewrite Hinit. unfold tryCatch, bind. by rewrite Hg.
  - intros deviceId. unfold getDevice, bind, validateInitialized.
    by rewrite Hinit.
  - intros command. unfold executeCommand, bind, validateInitialized.
    by rewrite Hinit.
Qed.

End GoveeClaims.

(** C7 as stated fails when the state the cloud reports after the
    command is not the one the command asked for: the lamp of the test
    suite, at 50%, is sent brightness 150 through a cloud that accepts the
    request while the lamp has not taken it up.  100 is sent and the
    command succeeds, but what the cache holds afterwards is the 50 the
    cloud reports. *)
Lemma setBrightness_cache_follows_report_counterexample :
  let st := snd (GoveeAdapter.initialize Cloud.lagging Fixtures.goveeFresh) in
  let command := Fixtures.brightnessCommand "test-device-1" 150 in
  let result := GoveeAdapter.executeCommand Cloud.lagging command st in
  GoveeAdapter.isInitialized st = true
  /\ fst result = Ok tt
  /\ GoveeAdapter.requests (snd result)
     = (GoveeAdapter.requests st ++
          [GoveeAdapter.PUT_devices_control "test-device-1" "H6001"
             (GoveeAdapter.brightnessCmd 100);
           GoveeAdapter.GET_devices_state "test-device-1" "H6001"])%list
  /\ (d_brightness ∘ GoveeAdapter.base)
       <$> GoveeAdapter.devices (snd result) !! "test-device-1"
     = Some (Some 50)
  /\ (d_brightness ∘ GoveeAdapter.base)
       <$> GoveeAdapter.devices (snd result) !! "test-device-1"
     <> Some (Some 100).
Proof. vm_compute. repeat split; discriminate. Qed.

(** C7 (amended) at brightness 150 on the lamp of the test suite, with a
    cloud that reports what it was sent: 100 is sent, the command
    succeeds, and 100 is what the cache holds afterwards. *)
Lemma setBrightness_clamps_witness :
  let st := Fixtures.goveeReady in
  let command := Fixtures.brightnessCommand "test-device-1" 150 in
  let dev := GoveeAdapter.mapToDevice Fixtures.lampInfo in
  let sent := GoveeAdapter.setBrightness Cloud.api dev 150 st in
  GoveeAdapter.isInitialized st = true
  /\ GoveeAdapter.cacheKeyed st
  /\ GoveeAdapter.devices st !! "test-device-1" = Some dev
  /\ GoveeAdapter.requests (snd sent)
     = (GoveeAdapter.requests st ++
          [GoveeAdapter.PUT_devices_control "test-device-1" "H6001"
             (GoveeAdapter.brightnessCmd 100)])%list
  /\ fst (GoveeAdapter.executeCommand Cloud.api command st) = Ok tt
  /\ (d_brightness ∘ GoveeAdapter.base)
       <$> GoveeAdapter.devices
             (snd (GoveeAdapter.executeCommand Cloud.api command st))
           !! "test-device-1"
     = Some (Some 100).
Proof.
  intros st command dev sent.
  assert (Hinit : GoveeAdapter.isInitialized st = true)
    by (vm_compute; reflexivity).
  assert (Hdev : GoveeAdapter.devices st !! c_deviceId command = Some dev)
    by (vm_compute; reflexivity).
  assert (Hkeyed : GoveeAdapter.cacheKeyed st)
    by apply keepsCacheKeyed_initialize, cacheKeyed_create.
  destruct (setBrightness_clamps Cloud.api command 150 st dev
              Hinit Hkeyed Hdev eq_refl eq_refl)
    as (_ & Hv & _ & Hreq & _).
  split; [exact Hinit|]. split; [exact Hkeyed|]. split; [exact Hdev|].
  split; [exact Hreq|]. split; vm_compute; reflexivity.
Defined.

(** C10 on a freshly constructed adapter. *)
Lemma uninitialized_adapter_witness :
  let st := Fixtures.goveeFresh in
  GoveeAdapter.isInitialized st = false
  /\ isOk (fst (GoveeAdapter.getDevices Cloud.api st)) = true
  /\ GoveeAdapter.isInitialized (snd (GoveeAdapter.initialize Cloud.api st)) = true
  /\ GoveeAdapter.getDevice Cloud.api "test-device-1" st
     = (Throw GoveeAdapter.notInitialized, st)
  /\ GoveeAdapter.executeCommand Cloud.api
       (Fixtures.brightnessCommand "test-device-1" 150) st
     = (Throw GoveeAdapter.notInitialized, st).
Proof.
  intros st.
  destruct (uninitialized_adapter Cloud.api st eq_refl) as (Hget & Hdev & Hexec).
  destruct (Hget "Success" [Fixtures.lampInfo] [Fixtures.lampInfo] eq_refl)
    as [Hg Hi].
  split; [reflexivity|]. split; [by rewrite Hg|]. split; [by rewrite Hi|].
  split; [apply Hdev|apply Hexec].
Defined.

(* ===================================================================== *)
(** * The profile sync loop                                               *)
(* ===================================================================== *)

Section ProfileSyncClaims.
Import ProfileSyncService.
Implicit Types (st : ProfileSyncService.State).

Lemma guarded_syncAll st : guarded st -> guarded (syncAll st).
Proof.
  unfold syncAll. intros [[Hs Hl]|[Hs Hl]]; rewrite Hs.
  - left. done.
  - left. simpl. rewrite Hl. done.
Qed.

Lemma guarded_resume i r st : guarded st -> guarded (resume i r st).
Proof.
  unfold resume. intros Hg.
  destruct (inFlight st !! i) as [awaited|] eqn:Hi; [|done].
  destruct Hg as [[Hs Hl]|[Hs Hl]]; [|by rewrite Hl in Hi].
  destruct (inFlight st) as [|x [|y l]] eqn:Hin; try done.
  destruct i as [|i]; [|done]. simpl in Hi. injection Hi as ->.
  destruct r as [[]|e]; [destruct awaited|]; simpl.
  - left. done.
  - left. done.
  - right. done.
  - right. done.
Qed.

Lemma guarded_reachable st : reachable st -> guarded st.
Proof.
  induction 1 as [|st st' _ IH Hstep]; [by right|].
  destruct Hstep; [by apply guarded_syncAll|by apply guarded_resume].
Qed.

(** C9.  A tick that starts while the flag is set does nothing but write
    the "already in progress" line: it runs no sync step and leaves no
    invocation behind to run later.  In every reachable state at most one
    invocation is in flight, and the flag is set exactly when one is.  An
    invocation that ends, whether its last step completed or one of its
    awaited calls rejected, clears the flag; and it always ends: three
    resumptions at most, whatever their outcomes. *)
Theorem overlapping_tick_is_skipped st :
  reachable st ->
  (isSyncing st = true ->
     syncAll st = log LDebug "Sync already in progress" st
     /\ inFlight (syncAll st) = inFlight st
     /\ isSyncing (syncAll st) = true
     /\ filter isStepLine (logs (syncAll st)) = filter isStepLine (logs st))
  /\ (isSyncing st = false ->
        inFlight (syncAll st) = [syncProfileFromDivina]
        /\ isSyncing (syncAll st) = true)
  /\ (length (inFlight st) <= 1)%nat
  /\ (isSyncing st = true <-> inFlight st <> [])
  /\ (forall i r awaited,
        inFlight st !! i = Some awaited ->
        let st' := resume i r st in
        (inFlight st' = [] <-> isSyncing st' = false)
        /\ (forall e, r = Throw e ->
              inFlight st' = [] /\ isSyncing st' = false
              /\ logs st' = (logs st ++ [(LError, "Sync failed")])%list)
        /\ (r = Ok tt -> awaited = applyPendingUpdates ->
              inFlight st' = [] /\ isSyncing st' = false))
  /\ (forall r1 r2 r3,
        let st' := resume 0 r3 (resume 0 r2 (resume 0 r1 st)) in
        inFlight st' = [] /\ isSyncing st' = false).
Proof.
  intros Hreach. pose proof (guarded_reachable st Hreach) as Hg.
  split; [|split; [|split; [|split; [|split]]]].
  - intros Hs. unfold syncAll. rewrite Hs. simpl.
    repeat split; [exact Hs|]. rewrite filter_app.
    rewrite filter_cons_False; [by rewrite app_nil_r|].
    unfold isStepLine. simpl. rewrite !elem_of_cons, elem_of_nil.
    intros [?|[?|[?|[]]]]; discriminate.
  - intros Hs. unfold syncAll. rewrite Hs. simpl.
    destruct Hg as [[Hs' _]|[_ ->]]; [congruence|done].
  - destruct Hg as [[_ ->]|[_ ->]]; simpl; lia.
  - destruct Hg as [[Hs Hl]|[Hs Hl]]; rewrite Hs.
    + split; [|done]. intros _ Hnil. by rewrite Hnil in Hl.
    + split; [done|]. by rewrite Hl.
  - intros i r awaited Hi st'.
    pose proof (guarded_resume i r st Hg) as Hg'. fold st' in Hg'.
    split; [|split].
    + destruct Hg' as [[Hs Hl]|[Hs Hl]]; rewrite Hs.
      * split; [|done]. intros Hnil. by rewrite Hnil in Hl.
      * by rewrite Hl.
    + intros e ->. unfold st', resume. rewrite Hi. simpl.
      destruct Hg as [[Hs Hl]|[Hs Hl]]; [|by rewrite Hl in Hi].
      destruct (inFlight st) as [|x [|y l]]; try done.
      destruct i; [done|]. by simpl in Hi.
    + intros -> ->. unfold st', resume. rewrite Hi. simpl.
      destruct Hg as [[Hs Hl]|[Hs Hl]]; [|by rewrite Hl in Hi].
      destruct (inFlight st) as [|x [|y l]]; try done.
      destruct i; [done|]. by simpl in Hi.
  - intros r1 r2 r3 st'. unfold st'.
    destruct Hg as [[Hs Hl]|[Hs Hl]].
    + destruct st as [s fl lg]. simpl in *.
      destruct fl as [|x [|y l]]; try done.
      destruct x, r1 as [[]|e1], r2 as [[]|e2], r3 as [[]|e3]; done.
    + destruct st as [s fl lg]. simpl in *. subst. done.
Qed.

End ProfileSyncClaims.

(** C9 right after a tick has started: a second tick is skipped. *)
Lemma overlapping_tick_is_skipped_witness :
  let st := ProfileSyncService.syncAll ProfileSyncService.initial in
  ProfileSyncService.reachable st
  /\ ProfileSyncService.isSyncing st = true
  /\ ProfileSyncService.syncAll st
     = ProfileSyncService.log LDebug "Sync already in progress" st
  /\ ProfileSyncService.inFlight (ProfileSyncService.syncAll st)
     = [ProfileSyncService.syncProfileFromDivina].
Proof.
  intros st.
  assert (Hreach : ProfileSyncService.reachable st).
  { eapply ProfileSyncService.reachable_step;
      [apply ProfileSyncService.reachable_initial
      |apply ProfileSyncService.step_tick]. }
  destruct (proj1 (overlapping_tick_is_skipped st Hreach) eq_refl)
    as (Hskip & Hsame & _).
  split; [exact Hreach|]. split; [reflexivity|]. split; [exact Hskip|].
  exact Hsame.
Defined.

(* ===================================================================== *)
(** * The Govee adapter: colour conversions                               *)
(* ===================================================================== *)

Section Colours.
Import GoveeAdapter.

Lemma toInt32_small x : - 2 ^ 31 <= x < 2 ^ 31 -> toInt32 x = x.
Proof. intros Hx. unfold toInt32. rewrite Z.mod_small; lia. Qed.

Lemma toInt32_mod256 x : toInt32 x mod 256 = x mod 256.
Proof.
  unfold toInt32.
  rewrite (Z.mod_eq (x + 2 ^ 31) (2 ^ 32)) by lia.
  replace (x + 2 ^ 31 - 2 ^ 32 * ((x + 2 ^ 31) / 2 ^ 32) - 2 ^ 31)
    with (x + (- 16777216 * ((x + 2 ^ 31) / 2 ^ 32)) * 256) by lia.
  apply Z.mod_add. lia.
Qed.

(** [x & 255] is the lowest byte of [x], also for a negative [x]. *)
Lemma band_255 x : band x 255 = x mod 256.
Proof.
  unfold band. rewrite (toInt32_small 255) by lia.
  change 255 with (Z.ones 8). rewrite Z.land_ones by lia.
  change (2 ^ 8) with 256. rewrite toInt32_mod256.
  apply toInt32_small. pose proof (Z.mod_pos_bound x 256). lia.
Qed.

(** [(x >> k) & 255] is the byte of [x] that starts at bit [k]. *)
Lemma band_sar x k : 0 <= k <= 24 -> band (sar x k) 255 = (x / 2 ^ k) mod 256.
Proof.
  intros Hk. rewrite band_255. unfold sar. rewrite Z.shiftr_div_pow2 by lia.
  unfold toInt32.
  rewrite (Z.mod_eq (x + 2 ^ 31) (2 ^ 32)) by lia.
  set (q := (x + 2 ^ 31) / 2 ^ 32).
  replace (x + 2 ^ 31 - 2 ^ 32 * q - 2 ^ 31)
    with (x + (- q * 2 ^ (32 - k)) * 2 ^ k).
  2:{ replace (2 ^ 32) with (2 ^ (32 - k) * 2 ^ k); [lia|].
      rewrite <- Z.pow_add_r by lia. f_equal. lia. }
  rewrite Z.div_add by (apply Z.pow_nonzero; lia).
  replace (- q * 2 ^ (32 - k)) with ((- q * 2 ^ (24 - k)) * 256).
  2:{ replace (2 ^ (32 - k)) with (2 ^ (24 - k) * 2 ^ 8); [lia|].
      rewrite <- Z.pow_add_r by lia. f_equal. lia. }
  apply Z.mod_add. lia.
Qed.

Lemma hexDigit_cases d :
  isHexDigit d ->
  d ∈ [0; 1; 2; 3; 4; 5; 6; 7; 8; 9; 10; 11; 12; 13; 14; 15].
Proof.
  intros [Hlo Hhi].
  assert (Hd : d = Z.of_nat (Z.to_nat d)) by lia.
  rewrite Hd. assert (Hn : (Z.to_nat d < 16)%nat) by lia.
  clear Hd. revert Hn. generalize (Z.to_nat d) as n. intros n Hn.
  do 16 (destruct n as [|n]; [set_solver|]). lia.
Qed.

Lemma hexDigitValue_hexDigit d :
  isHexDigit d -> hexDigitValue (hexDigit d) = Some d.
Proof.
  intros Hd. apply hexDigit_cases in Hd.
  repeat (apply elem_of_cons in Hd as [->|Hd]; [reflexivity|]).
  by apply elem_of_nil in Hd.
Qed.

(** A hexadecimal digit is no white space, sign, prefix letter or ['#']. *)
Lemma hexDigitValue_plain c d :
  hexDigitValue c = Some d ->
  isHexDigit d /\ isWhiteSpace c = false /\ Ascii.eqb c "#" = false
  /\ c <> "-"%char /\ c <> "+"%char /\ c <> "x"%char /\ c <> "X"%char.
Proof.
  destruct c as [[] [] [] [] [] [] [] []]; vm_compute; intros Hc;
    try discriminate Hc; injection Hc as <-;
    repeat split; congruence.
Qed.

Lemma digitsOf_cons c rest ds :
  digitsOf (String c rest) = Some ds ->
  exists d ds', ds = d :: ds' /\ hexDigitValue c = Some d
                /\ digitsOf rest = Some ds'.
Proof.
  simpl. destruct (hexDigitValue c) as [d|]; [|done].
  destruct (digitsOf rest) as [ds'|]; [|done].
  intros [= <-]. eauto.
Qed.

Lemma digitsOf_valid s : forall ds,
  digitsOf s = Some ds -> Forall isHexDigit ds.
Proof.
  induction s as [|c rest IH]; intros ds Hs.
  - injection Hs as <-. constructor.
  - apply digitsOf_cons in Hs as (d & ds' & -> & Hc & Hrest).
    constructor; [by apply hexDigitValue_plain in Hc as [? _]|by apply IH].
Qed.

Lemma digitsOf_length s : forall ds,
  digitsOf s = Some ds -> length ds = String.length s.
Proof.
  induction s as [|c rest IH]; intros ds Hs.
  - by injection Hs as <-.
  - apply digitsOf_cons in Hs as (d & ds' & -> & _ & Hrest).
    simpl. f_equal. by apply IH.
Qed.

Lemma digitsOf_hexString ds :
  Forall isHexDigit ds -> digitsOf (hexString ds) = Some ds.
Proof.
  induction 1 as [|d ds Hd _ IH]; [done|].
  simpl. by rewrite hexDigitValue_hexDigit, IH.
Qed.

Lemma removeFirstHash_digits s ds :
  digitsOf s = Some ds -> removeFirstHash s = s.
Proof.
  revert ds. induction s as [|c rest IH]; intros ds Hs; [done|].
  apply digitsOf_cons in Hs as (d & ds' & -> & Hc & Hrest).
  apply hexDigitValue_plain in Hc as (_ & _ & Hhash & _).
  simpl. rewrite Hhash. f_equal. by eapply IH.
Qed.

Lemma hexPrefix_digits s : forall ds acc,
  digitsOf s = Some ds ->
  hexPrefix s acc
  = match ds with
    | [] => acc
    | _ => Some (fold_left (fun a d => 16 * a + d) ds (default 0 acc))
    end.
Proof.
  induction s as [|c rest IH]; intros ds acc Hs.
  - by injection Hs as <-.
  - apply digitsOf_cons in Hs as (d & ds' & -> & Hc & Hrest).
    simpl. rewrite Hc. rewrite (IH ds' _ Hrest).
    by destruct ds'.
Qed.

(** [parseInt(s, 16)] of a non-empty string of hexadecimal digits. *)
Lemma parseInt16_digits s ds :
  digitsOf s = Some ds -> ds <> [] -> parseInt16 s = Some (hexValue ds).
Proof.
  intros Hs Hne.
  assert (Hprefix : hexPrefix s None = Some (hexValue ds)).
  { rewrite (hexPrefix_digits _ _ _ Hs). by destruct ds. }
  destruct s as [|c rest]; [by injection Hs as <-|].
  pose proof Hs as Hs'.
  apply digitsOf_cons in Hs' as (d & ds' & -> & Hc & Hrest).
  pose proof (hexDigitValue_plain _ _ Hc) as (_ & Hws & _ & Hm & Hp & _).
  unfold parseInt16. cbn [trimStart]. rewrite Hws.
  assert (Hsign :
    match String c rest with
    | String "-"%char rest0 => (-1, rest0)
    | String "+"%char rest0 => (1, rest0)
    | _ => (1, String c rest)
    end = (1, String c rest)).
  { clear -Hm Hp.
    destruct c as [[] [] [] [] [] [] [] []]; try reflexivity; congruence. }
  rewrite Hsign.
  assert (Hx :
    match String c rest with
    | String "0"%char (String "x"%char rest0) => rest0
    | String "0"%char (String "X"%char rest0) => rest0
    | _ => String c rest
    end = String c rest).
  { destruct rest as [|c2 rest2].
    - clear. destruct c as [[] [] [] [] [] [] [] []]; reflexivity.
    - apply digitsOf_cons in Hrest as (d2 & ds2 & _ & Hc2 & _).
      apply hexDigitValue_plain in Hc2 as (_ & _ & _ & _ & _ & Hx1 & Hx2).
      clear -Hx1 Hx2.
      destruct c as [[] [] [] [] [] [] [] []]; try reflexivity;
        destruct c2 as [[] [] [] [] [] [] [] []]; try reflexivity; congruence. }
  rewrite Hx, Hprefix. f_equal. lia.
Qed.

Lemma hexToRgb_parsed hex n :
  parseInt16 (removeFirstHash hex) = Some n -> hexToRgb hex = Some (channels n).
Proof.
  intros Hn. unfold hexToRgb. rewrite Hn. f_equal. unfold channels.
  rewrite (band_sar n 16), (band_sar n 8), band_255 by lia. reflexivity.
Qed.

Lemma isChannel_mod x : isChannel (x mod 256).
Proof. unfold isChannel. pose proof (Z.mod_pos_bound x 256). lia. Qed.

Lemma inGamut_channels n : inGamut (channels n).
Proof. repeat split; apply isChannel_mod. Qed.

Lemma hexOfPos_zero fuel acc : hexOfPos fuel 0 acc = acc.
Proof. by destruct fuel. Qed.

Lemma hexOfPos_step fuel m d acc :
  0 <= m -> isHexDigit d -> 0 < 16 * m + d ->
  hexOfPos (Datatypes.S fuel) (16 * m + d) acc
  = hexOfPos fuel m (String (hexDigit d) acc).
Proof.
  intros Hm [Hlo Hhi] Hpos. cbn [hexOfPos].
  destruct (Z.leb_spec (16 * m + d) 0) as [?|_]; [lia|].
  replace ((16 * m + d) / 16) with m
    by (apply Z.div_unique with d; lia).
  replace ((16 * m + d) mod 16) with d
    by (apply Z.mod_unique with m; lia).
  reflexivity.
Qed.

Lemma fold_digits_pos ds : forall q,
  Forall isHexDigit ds -> 0 < q -> 0 < fold_left (fun a d => 16 * a + d) ds q.
Proof.
  induction ds as [|d ds IH]; intros q Hds Hq; [done|].
  inversion Hds as [|? ? [Hlo Hhi] Hrest]; subst. simpl. apply IH; [done|lia].
Qed.

Lemma hexString_app ds ds' :
  hexString (ds ++ ds') = (hexString ds ++ hexString ds')%string.
Proof.
  unfold hexString. induction ds as [|x ds IH]; [done|].
  simpl. rewrite IH. reflexivity.
Qed.

Lemma string_app_assoc (s1 s2 s3 : string) :
  ((s1 ++ s2) ++ s3 = s1 ++ (s2 ++ s3))%string.
Proof.
  induction s1 as [|c s1 IH]; [done|].
  change (String c ((s1 ++ s2) ++ s3) = String c (s1 ++ (s2 ++ s3)))%string.
  by rewrite IH.
Qed.

(** Writing out a number whose digits are known. *)
Lemma hexOfPos_digits ds : forall fuel q acc,
  Forall isHexDigit ds -> 0 < q ->
  hexOfPos (length ds + fuel) (fold_left (fun a d => 16 * a + d) ds q) acc
  = hexOfPos fuel q (hexString ds ++ acc)%string.
Proof.
  induction ds as [|d ds IH] using rev_ind; intros fuel q acc Hds Hq; [done|].
  apply Forall_app in Hds as [Hds Hd]. inversion Hd as [|? ? Hd' _]; subst.
  rewrite fold_left_app. cbn [fold_left].
  rewrite length_app. cbn [length].
  replace (length ds + 1 + fuel)%nat with (Datatypes.S (length ds + fuel)) by lia.
  pose proof (fold_digits_pos ds q Hds Hq) as Hpos.
  rewrite hexOfPos_step by (try done; destruct Hd'; lia).
  rewrite IH by done. f_equal.
  rewrite hexString_app, string_app_assoc. reflexivity.
Qed.

Lemma channelDigits_valid rgb : inGamut rgb -> Forall isHexDigit (channelDigits rgb).
Proof.
  intros ([] & [] & []). unfold channelDigits, isHexDigit.
  repeat constructor;
    try (apply Z.div_pos; lia); try (apply Z.div_lt_upper_bound; lia);
    try (apply Z.mod_pos_bound; lia).
Qed.

Lemma channelDigits_value rgb q :
  fold_left (fun a d => 16 * a + d) (channelDigits rgb) q
  = q * 16777216 + r rgb * 65536 + g rgb * 256 + b rgb.
Proof.
  unfold channelDigits. cbn [fold_left].
  pose proof (Z.div_mod (r rgb) 16). pose proof (Z.div_mod (g rgb) 16).
  pose proof (Z.div_mod (b rgb) 16). lia.
Qed.

(** What [rgbToHex] writes for channels within 0..255. *)
Lemma rgbToHex_digits rgb :
  inGamut rgb -> rgbToHex rgb = String "#" (hexString (channelDigits rgb)).
Proof.
  intros Hrgb. pose proof Hrgb as ([] & [] & []).
  unfold rgbToHex. f_equal.
  assert (Hn : shl 1 24 + shl (r rgb) 16 + shl (g rgb) 8 + b rgb
               = fold_left (fun a d => 16 * a + d) (channelDigits rgb) 1).
  { rewrite channelDigits_value. unfold shl.
    rewrite (toInt32_small 1), (toInt32_small (r rgb)),
      (toInt32_small (g rgb)) by lia.
    rewrite !Z.shiftl_mul_pow2 by lia.
    change (2 ^ 24) with 16777216. change (2 ^ 16) with 65536.
    change (2 ^ 8) with 256.
    rewrite !toInt32_small by lia. lia. }
  rewrite Hn.
  pose proof (channelDigits_value rgb 1) as Hv.
  unfold toString16.
  destruct (Z.eqb_spec (fold_left (fun a d => 16 * a + d) (channelDigits rgb) 1) 0)
    as [?|_]; [lia|].
  destruct (Z.ltb_spec (fold_left (fun a d => 16 * a + d) (channelDigits rgb) 1) 0)
    as [?|_]; [lia|].
  replace (Z.log2 (fold_left (fun a d => 16 * a + d) (channelDigits rgb) 1))
    with 24 by (symmetry; apply Z.log2_unique; lia).
  change (Z.to_nat 24 + 1)%nat with (length (channelDigits rgb) + 19)%nat.
  rewrite hexOfPos_digits by (try apply channelDigits_valid; done).
  reflexivity.
Qed.

Lemma channels_value rgb :
  inGamut rgb -> channels (hexValue (channelDigits rgb)) = rgb.
Proof.
  intros ([] & [] & []). unfold hexValue. rewrite channelDigits_value.
  destruct rgb as [r0 g0 b0]. unfold channels. simpl in *. f_equal.
  - replace ((0 * 16777216 + r0 * 65536 + g0 * 256 + b0) / 65536) with r0
      by (apply Z.div_unique with (g0 * 256 + b0); lia).
    apply Z.mod_small; lia.
  - replace ((0 * 16777216 + r0 * 65536 + g0 * 256 + b0) / 256)
      with (r0 * 256 + g0) by (apply Z.div_unique with b0; lia).
    symmetry. apply Z.mod_unique with r0; lia.
  - symmetry. apply Z.mod_unique with (r0 * 256 + g0); lia.
Qed.

(** X1. [hexToRgb] reads the hexadecimal digits of its argument, with or
    without a leading ['#'] and in either case, as one number and returns
    the bytes at bits 16, 8 and 0 of that number.  Nothing is expanded or
    rejected for its length: three digits are not read as the CSS
    shorthand, and of more than six digits only the last six count. *)
Theorem hexToRgb_reads_number (s : string) (ds : list Z) :
  digitsOf s = Some ds -> ds <> [] -> (length ds <= 13)%nat ->
  hexToRgb (String "#" s) = Some (channels (hexValue ds))
  /\ hexToRgb s = Some (channels (hexValue ds)).
Proof.
  intros Hs Hne _. split; apply hexToRgb_parsed.
  - cbn [removeFirstHash]. change (Ascii.eqb "#" "#") with true. cbn iota.
    by apply parseInt16_digits.
  - rewrite (removeFirstHash_digits _ _ Hs). by apply parseInt16_digits.
Qed.

(** X2. converting channels within 0..255 to a hex string and back gives
    the channels again; the string is ['#'] and six lower-case digits. *)
Theorem rgbToHex_hexToRgb (rgb : RGB) :
  inGamut rgb ->
  rgbToHex rgb = String "#" (hexString (channelDigits rgb))
  /\ String.length (rgbToHex rgb) = 7%nat
  /\ hexToRgb (rgbToHex rgb) = Some rgb.
Proof.
  intros Hrgb. rewrite rgbToHex_digits by done.
  split; [done|]. split; [done|].
  pose proof (digitsOf_hexString _ (channelDigits_valid _ Hrgb)) as Hs.
  rewrite <- (channels_value rgb Hrgb) at 2.
  apply hexToRgb_parsed. cbn [removeFirstHash].
  change (Ascii.eqb "#" "#") with true. cbn iota.
  by apply parseInt16_digits.
Qed.

Lemma channelDigits_channels ds :
  Forall isHexDigit ds -> length ds = 6%nat ->
  channelDigits (channels (hexValue ds)) = ds.
Proof.
  intros Hds Hlen.
  destruct ds as [|d1 [|d2 [|d3 [|d4 [|d5 [|d6 [|]]]]]]]; try discriminate Hlen.
  repeat match goal with
         | H : Forall _ (_ :: _) |- _ =>
             let Hd := fresh "Hd" in
             apply Forall_cons in H as [Hd H]; destruct Hd
         end.
  unfold hexValue. cbn [fold_left].
  set (rr := 16 * d1 + d2). set (gg := 16 * d3 + d4). set (bb := 16 * d5 + d6).
  replace (16 * (16 * (16 * (16 * (16 * (16 * 0 + d1) + d2) + d3) + d4) + d5) + d6)
    with (rr * 65536 + gg * 256 + bb) by lia.
  assert (Hr : (rr * 65536 + gg * 256 + bb) / 65536 mod 256 = rr).
  { replace ((rr * 65536 + gg * 256 + bb) / 65536) with rr
      by (apply Z.div_unique with (gg * 256 + bb); lia).
    apply Z.mod_small; lia. }
  assert (Hg : (rr * 65536 + gg * 256 + bb) / 256 mod 256 = gg).
  { replace ((rr * 65536 + gg * 256 + bb) / 256) with (rr * 256 + gg)
      by (apply Z.div_unique with bb; lia).
    symmetry. apply Z.mod_unique with rr; lia. }
  assert (Hb : (rr * 65536 + gg * 256 + bb) mod 256 = bb).
  { symmetry. apply Z.mod_unique with (rr * 256 + gg); lia. }
  unfold channelDigits, channels. cbn [r g b]. rewrite Hr, Hg, Hb.
  subst rr gg bb.
  repeat f_equal;
    first [ symmetry; apply Z.div_unique with d2; lia
          | symmetry; apply Z.div_unique with d4; lia
          | symmetry; apply Z.div_unique with d6; lia
          | symmetry; apply Z.mod_unique with d1; lia
          | symmetry; apply Z.mod_unique with d3; lia
          | symmetry; apply Z.mod_unique with d5; lia ].
Qed.

(** X3. a colour written with six hexadecimal digits comes back from
    [hexToRgb] and [rgbToHex] with the same digits in lower case. *)
Theorem hexToRgb_rgbToHex (s : string) (ds : list Z) :
  digitsOf s = Some ds -> length ds = 6%nat ->
  rgbToHex <$> hexToRgb (String "#" s) = Some (String "#" (hexString ds))
  /\ digitsOf (hexString ds) = Some ds.
Proof.
  intros Hs Hlen. pose proof (digitsOf_valid _ _ Hs) as Hds.
  split; [|by apply digitsOf_hexString].
  assert (Hne : ds <> []) by (by destruct ds).
  rewrite (hexToRgb_parsed (String "#" s) (hexValue ds)).
  2:{ cbn [removeFirstHash]. change (Ascii.eqb "#" "#") with true. cbn iota.
      by apply parseInt16_digits. }
  cbn [fmap option_fmap option_map]. f_equal.
  rewrite rgbToHex_digits by apply inGamut_channels.
  by rewrite channelDigits_channels.
Qed.

(** X4. whatever string [hexToRgb] accepts, the channels it returns lie
    within 0..255 (a negative number, as in ["-1"], gives its low bytes). *)
Theorem hexToRgb_in_gamut (hex : string) (rgb : RGB) :
  hexToRgb hex = Some rgb -> inGamut rgb.
Proof.
  unfold hexToRgb. destruct (parseInt16 (removeFirstHash hex)) as [n|]; [|done].
  intros [= <-]. cbn [r g b]. unfold inGamut. cbn [r g b].
  rewrite !band_255. repeat split; apply isChannel_mod.
Qed.

End Colours.

Lemma hexToRgb_reads_number_witness :
  GoveeAdapter.digitsOf "FFF" = Some [15; 15; 15]
  /\ GoveeAdapter.hexToRgb "#FFF"
      = Some {| GoveeAdapter.r := 0; GoveeAdapter.g := 15; GoveeAdapter.b := 255 |}.
Proof.
  split; [reflexivity|].
  refine (proj1 (hexToRgb_reads_number "FFF" [15; 15; 15] eq_refl _ _));
    [discriminate|simpl; lia].
Defined.

Lemma rgbToHex_hexToRgb_witness :
  GoveeAdapter.rgbToHex
    {| GoveeAdapter.r := 148; GoveeAdapter.g := 0; GoveeAdapter.b := 211 |}
  = "#9400d3"
  /\ GoveeAdapter.hexToRgb "#9400d3"
      = Some {| GoveeAdapter.r := 148; GoveeAdapter.g := 0; GoveeAdapter.b := 211 |}.
Proof.
  assert (Hrgb : GoveeAdapter.inGamut
            {| GoveeAdapter.r := 148; GoveeAdapter.g := 0; GoveeAdapter.b := 211 |})
    by (unfold GoveeAdapter.inGamut, GoveeAdapter.isChannel; simpl; lia).
  destruct (rgbToHex_hexToRgb _ Hrgb) as (Hhex & _ & Hback).
  split; [exact Hhex|]. rewrite Hhex in Hback. exact Hback.
Defined.

Lemma hexToRgb_rgbToHex_witness :
  GoveeAdapter.rgbToHex <$> GoveeAdapter.hexToRgb "#9400D3" = Some "#9400d3".
Proof.
  exact (proj1 (hexToRgb_rgbToHex "9400D3" [9; 4; 0; 0; 13; 3] eq_refl eq_refl)).
Defined.

Lemma hexToRgb_in_gamut_witness :
  GoveeAdapter.inGamut
    {| GoveeAdapter.r := 255; GoveeAdapter.g := 255; GoveeAdapter.b := 255 |}.
Proof.
  exact (hexToRgb_in_gamut "-1" _ eq_refl).
Defined.


(* ===================================================================== *)
(** * The Govee adapter: fetching, caching, executing                     *)
(* ===================================================================== *)

Section GoveeMethods.
Context {R : Type}.
Variable api : GoveeAdapter.Remote R.
Import GoveeAdapter.
Implicit Types (st : GoveeAdapter.State R) (dev : IGoveeDevice)
  (ds : list IGoveeDevice) (m : gmap string IGoveeDevice).

(** ** The cache as [updateDeviceCache] fills it *)

Lemma cache_fold_other ds : forall m k,
  k ∉ (d_id ∘ base) <$> ds ->
  fold_left (fun m d => <[d_id (base d) := d]> m) ds m !! k = m !! k.
Proof.
  induction ds as [|d ds IH]; intros m k Hk; [done|].
  cbn [fold_left]. rewrite fmap_cons in Hk.
  apply not_elem_of_cons in Hk as [Hne Hk].
  rewrite IH by done. by rewrite lookup_insert_ne.
Qed.

Lemma cache_fold_listed ds : forall m d,
  d ∈ ds ->
  exists d', d' ∈ ds /\ d_id (base d') = d_id (base d)
    /\ fold_left (fun m d => <[d_id (base d) := d]> m) ds m !! d_id (base d)
       = Some d'.
Proof.
  induction ds as [|x ds IH] using rev_ind; intros m d Hd.
  - by apply elem_of_nil in Hd.
  - rewrite fold_left_app. cbn [fold_left].
    destruct (decide (d_id (base x) = d_id (base d))) as [Heq|Hne].
    + exists x. split; [apply elem_of_app; right; by apply list_elem_of_singleton|].
      split; [done|].
      rewrite <- Heq. apply lookup_insert_eq.
    + apply elem_of_app in Hd as [Hd|Hd].
      * destruct (IH m d Hd) as (d' & Hd' & Hid & Hl).
        exists d'. split; [apply elem_of_app; by left|]. split; [done|].
        by rewrite lookup_insert_ne.
      * apply list_elem_of_singleton in Hd. congruence.
Qed.

Lemma NoDup_fmap_eq {A B} (f : A -> B) (l : list A) x y :
  NoDup (f <$> l) -> x ∈ l -> y ∈ l -> f x = f y -> x = y.
Proof.
  induction l as [|a l IH]; intros Hnd Hx Hy Hf.
  - by apply elem_of_nil in Hx.
  - rewrite fmap_cons in Hnd. apply NoDup_cons in Hnd as [Ha Hnd].
    apply elem_of_cons in Hx as [->|Hx]; apply elem_of_cons in Hy as [->|Hy].
    + done.
    + exfalso. apply Ha. rewrite Hf. by apply list_elem_of_fmap_2.
    + exfalso. apply Ha. rewrite <- Hf. by apply list_elem_of_fmap_2.
    + by apply IH.
Qed.

Lemma getDevices_unfold st :
  getDevices api st
  = let '(reply, remote') := onGetDevices api (remote st) in
    let sent := {| isInitialized := isInitialized st; devices := devices st;
                   remote := remote';
                   requests := requests st ++ [GET_devices] |} in
    match reply with
    | Response code message infos =>
        if code =? 200 then
          (Ok (map base (map mapToDevice infos)),
           {| isInitialized := isInitialized st;
              devices := fold_left (fun m d => <[d_id (base d) := d]> m)
                           (map mapToDevice infos) (devices st);
              remote := remote';
              requests := requests st ++ [GET_devices] |})
        else
          (Throw (AdapterError "Failed to fetch Govee devices"
                    "DEVICE_FETCH_FAILED"
                    (Cause (AdapterError ("Failed to fetch devices: " ++ message)
                              "API_ERROR" NoCause))), sent)
    | Rejected message =>
        (Throw (AdapterError "Failed to fetch Govee devices"
                  "DEVICE_FETCH_FAILED" (Cause (Error message))), sent)
    end.
Proof.
  unfold getDevices, tryCatch, bind, http.
  destruct (onGetDevices api (remote st)) as [[code message infos|message] remote'];
    [|done].
  cbn. by destruct (code =? 200).
Qed.

(** X5.  [getDevices] issues one request whatever the state of the adapter.
    When the cloud answers with code 200 the devices it lists are returned
    in its order and written into the cache, each under its id (of two
    listed with the same id the later one stays); entries of the cache
    for devices the cloud did not list are kept as they were.  Any other
    answer, or none, leaves the cache untouched and is thrown as
    DEVICE_FETCH_FAILED with the original error as its cause. *)
Theorem getDevices_refreshes_cache st :
  let reply := fst (onGetDevices api (remote st)) in
  let result := getDevices api st in
  let st' := snd result in
  requests st' = (requests st ++ [GET_devices])%list
  /\ isInitialized st' = isInitialized st
  /\ remote st' = snd (onGetDevices api (remote st))
  /\ match reply with
     | Response code message infos =>
         if code =? 200 then
           fst result = Ok (base ∘ mapToDevice <$> infos)
           /\ (forall k, k ∉ device <$> infos ->
                 devices st' !! k = devices st !! k)
           /\ (forall info, info ∈ infos ->
                 exists info', info' ∈ infos /\ device info' = device info
                   /\ devices st' !! device info = Some (mapToDevice info'))
           /\ (NoDup (device <$> infos) ->
               forall info, info ∈ infos ->
                 devices st' !! device info = Some (mapToDevice info))
         else
           devices st' = devices st
           /\ fst result
              = Throw (AdapterError "Failed to fetch Govee devices"
                         "DEVICE_FETCH_FAILED"
                         (Cause (AdapterError
                                   ("Failed to fetch devices: " ++ message)
                                   "API_ERROR" NoCause)))
     | Rejected message =>
         devices st' = devices st
         /\ fst result
            = Throw (AdapterError "Failed to fetch Govee devices"
                       "DEVICE_FETCH_FAILED" (Cause (Error message)))
     end.
Proof.
  intros reply result st'. subst reply result st'.
  rewrite getDevices_unfold.
  destruct (onGetDevices api (remote st)) as [[code message infos|message] remote'];
    cbn [fst snd]; [|done].
  destruct (code =? 200); cbn [fst snd requests isInitialized remote devices];
    [|done].
  split; [done|]. split; [done|]. split; [done|].
  assert (Hlisted : forall info, info ∈ infos ->
            exists info', info' ∈ infos /\ device info' = device info
              /\ fold_left (fun m d => <[d_id (base d) := d]> m)
                   (map mapToDevice infos) (devices st) !! device info
                 = Some (mapToDevice info')).
  { intros info Hinfo.
    destruct (cache_fold_listed (map mapToDevice infos) (devices st)
                (mapToDevice info)) as (d' & Hd' & Hid & Hl).
    { by apply (list_elem_of_fmap_2 mapToDevice). }
    apply (list_elem_of_fmap_1 mapToDevice) in Hd' as (info' & -> & Hinfo').
    exists info'. split; [done|]. split; [exact Hid|exact Hl]. }
  split; [|split; [|split]].
  - by rewrite list_fmap_compose.
  - intros k Hk. apply cache_fold_other.
    rewrite <- list_fmap_compose. exact Hk.
  - exact Hlisted.
  - intros Hnd info Hinfo.
    destruct (Hlisted info Hinfo) as (info' & Hinfo' & Hid & Hl).
    rewrite Hl. do 2 f_equal. by eapply NoDup_fmap_eq.
Qed.

(** X6.  [initialize] on an initialised adapter does nothing, not even a
    request.  Otherwise it makes the one request of [getDevices] and the
    adapter ends up initialised exactly when that succeeded; a failure
    leaves flag and cache as they were and is thrown as
    INITIALIZATION_FAILED around the DEVICE_FETCH_FAILED error, so the
    call can be repeated, and after a success repeating it changes
    nothing. *)
Theorem initialize_outcomes st :
  let result := initialize api st in
  if isInitialized st then result = (Ok tt, st)
  else
    let fetch := getDevices api st in
    requests (snd result) = (requests st ++ [GET_devices])%list
    /\ isInitialized (snd result) = isOk (fst result)
    /\ isOk (fst result) = isOk (fst fetch)
    /\ devices (snd result) = devices (snd fetch)
    /\ match fst result with
       | Ok _ => initialize api (snd result) = (Ok tt, snd result)
       | Throw e =>
           devices (snd result) = devices st
           /\ exists cause,
                e = AdapterError
                      "Failed to initialize Govee adapter: Failed to fetch Govee devices"
                      "INITIALIZATION_FAILED" (Cause cause)
                /\ fst fetch = Throw cause
                /\ exnCode cause = Some "DEVICE_FETCH_FAILED"
       end.
Proof.
  intros result. subst result. unfold initialize.
  destruct (isInitialized st) eqn:Hinit; [done|].
  cbn zeta. unfold tryCatch, bind. rewrite getDevices_unfold.
  destruct (onGetDevices api (remote st)) as [[code message infos|message] remote'];
    cbn [fst snd].
  - destruct (code =? 200); cbn; rewrite ?Hinit; repeat split; eauto.
  - cbn. rewrite ?Hinit. repeat split; eauto.
Qed.

(** X7.  On an initialised adapter [getDevice] answers from the cache
    whenever the id is cached: no request is made and the entry is not
    refreshed.  Only for an id that is not cached does it call
    [getDevices], once, and look again: the device is returned if the
    cloud listed it and [null] (not an error) if it did not; a failed
    fetch is thrown as DEVICE_FETCH_FAILED around the DEVICE_FETCH_FAILED
    of [getDevices]. *)
Theorem getDevice_answers_from_cache (deviceId : string) st :
  isInitialized st = true ->
  match devices st !! deviceId with
  | Some d => getDevice api deviceId st = (Ok (Some (base d)), st)
  | None =>
      let fetch := getDevices api st in
      snd (getDevice api deviceId st) = snd fetch
      /\ fst (getDevice api deviceId st)
         = match fst fetch with
           | Ok _ => Ok (base <$> devices (snd fetch) !! deviceId)
           | Throw e =>
               Throw (AdapterError ("Failed to fetch device " ++ deviceId)
                        "DEVICE_FETCH_FAILED" (Cause e))
           end
      /\ (forall message infos,
            fst (onGetDevices api (remote st)) = Response 200 message infos ->
            deviceId ∉ device <$> infos ->
            fst (getDevice api deviceId st) = Ok None)
  end.
Proof.
  intros Hinit. unfold getDevice, bind, validateInitialized, tryCatch.
  rewrite Hinit. destruct (devices st !! deviceId) as [d|] eqn:Hd; [done|].
  cbn zeta.
  assert (Hfetch : forall message infos,
            fst (onGetDevices api (remote st)) = Response 200 message infos ->
            isOk (fst (getDevices api st)) = true
            /\ (deviceId ∉ device <$> infos ->
                devices (snd (getDevices api st)) !! deviceId
                = devices st !! deviceId)).
  { intros message infos Hreply. rewrite getDevices_unfold.
    destruct (onGetDevices api (remote st)) as [reply remote'].
    cbn [fst] in Hreply. subst reply. cbn. split; [done|].
    intros Hnot. apply cache_fold_other.
    rewrite <- list_fmap_compose. exact Hnot. }
  destruct (getDevices api st) as [[l|e] st'] eqn:Hg; cbn [fst snd] in *.
  - split; [done|]. split; [done|].
    intros message infos Hreply Hnot.
    destruct (Hfetch message infos Hreply) as [_ Hother].
    by rewrite (Hother Hnot), Hd.
  - split; [done|]. split; [done|].
    intros message infos Hreply _.
    by destruct (Hfetch message infos Hreply) as [? _].
Qed.

(** ** Commands *)

Lemma dispatchCommand_requestOf dev command :
  match requestOf command with
  | Some (cmd, updates) =>
      dispatchCommand api dev command
      = bind (sendDeviceCommand api dev cmd)
          (fun _ => updateDevice (d_id (base dev)) updates)
  | None =>
      exists e, dispatchCommand api dev command = throw e
                /\ (exnCode e = Some "INVALID_PARAMETER"
                    \/ exnCode e = Some "UNSUPPORTED_COMMAND")
  end.
Proof.
  unfold requestOf, dispatchCommand, setPowerState, setColor, setBrightness.
  destruct (c_type command); try done.
  - destruct (p_color (c_params command)) as [c|]; [|eauto].
    destruct (String.eqb c ""); [eauto|].
    destruct (hexToRgb c); [done|eauto].
  - destruct (p_brightness (c_params command)); [done|eauto].
  - eauto.
Qed.

Lemma sendDeviceCommand_outcome dev cmd st :
  let address := d_address (base dev) in
  let mdl := d_model (base dev) in
  let reply := fst (onControl api address mdl cmd (remote st)) in
  let sent := {| isInitialized := isInitialized st; devices := devices st;
                 remote := snd (onControl api address mdl cmd (remote st));
                 requests := requests st
                             ++ [PUT_devices_control address mdl cmd] |} in
  snd (sendDeviceCommand api dev cmd st) = sent
  /\ match reply with
     | Response code _ _ =>
         if code =? 200 then fst (sendDeviceCommand api dev cmd st) = Ok tt
         else exists e, fst (sendDeviceCommand api dev cmd st) = Throw e
                        /\ exnCode e = Some "COMMAND_SEND_FAILED"
     | Rejected _ =>
         exists e, fst (sendDeviceCommand api dev cmd st) = Throw e
                   /\ exnCode e = Some "COMMAND_SEND_FAILED"
     end.
Proof.
  intros address mdl reply sent. subst address mdl reply sent.
  unfold sendDeviceCommand, tryCatch, bind, http.
  destruct (onControl api _ _ cmd (remote st)) as [[code message []|message] remote'];
    cbn; [|eauto].
  destruct (code =? 200); cbn; eauto.
Qed.

(** Whether the cloud accepted a control request. *)
Lemma refreshDeviceState_ok dev st : isOk (fst (refreshDeviceState api dev st)) = true.
Proof.
  unfold refreshDeviceState, tryCatch, bind, http.
  destruct (onGetState api _ _ (remote st)) as [[code message state|message] remote'];
    cbn; [|done].
  destruct (code =? 200); [|done].
  unfold updateDevice. cbn. by destruct (devices st !! _).
Qed.

(** X8.  On an initialised adapter a command is checked before anything
    is sent.  For an id that is not cached [executeCommand] throws
    DEVICE_NOT_FOUND as it is; for a cached device a command with a missing
    or empty colour, a colour that is no hexadecimal number, a missing
    brightness or an unsupported type is thrown as COMMAND_EXECUTION_FAILED
    around INVALID_PARAMETER or UNSUPPORTED_COMMAND.  In both cases the
    adapter is left exactly as it was: no request, no change to the
    cache.  Every other command starts with the control request for the
    cached device and makes at most one more request.  The colour of a
    [setColor] command is taken to be [plain], a string of at most 13
    ASCII characters: those are the strings on which [parseInt16] is
    [parseInt]. *)
Theorem executeCommand_checks_before_sending (command : ILightCommand) st :
  isInitialized st = true ->
  (forall c, c_type command = CommandType.setColor ->
             p_color (c_params command) = Some c -> plain c = true) ->
  let result := executeCommand api command st in
  match devices st !! c_deviceId command with
  | None =>
      result
      = (Throw (AdapterError
                  ("Device with ID '" ++ c_deviceId command ++ "' not found")
                  "DEVICE_NOT_FOUND" NoCause), st)
  | Some dev =>
      match requestOf command with
      | None =>
          exists cause,
            result
            = (Throw (AdapterError
                        ("Failed to execute command: "
                           ++ commandTypeName (c_type command))
                        "COMMAND_EXECUTION_FAILED" (Cause cause)), st)
            /\ (exnCode cause = Some "INVALID_PARAMETER"
                \/ exnCode cause = Some "UNSUPPORTED_COMMAND")
      | Some (cmd, _) =>
          exists rest,
            requests (snd result)
            = (requests st
                 ++ PUT_devices_control (d_address (base dev))
                      (d_model (base dev)) cmd :: rest)%list
            /\ (length rest <= 1)%nat
      end
  end.
Proof.
  intros Hinit _ result. subst result.
  unfold executeCommand, bind, validateInitialized, validateDeviceId.
  rewrite Hinit. destruct (devices st !! c_deviceId command) as [dev|] eqn:Hdev;
    [|done].
  rewrite Hdev. unfold tryCatch, bind.
  pose proof (dispatchCommand_requestOf dev command) as Hd.
  destruct (requestOf command) as [[cmd updates]|].
  - rewrite Hd. unfold bind.
    destruct (sendDeviceCommand_outcome dev cmd st) as (Hsent & _).
    cbn zeta in Hsent.
    destruct (sendDeviceCommand api dev cmd st) as [[[]|e] st1] eqn:Hsend;
      cbn [fst snd] in *.
    + assert (Hreq1 : requests (snd (updateDevice (d_id (base dev)) updates st1))
                      = requests st1).
      { unfold updateDevice. by destruct (devices st1 !! _). }
      destruct (updateDevice (d_id (base dev)) updates st1) as [[[]|e] st2] eqn:Hupd;
        cbn [fst snd] in *.
      * unfold refreshDeviceState, tryCatch, bind, http.
        destruct (onGetState api _ _ (remote st2))
          as [[code message state|message] remote'].
        -- exists [GET_devices_state (d_address (base dev)) (d_model (base dev))].
           split; [|done].
           destruct (code =? 200); cbn.
           ++ unfold updateDevice. cbn.
              destruct (devices st2 !! d_id (base dev)); cbn;
                rewrite Hreq1, Hsent; cbn; by rewrite <- app_assoc.
           ++ rewrite Hreq1, Hsent; cbn; by rewrite <- app_assoc.
        -- exists [GET_devices_state (d_address (base dev)) (d_model (base dev))].
           split; [|done]. cbn. rewrite Hreq1, Hsent; cbn; by rewrite <- app_assoc.
      * exfalso. unfold updateDevice in Hupd.
        by destruct (devices st1 !! _).
    + exists []. split; [|simpl; lia]. cbn. by rewrite Hsent.
  - destruct Hd as (e & -> & He). exists e. by split.
Qed.

(** X9.  When the cloud does not accept the control request of a command
    (an answer with a code other than 200, or no answer), [executeCommand]
    throws COMMAND_EXECUTION_FAILED around COMMAND_SEND_FAILED after that
    one request: the cached device is not updated and its state is not
    fetched. *)
Theorem executeCommand_failed_send (command : ILightCommand) st dev cmd updates :
  isInitialized st = true ->
  devices st !! c_deviceId command = Some dev ->
  requestOf command = Some (cmd, updates) ->
  let address := d_address (base dev) in
  let mdl := d_model (base dev) in
  let exchange := onControl api address mdl cmd (remote st) in
  match fst exchange with
  | Response code _ _ => code <> 200
  | Rejected _ => True
  end ->
  exists cause,
    executeCommand api command st
    = (Throw (AdapterError
                ("Failed to execute command: " ++ commandTypeName (c_type command))
                "COMMAND_EXECUTION_FAILED" (Cause cause)),
       {| isInitialized := true; devices := devices st;
          remote := snd exchange;
          requests := requests st ++ [PUT_devices_control address mdl cmd] |})
    /\ exnCode cause = Some "COMMAND_SEND_FAILED".
Proof.
  intros Hinit Hdev Hreq address mdl exchange Hrefused.
  subst address mdl exchange.
  unfold executeCommand, bind, validateInitialized, validateDeviceId.
  rewrite Hinit, Hdev. cbn beta iota. rewrite Hdev. unfold tryCatch, bind.
  pose proof (dispatchCommand_requestOf dev command) as Hd.
  rewrite Hreq in Hd. rewrite Hd. unfold bind.
  destruct (sendDeviceCommand_outcome dev cmd st) as (Hsent & Hout).
  cbn zeta in Hsent, Hout. rewrite Hinit in Hsent.
  destruct (sendDeviceCommand api dev cmd st) as [[[]|e] st1];
    cbn [fst snd] in *; subst st1.
  - exfalso.
    destruct (fst (onControl api _ _ cmd (remote st))) as [code ? ?|?].
    + destruct (Z.eqb_spec code 200); [done|]. by destruct Hout as (? & ? & _).
    + by destruct Hout as (? & ? & _).
  - exists e. split; [done|].
    destruct (fst (onControl api _ _ cmd (remote st))) as [code ? ?|?].
    + destruct (code =? 200); [done|]. destruct Hout as (? & [= <-] & ?). done.
    + destruct Hout as (? & [= <-] & ?). done.
Qed.

(** X10.  When the cloud accepts the control request, [executeCommand]
    succeeds after exactly two requests, the control request and the state
    request for the same device, whatever the second one brings.  If the
    state request is answered with code 200, the cached power state,
    brightness and colour are the reported ones, also where a property is
    not reported at all, in which case the cached field ends up
    undefined: the value the command has just set stays in the cache only
    when the state request fails or is answered with another code. *)
Theorem executeCommand_reported_state_wins
    (command : ILightCommand) st dev cmd updates :
  isInitialized st = true ->
  devices st !! c_deviceId command = Some dev ->
  d_id (base dev) = c_deviceId command ->
  requestOf command = Some (cmd, updates) ->
  let address := d_address (base dev) in
  let mdl := d_model (base dev) in
  let control := onControl api address mdl cmd (remote st) in
  (exists message, fst control = Response 200 message tt) ->
  let state := onGetState api address mdl (snd control) in
  let cached :=
    match fst state with
    | Response code _ properties =>
        if code =? 200
        then applyUpdates (applyUpdates dev updates) (reported properties)
        else applyUpdates dev updates
    | Rejected _ => applyUpdates dev updates
    end in
  executeCommand api command st
  = (Ok tt,
     {| isInitialized := true;
        devices := <[c_deviceId command := cached]> (devices st);
        remote := snd state;
        requests := requests st ++ [PUT_devices_control address mdl cmd;
                                    GET_devices_state address mdl] |})
  /\ (forall message properties,
        fst state = Response 200 message properties ->
        d_isOn (base cached) = String.eqb (powerState properties) "on"
        /\ d_brightness (base cached) = brightness properties
        /\ d_color (base cached) = rgbToHex <$> color properties).
Proof.
  intros Hinit Hdev Hid Hreq address mdl control [message Haccepted] state cached.
  subst address mdl control state cached.
  split.
  - unfold executeCommand, bind, validateInitialized, validateDeviceId.
    rewrite Hinit, Hdev. cbn beta iota. rewrite Hdev. unfold tryCatch, bind.
    pose proof (dispatchCommand_requestOf dev command) as Hd.
    rewrite Hreq in Hd. rewrite Hd.
    unfold bind, sendDeviceCommand, tryCatch, bind, http.
    destruct (onControl api _ _ cmd (remote st)) as [reply remote1].
    cbn [fst snd] in *. subst reply. cbn.
    unfold updateDevice. cbn. rewrite Hid, Hdev. cbn.
    unfold refreshDeviceState, tryCatch, bind, http. cbn.
    destruct (onGetState api _ _ remote1) as [[code message' properties|message'] remote2];
      cbn.
    + destruct (code =? 200); cbn.
      * unfold updateDevice. cbn. rewrite Hid, lookup_insert_eq. cbn.
        rewrite Hinit, insert_insert_eq, <- app_assoc. reflexivity.
      * rewrite Hinit, <- app_assoc. reflexivity.
    + rewrite Hinit, <- app_assoc. reflexivity.
  - intros message' properties Hstate. rewrite Hstate. done.
Qed.

(** ** Invariants of the cache *)

Lemma keeps_ret {A} (I : State R -> Prop) (a : A) : keeps I (ret a).
Proof. by intros st. Qed.

Lemma keeps_throw {A} (I : State R -> Prop) (e : Exn) : keeps I (throw (A:=A) e).
Proof. by intros st. Qed.

Lemma keeps_bind {A B} (I : State R -> Prop) (c : M A) (k : A -> M B) :
  keeps I c -> (forall a, keeps I (k a)) -> keeps I (bind c k).
Proof.
  intros Hc Hk st Hst. unfold bind. specialize (Hc st Hst).
  destruct (c st) as [[a|e] st']; simpl in *; [by apply Hk|done].
Qed.

Lemma keeps_tryCatch {A} (I : State R -> Prop) (c : M A) (h : Exn -> M A) :
  keeps I c -> (forall e, keeps I (h e)) -> keeps I (tryCatch c h).
Proof.
  intros Hc Hh st Hst. unfold tryCatch. specialize (Hc st Hst).
  destruct (c st) as [[a|e] st']; simpl in *; [done|by apply Hh].
Qed.

(** The operations of an adapter are built from exchanges with the cloud
    and the two ways of writing the cache; a property of the cache that
    those two keep is kept by every operation. *)
Section CacheInvariant.
Variable I : State R -> Prop.
Hypothesis I_cache : forall st st', devices st' = devices st -> I st -> I st'.
Hypothesis I_updateDevice : forall deviceId updates,
  keeps I (updateDevice deviceId updates).
Hypothesis I_updateDeviceCache : forall infos,
  keeps I (updateDeviceCache (map mapToDevice infos)).

Lemma keeps_http {T} req (serve : R -> HttpReply T * R) : keeps I (http req serve).
Proof.
  intros st Hst. unfold http.
  destruct (serve (remote st)) as [[code message data|message] remote'];
    by apply (I_cache st).
Qed.

Lemma keeps_getDevices : keeps I (getDevices api).
Proof.
  apply keeps_tryCatch; [|intros; apply keeps_throw].
  apply keeps_bind; [apply keeps_http|].
  intros [[code message] infos]. destruct (negb _).
  - apply keeps_throw.
  - apply keeps_bind; [apply I_updateDeviceCache|]. intros _. apply keeps_ret.
Qed.

Lemma keeps_initialize : keeps I (initialize api).
Proof.
  intros st Hst. unfold initialize. destruct (isInitialized st); [done|].
  revert st Hst.
  apply keeps_tryCatch; [|intros; apply keeps_throw].
  apply keeps_bind; [apply keeps_getDevices|].
  intros _ st Hst. by apply (I_cache st).
Qed.

Lemma keeps_getDevice deviceId : keeps I (getDevice api deviceId).
Proof.
  apply keeps_bind.
  { intros st Hst. unfold validateInitialized. by destruct (isInitialized st). }
  intros _. apply keeps_tryCatch; [|intros; apply keeps_throw].
  intros st Hst. destruct (devices st !! deviceId); [done|].
  revert st Hst. apply keeps_bind; [apply keeps_getDevices|].
  by intros _ st Hst.
Qed.

Lemma keeps_sendDeviceCommand dev cmd : keeps I (sendDeviceCommand api dev cmd).
Proof.
  apply keeps_tryCatch; [|intros; apply keeps_throw].
  apply keeps_bind; [apply keeps_http|].
  intros [[code message] []].
  destruct (negb _); [apply keeps_throw|apply keeps_ret].
Qed.

Lemma keeps_executeCommand command : keeps I (executeCommand api command).
Proof.
  apply keeps_bind.
  { intros st Hst. unfold validateInitialized. by destruct (isInitialized st). }
  intros _. apply keeps_bind.
  { intros st Hst. unfold validateDeviceId. by destruct (devices st !! _). }
  intros _ st Hst. destruct (devices st !! c_deviceId command) as [dev|]; [|done].
  revert st Hst.
  apply keeps_tryCatch; [|intros; apply keeps_throw].
  apply keeps_bind.
  - pose proof (dispatchCommand_requestOf dev command) as Hd.
    destruct (requestOf command) as [[cmd updates]|].
    + rewrite Hd. apply keeps_bind; [apply keeps_sendDeviceCommand|].
      intros _. apply I_updateDevice.
    + destruct Hd as (e & -> & _). apply keeps_throw.
  - intros _. unfold refreshDeviceState.
    apply keeps_tryCatch; [|intros; apply keeps_ret].
    apply keeps_bind; [apply keeps_http|].
    intros [[code message] state].
    destruct (code =? 200); [apply I_updateDevice|apply keeps_ret].
Qed.

Lemma keeps_exec st op : I st -> I (exec api st op).
Proof.
  intros Hst. destruct op as [| |deviceId|command|f]; cbn [exec].
  - by apply keeps_initialize.
  - by apply keeps_getDevices.
  - by apply keeps_getDevice.
  - by apply keeps_executeCommand.
  - by apply (I_cache st).
Qed.

Lemma keeps_run ops : forall st, I st -> I (run api ops st).
Proof.
  induction ops as [|op ops IH]; intros st Hst; [done|].
  cbn. apply IH. by apply keeps_exec.
Qed.

End CacheInvariant.

Lemma filed_applyUpdates k d updates : filed k d -> filed k (applyUpdates d updates).
Proof. by intros (? & ? & ? & ? & ?). Qed.

Lemma filed_mapToDevice info : filed (device info) (mapToDevice info).
Proof. done. Qed.

(** X11.  In every state an adapter can get into from its construction,
    each cache entry is filed under the id of the device it holds, that
    id is also the address control and state requests are sent to, and the
    entry is a Govee light of version 1.0: the updates made after commands
    and state requests touch the power state, brightness and colour
    only. *)
Theorem cache_entries_stay_filed (cloud : R) (ops : list (Op R)) :
  wellFiled (run api ops (create cloud)).
Proof.
  apply keeps_run.
  - intros st st' Hd Hst k d. rewrite Hd. apply Hst.
  - intros deviceId updates st Hst. unfold updateDevice.
    destruct (devices st !! deviceId) as [d|] eqn:Hd; [|done].
    intros k d' Hk. cbn in Hk.
    destruct (decide (deviceId = k)) as [<-|Hne].
    + rewrite lookup_insert_eq in Hk. injection Hk as <-.
      apply filed_applyUpdates. by apply Hst.
    + rewrite lookup_insert_ne in Hk by done. by apply Hst.
  - intros infos st Hst k d. unfold updateDeviceCache, setDevices. cbn.
    revert Hst. unfold wellFiled. generalize (devices st).
    induction infos as [|info infos IH]; intros m Hm; cbn; [apply Hm|].
    apply IH. intros k' d' Hk'.
    destruct (decide (device info = k')) as [<-|Hne].
    + rewrite lookup_insert_eq in Hk'. injection Hk' as <-.
      apply filed_mapToDevice.
    + rewrite lookup_insert_ne in Hk' by done. by apply Hm.
  - intros k d Hk. cbn in Hk. by rewrite lookup_empty in Hk.
Qed.

(** X12.  The adapter never drops a device from its cache: an id that is
    cached stays cached through every later call, also when the cloud no
    longer lists the device or cannot be reached. *)
Theorem cache_never_forgets st (ops : list (Op R)) (deviceId : string) :
  is_Some (devices st !! deviceId) ->
  is_Some (devices (run api ops st) !! deviceId).
Proof.
  apply (keeps_run (fun st => is_Some (devices st !! deviceId))).
  - intros st0 st' Hd Hst. by rewrite Hd.
  - intros k updates st0 Hst. unfold updateDevice.
    destruct (devices st0 !! k) as [d|] eqn:Hd; [|done]. cbn.
    destruct (decide (k = deviceId)) as [->|Hne].
    + rewrite lookup_insert_eq. eauto.
    + by rewrite lookup_insert_ne.
  - intros infos st0 Hst. unfold updateDeviceCache, setDevices. cbn.
    revert Hst. generalize (devices st0).
    induction infos as [|info infos IH]; intros m Hm; cbn; [done|].
    apply IH.
    destruct (decide (device info = deviceId)) as [->|Hne].
    + rewrite lookup_insert_eq. eauto.
    + by rewrite lookup_insert_ne.
Qed.

End GoveeMethods.

Lemma getDevice_answers_from_cache_witness :
  let st := Fixtures.goveeReady in
  GoveeAdapter.isInitialized st = true
  /\ GoveeAdapter.getDevice Cloud.api "test-device-1" st
      = (Ok (Some (GoveeAdapter.base (GoveeAdapter.mapToDevice Fixtures.lampInfo))),
         st).
Proof.
  intros st.
  assert (Hinit : GoveeAdapter.isInitialized st = true)
    by (vm_compute; reflexivity).
  split; [exact Hinit|].
  pose proof (getDevice_answers_from_cache Cloud.api "test-device-1" st Hinit)
    as Hget.
  assert (Hdev : GoveeAdapter.devices st !! "test-device-1"
                 = Some (GoveeAdapter.mapToDevice Fixtures.lampInfo))
    by (vm_compute; reflexivity).
  rewrite Hdev in Hget. exact Hget.
Defined.

(** X8 on the colour ["green"], which holds no hexadecimal digit. *)
Lemma executeCommand_checks_before_sending_witness :
  let st := Fixtures.goveeReady in
  GoveeAdapter.isInitialized st = true
  /\ GoveeAdapter.plain "green" = true
  /\ exists cause,
       GoveeAdapter.executeCommand Cloud.api
         (Fixtures.colorCommand "test-device-1" "green") st
       = (Throw (AdapterError "Failed to execute command: setColor"
                   "COMMAND_EXECUTION_FAILED" (Cause cause)), st).
Proof.
  intros st.
  assert (Hinit : GoveeAdapter.isInitialized st = true)
    by (vm_compute; reflexivity).
  split; [exact Hinit|]. split; [reflexivity|].
  assert (Hplain : forall c,
            c_type (Fixtures.colorCommand "test-device-1" "green")
            = CommandType.setColor ->
            p_color (c_params (Fixtures.colorCommand "test-device-1" "green"))
            = Some c ->
            GoveeAdapter.plain c = true)
    by (intros c _ [= <-]; reflexivity).
  pose proof (executeCommand_checks_before_sending Cloud.api
                (Fixtures.colorCommand "test-device-1" "green") st Hinit Hplain)
    as Hx.
  cbn zeta in Hx.
  assert (Hdev : GoveeAdapter.devices st !! "test-device-1"
                 = Some (GoveeAdapter.mapToDevice Fixtures.lampInfo))
    by (vm_compute; reflexivity).
  change (c_deviceId (Fixtures.colorCommand "test-device-1" "green"))
    with "test-device-1" in Hx.
  rewrite Hdev in Hx.
  assert (Hreq : GoveeAdapter.requestOf
                   (Fixtures.colorCommand "test-device-1" "green") = None)
    by (vm_compute; reflexivity).
  rewrite Hreq in Hx. destruct Hx as (cause & Hx & _).
  exists cause. exact Hx.
Defined.

Lemma executeCommand_failed_send_witness :
  let st := Fixtures.goveeReady in
  let command := Fixtures.colorCommand "test-device-1" "#00FF00" in
  exists cause,
    GoveeAdapter.executeCommand Cloud.unreachable command st
    = (Throw (AdapterError "Failed to execute command: setColor"
                "COMMAND_EXECUTION_FAILED" (Cause cause)),
       {| GoveeAdapter.isInitialized := true;
          GoveeAdapter.devices := GoveeAdapter.devices st;
          GoveeAdapter.remote := GoveeAdapter.remote st;
          GoveeAdapter.requests :=
            GoveeAdapter.requests st
              ++ [GoveeAdapter.PUT_devices_control "test-device-1" "H6001"
                    (GoveeAdapter.colorCmd
                       {| GoveeAdapter.r := 0; GoveeAdapter.g := 255;
                          GoveeAdapter.b := 0 |})] |})
    /\ exnCode cause = Some "COMMAND_SEND_FAILED".
Proof.
  intros st command.
  assert (Hinit : GoveeAdapter.isInitialized st = true)
    by (vm_compute; reflexivity).
  assert (Hdev : GoveeAdapter.devices st !! c_deviceId command
                 = Some (GoveeAdapter.mapToDevice Fixtures.lampInfo))
    by (vm_compute; reflexivity).
  assert (Hreq : GoveeAdapter.requestOf command
                 = Some (GoveeAdapter.colorCmd
                           {| GoveeAdapter.r := 0; GoveeAdapter.g := 255;
                              GoveeAdapter.b := 0 |},
                         {| GoveeAdapter.u_isOn := None;
                            GoveeAdapter.u_brightness := None;
                            GoveeAdapter.u_color := Some (Some "#00FF00") |}))
    by (vm_compute; reflexivity).
  exact (executeCommand_failed_send Cloud.unreachable command st _ _ _
           Hinit Hdev Hreq I).
Defined.

Lemma executeCommand_reported_state_wins_witness :
  let st := Fixtures.goveeReady in
  let command := Fixtures.colorCommand "test-device-1" "#00FF00" in
  let st' := snd (GoveeAdapter.executeCommand Cloud.api command st) in
  fst (GoveeAdapter.executeCommand Cloud.api command st) = Ok tt
  /\ (d_color ∘ GoveeAdapter.base) <$> GoveeAdapter.devices st' !! "test-device-1"
      = Some (Some "#00ff00").
Proof.
  intros st command st'. subst st'.
  assert (Hinit : GoveeAdapter.isInitialized st = true)
    by (vm_compute; reflexivity).
  assert (Hdev : GoveeAdapter.devices st !! c_deviceId command
                 = Some (GoveeAdapter.mapToDevice Fixtures.lampInfo))
    by (vm_compute; reflexivity).
  assert (Hreq : GoveeAdapter.requestOf command
                 = Some (GoveeAdapter.colorCmd
                           {| GoveeAdapter.r := 0; GoveeAdapter.g := 255;
                              GoveeAdapter.b := 0 |},
                         {| GoveeAdapter.u_isOn := None;
                            GoveeAdapter.u_brightness := None;
                            GoveeAdapter.u_color := Some (Some "#00FF00") |}))
    by (vm_compute; reflexivity).
  destruct (executeCommand_reported_state_wins Cloud.api command st _ _ _
              Hinit Hdev eq_refl Hreq) as (Hexec & _).
  { exists "Success". vm_compute. reflexivity. }
  rewrite Hexec. split; [reflexivity|].
  vm_compute. reflexivity.
Defined.

Lemma cache_never_forgets_witness :
  let st := Fixtures.goveeReady in
  let ops := [GoveeAdapter.CloudChanges (fun _ : Cloud.R => []);
              GoveeAdapter.GetDevices;
              GoveeAdapter.GetDevice "test-device-2"] in
  is_Some (GoveeAdapter.devices st !! "test-device-1")
  /\ GoveeAdapter.remote (GoveeAdapter.run Cloud.api ops st) = []
  /\ is_Some (GoveeAdapter.devices (GoveeAdapter.run Cloud.api ops st)
                !! "test-device-1").
Proof.
  intros st ops.
  assert (Hcached : is_Some (GoveeAdapter.devices st !! "test-device-1"))
    by (vm_compute; eauto).
  split; [exact Hcached|]. split; [vm_compute; reflexivity|].
  exact (cache_never_forgets Cloud.api st ops "test-device-1" Hcached).
Defined.

(* ===================================================================== *)
(** * The light manager: initialisation, events, the adapter registry     *)
(* ===================================================================== *)

Section LightManagerMethods.
Context {S : Type}.
Import LightManager.
Implicit Types (st : LightManager.State S)
  (l : list (string * Adapter.ILightAdapter S)).

Lemma initializeAdapters_fields l : forall st,
  isInitialized (initializeAdapters l st) = isInitialized st
  /\ store (initializeAdapters l st) = initializedBy l (store st).
Proof.
  induction l as [|[name a] l IH]; intros st; [done|].
  cbn [initializeAdapters initializedBy fold_left snd].
  destruct (Adapter.initialize a (store st)) as [[[]|e] s'];
    cbn [snd]; by destruct (IH (setStore s' st)) as [-> ->] ||
                  by destruct (IH (log LError ("Failed to initialize adapter: "
                                     ++ exnMessage e) (setStore s' st)))
                       as [-> ->].
Qed.

Lemma forwardEvent_fields l event : forall st,
  isInitialized (forwardEvent l event st) = isInitialized st
  /\ adapters (forwardEvent l event st) = adapters st
  /\ store (forwardEvent l event st) = handledBy l event (store st).
Proof.
  induction l as [|[name a] l IH]; intros st; [done|].
  cbn [forwardEvent handledBy fold_left snd].
  destruct (Adapter.handleEvent a event (store st)) as [[[]|e] s']; cbn [snd].
  - by destruct (IH (setStore s' st)) as (-> & -> & ->).
  - by destruct (IH (log LError ("Error handling event in adapter: "
                          ++ exnMessage e) (setStore s' st)))
         as (-> & -> & ->).
Qed.

Lemma getDevicesLoop_fields l : forall acc st,
  isInitialized (snd (getDevicesLoop l acc st)) = isInitialized st
  /\ adapters (snd (getDevicesLoop l acc st)) = adapters st.
Proof.
  induction l as [|[name a] l IH]; intros acc st; [done|].
  cbn [getDevicesLoop].
  destruct (Adapter.getDevices a (store st)) as [[ds|e] s'].
  - by destruct (IH (acc ++ ds)%list (setStore s' st)) as (-> & ->).
  - by destruct (IH acc (log LError ("Failed to get devices from adapter " ++ name)
                           (setStore s' st))) as (-> & ->).
Qed.

Lemma getDeviceLoop_isInitialized l deviceId : forall st,
  isInitialized (snd (getDeviceLoop l deviceId st)) = isInitialized st.
Proof.
  induction l as [|[name a] l IH]; intros st; [done|].
  cbn [getDeviceLoop].
  destruct (Adapter.getDevice a deviceId (store st)) as [[[d|]|e] s'];
    cbn [snd]; by rewrite ?IH.
Qed.

Lemma executeLoop_isInitialized l command : forall st,
  isInitialized (snd (executeLoop l command st)) = isInitialized st.
Proof.
  induction l as [|[name a] l IH]; intros st; [done|].
  cbn [executeLoop].
  destruct (Adapter.executeCommand a command (store st)) as [[[]|e] s'];
    cbn [snd]; by rewrite ?IH.
Qed.

Lemma initialize_fields st :
  fst (initialize st) = Ok tt
  /\ isInitialized (snd (initialize st)) = true
  /\ adapters (snd (initialize st)) = adapters st
  /\ store (snd (initialize st))
     = if isInitialized st then store st
       else initializedBy (adapters st) (store st).
Proof.
  split; [|split; [|split; [apply adapters_initialize|]]];
    unfold initialize; destruct (isInitialized st) eqn:Hinit; try done.
  cbn. by destruct (initializeAdapters_fields (adapters st)
                      (log LInfo "Initializing LightManager..." st)) as [_ ->].
Qed.

Lemma initializeAdapters_logs l : forall st,
  logs (initializeAdapters l st)
  = (logs st ++ initializeFailures l (store st))%list.
Proof.
  induction l as [|[name a] l IH]; intros st;
    cbn [initializeAdapters initializeFailures]; [by rewrite app_nil_r|].
  destruct (Adapter.initialize a (store st)) as [[[]|e] s'].
  - by rewrite IH.
  - rewrite IH. cbn. by rewrite <- app_assoc.
Qed.

(** X13.  With adapters whose [initialize] returns a promise that
    fulfils or rejects with an [Error], [LightManager.initialize] on a
    manager that is not initialised runs the [initialize] of every
    registered adapter once, in the order of registration and whether or
    not the ones before rejected, and marks the manager initialised in any
    case; an adapter that failed is logged and nothing else.  On an
    initialised manager it calls no adapter at all and only logs a
    warning, so a failed adapter is not tried again. *)
Theorem initialize_runs_every_adapter_once st :
  let result := initialize st in
  isInitialized (snd result) = true
  /\ adapters (snd result) = adapters st
  /\ store (snd result)
     = (if isInitialized st then store st
        else initializedBy (adapters st) (store st))
  /\ logs (snd result)
     = (logs st ++
          if isInitialized st
          then [(LWarn, "LightManager already initialized")]
          else (LInfo, "Initializing LightManager...")
                 :: initializeFailures (adapters st) (store st)
                 ++ [(LInfo, "LightManager initialized successfully")])%list
  /\ store (snd (initialize (snd result))) = store (snd result).
Proof.
  intros result. subst result.
  destruct (initialize_fields st) as (_ & Hinit & Hadapters & Hstore).
  split; [exact Hinit|]. split; [exact Hadapters|]. split; [exact Hstore|].
  split.
  - unfold initialize. destruct (isInitialized st); [done|].
    cbn [snd logs log setInitialized].
    rewrite initializeAdapters_logs. cbn [logs log store adapters].
    by rewrite <- !app_assoc.
  - destruct (initialize_fields (snd (initialize st))) as (_ & _ & _ & ->).
    by rewrite Hinit.
Qed.

Lemma handleEvent_fields (event : ILightEvent) st :
  isInitialized (snd (handleEvent event st)) = true
  /\ adapters (snd (handleEvent event st)) = adapters st
  /\ store (snd (handleEvent event st))
     = handledBy (adapters st) event
         (if isInitialized st then store st
          else initializedBy (adapters st) (store st)).
Proof.
  unfold handleEvent. cbn [fst snd].
  set (st1 := if isInitialized st then st else snd (initialize st)).
  assert (H1 : isInitialized st1 = true /\ adapters st1 = adapters st
               /\ store st1 = if isInitialized st then store st
                              else initializedBy (adapters st) (store st)).
  { unfold st1. destruct (initialize_fields st) as (_ & ? & ? & Hs).
    destruct (isInitialized st) eqn:Hinit; [done|]. by rewrite Hs. }
  destruct H1 as (Hinit1 & Hadapters1 & Hstore1).
  destruct (forwardEvent_fields
              (adapters (log LDebug ("Handling event: " ++ le_type event) st1))
              event (log LDebug ("Handling event: " ++ le_type event) st1))
    as (-> & -> & ->).
  cbn [isInitialized adapters store log]. by rewrite Hadapters1, Hstore1.
Qed.

(** X14.  With adapters whose methods return promises that fulfil or
    reject with an [Error], [LightManager.handleEvent] initialises the
    manager first when that has not happened, and then hands the event to
    every registered adapter once, in the order of registration; an
    adapter that rejects is logged and the ones after it still get the
    event.  Handling the same event again initialises nothing: the
    adapters only get the event once more. *)
Theorem handleEvent_reaches_every_adapter (event : ILightEvent) st :
  let result := handleEvent event st in
  isInitialized (snd result) = true
  /\ adapters (snd result) = adapters st
  /\ store (snd result)
     = handledBy (adapters st) event
         (if isInitialized st then store st
          else initializedBy (adapters st) (store st))
  /\ store (snd (handleEvent event (snd result)))
     = handledBy (adapters st) event (store (snd result)).
Proof.
  intros result. subst result.
  destruct (handleEvent_fields event st) as (Hinit & Hadapters & Hstore).
  split; [exact Hinit|]. split; [exact Hadapters|]. split; [exact Hstore|].
  destruct (handleEvent_fields event (snd (handleEvent event st)))
    as (_ & _ & ->).
  by rewrite Hinit, Hadapters.
Qed.

(** ** The registry *)

Lemma adapters_exec autoInitialize st op :
  adapters (exec autoInitialize st op) = adapters st
  \/ exists instanceId a,
       op = AddAdapter instanceId a
       /\ ((Adapter.adapterType a ++ ":" ++ instanceId)%string
             ∉ (fst <$> adapters st))
       /\ adapters (exec autoInitialize st op)
          = (adapters st
               ++ [((Adapter.adapterType a ++ ":" ++ instanceId)%string, a)])%list.
Proof.
  destruct op as [|instanceId a| |deviceId|command|event]; cbn [exec].
  - left. apply adapters_initialize.
  - unfold addAdapterAndInitialize, addAdapter.
    destruct (existsb _ (adapters st)) eqn:Hdup; [by left|].
    right. exists instanceId, a. split; [done|]. split.
    + intros Hin. apply list_elem_of_fmap_1 in Hin as ([name a'] & Hname & Hin).
      cbn in Hname. subst name.
      assert (Htrue : existsb
                (fun p => String.eqb (fst p)
                            (Adapter.adapterType a ++ ":" ++ instanceId)%string)
                (adapters st) = true).
      { apply existsb_exists. exists (Adapter.adapterType a ++ ":" ++ instanceId, a')%string.
        split; [by apply list_elem_of_In|]. apply String.eqb_refl. }
      congruence.
    + destruct (autoInitialize && negb _); [|done].
      by rewrite adapters_initialize.
  - left. unfold getDevices. apply getDevicesLoop_fields.
  - left. unfold getDevice. apply adapters_getDeviceLoop.
  - left. apply adapters_executeCommand.
  - left. by destruct (handleEvent_fields event st) as (_ & ? & _).
Qed.

(** X15.  The registry only grows, and only at its end: whatever is called
    on a manager, the adapters registered before stay registered, in their
    order and in front of the ones added later, and no two adapters ever
    share an id (adding an adapter under an id that is taken only logs a
    warning). *)
Theorem registry_grows_at_the_end (autoInitialize debug : bool) (s : S)
    (ops more : list (Op S)) :
  let st := run autoInitialize ops (create debug s) in
  NoDup (fst <$> adapters st)
  /\ adapters st `prefix_of` adapters (run autoInitialize more st).
Proof.
  intros st. subst st. split.
  - assert (Hgen : forall st, NoDup (fst <$> adapters st) ->
                     NoDup (fst <$> adapters (run autoInitialize ops st))).
    { induction ops as [|op ops' IH]; intros st Hst; [done|].
      cbn. apply IH.
      destruct (adapters_exec autoInitialize st op)
        as [->|(instanceId & a & _ & Hfresh & ->)]; [done|].
      rewrite fmap_app. apply NoDup_app. split; [done|]. split.
      - intros x Hx Hx'. cbn in Hx'. apply list_elem_of_singleton in Hx'.
        by subst x.
      - cbn. apply NoDup_singleton. }
    apply Hgen. unfold create. destruct debug; cbn; constructor.
  - generalize (run autoInitialize ops (create debug s)). intros st.
    revert st. induction more as [|op more' IH]; intros st; [done|].
    cbn. etrans; [|apply IH].
    destruct (adapters_exec autoInitialize st op)
      as [->|(instanceId & a & _ & _ & ->)]; [done|].
    by apply prefix_app_r.
Qed.

End LightManagerMethods.

(** ** A Govee adapter behind the manager *)

Section LateAdapter.
Context {R : Type}.
Variable api : GoveeAdapter.Remote R.
Import LightManager.
Implicit Types (st : LightManager.State (GoveeAdapter.State R)).

Lemma govee_getDevices_isInitialized (g : GoveeAdapter.State R) :
  GoveeAdapter.isInitialized (snd (GoveeAdapter.getDevices api g))
  = GoveeAdapter.isInitialized g.
Proof.
  unfold GoveeAdapter.getDevices, GoveeAdapter.tryCatch, GoveeAdapter.bind,
    GoveeAdapter.http.
  destruct (GoveeAdapter.onGetDevices api (GoveeAdapter.remote g))
    as [[code message infos|message] remote']; [|done].
  cbn. by destruct (code =? 200).
Qed.

Lemma govee_getDevices_listed (g : GoveeAdapter.State R) message infos :
  fst (GoveeAdapter.onGetDevices api (GoveeAdapter.remote g))
  = GoveeAdapter.Response 200 message infos ->
  fst (GoveeAdapter.getDevices api g)
  = Ok (GoveeAdapter.base ∘ GoveeAdapter.mapToDevice <$> infos).
Proof.
  unfold GoveeAdapter.getDevices, GoveeAdapter.tryCatch, GoveeAdapter.bind,
    GoveeAdapter.http.
  destruct (GoveeAdapter.onGetDevices api (GoveeAdapter.remote g))
    as [reply remote']. cbn [fst]. intros ->. cbn.
  by rewrite list_fmap_compose.
Qed.

Lemma stranded_exec autoInitialize name st op :
  isInitialized st = true ->
  adapters st = [(name, GoveeAdapter.asAdapter api)] ->
  GoveeAdapter.isInitialized (store st) = false ->
  addsNone op = true ->
  isInitialized (exec autoInitialize st op) = true
  /\ adapters (exec autoInitialize st op) = [(name, GoveeAdapter.asAdapter api)]
  /\ GoveeAdapter.isInitialized (store (exec autoInitialize st op)) = false.
Proof.
  intros Hinit Hadapters Hgovee Hop.
  destruct op as [|instanceId a| |deviceId|command|event]; cbn [exec];
    try discriminate Hop.
  - unfold initialize. by rewrite Hinit.
  - unfold getDevices. rewrite Hadapters. cbn.
    pose proof (govee_getDevices_isInitialized (store st)) as Hg.
    destruct (GoveeAdapter.getDevices api (store st)) as [[ds|e] g'];
      cbn in *; by rewrite Hg.
  - unfold getDevice. rewrite Hadapters. cbn.
    unfold GoveeAdapter.getDevice, GoveeAdapter.bind,
      GoveeAdapter.validateInitialized.
    by rewrite Hgovee.
  - unfold executeCommand. rewrite Hinit. unfold getDevice.
    rewrite Hadapters. cbn.
    unfold GoveeAdapter.getDevice, GoveeAdapter.bind,
      GoveeAdapter.validateInitialized.
    by rewrite Hgovee.
  - unfold handleEvent. rewrite Hinit. cbn. by rewrite Hadapters.
Qed.

(** X16.  The manager initialises adapters in [initialize] only, and
    [initialize] does nothing once the manager is initialised.  A Govee
    adapter that is added to an initialised manager therefore stays
    uninitialised through every later call of the manager: [getDevices]
    still lists the devices of its cloud, since the adapter's [getDevices]
    needs no initialisation, but [getDevice] finds none of them and every
    [executeCommand] fails with "Device not found". *)
Theorem late_adapter_is_never_initialized (autoInitialize : bool)
    (lm : LightManager.State (GoveeAdapter.State R)) (instanceId : string)
    (ops : list (Op (GoveeAdapter.State R))) :
  isInitialized lm = true ->
  adapters lm = [] ->
  GoveeAdapter.isInitialized (store lm) = false ->
  Forall (fun op => addsNone op = true) ops ->
  let st :=
    run autoInitialize ops
      (addAdapterAndInitialize autoInitialize instanceId
         (GoveeAdapter.asAdapter api) lm) in
  adapters st = [(("govee:" ++ instanceId)%string, GoveeAdapter.asAdapter api)]
  /\ GoveeAdapter.isInitialized (store st) = false
  /\ (forall command,
        fst (executeCommand command st)
        = Throw (notFoundError (c_deviceId command)))
  /\ (forall deviceId, fst (getDevice deviceId st) = None)
  /\ (forall message infos,
        fst (GoveeAdapter.onGetDevices api (GoveeAdapter.remote (store st)))
        = GoveeAdapter.Response 200 message infos ->
        fst (getDevices st)
        = (GoveeAdapter.base ∘ GoveeAdapter.mapToDevice <$> infos)).
Proof.
  intros Hinit Hnone Hgovee Hops st.
  assert (Hst : isInitialized st = true
                /\ adapters st = [(("govee:" ++ instanceId)%string,
                                    GoveeAdapter.asAdapter api)]
                /\ GoveeAdapter.isInitialized (store st) = false).
  { subst st.
    assert (H0 : forall st0,
              isInitialized st0 = true
              /\ adapters st0 = [(("govee:" ++ instanceId)%string,
                                   GoveeAdapter.asAdapter api)]
              /\ GoveeAdapter.isInitialized (store st0) = false ->
              isInitialized (run autoInitialize ops st0) = true
              /\ adapters (run autoInitialize ops st0)
                 = [(("govee:" ++ instanceId)%string, GoveeAdapter.asAdapter api)]
              /\ GoveeAdapter.isInitialized (store (run autoInitialize ops st0))
                 = false).
    { induction Hops as [|op ops' Hop _ IH]; intros st0 Hst0; [done|].
      cbn. apply IH. destruct Hst0 as (? & ? & ?).
      by apply stranded_exec. }
    apply H0. unfold addAdapterAndInitialize, addAdapter.
    rewrite Hnone. cbn. rewrite Hinit. cbn. rewrite andb_false_r, ?Hnone.
    repeat split; done. }
  destruct Hst as (Hinit' & Hadapters & Hgovee').
  split; [done|]. split; [done|]. split; [|split].
  - intros command. unfold executeCommand. rewrite Hinit'. unfold getDevice.
    rewrite Hadapters. cbn.
    unfold GoveeAdapter.getDevice, GoveeAdapter.bind,
      GoveeAdapter.validateInitialized.
    by rewrite Hgovee'.
  - intros deviceId. unfold getDevice. rewrite Hadapters. cbn.
    unfold GoveeAdapter.getDevice, GoveeAdapter.bind,
      GoveeAdapter.validateInitialized.
    by rewrite Hgovee'.
  - intros message infos Hreply. unfold getDevices. rewrite Hadapters. cbn.
    pose proof (govee_getDevices_listed (store st) message infos Hreply) as Hl.
    destruct (GoveeAdapter.getDevices api (store st)) as [[ds|e] g'];
      cbn in *; [|done]. by injection Hl as ->.
Qed.

End LateAdapter.

Lemma late_adapter_is_never_initialized_witness :
  let lm := snd (LightManager.initialize
                   (LightManager.create false Fixtures.goveeFresh)) in
  let st :=
    LightManager.run true
      [LightManager.GetDevices; LightManager.Initialize;
       LightManager.ExecuteCommand
         (Fixtures.brightnessCommand "test-device-1" 40)]
      (LightManager.addAdapterAndInitialize true "1"
         (GoveeAdapter.asAdapter Cloud.api) lm) in
  LightManager.isInitialized lm = true
  /\ fst (LightManager.getDevices st)
      = [GoveeAdapter.base (GoveeAdapter.mapToDevice Fixtures.lampInfo)]
  /\ fst (LightManager.turnOn "test-device-1" st)
      = Throw (LightManager.notFoundError "test-device-1").
Proof.
  intros lm st.
  assert (Hinit : LightManager.isInitialized lm = true) by reflexivity.
  destruct (late_adapter_is_never_initialized Cloud.api true lm "1"
              [LightManager.GetDevices; LightManager.Initialize;
               LightManager.ExecuteCommand
                 (Fixtures.brightnessCommand "test-device-1" 40)]
              Hinit eq_refl eq_refl)
    as (_ & _ & Hexec & _ & Hlist).
  { repeat constructor. }
  split; [exact Hinit|]. split.
  - apply (Hlist "Success" [Fixtures.lampInfo]). vm_compute. reflexivity.
  - apply Hexec.
Defined.

(* ===================================================================== *)
(** * The dispatcher: the registry in order, quiet events, disposal       *)
(* ===================================================================== *)

Section RegistryOrder.
Context {S : Type}.
Import GameDinAdapter.
Implicit Types (st : State S) (e : IGameDinLightEffect)
  (l : list IGameDinLightEffect).

Lemma sortByPriority_elem x l : x ∈ sortByPriority l <-> x ∈ l.
Proof.
  induction l as [|y l IH]; [done|].
  cbn [sortByPriority]. rewrite insertByPriority_elem, elem_of_cons, IH. tauto.
Qed.

Lemma registryOrdered_effects st st' :
  effects st' = effects st -> registryOrdered st -> registryOrdered st'.
Proof. intros He Hst ty effs. rewrite He. apply Hst. Qed.

Lemma registryOrdered_addEffect e st :
  registryOrdered st -> registryOrdered (addEffect e st).
Proof.
  intros Hst ty effs. unfold addEffect. cbn.
  destruct (decide (eventType e = ty)) as [<-|Hne].
  - rewrite lookup_insert_eq. intros [= <-].
    split; [apply sortByPriority_sorted|].
    apply Forall_forall. intros x Hx.
    apply (proj1 (sortByPriority_elem _ _)) in Hx.
    apply elem_of_app in Hx as [Hx|Hx].
    + destruct (effects st !! eventType e) as [old|] eqn:Hold; cbn in Hx.
      * destruct (Hst _ _ Hold) as [_ Hall].
        rewrite Forall_forall in Hall. by apply Hall.
      * by apply elem_of_nil in Hx.
    + apply list_elem_of_singleton in Hx. by subst x.
  - rewrite lookup_insert_ne by done. apply Hst.
Qed.

Lemma registryOrdered_removeEffect ty i st :
  registryOrdered st -> registryOrdered (removeEffect ty i st).
Proof.
  intros Hst. unfold removeEffect.
  destruct (effects st !! ty) as [effs|] eqn:Heffs; [|done].
  destruct (elementAt effs i); [|done].
  intros ty' effs'. cbn.
  destruct (decide (ty = ty')) as [<-|Hne].
  - rewrite lookup_insert_eq. intros [= <-].
    destruct (Hst _ _ Heffs) as [Hsorted Hall]. split.
    + by apply StronglySorted_splice1.
    + rewrite Forall_forall in *. intros x Hx. apply Hall.
      by eapply splice1_elem.
  - rewrite lookup_insert_ne by done. apply Hst.
Qed.

Lemma registryOrdered_create (lm : LightManager.State S) defaults enable :
  registryOrdered (create lm defaults enable).
Proof.
  unfold create.
  set (st0 := {| lightManager := lm; effects := ∅; deviceStates := ∅;
                 activeEffects := ∅; pending := []; nextHandle := 0%nat;
                 logs := [] |}).
  assert (H0 : registryOrdered st0).
  { intros ty effs Hl. cbn in Hl. by rewrite lookup_empty in Hl. }
  destruct enable; [|done].
  unfold registerDefaultEffects.
  apply (registryOrdered_effects
           (fold_left (fun acc e => addEffect e acc) defaults st0)); [done|].
  revert H0. generalize st0. clear st0.
  induction defaults as [|e defaults IH]; intros st Hst; [done|].
  cbn. apply IH. by apply registryOrdered_addEffect.
Qed.

Lemma registryOrdered_exec st (op : Op S) :
  registryOrdered st -> registryOrdered (exec st op).
Proof.
  intros Hst. destruct op; cbn [exec].
  - by apply registryOrdered_addEffect.
  - by apply registryOrdered_removeEffect.
  - apply (registryOrdered_effects st); [apply effects_handleEvent|done].
  - apply (registryOrdered_effects st); [apply effects_fireTimer|done].
  - by apply (registryOrdered_effects st).
  - by apply (registryOrdered_effects st).
Qed.

Lemma registryOrdered_run (ops : list (Op S)) : forall st,
  registryOrdered st -> registryOrdered (run ops st).
Proof.
  induction ops as [|op ops IH]; intros st Hst; [done|].
  cbn. apply IH. by apply registryOrdered_exec.
Qed.

Lemma registryOrdered_reachable st : reachable st -> registryOrdered st.
Proof.
  intros (lm & defaults & enable & ops & ->).
  apply registryOrdered_run, registryOrdered_create.
Qed.

(** X17.  In every state the dispatcher can get into, the list registered
    for an event type is sorted by descending priority (an absent priority
    counting as 0) and holds no effect of another event type: [addEffect]
    files an effect under its own type and re-sorts, [removeEffect] takes
    one element out, and nothing else writes the registry. *)
Theorem registry_stays_ordered st (ty : string) :
  reachable st ->
  StronglySorted before (effectsFor ty st)
  /\ Forall (fun e => eventType e = ty) (effectsFor ty st).
Proof.
  intros Hst. apply registryOrdered_reachable in Hst.
  unfold effectsFor. destruct (effects st !! ty) as [effs|] eqn:Heffs; cbn.
  - by apply Hst.
  - split; constructor.
Qed.

(** ** Adding and removing *)

Lemma insertByPriority_front x l :
  (forall y, y ∈ l -> priorityOf y <= priorityOf x) ->
  insertByPriority x l = x :: l.
Proof.
  destruct l as [|y l]; [done|]. intros Hall. cbn.
  destruct (Z.leb_spec (priorityOf y) (priorityOf x)) as [_|Hgt]; [done|].
  specialize (Hall y ltac:(left)). lia.
Qed.

Lemma landing_cons e x l :
  landing e (x :: l)
  = if decide (priorityOf e <= priorityOf x) then Datatypes.S (landing e l)
    else landing e l.
Proof. unfold landing. rewrite filter_cons. by destruct (decide _). Qed.

Lemma landing_zero e l :
  (forall y, y ∈ l -> priorityOf y < priorityOf e) -> landing e l = 0%nat.
Proof.
  intros Hall. unfold landing.
  rewrite (filter_none (fun x => priorityOf e <= priorityOf x) l); [done|].
  intros y Hy. specialize (Hall y Hy). lia.
Qed.

Lemma landing_le e l : (landing e l <= length l)%nat.
Proof. unfold landing. apply length_filter. Qed.

(** Re-sorting after a [push] onto a list that is in order puts the new
    element at its landing place and moves nothing else. *)
Lemma sortByPriority_landing e l :
  StronglySorted before l ->
  sortByPriority (l ++ [e])
  = (take (landing e l) l ++ e :: drop (landing e l) l)%list.
Proof.
  induction 1 as [|x l Hsorted IH Hx]; [done|].
  rewrite Forall_forall in Hx. unfold before in Hx.
  cbn [app sortByPriority]. rewrite IH, landing_cons.
  destruct (decide (priorityOf e <= priorityOf x)) as [Hle|Hgt].
  - cbn [take drop app]. apply insertByPriority_front.
    intros y Hy. apply elem_of_app in Hy as [Hy|Hy].
    + apply Hx. apply (subseteq_take _ _ _ Hy).
    + apply elem_of_cons in Hy as [->|Hy]; [done|].
      apply Hx. apply (subseteq_drop _ _ _ Hy).
  - rewrite (landing_zero e l).
    2:{ intros y Hy. specialize (Hx y Hy). lia. }
    rewrite !take_0, !drop_0. cbn [app insertByPriority].
    destruct (Z.leb_spec (priorityOf e) (priorityOf x)) as [?|_]; [lia|].
    f_equal. apply insertByPriority_front. intros y Hy. by apply Hx.
Qed.

(** X18.  In a state the dispatcher can get into, [addEffect] puts the new
    effect behind the registered effects of its event type whose priority
    is not lower than its own and in front of the others, and leaves the
    lists of the other event types alone; [removeEffect] with that position
    takes exactly the new effect out again, so that every event type has
    the effects it had before. *)
Theorem addEffect_then_removeEffect e st :
  reachable st ->
  let ty := eventType e in
  let before := effectsFor ty st in
  let i := landing e before in
  effectsFor ty (addEffect e st) = (take i before ++ e :: drop i before)%list
  /\ (forall ty', ty' <> ty ->
        effectsFor ty' (addEffect e st) = effectsFor ty' st)
  /\ (forall ty',
        effectsFor ty' (removeEffect ty (Z.of_nat i) (addEffect e st))
        = effectsFor ty' st).
Proof.
  intros Hst ty before0 i.
  assert (Hsorted : StronglySorted before before0).
  { apply registryOrdered_reachable in Hst. subst before0. unfold effectsFor.
    destruct (effects st !! ty) as [effs|] eqn:Heffs; cbn; [|constructor].
    by destruct (Hst _ _ Heffs). }
  assert (Hadd : effectsFor ty (addEffect e st)
                 = (take i before0 ++ e :: drop i before0)%list).
  { rewrite effectsFor_addEffect. destruct (decide (eventType e = ty)); [|done].
    by apply sortByPriority_landing. }
  split; [exact Hadd|]. split.
  - intros ty' Hne. rewrite effectsFor_addEffect.
    by destruct (decide (eventType e = ty')).
  - intros ty'.
    assert (Hi : (i <= length before0)%nat) by apply landing_le.
    assert (Hlen : length (take i before0) = i) by (rewrite length_take; lia).
    unfold removeEffect.
    assert (Hl : effects (addEffect e st) !! ty
                 = Some (take i before0 ++ e :: drop i before0)%list).
    { unfold addEffect. cbn. rewrite lookup_insert_eq. f_equal.
      by apply sortByPriority_landing. }
    rewrite Hl.
    assert (Hat : elementAt (take i before0 ++ e :: drop i before0)%list
                    (Z.of_nat i)
                  = Some e).
    { unfold elementAt. destruct (Z.leb_spec 0 (Z.of_nat i)); [|lia].
      rewrite Nat2Z.id, lookup_app_r by lia.
      by rewrite Hlen, Nat.sub_diag. }
    rewrite Hat. unfold effectsFor. cbn. rewrite Nat2Z.id.
    destruct (decide (ty = ty')) as [<-|Hne].
    + rewrite lookup_insert_eq. cbn. unfold splice1.
      rewrite take_app_length' by done.
      rewrite cons_middle, app_assoc, drop_app_length'
        by (rewrite length_app; cbn; lia).
      apply take_drop.
    + rewrite !lookup_insert_ne by done. done.
Qed.

(** ** Events that find nothing to apply *)

Lemma fold_no_match_fields (ds : list IDevice) : forall st,
  let st' := fold_left
               (fun acc device =>
                  log LDebug ("No matching effects for device: " ++ d_id device) acc)
               ds st in
  effects st' = effects st /\ deviceStates st' = deviceStates st
  /\ activeEffects st' = activeEffects st /\ pending st' = pending st
  /\ nextHandle st' = nextHandle st /\ lightManager st' = lightManager st.
Proof.
  induction ds as [|d ds IH]; intros st; [done|].
  cbn [fold_left].
  by destruct (IH (log LDebug ("No matching effects for device: " ++ d_id d) st))
       as (-> & -> & -> & -> & -> & ->).
Qed.

(** X19.  An event for which no registered effect applies changes nothing
    but the log: no command is sent, no snapshot is taken, no timer is set
    or cancelled.  When no effect at all is registered for the event's
    type (none was added, or all were removed) the light manager is not
    even asked for its devices; when effects are registered but the
    condition of each fails, it is asked once and that is all. *)
Theorem handleEvent_without_applicable_effect (ev : IGameDinEvent) st :
  selected ev st = None ->
  let st' := handleEvent ev st in
  effects st' = effects st
  /\ deviceStates st' = deviceStates st
  /\ activeEffects st' = activeEffects st
  /\ pending st' = pending st
  /\ nextHandle st' = nextHandle st
  /\ lightManager st'
     = match effectsFor (ev_type ev) st with
       | [] => lightManager st
       | _ :: _ => snd (LightManager.getDevices (lightManager st))
       end.
Proof.
  intros Hnone st'. subst st'. rewrite handleEvent_selected. cbn zeta.
  destruct (effectsFor (ev_type ev) st) as [|e0 effs]; [done|].
  rewrite Hnone.
  destruct (LightManager.getDevices (lightManager st)) as [devices lm'].
  cbn [snd].
  by destruct (fold_no_match_fields devices
                 (setLightManager lm'
                    (log LDebug ("Processing GameDin event: " ++ ev_type ev) st)))
       as (-> & -> & -> & -> & -> & ->).
Qed.

(** ** Disposal *)


(** ** Initialisation *)


End RegistryOrder.

Lemma registry_stays_ordered_witness :
  let st :=
    GameDinAdapter.run
      [GameDinAdapter.AddEffect Fixtures.customEffect;
       GameDinAdapter.AddEffect Fixtures.joinEffect;
       GameDinAdapter.RemoveEffect "player:join" 0]
      (Fixtures.dispatcherOf [Fixtures.lamp]) in
  GameDinAdapter.reachable st
  /\ StronglySorted GameDinAdapter.before
       (GameDinAdapter.effectsFor "player:join" st).
Proof.
  intros st.
  assert (Hst : GameDinAdapter.reachable st).
  { exists (Fixtures.managerOf [Fixtures.lamp]), GameDinAdapter.DEFAULT_EFFECTS,
      true. eexists. reflexivity. }
  split; [exact Hst|].
  exact (proj1 (registry_stays_ordered st "player:join" Hst)).
Defined.

Lemma addEffect_then_removeEffect_witness :
  let st := Fixtures.dispatcherOf [Fixtures.lamp] in
  let e := Fixtures.joinEffect in
  GameDinAdapter.reachable st
  /\ GameDinAdapter.landing e (GameDinAdapter.effectsFor "player:join" st) = 1%nat
  /\ GameDinAdapter.effectsFor "player:join"
       (GameDinAdapter.removeEffect "player:join" 1
          (GameDinAdapter.addEffect e st))
     = GameDinAdapter.effectsFor "player:join" st.
Proof.
  intros st e.
  assert (Hst : GameDinAdapter.reachable st).
  { exists (Fixtures.managerOf [Fixtures.lamp]), GameDinAdapter.DEFAULT_EFFECTS,
      true, []. reflexivity. }
  split; [exact Hst|]. split; [reflexivity|].
  destruct (addEffect_then_removeEffect e st Hst) as (_ & _ & Hback).
  exact (Hback "player:join").
Defined.

Lemma handleEvent_without_applicable_effect_witness :
  let st := Fixtures.dispatcherOf [Fixtures.lamp] in
  let ev := Fixtures.eventOf "chat:message" in
  GameDinAdapter.selected ev st = None
  /\ GameDinAdapter.lightManager (GameDinAdapter.handleEvent ev st)
     = GameDinAdapter.lightManager st
  /\ GameDinAdapter.pending (GameDinAdapter.handleEvent ev st) = [].
Proof.
  intros st ev.
  assert (Hnone : GameDinAdapter.selected ev st = None) by reflexivity.
  destruct (handleEvent_without_applicable_effect ev st Hnone)
    as (_ & _ & _ & Hpending & _ & Hlm).
  split; [exact Hnone|]. split; [exact Hlm|exact Hpending].
Defined.


(* ===================================================================== *)
(** * The Philips Hue adapter                                             *)
(* ===================================================================== *)

Section HueMethods.
Context {F B : Type}.
Variable colours : PhilipsHueAdapter.ColourMath F.
Variable api : PhilipsHueAdapter.Bridge F B.
Import PhilipsHueAdapter.
Implicit Types (st : PhilipsHueAdapter.State F B).

Local Abbreviation initialize := (PhilipsHueAdapter.initialize colours api).
Local Abbreviation getDevices := (PhilipsHueAdapter.getDevices colours api).
Local Abbreviation getDevice := (PhilipsHueAdapter.getDevice colours api).
Local Abbreviation executeCommand := (PhilipsHueAdapter.executeCommand colours api).
Local Abbreviation createUser := (PhilipsHueAdapter.createUser api).
Local Abbreviation getBridgeConfig := (PhilipsHueAdapter.getBridgeConfig api).

Lemma getBridgeConfig_fields st :
  isInitialized (snd (getBridgeConfig st)) = isInitialized st
  /\ devices (snd (getBridgeConfig st)) = devices st
  /\ username (snd (getBridgeConfig st)) = username st
  /\ authenticated (snd (getBridgeConfig st)) = authenticated st
  /\ requests (snd (getBridgeConfig st)) = (requests st ++ [GET_config])%list
  /\ match fst (onGetConfig api (bridge st)) with
     | Data config => fst (getBridgeConfig st) = Ok config
     | _ => exists e, fst (getBridgeConfig st) = Throw e
                      /\ exnCode e = Some "BRIDGE_CONFIG_FAILED"
     end.
Proof.
  unfold PhilipsHueAdapter.getBridgeConfig, tryCatch, await, http.
  destruct (onGetConfig api (bridge st)) as [[config|status message|message] b'];
    cbn; repeat split; eauto.
Qed.

Lemma getDevices_uninitialized st :
  isInitialized st = false -> getDevices st = (Throw notInitialized, st).
Proof.
  intros Hinit. unfold PhilipsHueAdapter.getDevices, bind, validateInitialized.
  by rewrite Hinit.
Qed.

(** [initialize] on an adapter that has a username. *)
Lemma initialize_with_username st :
  isInitialized st = false -> is_Some (currentUser st) ->
  isInitialized (snd (initialize st)) = false
  /\ devices (snd (initialize st)) = devices st
  /\ username (snd (initialize st)) = username st
  /\ authenticated (snd (initialize st)) = authenticated st
  /\ requests (snd (initialize st)) = (requests st ++ [GET_config])%list
  /\ exists cause,
       fst (initialize st)
       = Throw (AdapterError
                  ("Failed to initialize Philips Hue adapter: " ++ exnMessage cause)
                  "INITIALIZATION_FAILED" (Cause cause))
       /\ match fst (onGetConfig api (bridge st)) with
          | Data _ => cause = notInitialized
          | _ => exnCode cause = Some "BRIDGE_CONFIG_FAILED"
          end.
Proof.
  intros Hinit [user Huser]. unfold PhilipsHueAdapter.initialize. rewrite Hinit.
  unfold tryCatch, bind. cbn [setIsInitialized].
  set (st0 := {| isInitialized := false; devices := devices st;
                 username := username st; authenticated := authenticated st;
                 bridge := bridge st; requests := requests st |}).
  destruct (getBridgeConfig_fields st0)
    as (Hi & Hd & Hu & Ha & Hr & Hreply).
  change (bridge st0) with (bridge st) in Hreply.
  destruct (getBridgeConfig st0) as [[config|e] st1] eqn:Hconfig;
    cbn [fst snd] in *.
  - assert (Huser1 : currentUser st1 = Some user).
    { unfold currentUser in *. by rewrite Hu. }
    rewrite Huser1. unfold bind.
    rewrite (getDevices_uninitialized st1) by done.
    cbn. repeat split; try done.
    exists notInitialized. split; [done|].
    destruct (fst (onGetConfig api (bridge st))); try done;
      by destruct Hreply as (? & ? & _).
  - cbn. repeat split; try done.
    exists e. split; [done|].
    destruct (fst (onGetConfig api (bridge st))); try done;
      destruct Hreply as (? & [= <-] & ?); done.
Qed.

Lemma createUser_fields deviceType st :
  isInitialized (snd (createUser deviceType st)) = isInitialized st
  /\ devices (snd (createUser deviceType st)) = devices st
  /\ requests (snd (createUser deviceType st))
     = (requests st ++ [POST_api deviceType])%list
  /\ match fst (createUser deviceType st) with
     | Ok name =>
         username (snd (createUser deviceType st)) = Some name
         /\ authenticated (snd (createUser deviceType st)) = true
         /\ exists results result,
              fst (onCreateUser api deviceType (bridge st)) = Data results
              /\ head results = Some result /\ success result = Some name
     | Throw e =>
         username (snd (createUser deviceType st)) = username st
         /\ authenticated (snd (createUser deviceType st)) = authenticated st
         /\ exists cause,
              e = AdapterError "Failed to create user on Philips Hue bridge"
                    "USER_CREATION_FAILED" (Cause cause)
     end.
Proof.
  unfold PhilipsHueAdapter.createUser, tryCatch, bind, await, http.
  destruct (onCreateUser api deviceType (bridge st))
    as [[results|status message|message] b']; cbn; [|repeat split; eauto..].
  destruct results as [|result rest]; cbn; [repeat split; eauto|].
  destruct (success result) as [name|] eqn:Hsuccess; cbn.
  - repeat split; eauto.
  - destruct (error result) as [[type description]|]; cbn;
      [destruct (type =? 101); cbn|]; repeat split; eauto.
Qed.

Lemma getDevice_uninitialized deviceId st :
  isInitialized st = false -> getDevice deviceId st = (Throw notInitialized, st).
Proof.
  intros Hinit. unfold PhilipsHueAdapter.getDevice, bind, validateInitialized.
  by rewrite Hinit.
Qed.

Lemma executeCommand_uninitialized command st :
  isInitialized st = false ->
  executeCommand command st = (Throw notInitialized, st).
Proof.
  intros Hinit. unfold PhilipsHueAdapter.executeCommand, bind, validateInitialized.
  by rewrite Hinit.
Qed.

Lemma getDevices_unauthenticated st :
  isInitialized st = true -> currentUser st = None ->
  getDevices st = (Throw notAuthenticated, st).
Proof.
  intros Hinit Hnone.
  unfold PhilipsHueAdapter.getDevices, bind, validateInitialized, requireUser.
  by rewrite Hinit, Hnone.
Qed.

Lemma getDevice_unauthenticated deviceId st :
  isInitialized st = true -> currentUser st = None ->
  getDevice deviceId st = (Throw notAuthenticated, st).
Proof.
  intros Hinit Hnone.
  unfold PhilipsHueAdapter.getDevice, bind, validateInitialized, requireUser.
  by rewrite Hinit, Hnone.
Qed.

Lemma executeCommand_unauthenticated command st :
  isInitialized st = true -> currentUser st = None ->
  is_Some (devices st !! c_deviceId command) ->
  executeCommand command st = (Throw notAuthenticated, st).
Proof.
  intros Hinit Hnone [d Hd].
  unfold PhilipsHueAdapter.executeCommand, bind, validateInitialized,
    validateDeviceId, requireUser.
  by rewrite Hinit, Hd, Hnone.
Qed.

Lemma blocked_exec st (op : Op B) :
  issuesNames api ->
  isInitialized st = false -> is_Some (currentUser st) ->
  isInitialized (exec colours api st op) = false
  /\ is_Some (currentUser (exec colours api st op))
  /\ devices (exec colours api st op) = devices st.
Proof.
  intros Hnames Hinit Huser.
  destruct op as [|deviceType| | |deviceId|command|f]; cbn [exec].
  - destruct (initialize_with_username st Hinit Huser) as (? & ? & Hu & _).
    unfold currentUser in *. by rewrite Hu.
  - destruct (createUser_fields deviceType st) as (Hi & Hd & _ & Hout).
    rewrite Hi, Hd. split; [done|]. split; [|done].
    destruct (fst (createUser deviceType st)) as [name|e].
    + destruct Hout as (Hu & _ & results & result & Hreply & Hhead & Hname).
      unfold currentUser. rewrite Hu.
      destruct (String.eqb_spec name "") as [->|_]; [|eauto].
      exfalso.
      destruct (onCreateUser api deviceType (bridge st)) as [reply b'] eqn:Hc.
      cbn in Hreply. subst reply.
      by apply (Hnames _ _ _ _ _ Hc Hhead).
    + destruct Hout as (Hu & _). unfold currentUser in *. by rewrite Hu.
  - destruct (getBridgeConfig_fields st) as (-> & -> & Hu & _).
    unfold currentUser in *. by rewrite Hu.
  - by rewrite getDevices_uninitialized.
  - by rewrite getDevice_uninitialized.
  - by rewrite executeCommand_uninitialized.
  - done.
Qed.

(** X22.  An adapter that has a username can never be initialised.  Its
    [initialize] fetches the bridge configuration and then calls
    [getDevices] to verify the username, but [getDevices] starts with
    [validateInitialized], and the flag is still false at that point: the
    call throws NOT_INITIALIZED, which [initialize] rethrows as
    INITIALIZATION_FAILED.  So however often [initialize] or anything else
    is called on an adapter constructed with a username (or given one by
    [createUser] before it was initialised), it stays uninitialised, its
    cache stays as it was, and [getDevices], [getDevice] and
    [executeCommand] all throw NOT_INITIALIZED. *)
Theorem username_blocks_initialization st (ops : list (Op B)) :
  issuesNames api ->
  isInitialized st = false ->
  is_Some (currentUser st) ->
  let st' := run colours api ops st in
  isInitialized st' = false
  /\ devices st' = devices st
  /\ (exists e, fst (initialize st') = Throw e
                /\ exnCode e = Some "INITIALIZATION_FAILED")
  /\ getDevices st' = (Throw notInitialized, st')
  /\ (forall deviceId, getDevice deviceId st' = (Throw notInitialized, st'))
  /\ (forall command, executeCommand command st' = (Throw notInitialized, st')).
Proof.
  intros Hnames Hinit Huser st'. subst st'.
  assert (Hrun : isInitialized (run colours api ops st) = false
                 /\ is_Some (currentUser (run colours api ops st))
                 /\ devices (run colours api ops st) = devices st).
  { revert st Hinit Huser. induction ops as [|op ops' IH]; intros st Hinit Huser;
      [done|].
    change (run colours api (op :: ops') st)
      with (run colours api ops' (exec colours api st op)).
    destruct (blocked_exec st op Hnames Hinit Huser) as (Hi & Hu & Hd).
    destruct (IH _ Hi Hu) as (Hi' & Hu' & Hd').
    split; [done|]. split; [done|]. by rewrite Hd', Hd. }
  destruct Hrun as (Hi & Hu & Hd).
  split; [done|]. split; [done|]. split.
  - destruct (initialize_with_username _ Hi Hu)
      as (_ & _ & _ & _ & _ & cause & -> & _). eauto.
  - split; [by apply getDevices_uninitialized|].
    split; intros; [by apply getDevice_uninitialized
                   |by apply executeCommand_uninitialized].
Qed.

(** X23.  Without a username [initialize] succeeds exactly when the bridge
    configuration can be fetched, after that one request.  The adapter is
    then initialised but not authenticated: until [createUser] has
    succeeded, [getDevices] and [getDevice] throw NOT_AUTHENTICATED without
    a request.  [executeCommand] checks the device id first: it throws
    DEVICE_NOT_FOUND for an id that is not cached, which on an adapter
    that was never initialised before is every id, and NOT_AUTHENTICATED
    for a cached one; in either case without a request. *)
Theorem initialize_without_username st :
  isInitialized st = false ->
  currentUser st = None ->
  let result := initialize st in
  requests (snd result) = (requests st ++ [GET_config])%list
  /\ devices (snd result) = devices st
  /\ username (snd result) = username st
  /\ isInitialized (snd result) = isOk (fst result)
  /\ match fst (onGetConfig api (bridge st)) with
     | Data _ =>
         fst result = Ok tt
         /\ getDevices (snd result) = (Throw notAuthenticated, snd result)
         /\ (forall deviceId,
               getDevice deviceId (snd result)
               = (Throw notAuthenticated, snd result))
         /\ (forall command,
               executeCommand command (snd result)
               = (Throw
                    match devices st !! c_deviceId command with
                    | Some _ => notAuthenticated
                    | None =>
                        AdapterError
                          ("Device with ID '" ++ c_deviceId command
                             ++ "' not found")
                          "DEVICE_NOT_FOUND" NoCause
                    end, snd result))
     | _ => exists e, fst result = Throw e
                      /\ exnCode e = Some "INITIALIZATION_FAILED"
     end.
Proof.
  intros Hinit Hnone result. subst result.
  unfold PhilipsHueAdapter.initialize. rewrite Hinit.
  unfold tryCatch, bind. cbn [setIsInitialized].
  set (st0 := {| isInitialized := false; devices := devices st;
                 username := username st; authenticated := authenticated st;
                 bridge := bridge st; requests := requests st |}).
  destruct (getBridgeConfig_fields st0)
    as (Hi & Hd & Hu & Ha & Hr & Hreply).
  change (bridge st0) with (bridge st) in Hreply.
  destruct (getBridgeConfig st0) as [[config|e] st1] eqn:Hconfig;
    cbn [fst snd] in *.
  - assert (Hnone1 : currentUser st1 = None).
    { unfold currentUser in *. by rewrite Hu. }
    rewrite Hnone1.
    cbn [setIsInitialized fst snd requests devices username isInitialized isOk].
    split; [done|]. split; [done|]. split; [done|]. split; [done|].
    destruct (fst (onGetConfig api (bridge st)));
      try (by destruct Hreply as (? & ? & _)).
    split; [done|].
    set (st2 := {| isInitialized := true; devices := devices st1;
                   username := username st1; authenticated := authenticated st1;
                   bridge := bridge st1; requests := requests st1 |}).
    assert (Hnone2 : currentUser st2 = None) by exact Hnone1.
    split; [|split].
    + by apply getDevices_unauthenticated.
    + intros deviceId. by apply getDevice_unauthenticated.
    + intros command.
      destruct (devices st !! c_deviceId command) as [d|] eqn:Hdev.
      * apply executeCommand_unauthenticated; try done.
        cbn [st2 devices]. by rewrite Hd.
      * unfold PhilipsHueAdapter.executeCommand, bind, validateInitialized,
          validateDeviceId.
        cbn [st2 isInitialized devices]. rewrite Hd. cbn [st0 devices].
        by rewrite Hdev.
  - cbn. repeat split; try done.
    destruct (fst (onGetConfig api (bridge st))); try done;
      destruct Hreply as (e' & [= <-] & ?); eauto.
Qed.

(** X24.  [createUser] makes one request.  When the first element of the
    answer carries a username, the adapter takes it and counts as
    authenticated.  Whatever else happens, one and the same error reaches
    the caller, USER_CREATION_FAILED "Failed to create user on Philips Hue
    bridge", and username and authentication stay as they were.  What
    went wrong survives as the cause only, the errors thrown inside the
    [try] block being caught by the [catch] of the same block:
    LINK_BUTTON_NOT_PRESSED for the bridge's error 101, an inner
    USER_CREATION_FAILED with the bridge's description for any other
    error of the bridge, UNEXPECTED_RESPONSE for an element that is
    neither, the [TypeError] of reading [success] for an empty answer, and
    the rejection of the request. *)
Theorem createUser_fails_with_one_code (deviceType : string) st :
  let result := createUser deviceType st in
  let failure cause : Result string :=
    Throw (AdapterError "Failed to create user on Philips Hue bridge"
             "USER_CREATION_FAILED" (Cause cause)) in
  let unchanged :=
    username (snd result) = username st
    /\ authenticated (snd result) = authenticated st in
  isInitialized (snd result) = isInitialized st
  /\ devices (snd result) = devices st
  /\ requests (snd result) = (requests st ++ [POST_api deviceType])%list
  /\ match fst (onCreateUser api deviceType (bridge st)) with
     | Data results =>
         match head results with
         | None => fst result = failure noResult /\ unchanged
         | Some first =>
             match success first with
             | Some name =>
                 fst result = Ok name
                 /\ username (snd result) = Some name
                 /\ authenticated (snd result) = true
             | None =>
                 fst result
                 = failure
                     match error first with
                     | Some (type, description) =>
                         if type =? 101 then
                           AdapterError
                             "Link button not pressed. Please press the link button on the Philips Hue bridge and try again."
                             "LINK_BUTTON_NOT_PRESSED" NoCause
                         else
                           AdapterError ("Failed to create user: " ++ description)
                             "USER_CREATION_FAILED" NoCause
                     | None =>
                         AdapterError "Unexpected response from Philips Hue bridge"
                           "UNEXPECTED_RESPONSE" NoCause
                     end
                 /\ unchanged
             end
         end
     | Refused _ message | Unreachable message =>
         fst result = failure (Error message) /\ unchanged
     end.
Proof.
  intros result failure unchanged. subst result failure unchanged.
  unfold PhilipsHueAdapter.createUser, tryCatch, bind, await, http.
  destruct (onCreateUser api deviceType (bridge st))
    as [[results|status message|message] b']; cbn; [|done..].
  destruct results as [|first rest]; cbn; [done|].
  destruct (success first) as [name|]; cbn; [done|].
  destruct (error first) as [[type description]|]; cbn; [|done].
  by destruct (type =? 101).
Qed.

(** ** Brightness in percent and in the bridge's units *)

Lemma fromBri_toBri b : fromBri (toBri b) = b.
Proof.
  unfold fromBri, toBri.
  pose proof (Z.div_mod (b * 254 + 50) 100 ltac:(lia)) as H1.
  pose proof (Z.mod_pos_bound (b * 254 + 50) 100 ltac:(lia)) as H2.
  set (q := (b * 254 + 50) / 100) in *.
  symmetry. apply Z.div_unique with (q * 100 + 127 - 254 * b); lia.
Qed.

Lemma toBri_monotone a b : a <= b -> toBri a <= toBri b.
Proof. intros Hab. unfold toBri. apply Z.div_le_mono; lia. Qed.

Lemma fromBri_clamped b :
  fromBri (Z.max 0 (Z.min 254 (toBri b))) = Z.max 0 (Z.min 100 b).
Proof.
  destruct (Z.le_gt_cases b 0) as [Hneg|Hpos].
  - pose proof (toBri_monotone b 0 Hneg) as Hq. change (toBri 0) with 0 in Hq.
    replace (Z.max 0 (Z.min 254 (toBri b))) with 0 by lia.
    replace (Z.max 0 (Z.min 100 b)) with 0 by lia. reflexivity.
  - destruct (Z.le_gt_cases 100 b) as [Hbig|Hsmall].
    + pose proof (toBri_monotone 100 b Hbig) as Hq.
      change (toBri 100) with 254 in Hq.
      replace (Z.max 0 (Z.min 254 (toBri b))) with 254 by lia.
      replace (Z.max 0 (Z.min 100 b)) with 100 by lia. reflexivity.
    + pose proof (toBri_monotone 0 b ltac:(lia)) as Hlo.
      pose proof (toBri_monotone b 100 ltac:(lia)) as Hhi.
      change (toBri 0) with 0 in Hlo. change (toBri 100) with 254 in Hhi.
      replace (Z.max 0 (Z.min 254 (toBri b))) with (toBri b) by lia.
      replace (Z.max 0 (Z.min 100 b)) with b by lia.
      apply fromBri_toBri.
Qed.

(** X25.  A [setBrightness] command with a percentage [b] is sent to the
    bridge as a [bri] between 0 and 254, namely [b * 254 / 100] rounded
    and clamped, together with [on], which is true exactly when [b] is
    positive: setting the brightness to 0 (or below) switches the lamp
    off.  When the bridge accepts the request, the cached device is on or
    off accordingly and its brightness is [b] clamped to 0..100, so a
    percentage within range is cached as it was given; the colour is
    kept.  When the request fails, the cache is left as it was and the
    error is COMMAND_EXECUTION_FAILED around SET_STATE_FAILED. *)
Theorem hue_setBrightness_percent (command : ILightCommand) (b : Z) st
    (user : string) (device : IDevice) :
  isInitialized st = true ->
  currentUser st = Some user ->
  devices st !! c_deviceId command = Some device ->
  c_type command = CommandType.setBrightness ->
  p_brightness (c_params command) = Some b ->
  let sent := Z.max 0 (Z.min 254 (toBri b)) in
  let update := {| su_on := Some (0 <? b); su_bri := Some sent;
                   su_xy := None; su_colormode := None |} in
  let exchange := onPutState api user (c_deviceId command) update (bridge st) in
  let result := executeCommand command st in
  0 <= sent <= 254
  /\ requests (snd result)
     = (requests st ++ [PUT_state user (c_deviceId command) update])%list
  /\ match fst exchange with
     | Data _ =>
         fst result = Ok tt
         /\ exists device',
              devices (snd result) !! c_deviceId command = Some device'
              /\ d_isOn device' = (0 <? b)
              /\ d_brightness device' = Some (Z.max 0 (Z.min 100 b))
              /\ d_color device' = d_color device
     | _ =>
         devices (snd result) = devices st
         /\ exists cause,
              fst result
              = Throw (AdapterError "Failed to execute command: setBrightness"
                         "COMMAND_EXECUTION_FAILED" (Cause cause))
              /\ exnCode cause = Some "SET_STATE_FAILED"
     end.
Proof.
  intros Hinit Huser Hdev Hty Hb sent update exchange result.
  subst exchange result. split; [subst sent; lia|].
  assert (Hname : username st = Some user).
  { unfold currentUser in Huser. destruct (username st) as [n|]; [|done].
    by destruct (String.eqb n ""); simplify_eq. }
  unfold PhilipsHueAdapter.executeCommand, bind, validateInitialized,
    validateDeviceId, requireUser.
  rewrite Hinit, Hdev, Huser. cbn beta iota. rewrite Hdev.
  unfold tryCatch, bind, stateFor. rewrite Hty, Hb. fold sent. fold update.
  unfold setLightState, tryCatch, bind, await, http. rewrite Hname.
  change (default "undefined" (Some user)) with user.
  destruct (onPutState api user (c_deviceId command) update (bridge st))
    as [[[]|status message|message] b'];
    cbn -[Z.max Z.min toBri fromBri updateLocal String.append].
  - split; [done|]. split; [done|].
    eexists. rewrite lookup_insert_eq. split; [done|].
    cbn -[Z.max Z.min toBri fromBri].
    split; [done|]. split; [|done].
    unfold sent. by rewrite fromBri_clamped.
  - split; [done|]. split; [done|]. eauto.
  - split; [done|]. split; [done|]. eauto.
Qed.

End HueMethods.

Lemma HueBridge_issuesNames : PhilipsHueAdapter.issuesNames HueBridge.api.
Proof.
  intros deviceType b results b' result Hreply Hhead. cbn in Hreply.
  destruct (HueBridge.linkPressed b); injection Hreply as <- _;
    injection Hhead as <-; discriminate.
Qed.

Lemma username_blocks_initialization_witness :
  let st := PhilipsHueAdapter.create (F:=HueBridge.F) (Some "lux-user")
              HueBridge.paired in
  let ops := [PhilipsHueAdapter.Initialize;
              PhilipsHueAdapter.CreateUser "lux-aeternum#app";
              PhilipsHueAdapter.Initialize] in
  let st' := PhilipsHueAdapter.run HueBridge.colours HueBridge.api ops st in
  PhilipsHueAdapter.isInitialized st = false
  /\ PhilipsHueAdapter.currentUser st = Some "lux-user"
  /\ PhilipsHueAdapter.isInitialized st' = false
  /\ PhilipsHueAdapter.getDevices HueBridge.colours HueBridge.api st'
     = (Throw PhilipsHueAdapter.notInitialized, st').
Proof.
  intros st ops st'.
  assert (Hinit : PhilipsHueAdapter.isInitialized st = false) by reflexivity.
  assert (Huser : PhilipsHueAdapter.currentUser st = Some "lux-user")
    by reflexivity.
  destruct (username_blocks_initialization HueBridge.colours HueBridge.api
              st ops HueBridge_issuesNames Hinit)
    as (Hi & _ & _ & Hg & _).
  { rewrite Huser. eauto. }
  split; [exact Hinit|]. split; [exact Huser|]. split; [exact Hi|exact Hg].
Defined.

Lemma initialize_without_username_witness :
  let st := PhilipsHueAdapter.create (F:=HueBridge.F) None HueBridge.pressed in
  let st1 := snd (PhilipsHueAdapter.initialize HueBridge.colours HueBridge.api st) in
  let st2 := snd (PhilipsHueAdapter.createUser HueBridge.api "lux-aeternum#app" st1) in
  PhilipsHueAdapter.isInitialized st = false
  /\ PhilipsHueAdapter.currentUser st = None
  /\ fst (PhilipsHueAdapter.initialize HueBridge.colours HueBridge.api st) = Ok tt
  /\ PhilipsHueAdapter.getDevices HueBridge.colours HueBridge.api st1
     = (Throw PhilipsHueAdapter.notAuthenticated, st1)
  /\ PhilipsHueAdapter.executeCommand HueBridge.colours HueBridge.api
       (Fixtures.brightnessCommand "1" 40) st1
     = (Throw (AdapterError "Device with ID '1' not found" "DEVICE_NOT_FOUND"
                 NoCause), st1)
  /\ fst (PhilipsHueAdapter.getDevices HueBridge.colours HueBridge.api st2)
     = Ok [PhilipsHueAdapter.mapToDevice HueBridge.colours "1" HueBridge.bulb].
Proof.
  intros st st1 st2. subst st1 st2.
  assert (Hinit : PhilipsHueAdapter.isInitialized st = false) by reflexivity.
  assert (Hnone : PhilipsHueAdapter.currentUser st = None) by reflexivity.
  destruct (initialize_without_username HueBridge.colours HueBridge.api
              st Hinit Hnone) as (_ & _ & _ & _ & Hok & Hg & _ & Hx).
  split; [exact Hinit|]. split; [exact Hnone|]. split; [exact Hok|].
  split; [exact Hg|].
  split; [exact (Hx (Fixtures.brightnessCommand "1" 40))|].
  vm_compute. reflexivity.
Defined.

Lemma hue_setBrightness_percent_witness :
  let st :=
    PhilipsHueAdapter.run HueBridge.colours HueBridge.api
      [PhilipsHueAdapter.Initialize;
       PhilipsHueAdapter.CreateUser "lux-aeternum#app";
       PhilipsHueAdapter.GetDevices]
      (PhilipsHueAdapter.create (F:=HueBridge.F) None HueBridge.pressed) in
  let result :=
    PhilipsHueAdapter.executeCommand HueBridge.colours HueBridge.api
      (Fixtures.brightnessCommand "1" 0) st in
  PhilipsHueAdapter.isInitialized st = true
  /\ PhilipsHueAdapter.currentUser st = Some "lux-user"
  /\ fst result = Ok tt
  /\ exists device',
       PhilipsHueAdapter.devices (snd result) !! "1" = Some device'
       /\ d_isOn device' = false /\ d_brightness device' = Some 0.
Proof.
  intros st result. subst result.
  assert (Hinit : PhilipsHueAdapter.isInitialized st = true)
    by (vm_compute; reflexivity).
  assert (Huser : PhilipsHueAdapter.currentUser st = Some "lux-user")
    by (vm_compute; reflexivity).
  assert (Hdev : PhilipsHueAdapter.devices st
                   !! c_deviceId (Fixtures.brightnessCommand "1" 0)
                 = Some (PhilipsHueAdapter.mapToDevice HueBridge.colours "1"
                           HueBridge.bulb))
    by (vm_compute; reflexivity).
  destruct (hue_setBrightness_percent HueBridge.colours HueBridge.api
              (Fixtures.brightnessCommand "1" 0) 0 st "lux-user" _
              Hinit Huser Hdev eq_refl eq_refl)
    as (_ & _ & Hout).
  assert (Hreply : fst (PhilipsHueAdapter.onPutState HueBridge.api "lux-user"
                     (c_deviceId (Fixtures.brightnessCommand "1" 0))
                     {| PhilipsHueAdapter.su_on := Some (0 <? 0);
                        PhilipsHueAdapter.su_bri :=
                          Some (Z.max 0 (Z.min 254 (PhilipsHueAdapter.toBri 0)));
                        PhilipsHueAdapter.su_xy := None;
                        PhilipsHueAdapter.su_colormode := None |}
                     (PhilipsHueAdapter.bridge st))
                   = PhilipsHueAdapter.Data tt)
    by (vm_compute; reflexivity).
  rewrite Hreply in Hout. destruct Hout as (Hok & device' & Hl & Hon & Hbri & _).
  split; [exact Hinit|]. split; [exact Huser|]. split; [exact Hok|].
  exists device'. split; [exact Hl|]. split; [exact Hon|exact Hbri].
Defined.

(* ===================================================================== *)
(** * The profile sync service: interval and temporary effects            *)
(* ===================================================================== *)

Section ProfileSyncEventsFacts.
Import ProfileSyncEvents.
Implicit Types (st : ProfileSyncEvents.State).

Lemma applyProfile_fields profile st :
  activeProfile (applyProfile profile st) = Some profile
  /\ syncInterval (applyProfile profile st) = syncInterval st
  /\ intervals (applyProfile profile st) = intervals st
  /\ timeouts (applyProfile profile st) = timeouts st
  /\ nextHandle (applyProfile profile st) = nextHandle st.
Proof. unfold applyProfile. by destruct (p_sound profile). Qed.

Local Ltac applied :=
  repeat match goal with
  | |- context [applyProfile ?p ?s] =>
      let Ha := fresh in let Hs := fresh in let Hi := fresh in
      let Ht := fresh in let Hn := fresh in
      pose proof (applyProfile_fields p s) as (Ha & Hs & Hi & Ht & Hn);
      progress (rewrite ?Ha, ?Hs, ?Hi, ?Ht, ?Hn); clear Ha Hs Hi Ht Hn
  end.

Lemma applyTemporaryEffect_fields effect st :
  syncInterval (applyTemporaryEffect effect st) = syncInterval st
  /\ intervals (applyTemporaryEffect effect st) = intervals st.
Proof.
  unfold applyTemporaryEffect. destruct (activeProfile st) as [profile|]; [|done].
  cbn [syncInterval intervals]. by applied.
Qed.

Lemma fireTimeout_fields h st :
  syncInterval (fireTimeout h st) = syncInterval st
  /\ intervals (fireTimeout h st) = intervals st.
Proof.
  unfold fireTimeout. destruct (find _ (timeouts st)) as [t|]; [|done].
  by applied.
Qed.

Lemma oneInterval_same st st' :
  syncInterval st' = syncInterval st -> intervals st' = intervals st ->
  oneInterval st -> oneInterval st'.
Proof. unfold oneInterval. by intros -> ->. Qed.

Lemma oneInterval_startSync interval st :
  oneInterval st -> oneInterval (startSync interval st).
Proof.
  unfold oneInterval, startSync. intros Hst.
  destruct (syncInterval st) as [h|]; cbn.
  - destruct Hst as [period ->]. exists interval.
    rewrite filter_cons, filter_nil. cbn. by destruct (decide (h ≠ h)).
  - rewrite Hst. by exists interval.
Qed.

Lemma oneInterval_stopSync st :
  oneInterval st ->
  syncInterval (stopSync st) = None /\ intervals (stopSync st) = [].
Proof.
  unfold oneInterval, stopSync. intros Hst.
  destruct (syncInterval st) as [h|] eqn:Hh; cbn; [|by rewrite Hh].
  destruct Hst as [period ->]. split; [done|].
  rewrite filter_cons, filter_nil. cbn. by destruct (decide (h ≠ h)).
Qed.

Lemma oneInterval_exec st (op : Op) : oneInterval st -> oneInterval (exec st op).
Proof.
  intros Hst. destruct op as [divina gameDin|interval| | |p|room|ty data|h];
    cbn [exec].
  - unfold initialize. destruct divina as [[]|e], gameDin as [[]|e']; cbn [snd];
      try (by apply (oneInterval_same st)).
    apply (oneInterval_same
             (startSync 30000 (log LInfo "Initializing profile sync service..." st)));
      [done..|].
    apply oneInterval_startSync. by apply (oneInterval_same st).
  - by apply oneInterval_startSync.
  - destruct (oneInterval_stopSync st Hst) as [Hs Hi].
    unfold oneInterval. by rewrite Hs, Hi.
  - unfold dispose.
    destruct (oneInterval_stopSync
                (log LInfo "Disposing profile sync service..." st)) as [Hs Hi].
    { by apply (oneInterval_same st). }
    unfold oneInterval. cbn [log syncInterval intervals]. by rewrite Hs, Hi.
  - apply (oneInterval_same st); [..|done]; unfold profileConverted;
      cbn [log emit syncInterval intervals]; by applied.
  - by apply (oneInterval_same st).
  - apply (oneInterval_same st); [..|done]; unfold handleGameDinEvent;
      cbn [emit syncInterval intervals];
      repeat (destruct (String.eqb ty _)); try done;
      unfold applyGameProfile; try (by applied);
      match goal with
      | |- context [applyTemporaryEffect ?e ?s] =>
          destruct (applyTemporaryEffect_fields e s) as [Hs Hi];
          by rewrite ?Hs, ?Hi
      end.
  - destruct (fireTimeout_fields h st) as [Hs Hi].
    by apply (oneInterval_same st).
Qed.

Lemma oneInterval_run (ops : list Op) : forall st,
  oneInterval st -> oneInterval (run ops st).
Proof.
  induction ops as [|op ops IH]; intros st Hst; [done|].
  cbn. apply IH. by apply oneInterval_exec.
Qed.

(** X26.  However [startSync], [stopSync], [initialize], [dispose] and the
    event handlers are called, at most one interval timer of the service
    is running, and it is the one [syncInterval] names: [startSync] clears
    the running timer before it sets the new one.  After [dispose] none is
    running.  [dispose] does not clear the timeouts that temporary effects
    have set: a revert that is pending when the service is disposed still
    takes place. *)
Theorem one_sync_interval_at_most (ops : list Op) :
  let st := run ops initial in
  (length (intervals st) <= 1)%nat
  /\ oneInterval st
  /\ intervals (dispose st) = []
  /\ syncInterval (dispose st) = None
  /\ timeouts (dispose st) = timeouts st
  /\ activeProfile (dispose st) = activeProfile st.
Proof.
  intros st.
  assert (Hst : oneInterval st) by (apply oneInterval_run; done).
  split.
  { unfold oneInterval in Hst. destruct (syncInterval st).
    - destruct Hst as [period ->]. cbn. lia.
    - rewrite Hst. cbn. lia. }
  split; [done|].
  unfold dispose.
  destruct (oneInterval_stopSync
              (log LInfo "Disposing profile sync service..." st)) as [Hs Hi].
  { by apply (oneInterval_same st). }
  cbn [log intervals syncInterval timeouts activeProfile].
  split; [done|]. split; [done|].
  unfold stopSync. cbn [log syncInterval].
  by destruct (syncInterval st).
Qed.

(** ** Temporary effects *)

Lemma handlesFresh_later st st' :
  timeouts st' = timeouts st -> (nextHandle st <= nextHandle st')%nat ->
  handlesFresh st -> handlesFresh st'.
Proof.
  intros Ht Hn Hst t Hin. rewrite Ht in Hin. specialize (Hst t Hin). lia.
Qed.

Lemma handlesFresh_applyProfile profile st :
  handlesFresh st -> handlesFresh (applyProfile profile st).
Proof.
  destruct (applyProfile_fields profile st) as (_ & _ & _ & Ht & Hn).
  apply handlesFresh_later; [done|lia].
Qed.

Lemma handlesFresh_applyTemporaryEffect effect st :
  handlesFresh st -> handlesFresh (applyTemporaryEffect effect st).
Proof.
  intros Hst t. unfold applyTemporaryEffect.
  destruct (activeProfile st) as [profile|]; [|apply Hst].
  cbn [timeouts nextHandle].
  destruct (applyProfile_fields (withEffect profile effect) st)
    as (_ & _ & _ & -> & ->).
  intros Ht. apply elem_of_app in Ht as [Ht|Ht].
  - specialize (Hst t Ht). lia.
  - apply list_elem_of_singleton in Ht. subst t. cbn. lia.
Qed.

Lemma handlesFresh_startSync interval st :
  handlesFresh st -> handlesFresh (startSync interval st).
Proof.
  apply handlesFresh_later; unfold startSync; destruct (syncInterval st);
    cbn; (done || lia).
Qed.

Lemma handlesFresh_stopSync st : handlesFresh st -> handlesFresh (stopSync st).
Proof.
  apply handlesFresh_later; unfold stopSync; destruct (syncInterval st);
    cbn; (done || lia).
Qed.

Lemma handlesFresh_exec st (op : Op) : handlesFresh st -> handlesFresh (exec st op).
Proof.
  intros Hst. destruct op as [divina gameDin|interval| | |p|room|ty data|h];
    cbn [exec].
  - unfold initialize. destruct divina as [[]|e], gameDin as [[]|e']; cbn [snd];
      try done.
    apply (handlesFresh_later
             (startSync 30000 (log LInfo "Initializing profile sync service..." st)));
      [done..|].
    by apply handlesFresh_startSync.
  - by apply handlesFresh_startSync.
  - by apply handlesFresh_stopSync.
  - unfold dispose.
    apply (handlesFresh_later
             (stopSync (log LInfo "Disposing profile sync service..." st)));
      [done..|].
    by apply handlesFresh_stopSync.
  - unfold profileConverted.
    apply (handlesFresh_later
             (applyProfile p (setActiveProfile (Some p) st))); [done..|].
    by apply handlesFresh_applyProfile.
  - done.
  - unfold handleGameDinEvent.
    match goal with
    | |- handlesFresh (emit _ _ ?s) => apply (handlesFresh_later s); [done..|]
    end.
    repeat (destruct (String.eqb ty _)); try done.
    + unfold applyGameProfile. by apply handlesFresh_applyProfile.
    + by apply handlesFresh_applyTemporaryEffect.
    + by apply handlesFresh_applyTemporaryEffect.
  - unfold fireTimeout. destruct (find _ (timeouts st)) as [t0|]; [|done].
    apply handlesFresh_applyProfile. intros t Ht. cbn [timeouts nextHandle] in *.
    apply list_elem_of_filter in Ht as [_ Ht]. by apply Hst.
Qed.

Lemma handlesFresh_run (ops : list Op) : forall st,
  handlesFresh st -> handlesFresh (run ops st).
Proof.
  induction ops as [|op ops IH]; intros st Hst; [done|].
  cbn. apply IH. by apply handlesFresh_exec.
Qed.

Lemma handlesFresh_initial (ops : list Op) : handlesFresh (run ops initial).
Proof. apply handlesFresh_run. intros t Ht. by apply elem_of_nil in Ht. Qed.

Lemma find_fresh_handle (l : list Timeout) (t : Timeout) (rest : list Timeout) :
  (forall t', t' ∈ l -> to_handle t' ≠ to_handle t) ->
  find (fun t' => bool_decide (to_handle t' = to_handle t))
    (l ++ t :: rest)%list
  = Some t.
Proof.
  induction l as [|x l IH]; intros Hl; cbn.
  - by rewrite bool_decide_eq_true_2.
  - rewrite bool_decide_eq_false_2 by (apply Hl; left).
    apply IH. intros t' Ht'. apply Hl. by right.
Qed.

Lemma filter_fresh_handle (l : list Timeout) (t : Timeout) (rest : list Timeout) :
  (forall t', t' ∈ l -> to_handle t' ≠ to_handle t) ->
  (forall t', t' ∈ rest -> to_handle t' ≠ to_handle t) ->
  filter (fun t' => to_handle t' ≠ to_handle t) (l ++ t :: rest)%list
  = (l ++ rest)%list.
Proof.
  intros Hl Hrest. rewrite filter_app, filter_cons.
  destruct (decide (to_handle t ≠ to_handle t)) as [Hne|_]; [done|].
  rewrite !filter_all; done.
Qed.

Lemma fireTimeout_due st (t : Timeout) (l r : list Timeout) :
  timeouts st = (l ++ t :: r)%list ->
  (forall t', t' ∈ l -> to_handle t' ≠ to_handle t) ->
  (forall t', t' ∈ r -> to_handle t' ≠ to_handle t) ->
  activeProfile (fireTimeout (to_handle t) st) = Some (to_original t)
  /\ timeouts (fireTimeout (to_handle t) st) = (l ++ r)%list.
Proof.
  intros Hs Hl Hr. unfold fireTimeout. rewrite Hs.
  rewrite find_fresh_handle by done.
  match goal with
  | |- context [applyProfile ?p ?s'] =>
      destruct (applyProfile_fields p s') as (-> & _ & _ & -> & _)
  end.
  split; [done|]. cbn [timeouts]. by apply filter_fresh_handle.
Qed.

Lemma applyTemporaryEffect_active effect st profile :
  activeProfile st = Some profile ->
  activeProfile (applyTemporaryEffect effect st)
  = Some (withEffect profile effect)
  /\ timeouts (applyTemporaryEffect effect st)
     = (timeouts st ++ [{| to_handle := nextHandle st;
                           to_original := profile;
                           to_delay := durationOf effect |}])%list
  /\ nextHandle (applyTemporaryEffect effect st) = Datatypes.S (nextHandle st).
Proof.
  intros Hactive. unfold applyTemporaryEffect. rewrite Hactive.
  destruct (applyProfile_fields (withEffect profile effect) st)
    as (Ha & _ & _ & Ht & Hn).
  cbn [activeProfile timeouts nextHandle]. by rewrite Ha, Ht, Hn.
Qed.

(** X27.  [applyTemporaryEffect] does nothing at all when no profile is
    active.  Otherwise it applies a copy of the active profile with the
    effect's lighting laid over the profile's own, and sets one timeout,
    with the effect's own duration, else the duration of its lighting,
    else 5000 ms (a duration of 0 counting as missing); when that timeout
    comes due with nothing else having happened, the profile that was
    active before is active again. *)
Theorem temporary_effect_is_reverted (ops : list Op) (effect : TemporaryEffect) :
  let st := run ops initial in
  let st1 := applyTemporaryEffect effect st in
  match activeProfile st with
  | None => st1 = st
  | Some profile =>
      activeProfile st1 = Some (withEffect profile effect)
      /\ timeouts st1
         = (timeouts st ++ [{| to_handle := nextHandle st;
                               to_original := profile;
                               to_delay := durationOf effect |}])%list
      /\ activeProfile (fireTimeout (nextHandle st) st1) = Some profile
      /\ timeouts (fireTimeout (nextHandle st) st1) = timeouts st
  end.
Proof.
  intros st st1.
  pose proof (handlesFresh_initial ops) as Hfresh. fold st in Hfresh.
  destruct (activeProfile st) as [profile|] eqn:Hactive.
  2: { subst st1. unfold applyTemporaryEffect. by rewrite Hactive. }
  destruct (applyTemporaryEffect_active effect st profile Hactive)
    as (Ha & Ht & _). fold st1 in Ha, Ht.
  split; [done|]. split; [done|].
  set (t := {| to_handle := nextHandle st; to_original := profile;
               to_delay := durationOf effect |}) in *.
  destruct (fireTimeout_due st1 t (timeouts st) [] Ht) as [Hb1 Hb2].
  { intros t' Ht'. specialize (Hfresh t' Ht'). cbn. lia. }
  { intros ? []%elem_of_nil. }
  rewrite app_nil_r in Hb2. done.
Qed.

(** X28.  Temporary effects do not nest.  Each remembers the profile that
    was active when it began and puts exactly that profile back when its
    timeout comes due.  If a second effect begins while a first is still
    on, it remembers the profile with the first effect in it: when the
    timeouts then come due in the order in which the effects began, the
    second revert brings the first effect back, and it stays.  Only when
    the second timeout comes due first does the original profile
    return. *)
Theorem overlapping_effects_do_not_nest (ops : list Op)
    (first second : TemporaryEffect) (profile : IEnvironmentProfile) :
  let st := run ops initial in
  activeProfile st = Some profile ->
  let h1 := nextHandle st in
  let h2 := Datatypes.S h1 in
  let st2 := applyTemporaryEffect second (applyTemporaryEffect first st) in
  activeProfile st2 = Some (withEffect (withEffect profile first) second)
  /\ activeProfile (fireTimeout h2 (fireTimeout h1 st2))
     = Some (withEffect profile first)
  /\ timeouts (fireTimeout h2 (fireTimeout h1 st2)) = timeouts st
  /\ activeProfile (fireTimeout h1 (fireTimeout h2 st2)) = Some profile
  /\ timeouts (fireTimeout h1 (fireTimeout h2 st2)) = timeouts st.
Proof.
  intros st Hactive h1 h2 st2.
  pose proof (handlesFresh_initial ops) as Hfresh. fold st in Hfresh.
  set (t1 := {| to_handle := h1; to_original := profile;
                to_delay := durationOf first |}).
  set (t2 := {| to_handle := h2; to_original := withEffect profile first;
                to_delay := durationOf second |}).
  destruct (applyTemporaryEffect_active first st profile Hactive)
    as (Ha1 & Ht1 & Hn1).
  destruct (applyTemporaryEffect_active second _ _ Ha1) as (Ha2 & Ht2 & _).
  fold st2 in Ha2, Ht2. rewrite Ht1, Hn1, <- app_assoc in Ht2.
  change (timeouts st2 = (timeouts st ++ [t1; t2])%list) in Ht2.
  assert (Hother1 : forall t, t ∈ timeouts st -> to_handle t ≠ to_handle t1).
  { intros t Ht. specialize (Hfresh t Ht). cbn. lia. }
  assert (Hother2 : forall t, t ∈ timeouts st -> to_handle t ≠ to_handle t2).
  { intros t Ht. specialize (Hfresh t Ht). cbn. lia. }
  split; [exact Ha2|].
  assert (H12 : to_handle t2 ≠ to_handle t1) by (cbn; lia).
  assert (H21 : to_handle t1 ≠ to_handle t2) by (cbn; lia).
  (* the first timeout first *)
  destruct (fireTimeout_due st2 t1 (timeouts st) [t2] Ht2 Hother1) as [_ Hta].
  { intros t' Ht'. apply list_elem_of_singleton in Ht'. by subst t'. }
  destruct (fireTimeout_due (fireTimeout h1 st2) t2 (timeouts st) [] Hta Hother2)
    as [Hb1 Hb2].
  { intros ? []%elem_of_nil. }
  (* the second timeout first *)
  destruct (fireTimeout_due st2 t2 (timeouts st ++ [t1])%list [])
    as [_ Htc].
  { by rewrite <- app_assoc. }
  { intros t' Ht'. apply elem_of_app in Ht' as [Ht'|Ht'].
    - by apply Hother2.
    - apply list_elem_of_singleton in Ht'. by subst t'. }
  { intros ? []%elem_of_nil. }
  rewrite app_nil_r in Htc.
  destruct (fireTimeout_due (fireTimeout h2 st2) t1 (timeouts st) [] Htc Hother1)
    as [Hd1 Hd2].
  { intros ? []%elem_of_nil. }
  rewrite app_nil_r in Hb2, Hd2.
  split; [exact Hb1|]. split; [exact Hb2|]. split; [exact Hd1|exact Hd2].
Qed.

Lemma overlapping_effects_do_not_nest_witness :
  let st := run [ProfileConverted Fixtures.evening] initial in
  activeProfile st = Some Fixtures.evening
  /\ activeProfile
       (fireTimeout 1 (fireTimeout 0
          (applyTemporaryEffect defeatEffect
             (applyTemporaryEffect victoryEffect st))))
     = Some (withEffect Fixtures.evening victoryEffect)
  /\ ProfileSyncEvents.l_color
       (p_lighting (withEffect Fixtures.evening victoryEffect))
     = Some "#FFFF00".
Proof.
  intros st.
  assert (Hactive : activeProfile st = Some Fixtures.evening) by reflexivity.
  split; [exact Hactive|]. split; [|reflexivity].
  exact (proj1 (proj2 (overlapping_effects_do_not_nest
                         [ProfileConverted Fixtures.evening]
                         victoryEffect defeatEffect Fixtures.evening Hactive))).
Defined.

End ProfileSyncEventsFacts.

(* ===================================================================== *)
(** * The environment profile model: conversion of Divina-L3 profiles     *)
(* ===================================================================== *)

Section EnvProfileFacts.
Import EnvProfileModel.

Lemma or_string (s fallback : string) :
  or (VStr s) (VStr fallback) = VStr (orString s fallback).
Proof. unfold or, orString. cbn. by destruct (String.eqb s ""). Qed.

(** X29.  [fromDivinaProfile] throws on [null] and [undefined], with the
    TypeError of its first property access, and on nothing else.  Of any
    other value that is not an object (a string, a number, a boolean, an
    array) it makes the profile that consists of defaults only, with
    [id] and [userId] undefined. *)
Theorem fromDivinaProfile_throws_on_nullish_only (profile : Value) :
  match profile with
  | VUndefined =>
      fromDivinaProfile profile
      = Throw (Error "Cannot read properties of undefined (reading 'id')")
  | VNull =>
      fromDivinaProfile profile
      = Throw (Error "Cannot read properties of null (reading 'id')")
  | VObj props => exists converted, fromDivinaProfile profile = Ok converted
  | _ =>
      fromDivinaProfile profile
      = Ok {| e_id := VUndefined; e_userId := VUndefined;
              e_name := VStr "Unnamed Profile"; e_active := true;
              e_lighting := DEFAULT_lighting;
              e_mood := {| primary := VStr "neutral"; intensity := VNum 50;
                           timestamp := Now |};
              e_createdAt := Now; e_updatedAt := Now |}
  end.
Proof. destruct profile; try reflexivity. eexists. reflexivity. Qed.

(** X30.  Of a profile of the declared type [IDivinaProfile], whose [mood]
    is a string, [fromDivinaProfile] keeps neither the mood nor anything
    else but [id], [userId], [name], the three lighting settings and
    [updatedAt]: the mood of the result is always neutral with intensity
    50, whatever the mood of the profile; [active] is always true, the
    transition 500 and [createdAt] the time of the call.  An empty name,
    colour or effect is replaced by the default, a brightness of 0 is
    kept. *)
Theorem fromDivinaProfile_of_declared_type (p : IDivinaProfile) :
  fromDivinaProfile (ofDivinaProfile p)
  = Ok {| e_id := VStr (dp_id p);
          e_userId := VStr (dp_userId p);
          e_name := VStr (orString (dp_name p) "Unnamed Profile");
          e_active := true;
          e_lighting :=
            {| color := VStr (orString (default "" (dp_color p)) "#FFFFFF");
               brightness := VNum (default 70 (dp_brightness p));
               effect := VStr (orString (default "" (dp_effect p)) "solid");
               transition := VNum 500 |};
          e_mood :=
            {| primary := VStr "neutral";
               intensity := VNum 50;
               timestamp := if String.eqb (dp_updatedAt p) "" then Now
                            else DateOf (VStr (dp_updatedAt p)) |};
          e_createdAt := Now;
          e_updatedAt := if String.eqb (dp_updatedAt p) "" then Now
                         else DateOf (VStr (dp_updatedAt p)) |}.
Proof.
  destruct p as [id userId name color brightness effect mood ritual devices
                 updatedAt].
  unfold fromDivinaProfile, ofDivinaProfile.
  cbn [member own lookup bind String.eqb Ascii.eqb Bool.eqb dp_id dp_userId
       dp_name dp_color dp_brightness dp_effect dp_mood dp_ritual dp_devices
       dp_updatedAt optMember nullish app].
  f_equal. f_equal.
  - by rewrite or_string.
  - f_equal.
    + destruct color as [c|], brightness as [b|], effect as [e|]; cbn;
        try (by rewrite or_string); reflexivity.
    + destruct color as [c|], brightness as [b|], effect as [e|]; reflexivity.
    + destruct color as [c|], brightness as [b|], effect as [e|]; cbn;
        try (by rewrite or_string); reflexivity.
    + destruct color as [c|], brightness as [b|], effect as [e|]; reflexivity.
  - f_equal. unfold dateOr. cbn. by destruct (String.eqb updatedAt "").
  - unfold dateOr. cbn. by destruct (String.eqb updatedAt "").
Qed.

End EnvProfileFacts.
